(* ===== verification/_CoqProject ===== *)
-Q . S2P
Prelude.v
GoStrings.v
NetIP.v
HostMatch.v
Routing.v
FakeIP.v
IPPacket.v
WebSocket.v
DNSMessage.v
DNSCache.v
Http1.v
Http1Body.v
Rewrite.v
SshTime.v
Wildcard.v
Tokens.v
Forwarding.v
KnownHosts.v
X11.v
SshConfig.v
Login.v
UdpCommand.v
SshSession.v
Expect.v
TmuxControl.v
SshForward.v
SshUdpForward.v
Recorder.v
Flows.v
ProxyH1.v
H1Termination.v
Capture.v
Mitm.v
UDPForwarder.v
Socks5.v
PortForwarder.v
MarkerFilter.v
Transport.v
TransportSession.v
Handles.v
TcpForward.v
TailnetPath.v
TailnetPolicy.v
Relay.v
Tunnel.v
Auth.v
Prompt.v
Attach.v
HostList.v
KeepAlive.v
Startup.v
