(* ===== verification/Prelude.v ===== *)
(** * Verification of trzsz-ssh-rootshell

    The repository is a Go program in three parts: [src/tssh], an ssh client;
    [src/vpntunnel], a packet tunnel for iOS that terminates the device's flows in a user
    space network stack, sends them over SSH, over Tailscale or directly, and can record
    and rewrite their HTTP traffic; and [src/iosbridge], the Swift-facing glue.  This
    library models the decision logic of the tunnel, its start and stop, the sessions,
    channels and forwards of the glue, and the settings, logins, authentication, forwardings
    and answers of the client, and proves what each part promises to the others.

    ** The program and where it is modelled

    The app prepares relays (Relay) and starts one tunnel at a time (Tunnel), which owns a
    transport, the network stack and the capture controller until it is stopped.
    A packet from the device then enters [tailnetPath.injectPacket] (TailnetPath).  DNS for
    100.100.100.100 is answered with a fake address (FakeIP), forwarded upstream or handed
    to Tailscale, by the routing rules (Routing, over the globs of HostMatch and the
    addresses of NetIP); the packets it builds and takes apart are those of IPPacket, the
    messages those of DNSMessage.  Other packets go raw to Tailscale or to the netstack,
    whose flows are TcpForward and UDPForwarder.  Under capture (Capture) a TCP flow is
    peeked (Flows), intercepted if it is TLS (Mitm), parsed as HTTP/1 (Http1, Http1Body),
    rewritten (Rewrite), proxied and recorded (ProxyH1, WebSocket, Recorder), and named
    by the reverse DNS cache (DNSCache).

    The ssh client (Startup) reads its settings (SshConfig, with the patterns of Wildcard
    and the tokens of Tokens; HostList), lets the user choose a host (Prompt), works out how
    to reach a host and through which jump hosts (Login), checks its key (KnownHosts),
    proves who the user is (Auth), starts the UDP server where that is used (UdpCommand) or
    attaches to a running one (Attach), sets the session up (SshSession), answers its
    questions (Expect), watches the server (KeepAlive), stands in for tmux while the
    connection is lost (TmuxControl) and forwards ports (Forwarding, SshForward,
    SshUdpForward) and displays (X11).

    The app connects through the glue (Transport), runs sessions on the connection
    (TransportSession, whose output passes MarkerFilter), opens channels and commands
    (Handles) and forwards ports (PortForwarder, Socks5).

    - GoStrings: the string and integer functions of Go the sources use.
    - NetIP: [net/netip] addresses and prefixes.
    - HostMatch: src/vpntunnel/hostmatch.go.     - Routing: routing.go.
    - FakeIP: fakeip.go.                         - IPPacket: the packets of dnspacket.go.
    - DNSMessage: the messages of dnspacket.go and dnscache.go.
    - DNSCache: dnscache.go.                     - WebSocket: websocket.go.
    - Http1, Http1Body: http1.go.                - Rewrite: rewrite.go, and the buffered bodies of proxy_h1.go.
    - Recorder: recorder.go.                     - Flows: flows.go.
    - ProxyH1, H1Termination: proxy_h1.go.       - Capture: capture.go.
    - Mitm: mitm.go.                             - UDPForwarder: udphandler.go.
    - TcpForward: [handleTCPForward] of netstack.go.
    - TailnetPath, TailnetPolicy: tailnetpath.go (the definitions, and what they promise).
    - Socks5: the SOCKS5 server of src/iosbridge/forward.go and tailnet_proxy.go and the
      client of src/vpntunnel/dialer.go.
    - PortForwarder: the rest of src/iosbridge/forward.go, and remote_forward_recovery.go.
    - Relay: config.go, relay.go and [connectTSSH] of src/vpntunnel.
    - Tunnel: bridge.go, tailnet_api.go, stats.go of src/vpntunnel.
    - SshTime: [convertSshTime], [formatSshTime] of src/tssh/comm.go.
    - Tokens: src/tssh/tokens.go.                - Forwarding: the parsers of src/tssh/forward.go and args.go.
    - SshForward: [sshPortForward] of forward.go, the listeners of forward_tcp.go and forward_udp.go.
    - SshUdpForward: [udpLocalForwarder] of forward_udp.go.
    - KnownHosts: known_hosts.go.                - X11: forward_x11.go, xauth.go.
    - SshConfig: config.go, effective_config.go. - Login: login.go, [getUdpMode] of udp.go.
    - UdpCommand: udp.go.                        - Wildcard: [wildcardToRegexp] of comm.go.
    - SshSession: algos.go, env.go, stdio.go.    - Expect: expect.go.
    - TmuxControl: tmuxcc.go and the user input of notif.go.
    - Auth: auth_method.go.                      - Prompt: prompt.go.
    - Attach: attach.go.                         - HostList: the hosts and secrets of config.go.
    - KeepAlive: [keepAlive] of login.go.        - Startup: main.go, and the exit of ssh.go.
    - Transport: the connection of src/iosbridge/transport.go and relay_mtu.go.
    - TransportSession, MarkerFilter: the sessions of transport.go.
    - Handles: streamlocal.go, exec.go, dial.go, dialunix.go of src/iosbridge.

    ** How the code is represented

    Strings and byte slices are lists of 8-bit integers; machine integers are [Z] with
    their wrap-around written out.  A Go struct is a [Record], a constant enumeration an
    [Inductive], an error a value of [result] or [option].  A goroutine that shares state
    is a set of steps of a relation or a program counter (the runs of TailnetPath,
    UDPForwarder, Recorder, Capture, Mitm, PortForwarder, TransportSession, Handles, Tunnel,
    KeepAlive, Startup and SshUdpForward), so that a theorem about reachable states covers every interleaving of
    its atomic sections.  A call that blocks or reads before it takes a lock is split there:
    a configuration of Capture loads the environment in one step and is applied in
    another, a re-dial of TailnetPath is counted before it is answered, and closing a path
    cancels it before it drops the netstack.  What runs under one lock is one step, and what a
    theorem says of it holds when the lock is free.  Tunnel takes its API calls one after the other.  Shared objects are kept shared: the trackers of UDPForwarder
    and the elements of DNSCache live in a store that tables and goroutines point into, and
    so do the clients and relays of Relay, which several owners can hold.
    Deferred calls are a stack (TcpForward), or steps of their own where others can run in
    between (UDPForwarder).  Effects on the outside world are lists of effects.

    What the repository does not contain is an argument: the DNS wire format is the class
    [DNSCodec] with its documented laws and a reference codec that satisfies them; Unicode
    case tables, the regular expressions of rewrite rules, decompression and JSON are classes
    or functions; so are the ssh_config parser, shell words, the known hosts database, the
    answers of [xauth], [ssh -G] and one-time code programs, and the defaults of the ssh library; the
    netstack, sockets, clocks and the iteration order of Go maps are arguments too.

    Loops that are not structural have fuel: the length of the input they consume (or one
    more), which the totality lemmas show is enough ([answer_fuel_enough],
    [readHead_loop_total], [copyBody_spec], [serve_loop_total] and the like); where a
    function returns [option] only because of fuel, its theorems show it returns.

    ** What is proved

    - Routing policy: [TailnetPolicy] shows that an SSH rule works from the DNS query to the
      dial, that the routes and match domains given to the OS cover everything that must
      not leave directly, that DNS does not leak, and that the demultiplexer and the dialer
      agree; [Routing], [HostMatch] and [FakeIP] show the parts: exclusions are safe, match
      domains complete, globs match their meaning, fake addresses name one host each.
    - State: the invariants of the packet path, the UDP table, the recorder's transactions,
      the capture controller and the interception slots hold in every run; the DNS cache
      refines an abstract least-recently-used map; a TCP flow returns what it takes
      itself, whatever the capture code does with it; the
      port forwarder reports every forward and connection exactly and, while identifiers
      are not reused, keeps every running forward stoppable.
    - The tunnel's life: in every sequence of starts, stops, relays, egresses and capture
      calls every open client has an owner; a failed start leaks nothing; stopping releases
      everything it owns, target first; what the automatic MTU lets in and the packets of nested
      transports keep within what carries them.
    - Data: packets, DNS messages, HTTP heads, WebSocket frames, forwarding specifications
      and ssh times survive being written and read back; checksums verify; bodies are
      copied byte for byte; framing is unambiguous.
    - The ssh client: a host key is accepted only if the files, the user or a lax setting let
      it in, an X11
      connection only with its cookie, an answer (and so a password) is given only to output
      that matches its pattern; with IdentitiesOnly no other key is offered, every candidate key is
      offered once, a configured answer is sent at most once; a server silent for longer than the
      settings say is given up, and no other whose reads are noted; a session is set up and torn down in order on every path; the command run on the server holds nothing but the
      configured path and harmless words; a chain of jump hosts is consistent in its
      transports; exactly the requested forwardings listen, on loopback unless asked
      otherwise, and UDP forwarding never mixes up its clients; wildcards, port lists and
      texts to send mean what they say.
    - The glue: callbacks of a session come in the documented order, and a
      closed transport leaves nothing open that the app opened; of output made of text and
      whole discard markers, in reads that end in no caret, exactly the text is delivered.
    - Both ends of SOCKS5 agree on hosts that can be sent, and the local proxy dials for nobody without its password.
    - Progress: [serveHTTP1] returns on all input, a download delivers all bytes, and
      closing a port forwarder ends, and leaves no listener, without an answer of any peer;
      the connections it bridges are left to their peers.

    Where the code does something else than it says, a theorem or lemma shows it
    ([Http1.readHead_cuts_long_line], [Rewrite.emptied_body_keeps_old_head],
    [ProxyH1.bad_framing_leaves_tx_open], [HostMatch.globMatch_literal_star_rejected],
    [FakeIP.recent_not_refreshed], [Capture.blocking_outlives_recording],
    [Capture.overtaken_configuration_records],
    [PortForwarder.restarted_forward_orphaned], [PortForwarder.accept_failure_keeps_listener],
    [Socks5.socks5_long_name_misread], [Handles.enable_during_close_panics],
    [Handles.accepted_after_close_leaks], [MarkerFilter.split_pair_leaks],
    [MarkerFilter.held_tail_lost], [Login.jump_with_user_fails],
    [SshUdpForward.late_delete_orphans], [SshForward.gateway_option_ignored],
    [SshSession.remove_all_restores], [Expect.closed_output_spins], [Expect.wide_space_kept],
    [Tunnel.attach_race], [Tunnel.failed_start_reports_mtu], [Tunnel.auto_mtu_gap],
    [Auth.tilde_identity_not_matched], [KeepAlive.proxy_command_given_up]).

    ** Not modelled

    Glue around libraries: gVisor's stack and endpoints (the packets of netstack.go,
    tailnetlink.go), the Tailscale engine (tailnet.go, tailnet_tun.go and the login and
    status calls of tailnet_api.go), X.509 (certmint.go), the HTTP/2 server (proxy_h2.go),
    sockets (direct.go, the other dialers of dialer.go), [Transport.Abandon], the JSON of the status calls and
    memory limits of the runtime. Pure input and output: the ssh handshake, key formats, the
    agents, Kerberos and one-time codes, the console, terminals, themes, wizards
    and file transfer of src/tssh, the copying of connections, the agent, statistics and
    Tailscale parts of src/iosbridge, and the table printer of src/internal. Deadlines
    appear only as the choice of how a wait ends; memory and timing are not modelled. *)

From Stdlib Require Import Ascii.
From stdpp Require Export prelude strings gmap list.
From Stdlib Require Export Lia.

#[global] Open Scope Z_scope.
#[global] Set Default Goal Selector "!".

#[global] Arguments Z.eqb : simpl never.
#[global] Arguments Z.ltb : simpl never.
#[global] Arguments Z.leb : simpl never.
#[global] Arguments Z.modulo : simpl never.
#[global] Arguments Z.div : simpl never.
#[global] Arguments Z.pow : simpl never.
#[global] Arguments Z.add : simpl never.
#[global] Arguments Z.sub : simpl never.
#[global] Arguments Z.mul : simpl never.
#[global] Arguments Z.of_nat : simpl never.
#[global] Arguments Z.to_nat : simpl never.
#[global] Arguments Z.land : simpl never.
#[global] Arguments Z.lor : simpl never.
#[global] Arguments Z.lxor : simpl never.
#[global] Arguments Z.shiftl : simpl never.
#[global] Arguments Z.shiftr : simpl never.

(** ** Bytes, strings and results *)

(** Go strings and byte slices are both sequences of 8-bit bytes. *)
Abbreviation bytes := (list Z).

Definition is_byte (b : Z) : Prop := 0 <= b < 256.
Definition wf_bytes (s : bytes) : Prop := Forall is_byte s.

#[export] Instance is_byte_dec b : Decision (is_byte b).
Proof. unfold is_byte. apply _. Defined.
#[export] Instance wf_bytes_dec s : Decision (wf_bytes s).
Proof. unfold wf_bytes. apply _. Defined.

(** The bytes of a source literal. *)
Definition lit (s : string) : bytes :=
  map (fun a => Z.of_N (N_of_ascii a)) (String.list_ascii_of_string s).

Declare Scope go_scope.
Delimit Scope go_scope with go.

(** [len(s)] as a Go [int]. *)
Definition len {A} (s : list A) : Z := Z.of_nat (length s).

(** [s[i:j]] for in-range indices. *)
Definition slice {A} (i j : nat) (s : list A) : list A := take (j - i) (drop i s).

(** [s[i]] for an index the guards keep in range. *)
Definition at_ (s : bytes) (i : nat) : Z := default 0 (s !! i).

(** Machine-width wrap-around. *)
Definition wrap (w z : Z) : Z := z mod 2 ^ w.
Abbreviation u8 := (wrap 8).
Abbreviation u16 := (wrap 16).
Abbreviation u32 := (wrap 32).
Abbreviation u64 := (wrap 64).
Definition MaxInt64 : Z := 2 ^ 63 - 1.
Definition MinInt64 : Z := - 2 ^ 63.

(** A Go [(T, error)] pair: exactly one side is meaningful. *)
Inductive result (E A : Type) : Type :=
| Ok (a : A)
| Err (e : E).
Arguments Ok {E A} a.
Arguments Err {E A} e.

Definition rbind {E A B} (m : result E A) (f : A -> result E B) : result E B :=
  match m with Ok a => f a | Err e => Err e end.
Notation "'let!' x ':=' m 'in' k" := (rbind m (fun x => k))
  (at level 10, x pattern, m at level 100, k at level 200) : go_scope.

Definition is_ok {E A} (m : result E A) : bool :=
  match m with Ok _ => true | Err _ => false end.

(** ** Tactics *)

(** Case analysis on the scrutinee of a [match] or [if] in the goal or in a
    hypothesis, keeping the equation. *)
Ltac case_goal :=
  match goal with
  | |- context [match ?x with _ => _ end] => destruct x eqn:?
  end.
Ltac case_hyp H :=
  match type of H with
  | context [match ?x with _ => _ end] => destruct x eqn:?
  end.

(** Turn the boolean tests of the code into propositions. *)
Ltac to_prop :=
  repeat match goal with
  | H : bool_decide _ = true |- _ => apply bool_decide_eq_true in H
  | H : bool_decide _ = false |- _ => apply bool_decide_eq_false in H
  | H : andb _ _ = true |- _ => apply andb_true_iff in H as [? ?]
  | H : orb _ _ = false |- _ => apply orb_false_iff in H as [? ?]
  | H : negb _ = true |- _ => apply negb_true_iff in H
  | H : negb _ = false |- _ => apply negb_false_iff in H
  | H : orb _ _ = true |- _ => apply orb_true_iff in H
  | H : andb _ _ = false |- _ => apply andb_false_iff in H
  | H : (_ =? _) = true |- _ => apply Z.eqb_eq in H
  | H : (_ =? _) = false |- _ => apply Z.eqb_neq in H
  | H : (_ <? _) = true |- _ => apply Z.ltb_lt in H
  | H : (_ <? _) = false |- _ => apply Z.ltb_ge in H
  | H : (_ <=? _) = true |- _ => apply Z.leb_le in H
  | H : (_ <=? _) = false |- _ => apply Z.leb_gt in H
  | H : (_ =? _)%nat = true |- _ => apply Nat.eqb_eq in H
  | H : (_ =? _)%nat = false |- _ => apply Nat.eqb_neq in H
  | H : (_ <? _)%nat = true |- _ => apply Nat.ltb_lt in H
  | H : (_ <? _)%nat = false |- _ => apply Nat.ltb_ge in H
  | H : (_ <=? _)%nat = true |- _ => apply Nat.leb_le in H
  | H : (_ <=? _)%nat = false |- _ => apply Nat.leb_gt in H
  end.

(** [lia] with the quotient and remainder equations of the width operations. *)
Ltac zlia := Z.div_mod_to_equations; lia.

(** ** Hint databases *)
Create HintDb go_bytes.
Create Rewrite HintDb go_len.

(** ** Byte sequences *)

Lemma wf_bytes_app s t : wf_bytes (s ++ t) <-> wf_bytes s /\ wf_bytes t.
Proof. apply Forall_app. Qed.

Lemma wf_bytes_take n s : wf_bytes s -> wf_bytes (take n s).
Proof. apply Forall_take. Qed.

Lemma wf_bytes_drop n s : wf_bytes s -> wf_bytes (drop n s).
Proof. apply Forall_drop. Qed.

Lemma wf_bytes_lookup s (i : nat) b : wf_bytes s -> s !! i = Some b -> is_byte b.
Proof. intros H E. eapply Forall_lookup_1; eauto. Qed.

Lemma wf_u8 z : is_byte (u8 z).
Proof. unfold is_byte, wrap. change (2 ^ 8) with 256. zlia. Qed.

#[export] Hint Resolve wf_bytes_take wf_bytes_drop wf_u8 : go_bytes.

Lemma len_app {A} (s t : list A) : len (s ++ t) = len s + len t.
Proof. unfold len. rewrite length_app. lia. Qed.

Lemma len_nonneg {A} (s : list A) : 0 <= len s.
Proof. unfold len. lia. Qed.

Lemma len_nil {A} : len (@nil A) = 0.
Proof. done. Qed.

Lemma len_cons {A} (x : A) s : len (x :: s) = 1 + len s.
Proof. unfold len. cbn [length]. lia. Qed.

#[export] Hint Rewrite @len_app @len_cons @len_nil @length_app @length_take @length_drop
  @length_replicate @length_map @length_insert : go_len.

(** Normalise list lengths, then arithmetic. *)
Ltac len_lia := unfold len, slice in *; autorewrite with go_len in *; cbn [length] in *; lia.

Lemma slice_app_l {A} (i j : nat) (s t : list A) :
  (j <= length s)%nat -> slice i j (s ++ t) = slice i j s.
Proof.
  intros H. unfold slice. destruct (decide (i <= length s)%nat) as [Hi|Hi].
  - rewrite drop_app_le by lia. rewrite take_app_le; [done|]. rewrite length_drop. lia.
  - replace (j - i)%nat with 0%nat by lia. by rewrite !take_0.
Qed.

Lemma slice_app_r {A} (i j : nat) (s t : list A) :
  (length s <= i)%nat -> slice i j (s ++ t) = slice (i - length s) (j - length s) t.
Proof.
  intros H. unfold slice. rewrite drop_app_ge by lia. f_equal. lia.
Qed.

Lemma slice_full {A} (s : list A) : slice 0 (length s) s = s.
Proof. unfold slice. rewrite drop_0, Nat.sub_0_r. by rewrite take_ge. Qed.

Lemma length_slice {A} (i j : nat) (s : list A) :
  (j <= length s)%nat -> length (slice i j s) = (j - i)%nat.
Proof. intros H. unfold slice. rewrite length_take, length_drop. lia. Qed.

Lemma wf_bytes_slice i j s : wf_bytes s -> wf_bytes (slice i j s).
Proof. intros H. unfold slice. auto with go_bytes. Qed.
#[export] Hint Resolve wf_bytes_slice : go_bytes.

Lemma drop_S_lookup {A} (l : list A) (i : nat) x :
  l !! i = Some x -> drop i l = x :: drop (S i) l.
Proof. apply drop_S. Qed.

Lemma forallb_True {A} (f : A -> bool) l : forallb f l = true <-> Forall (fun x => f x = true) l.
Proof.
  induction l as [|x l IH]; cbn.
  - split; [constructor | done].
  - rewrite andb_true_iff, IH, Forall_cons. done.
Qed.

Lemma existsb_False {A} (f : A -> bool) l : existsb f l = false <-> Forall (fun x => f x = false) l.
Proof.
  induction l as [|x l IH]; cbn.
  - split; [constructor | done].
  - rewrite orb_false_iff, IH, Forall_cons. done.
Qed.

Lemma filter_all {A} (P : A -> Prop) `{!forall x, Decision (P x)} l : Forall P l -> filter P l = l.
Proof.
  induction 1 as [|x l Hx Hl IH]; [done|]. rewrite filter_cons. by rewrite decide_True, IH.
Qed.

(** ** Big-endian integers ([encoding/binary]) *)

Fixpoint be_get (s : bytes) : Z :=
  match s with
  | [] => 0
  | b :: s' => b * 256 ^ len s' + be_get s'
  end.

Fixpoint be_put (n : nat) (z : Z) : bytes :=
  match n with
  | O => []
  | S n' => u8 (z / 256 ^ Z.of_nat n') :: be_put n' z
  end.

Lemma length_be_put n z : length (be_put n z) = n.
Proof. induction n; cbn; auto. Qed.
#[export] Hint Rewrite length_be_put : go_len.

Lemma wf_be_put n z : wf_bytes (be_put n z).
Proof. induction n; cbn; constructor; auto with go_bytes. Qed.
#[export] Hint Resolve wf_be_put : go_bytes.

Lemma be_get_put n z : be_get (be_put n z) = z mod 256 ^ Z.of_nat n.
Proof.
  induction n as [|n IH]; cbn [be_put be_get].
  - by rewrite Z.mod_1_r.
  - rewrite IH. unfold len. rewrite length_be_put.
    unfold wrap. change (2 ^ 8) with 256.
    replace (Z.of_nat (S n)) with (Z.of_nat n + 1) by lia.
    rewrite Z.pow_add_r, Z.pow_1_r by lia.
    assert (0 < 256 ^ Z.of_nat n) by (apply Z.pow_pos_nonneg; lia).
    rewrite Z.rem_mul_r by lia. lia.
Qed.

Lemma be_get_bound s : wf_bytes s -> 0 <= be_get s < 256 ^ len s.
Proof.
  induction 1 as [|b s Hb Hs IH]; cbn [be_get]; [change (256 ^ len []) with 1; lia|].
  rewrite len_cons, Z.pow_add_r, Z.pow_1_r by (pose proof (len_nonneg s); lia).
  assert (0 < 256 ^ len s) by (apply Z.pow_pos_nonneg; [lia | apply len_nonneg]).
  unfold is_byte in Hb. nia.
Qed.

(** The bytes above the written width do not matter. *)
Lemma be_put_high (m n : nat) b z :
  (m <= n)%nat -> be_put m (b * 256 ^ Z.of_nat n + z) = be_put m z.
Proof.
  revert n. induction m as [|m IHm]; intros n Hm; cbn; [done|].
  f_equal; [|apply IHm; lia].
  replace (Z.of_nat n) with ((Z.of_nat n - Z.of_nat m - 1) + 1 + Z.of_nat m) by lia.
  rewrite !Z.pow_add_r, Z.pow_1_r by lia.
  rewrite Z.mul_assoc, Z.div_add_l by (apply Z.pow_nonzero; lia).
  unfold wrap. change (2 ^ 8) with 256.
  rewrite Z.mul_assoc, Z.add_comm, Z.mod_add by lia. done.
Qed.

Lemma be_put_get s : wf_bytes s -> be_put (length s) (be_get s) = s.
Proof.
  induction 1 as [|b s Hb Hs IH]; cbn [be_put be_get length]; [done|].
  pose proof (be_get_bound s Hs) as Hbd. unfold len in *.
  f_equal.
  - rewrite Z.div_add_l by lia. rewrite (Z.div_small (be_get s)) by lia.
    unfold wrap. rewrite Z.add_0_r. apply Z.mod_small. exact Hb.
  - by rewrite be_put_high.
Qed.
