(* ===== verification/GoStrings.v ===== *)
(** * The part of Go's [strings], [unicode/utf8] and [strconv] the program uses

    Strings are byte sequences ([Prelude.bytes]).  Every function is written out
    as the Go standard library defines it, including what it does on bytes that
    are not valid UTF-8.  The only thing not written out is the Unicode case
    table above U+007F, which is generated data: it is the class
    [UnicodeTables], an argument of the functions that fold case. *)

From S2P Require Import Prelude.

(** Case mapping of runes above U+007F: [unicode.ToLower] and "same orbit under
    [unicode.SimpleFold]". *)
Class UnicodeTables := {
  uni_lower : Z -> Z;
  uni_same_fold : Z -> Z -> bool
}.

(** Tables with no case pair outside ASCII. *)
Definition caseless_tables : UnicodeTables :=
  {| uni_lower := fun r => r; uni_same_fold := Z.eqb |}.

(** ** Searching and slicing *)

Definition HasPrefix (s p : bytes) : bool := bool_decide (p `prefix_of` s).
Definition HasSuffix (s p : bytes) : bool := bool_decide (p `suffix_of` s).

Definition TrimPrefix (s p : bytes) : bytes :=
  if HasPrefix s p then drop (length p) s else s.
Definition TrimSuffix (s p : bytes) : bytes :=
  if HasSuffix s p then take (length s - length p) s else s.

Fixpoint index_from (f : Z -> bool) (s : bytes) : option nat :=
  match s with
  | [] => None
  | c :: s' => if f c then Some 0%nat else S <$> index_from f s'
  end.

(** [strings.IndexByte]; [None] is Go's -1. *)
Definition IndexByte (s : bytes) (c : Z) : option nat := index_from (Z.eqb c) s.

(** [strings.IndexAny] for an ASCII set. *)
Definition IndexAny (s set : bytes) : option nat :=
  index_from (fun c => bool_decide (c ∈ set)) s.

Fixpoint last_index_from (f : Z -> bool) (s : bytes) : option nat :=
  match s with
  | [] => None
  | c :: s' =>
      match last_index_from f s' with
      | Some i => Some (S i)
      | None => if f c then Some 0%nat else None
      end
  end.

Definition LastIndexByte (s : bytes) (c : Z) : option nat := last_index_from (Z.eqb c) s.
Definition LastIndexAny (s set : bytes) : option nat :=
  last_index_from (fun c => bool_decide (c ∈ set)) s.

(** [strings.Index] and [strings.LastIndex] of a substring. *)
Fixpoint Index (s sub : bytes) : option nat :=
  if HasPrefix s sub then Some 0%nat
  else match s with [] => None | _ :: s' => S <$> Index s' sub end.

Fixpoint LastIndex (s sub : bytes) : option nat :=
  match s with
  | [] => if HasPrefix [] sub then Some 0%nat else None
  | _ :: s' =>
      match LastIndex s' sub with
      | Some i => Some (S i)
      | None => if HasPrefix s sub then Some 0%nat else None
      end
  end.

Definition Contains (s sub : bytes) : bool := bool_decide (is_Some (Index s sub)).
Definition ContainsByte (s : bytes) (c : Z) : bool := existsb (Z.eqb c) s.
Definition ContainsAny (s set : bytes) : bool := existsb (fun c => bool_decide (c ∈ set)) s.
Definition CountByte (s : bytes) (c : Z) : nat := length (filter (fun x => x = c) s).

(** [net.SplitHostPort]; [None] is any error. *)
Definition SplitHostPort (hostport : bytes) : option (bytes * bytes) :=
  i ← LastIndexByte hostport 58;
  if bool_decide (head hostport = Some 91) then
    e ← IndexByte hostport 93;
    if bool_decide (S e = i) && negb (ContainsByte (drop 1 hostport) 91) && negb (ContainsByte (drop (S e) hostport) 93)
    then Some (drop 1 (take e hostport), drop (S i) hostport) else None
  else if ContainsByte (take i hostport) 58 || ContainsByte hostport 91 || ContainsByte hostport 93 then None
  else Some (take i hostport, drop (S i) hostport).

(** [net.JoinHostPort] *)
Definition JoinHostPort (host port : bytes) : bytes :=
  if ContainsByte host 58 then [91] ++ host ++ [93; 58] ++ port else host ++ [58] ++ port.

(** [strings.Split] by one byte: always at least one field. *)
Fixpoint Split (s : bytes) (sep : Z) : list bytes :=
  match s with
  | [] => [[]]
  | c :: s' =>
      if c =? sep then [] :: Split s' sep
      else match Split s' sep with
           | f :: fs => (c :: f) :: fs
           | [] => [[c]]
           end
  end.

(** [strings.SplitN] by one byte into at most [S n] fields. *)
Fixpoint SplitN (n : nat) (s : bytes) (sep : Z) : list bytes :=
  match n with
  | O => [s]
  | S n' =>
      match IndexByte s sep with
      | Some i => take i s :: SplitN n' (drop (S i) s) sep
      | None => [s]
      end
  end.

Fixpoint Join (fs : list bytes) (sep : bytes) : bytes :=
  match fs with
  | [] => []
  | [f] => f
  | f :: fs' => f ++ sep ++ Join fs' sep
  end.

(** ** Trimming *)

Fixpoint drop_while (f : Z -> bool) (s : bytes) : bytes :=
  match s with
  | [] => []
  | c :: s' => if f c then drop_while f s' else s
  end.

(** [strings.TrimLeft]/[TrimRight]/[Trim] with an ASCII cut set. *)
Definition TrimLeft (s set : bytes) : bytes := drop_while (fun c => bool_decide (c ∈ set)) s.
Definition TrimRight (s set : bytes) : bytes := reverse (TrimLeft (reverse s) set).
Definition Trim (s set : bytes) : bytes := TrimRight (TrimLeft s set) set.

(** The UTF-8 encodings of the runes [unicode.IsSpace] accepts. *)
Definition space_seqs : list bytes :=
  [[9]; [10]; [11]; [12]; [13]; [32]; [194; 133]; [194; 160]; [225; 154; 128]] ++
  map (fun i => [226; 128; 128 + Z.of_nat i]) (seq 0 11) ++
  [[226; 128; 168]; [226; 128; 169]; [226; 128; 175]; [226; 129; 159]; [227; 128; 128]].

Fixpoint trim_seqs (fuel : nat) (seqs : list bytes) (s : bytes) : bytes :=
  match fuel with
  | O => s
  | S fuel' =>
      match find (fun q => HasPrefix s q) seqs with
      | Some q => trim_seqs fuel' seqs (drop (length q) s)
      | None => s
      end
  end.

Definition trim_space_left (s : bytes) : bytes := trim_seqs (length s) space_seqs s.
Definition trim_space_right (s : bytes) : bytes :=
  reverse (trim_seqs (length s) (map reverse space_seqs) (reverse s)).

(** [strings.TrimSpace].  A space sequence is recognised from either end by its
    bytes alone, because a leading byte is never a continuation byte. *)
Definition TrimSpace (s : bytes) : bytes := trim_space_right (trim_space_left s).

(** ** Runes *)

Definition RuneError : Z := 65533.

Definition cont (lo hi b : Z) : bool := (lo <=? b) && (b <=? hi).

(** [utf8.DecodeRuneInString]: the rune and its width; an invalid encoding is
    [RuneError] of width 1. *)
Definition DecodeRune (s : bytes) : Z * nat :=
  match s with
  | [] => (RuneError, 0%nat)
  | b0 :: s1 =>
    if b0 <? 128 then (b0, 1%nat)
    else if (194 <=? b0) && (b0 <=? 223) then
      match s1 with
      | b1 :: _ => if cont 128 191 b1 then ((b0 - 192) * 64 + (b1 - 128), 2%nat) else (RuneError, 1%nat)
      | _ => (RuneError, 1%nat)
      end
    else if (224 <=? b0) && (b0 <=? 239) then
      match s1 with
      | b1 :: b2 :: _ =>
        if cont (if b0 =? 224 then 160 else 128) (if b0 =? 237 then 159 else 191) b1 && cont 128 191 b2
        then ((b0 - 224) * 4096 + (b1 - 128) * 64 + (b2 - 128), 3%nat) else (RuneError, 1%nat)
      | _ => (RuneError, 1%nat)
      end
    else if (240 <=? b0) && (b0 <=? 244) then
      match s1 with
      | b1 :: b2 :: b3 :: _ =>
        if cont (if b0 =? 240 then 144 else 128) (if b0 =? 244 then 143 else 191) b1
           && cont 128 191 b2 && cont 128 191 b3
        then ((b0 - 240) * 262144 + (b1 - 128) * 4096 + (b2 - 128) * 64 + (b3 - 128), 4%nat)
        else (RuneError, 1%nat)
      | _ => (RuneError, 1%nat)
      end
    else (RuneError, 1%nat)
  end.

(** The runes a [range] loop over a string yields. *)
Fixpoint runes_fuel (fuel : nat) (s : bytes) : list Z :=
  match fuel, s with
  | S fuel', _ :: _ => let '(r, w) := DecodeRune s in r :: runes_fuel fuel' (drop w s)
  | _, _ => []
  end.
Definition runes (s : bytes) : list Z := runes_fuel (length s) s.

(** [utf8.EncodeRune]. *)
Definition EncodeRune (r : Z) : bytes :=
  if (0 <=? r) && (r <? 128) then [r]
  else if (0 <=? r) && (r <? 2048) then [192 + r / 64; 128 + r mod 64]
  else if (r <? 0) || (1114111 <? r) || ((55296 <=? r) && (r <=? 57343)) then [239; 191; 189]
  else if r <? 65536 then [224 + r / 4096; 128 + (r / 64) mod 64; 128 + r mod 64]
  else [240 + r / 262144; 128 + (r / 4096) mod 64; 128 + (r / 64) mod 64; 128 + r mod 64].

Definition is_ascii (s : bytes) : bool := forallb (fun c => c <? 128) s.

(** [unicode.IsSpace] and [unicode.IsControl]. *)
Definition IsSpace (r : Z) : bool :=
  bool_decide (r ∈ [9; 10; 11; 12; 13; 32; 133; 160; 5760; 8232; 8233; 8239; 8287; 12288])
  || ((8192 <=? r) && (r <=? 8202)).
Definition IsControl (r : Z) : bool :=
  ((0 <=? r) && (r <? 32)) || ((127 <=? r) && (r <? 160)).

(** ** Case *)

Definition ascii_lower (c : Z) : Z := if (65 <=? c) && (c <=? 90) then c + 32 else c.

Section Case.
Context `{U : UnicodeTables}.

Definition rune_lower (r : Z) : Z := if r <? 128 then ascii_lower r else uni_lower r.

(** [strings.ToLower]: bytewise on ASCII strings, otherwise rune by rune, with
    every invalid byte replaced by U+FFFD. *)
Definition ToLower (s : bytes) : bytes :=
  if is_ascii s then map ascii_lower s
  else concat (map (fun r => EncodeRune (rune_lower r)) (runes s)).

(** Case-insensitive equality of two runes, as [strings.EqualFold] tests it. *)
Definition rune_fold_eq (a b : Z) : bool :=
  (a =? b) ||
  (if (a <? 128) && (b <? 128) then ascii_lower a =? ascii_lower b else uni_same_fold a b).

Fixpoint fold_eq (s t : list Z) : bool :=
  match s, t with
  | [], [] => true
  | a :: s', b :: t' => rune_fold_eq a b && fold_eq s' t'
  | _, _ => false
  end.

Definition EqualFold (s t : bytes) : bool := fold_eq (runes s) (runes t).
End Case.

(** ** [strconv] *)

Definition digit_val (c : Z) : option Z :=
  if (48 <=? c) && (c <=? 57) then Some (c - 48)
  else if (97 <=? c) && (c <=? 122) then Some (c - 97 + 10)
  else if (65 <=? c) && (c <=? 90) then Some (c - 65 + 10)
  else None.

Inductive num_error := ErrSyntax | ErrRange.

(** [strconv.ParseUint] for an explicit base: digits are checked for syntax up
    to the point where the value leaves the range. *)
Fixpoint parse_uint_go (base max : Z) (s : bytes) (acc : Z) : result num_error Z :=
  match s with
  | [] => Ok acc
  | c :: s' =>
      match digit_val c with
      | Some d =>
          if d <? base then
            let n := acc * base + d in
            if max <? n then Err ErrRange else parse_uint_go base max s' n
          else Err ErrSyntax
      | None => Err ErrSyntax
      end
  end.

Definition ParseUint (s : bytes) (base bits : Z) : result num_error Z :=
  match s with
  | [] => Err ErrSyntax
  | _ => parse_uint_go base (2 ^ bits - 1) s 0
  end.

(** [strconv.ParseInt]: an optional sign, then [ParseUint], then the signed range. *)
Definition ParseInt (s : bytes) (base bits : Z) : result num_error Z :=
  match s with
  | [] => Err ErrSyntax
  | c :: s' =>
      let '(neg, body) := if c =? 43 then (false, s') else if c =? 45 then (true, s') else (false, s) in
      match ParseUint body base bits with
      | Err e => Err e
      | Ok un =>
          if negb neg && (2 ^ (bits - 1) <=? un) then Err ErrRange
          else if neg && (2 ^ (bits - 1) <? un) then Err ErrRange
          else Ok (if neg then - un else un)
      end
  end.

(** [strconv.Atoi] on a 64-bit platform. *)
Definition Atoi (s : bytes) : result num_error Z := ParseInt s 10 64.

Fixpoint itoa_fuel (fuel : nat) (n : Z) (acc : bytes) : bytes :=
  match fuel with
  | O => acc
  | S fuel' =>
      let acc' := (48 + n mod 10) :: acc in
      if n <? 10 then acc' else itoa_fuel fuel' (n / 10) acc'
  end.

(** Decimal digits of a non-negative number below 10^20. *)
Definition itoa_nonneg (n : Z) : bytes := itoa_fuel 20 n [].
Definition Itoa (n : Z) : bytes :=
  if n <? 0 then 45 :: itoa_nonneg (- n) else itoa_nonneg n.

(** ** Facts *)

Lemma HasPrefix_true s p : HasPrefix s p = true <-> exists t, s = p ++ t.
Proof. unfold HasPrefix. rewrite bool_decide_eq_true. done. Qed.

Lemma HasSuffix_true s p : HasSuffix s p = true <-> exists t, s = t ++ p.
Proof. unfold HasSuffix. rewrite bool_decide_eq_true. done. Qed.

Lemma index_from_Some f s i :
  index_from f s = Some i <->
  exists c, s !! i = Some c /\ f c = true /\ Forall (fun x => f x = false) (take i s).
Proof.
  revert i. induction s as [|c s IH]; intros i; cbn.
  - split; [done|]. intros (c & H & _). by rewrite lookup_nil in H.
  - destruct (f c) eqn:E.
    + split.
      * intros [= <-]. exists c. split_and!; [done..|constructor].
      * intros (x & Hl & Hf & Hp). destruct i as [|i]; [done|].
        cbn in Hp. apply Forall_cons in Hp as [? _]. congruence.
    + destruct i as [|i].
      * split; [by destruct (index_from f s)|]. intros (x & [= <-] & Hf & _). congruence.
      * rewrite fmap_Some. setoid_rewrite IH. cbn [lookup list_lookup take]. split.
        -- intros (j & (x & H1 & H2 & H3) & [= <-]). exists x. split_and!; [done..|].
           by constructor.
        -- intros (x & H1 & H2 & H3). apply Forall_cons in H3 as [_ H3]. eauto 10.
Qed.

Lemma index_from_None f s : index_from f s = None <-> Forall (fun x => f x = false) s.
Proof.
  induction s as [|c s IH]; cbn; [split; [constructor|done]|].
  rewrite Forall_cons, <- IH. destruct (f c), (index_from f s); naive_solver.
Qed.

(** The first occurrence splits the string. *)
Lemma IndexByte_split s c i :
  IndexByte s c = Some i -> s = take i s ++ c :: drop (S i) s /\ c ∉ take i s.
Proof.
  unfold IndexByte. rewrite index_from_Some. intros (x & Hl & Hf & Hp).
  apply Z.eqb_eq in Hf as <-. split.
  - rewrite <- (take_drop i s) at 1. by rewrite (drop_S_lookup _ _ _ Hl).
  - intros Hin. rewrite Forall_forall in Hp. apply Hp in Hin. by rewrite Z.eqb_refl in Hin.
Qed.

Lemma IndexByte_none s c : IndexByte s c = None <-> c ∉ s.
Proof.
  unfold IndexByte. rewrite index_from_None, Forall_forall. split.
  - intros H Hin. apply H in Hin. by rewrite Z.eqb_refl in Hin.
  - intros H x Hx. apply Z.eqb_neq. intros ->. done.
Qed.

Lemma IndexByte_app a b c : c ∉ a -> IndexByte (a ++ c :: b) c = Some (length a).
Proof.
  intros H. unfold IndexByte. apply index_from_Some. exists c. split_and!.
  - by rewrite list_lookup_middle.
  - apply Z.eqb_refl.
  - rewrite take_app_length. apply Forall_forall. intros x Hx. apply Z.eqb_neq. by intros ->.
Qed.

Lemma last_index_from_Some f s i :
  last_index_from f s = Some i ->
  exists c, s !! i = Some c /\ f c = true /\ Forall (fun x => f x = false) (drop (S i) s).
Proof.
  revert i. induction s as [|c s IH]; intros i; cbn; [done|].
  destruct (last_index_from f s) as [j|] eqn:E.
  - intros [= <-]. by apply IH.
  - destruct (f c) eqn:Ef; [|done]. intros [= <-]. exists c. split_and!; [done..|].
    rewrite skipn_O. clear -E. induction s as [|d s IH]; [constructor|]. cbn in E.
    destruct (last_index_from f s); [done|]. destruct (f d) eqn:Ed; [done|]. constructor; auto.
Qed.

Lemma last_index_from_None f s : last_index_from f s = None <-> Forall (fun x => f x = false) s.
Proof.
  induction s as [|c s IH]; cbn; [split; [constructor|done]|].
  rewrite Forall_cons, <- IH. destruct (f c), (last_index_from f s); naive_solver.
Qed.

(** [TrimSuffix] removes at most one occurrence, at the end. *)
Lemma TrimSuffix_app s p : TrimSuffix (s ++ p) p = s.
Proof.
  unfold TrimSuffix. assert (HasSuffix (s ++ p) p = true) as -> by (apply HasSuffix_true; eauto).
  rewrite length_app. replace (length s + length p - length p)%nat with (length s) by lia.
  apply take_app_length.
Qed.

Lemma TrimSuffix_id s p : HasSuffix s p = false -> TrimSuffix s p = s.
Proof. unfold TrimSuffix. by intros ->. Qed.

Lemma drop_while_spec f s :
  exists a, s = a ++ drop_while f s /\ Forall (fun c => f c = true) a /\
            forall c t, drop_while f s = c :: t -> f c = false.
Proof.
  induction s as [|c s (a & E & Ha & Hh)]; cbn.
  - exists []. split_and!; [done|constructor|done].
  - destruct (f c) eqn:Ef.
    + exists (c :: a). cbn. split_and!; [by f_equal|by constructor|done].
    + exists []. split_and!; [done|constructor|]. by intros ? ? [= <- <-].
Qed.

Definition all_in (set s : bytes) : Prop := Forall (fun c => c ∈ set) s.

Lemma TrimLeft_spec s set :
  exists a, s = a ++ TrimLeft s set /\ all_in set a /\
            forall c t, TrimLeft s set = c :: t -> c ∉ set.
Proof.
  destruct (drop_while_spec (fun c => bool_decide (c ∈ set)) s) as (a & E & Ha & Hh).
  exists a. split_and!; [done| |].
  - eapply Forall_impl; [exact Ha|]. cbn. intros c. apply bool_decide_eq_true.
  - intros c t Ht. by eapply bool_decide_eq_false, Hh.
Qed.

Lemma TrimRight_spec s set :
  exists b, s = TrimRight s set ++ b /\ all_in set b /\
            forall c t, TrimRight s set = t ++ [c] -> c ∉ set.
Proof.
  destruct (TrimLeft_spec (reverse s) set) as (a & E & Ha & Hh).
  exists (reverse a). unfold TrimRight. split_and!.
  - rewrite <- reverse_app, <- E. by rewrite reverse_involutive.
  - unfold all_in. by apply Forall_reverse.
  - intros c t Ht. apply (f_equal reverse) in Ht.
    rewrite reverse_involutive, reverse_app in Ht. exact (Hh c (reverse t) Ht).
Qed.

(** [Trim] splits the string into cut bytes, the result, and cut bytes. *)
Lemma Trim_spec s set :
  exists a b, s = a ++ Trim s set ++ b /\ all_in set a /\ all_in set b /\
    (forall c t, Trim s set = c :: t -> c ∉ set) /\ (forall c t, Trim s set = t ++ [c] -> c ∉ set).
Proof.
  destruct (TrimLeft_spec s set) as (a & E & Ha & Hl).
  destruct (TrimRight_spec (TrimLeft s set) set) as (b & E' & Hb & Hr).
  exists a, b. unfold Trim. split_and!; [by rewrite <- E'|done..| |done].
  intros c t Ht. rewrite Ht in E'. eapply Hl. exact E'.
Qed.

(** ** Splitting *)

Lemma take_through (s t : bytes) c : take (S (length s)) (s ++ c :: t) = s ++ [c].
Proof. induction s as [|x s IH]; cbn; [by rewrite take_0|]. by rewrite <- IH. Qed.

Lemma drop_through (s t : bytes) c : drop (S (length s)) (s ++ c :: t) = t.
Proof. induction s as [|x s IH]; cbn; [by rewrite drop_0|]. by rewrite <- IH at 2. Qed.

Lemma Split_no_sep s sep : sep ∉ s -> Split s sep = [s].
Proof.
  induction s as [|c s IH]; intros H; [done|]. apply not_elem_of_cons in H as [Hc Hs]. cbn.
  destruct (Z.eqb_spec c sep); [congruence|]. by rewrite IH.
Qed.

Lemma Split_app s t sep : sep ∉ s -> Split (s ++ sep :: t) sep = s :: Split t sep.
Proof.
  induction s as [|c s IH]; intros H; cbn.
  - by rewrite Z.eqb_refl.
  - apply not_elem_of_cons in H as [Hc Hs]. destruct (Z.eqb_spec c sep); [congruence|]. by rewrite IH.
Qed.

Lemma SplitN_app n s t sep : sep ∉ s -> SplitN (S n) (s ++ sep :: t) sep = s :: SplitN n t sep.
Proof.
  intros H. cbn [SplitN]. rewrite IndexByte_app by done. rewrite drop_through.
  by rewrite take_app_length.
Qed.

Lemma SplitN_none n s sep : sep ∉ s -> SplitN n s sep = [s].
Proof. intros H. destruct n; [done|]. cbn. by rewrite (proj2 (IndexByte_none s sep) H). Qed.


(** ** ASCII bytes and runes *)

(** The bytes of the first rune: an ASCII byte stands alone, and an ASCII rune is
    one of them. *)
Lemma DecodeRune_ascii s r n :
  s <> [] -> DecodeRune s = (r, n) ->
  (1 <= n <= length s)%nat /\
  (forall b, b ∈ take n s -> b < 128 -> r = b) /\ (0 <= r < 128 -> r ∈ take n s) /\ (is_ascii s = true -> n = 1%nat).
Proof.
  intros Hne. destruct s as [|b0 s1]; [done|]. clear Hne. unfold DecodeRune, cont, RuneError.
  destruct (Z.ltb_spec b0 128) as [H0|H0].
  { intros [= <- <-]. cbn. split_and!; [lia..| | |done].
    - by intros b ->%list_elem_of_singleton.
    - intros _. by apply list_elem_of_singleton. }
  assert (forall r', (r', 1%nat) = (r, n) -> ~ 0 <= r' < 128 -> (1 <= n <= length (b0 :: s1))%nat /\
    (forall b, b ∈ take n (b0 :: s1) -> b < 128 -> r = b) /\ (0 <= r < 128 -> r ∈ take n (b0 :: s1)) /\
    (is_ascii (b0 :: s1) = true -> n = 1%nat)) as Bad.
  { intros r' [= <- <-] Hr. cbn. split_and!; [lia..| | |done]; [|done]. intros b ->%list_elem_of_singleton. lia. }
  assert (is_ascii (b0 :: s1) = false) as Ha by (cbn; destruct (Z.ltb_spec b0 128); [lia|done]).
  assert (forall k x, k = n -> x = r -> (1 <= k <= length (b0 :: s1))%nat -> 128 <= x ->
    Forall (fun b => 128 <= b) (take k (b0 :: s1)) -> (1 <= n <= length (b0 :: s1))%nat /\
    (forall b, b ∈ take n (b0 :: s1) -> b < 128 -> r = b) /\ (0 <= r < 128 -> r ∈ take n (b0 :: s1)) /\
    (is_ascii (b0 :: s1) = true -> n = 1%nat)) as Good.
  { intros k x -> -> Hk Hx HF. split_and!; [lia..| |lia|congruence].
    intros b Hb. rewrite Forall_forall in HF. specialize (HF b Hb). lia. }
  repeat case_match; intros E; to_prop; first
    [ apply (Bad RuneError E); unfold RuneError; lia
    | injection E as E1 E2; apply (Good _ _ E2 E1); cbn [length take]; [lia|lia|repeat constructor; lia] ].
Qed.

Lemma runes_fuel_ascii fuel : forall s b,
  (length s <= fuel)%nat -> b ∈ s -> b < 128 -> b ∈ runes_fuel fuel s.
Proof.
  induction fuel as [|fuel IH]; intros s b Hf Hb Hlt.
  - destruct s; [done|cbn in Hf; lia].
  - destruct s as [|c s]; [done|]. cbn [runes_fuel]. destruct (DecodeRune (c :: s)) as [r n] eqn:E.
    apply DecodeRune_ascii in E as (Hn & H1 & _ & _); [|done].
    rewrite <- (take_drop n (c :: s)) in Hb. apply elem_of_app in Hb as [Hb|Hb].
    + rewrite (H1 b Hb Hlt). apply elem_of_cons. by left.
    + apply elem_of_cons. right. apply IH; [|done..]. rewrite length_drop. cbn in *. lia.
Qed.

Lemma runes_fuel_in fuel : forall s r, r ∈ runes_fuel fuel s -> 0 <= r < 128 -> r ∈ s.
Proof.
  induction fuel as [|fuel IH]; intros s r Hr Hlt; [by apply elem_of_nil in Hr|].
  destruct s as [|c s]; [by apply elem_of_nil in Hr|]. cbn [runes_fuel] in Hr.
  destruct (DecodeRune (c :: s)) as [r' n] eqn:E. apply DecodeRune_ascii in E as (_ & _ & H2 & _); [|done].
  rewrite <- (take_drop n (c :: s)). apply elem_of_app. apply elem_of_cons in Hr as [->|Hr]; [left; auto|right].
  by apply IH.
Qed.

(** An ASCII byte of a string is one of its runes, and the other way round. *)
Lemma runes_ascii_byte s b : b ∈ s -> b < 128 -> b ∈ runes s.
Proof. intros H1 H2. by apply runes_fuel_ascii. Qed.

Lemma runes_ascii_rune s r : r ∈ runes s -> 0 <= r < 128 -> r ∈ s.
Proof. apply runes_fuel_in. Qed.

Lemma runes_of_ascii s : is_ascii s = true -> runes s = s.
Proof.
  unfold runes. induction s as [|c s IH]; intros H; [done|]. cbn in H. to_prop. cbn [length runes_fuel].
  unfold DecodeRune. destruct (Z.ltb_spec c 128); [|lia]. cbn [drop]. rewrite drop_0, IH by done. done.
Qed.

Lemma EncodeRune_ascii r b : b ∈ EncodeRune r -> 0 <= b < 128 -> b = r.
Proof.
  unfold EncodeRune. repeat case_match; to_prop; rewrite list_elem_of_In; cbn [In]; intros Hb Hlt;
    destruct_or!; subst; try done; exfalso; destruct_or?; to_prop; zlia.
Qed.

(** ** Decimal numbers *)

Definition is_digit (c : Z) : bool := (48 <=? c) && (c <=? 57).

Lemma parse_itoa fuel : forall n acc max,
  0 <= n < 10 ^ Z.of_nat fuel -> n <= max -> (0 < fuel)%nat ->
  parse_uint_go 10 max (itoa_fuel fuel n acc) 0 = parse_uint_go 10 max acc n.
Proof.
  induction fuel as [|fuel IH]; intros n acc max Hn Hmax Hf; [lia|]. cbn [itoa_fuel].
  assert (forall a, 0 <= a -> a * 10 + n mod 10 = n ->
    parse_uint_go 10 max ((48 + n mod 10) :: acc) a = parse_uint_go 10 max acc n) as Step.
  { intros a Ha Heq. cbn [parse_uint_go]. assert (0 <= n mod 10 < 10) by (apply Z.mod_pos_bound; lia).
    assert (digit_val (48 + n mod 10) = Some (n mod 10)) as ->.
    { unfold digit_val. destruct (Z.leb_spec 48 (48 + n mod 10)), (Z.leb_spec (48 + n mod 10) 57); try lia.
      cbn. f_equal. lia. }
    destruct (Z.ltb_spec (n mod 10) 10); [|lia]. rewrite Heq. destruct (Z.ltb_spec max n); [lia|done]. }
  destruct (Z.ltb_spec n 10) as [Hlt|Hge].
  - apply Step; [lia|]. rewrite Z.mod_small; lia.
  - replace (Z.of_nat (S fuel)) with (Z.of_nat fuel + 1) in Hn by lia. rewrite Z.pow_add_r in Hn by lia.
    destruct fuel as [|fuel]; [cbn in Hn; lia|].
    rewrite IH; [apply Step; zlia|..|lia].
    + split; [zlia|]. apply Z.div_lt_upper_bound; lia.
    + zlia.
Qed.

Lemma itoa_digits fuel : forall n acc,
  0 <= n -> Forall (fun c => is_digit c = true) acc -> Forall (fun c => is_digit c = true) (itoa_fuel fuel n acc).
Proof.
  induction fuel as [|fuel IH]; intros n acc Hn Ha; cbn [itoa_fuel]; [done|].
  assert (is_digit (48 + n mod 10) = true).
  { assert (0 <= n mod 10 < 10) by (apply Z.mod_pos_bound; lia). unfold is_digit.
    apply andb_true_iff. split; apply Z.leb_le; lia. }
  case_match; [by constructor|]. apply IH; [zlia|by constructor].
Qed.

Lemma itoa_nonempty fuel : forall n acc, (0 < fuel)%nat \/ acc <> [] -> itoa_fuel fuel n acc <> [].
Proof.
  induction fuel as [|fuel IH]; intros n acc H; cbn [itoa_fuel]; [destruct H; [lia|done]|].
  case_match; [done|]. apply IH. by right.
Qed.

Lemma ParseUint_itoa n bits :
  0 <= n < 2 ^ bits -> bits <= 64 -> ParseUint (itoa_nonneg n) 10 bits = Ok n.
Proof.
  intros Hn Hb. unfold ParseUint, itoa_nonneg.
  assert (itoa_fuel 20 n [] <> []) as Hne by (apply itoa_nonempty; left; lia).
  destruct (itoa_fuel 20 n []) eqn:E; [done|]. rewrite <- E.
  rewrite parse_itoa; [done|..]; [|lia..].
  split; [lia|]. apply Z.lt_le_trans with (2 ^ bits); [lia|]. apply Z.le_trans with (2 ^ 64); [|by vm_compute].
  apply Z.pow_le_mono_r; lia.
Qed.

(** ** Hosts and ports *)

Lemma LastIndexByte_app a b c : c ∉ b -> LastIndexByte (a ++ c :: b) c = Some (length a).
Proof.
  intros H. unfold LastIndexByte. induction a as [|x a IH]; cbn; [|by rewrite IH].
  assert (last_index_from (Z.eqb c) b = None) as ->; [|by rewrite Z.eqb_refl].
  apply last_index_from_None, Forall_forall. intros x Hx. apply Z.eqb_neq. by intros ->.
Qed.

Lemma ContainsByte_false s c : ContainsByte s c = false <-> c ∉ s.
Proof.
  unfold ContainsByte. rewrite existsb_False, Forall_forall. split.
  - intros H Hc. specialize (H c Hc). by rewrite Z.eqb_refl in H.
  - intros H x Hx. apply Z.eqb_neq. by intros ->.
Qed.

(** A host without colons or brackets survives [JoinHostPort] and [SplitHostPort]. *)
Lemma SplitHostPort_Join host port :
  58 ∉ host -> 91 ∉ host -> 93 ∉ host -> 58 ∉ port -> 91 ∉ port -> 93 ∉ port ->
  SplitHostPort (JoinHostPort host port) = Some (host, port).
Proof.
  intros. unfold JoinHostPort. rewrite (proj2 (ContainsByte_false host 58)) by done.
  cbn [app]. unfold SplitHostPort. rewrite LastIndexByte_app by done. cbn [mbind option_bind].
  rewrite bool_decide_false by (destruct host; cbn; [done|intros [=]; subst; set_solver]).
  rewrite take_app_length, drop_through.
  assert (forall c, c ∉ host -> c <> 58 -> c ∉ port -> ContainsByte (host ++ 58 :: port) c = false) as Hc.
  { intros c ? ? ?. apply ContainsByte_false. rewrite elem_of_app, elem_of_cons. naive_solver. }
  by rewrite (proj2 (ContainsByte_false host 58)), !Hc.
Qed.

Lemma Itoa_plain n c : 0 <= n -> is_digit c = false -> c ∉ Itoa n.
Proof.
  intros Hn Hc Hin. unfold Itoa in Hin. rewrite (proj2 (Z.ltb_ge n 0)) in Hin by done.
  pose proof (itoa_digits 20 n [] Hn (Forall_nil_2 _)) as Hd. rewrite Forall_forall in Hd.
  apply Hd in Hin. congruence.
Qed.

(** ** Fields *)

(** [strings.Fields]. *)
Fixpoint fields_loop (fuel : nat) (s cur : bytes) : list bytes :=
  let flush := if bool_decide (cur = []) then [] else [cur] in
  match fuel, s with
  | S fuel', _ :: _ =>
      let '(r, w) := DecodeRune s in
      if IsSpace r then flush ++ fields_loop fuel' (drop w s) [] else fields_loop fuel' (drop w s) (cur ++ take w s)
  | _, _ => flush
  end.
Definition Fields (s : bytes) : list bytes := fields_loop (length s) s [].

Lemma fields_plain s : forall fuel cur, (length s <= fuel)%nat -> is_ascii s = true -> forallb (fun c => negb (IsSpace c)) s = true ->
  cur ++ s <> [] -> fields_loop fuel s cur = [cur ++ s].
Proof.
  induction s as [|c s IH]; intros fuel cur Hf Ha Hs Hne.
  - rewrite app_nil_r in *. destruct fuel; cbn; by rewrite bool_decide_false.
  - destruct fuel as [|fuel]; [cbn in Hf; lia|]. cbn [is_ascii forallb] in Ha, Hs. apply andb_true_iff in Ha as [Hc Ha], Hs as [Hcs Hs].
    cbn [fields_loop]. assert (DecodeRune (c :: s) = (c, 1%nat)) as -> by (cbn [DecodeRune]; by rewrite Hc).
    apply negb_true_iff in Hcs. rewrite Hcs. cbn [drop take]. rewrite IH; [by rewrite <- app_assoc|cbn in Hf; lia|done|done|].
    rewrite <- app_assoc. by destruct cur.
Qed.
Lemma Fields_plain s : s <> [] -> is_ascii s = true -> forallb (fun c => negb (IsSpace c)) s = true -> Fields s = [s].
Proof. intros Hne Ha Hs. unfold Fields. by rewrite fields_plain. Qed.

(** ** Decimal numbers *)

Definition MaxUint32 : Z := 2 ^ 32 - 1.
Lemma Itoa_digits n : 0 <= n -> Forall (fun c => is_digit c = true) (Itoa n).
Proof. intros H. unfold Itoa. rewrite (proj2 (Z.ltb_ge n 0)) by done. apply itoa_digits; [done|constructor]. Qed.
Lemma Itoa_nonempty n : 0 <= n -> Itoa n <> [].
Proof. intros H. unfold Itoa. rewrite (proj2 (Z.ltb_ge n 0)) by done. apply itoa_nonempty. left. lia. Qed.
Lemma ParseUint_Itoa n : 0 <= n <= MaxUint32 -> ParseUint (Itoa n) 10 32 = Ok n.
Proof.
  intros H. unfold Itoa. rewrite (proj2 (Z.ltb_ge n 0)) by lia. apply ParseUint_itoa; [unfold MaxUint32 in H; lia|lia].
Qed.
Lemma ParseUint_Itoa_bits n bits : 0 <= n < 2 ^ bits -> bits <= 64 -> ParseUint (Itoa n) 10 bits = Ok n.
Proof. intros H Hb. unfold Itoa. rewrite (proj2 (Z.ltb_ge n 0)) by lia. by apply ParseUint_itoa. Qed.

(** ** Splitting what was joined *)

Lemma Split_Join fs sep : fs <> [] -> Forall (fun f => sep ∉ f) fs -> Split (Join fs [sep]) sep = fs.
Proof.
  induction fs as [|f fs IH]; [done|]. intros _ [Hf Hfs]%Forall_cons. destruct fs as [|g fs]; [by apply Split_no_sep|].
  change (Join (f :: g :: fs) [sep]) with (f ++ sep :: Join (g :: fs) [sep]). rewrite Split_app by done. by rewrite IH.
Qed.
