(* ===== verification/NetIP.v ===== *)
(** * The part of Go's [net/netip] the program uses

    Addresses, prefixes, parsing and printing, written out as the Go standard
    library defines them (IPv4 dotted form, IPv6 with [::] compression, an
    embedded IPv4 tail and a zone). *)

From S2P Require Import Prelude GoStrings.

(** [netip.Addr]: the zero value is not a valid address; the zone of an IPv6
    address is the empty string when there is none. *)
Inductive Addr :=
| AZero
| A4 (v : Z)
| A6 (v : Z) (zone : bytes).

#[export] Instance Addr_eq_dec : EqDecision Addr.
Proof. solve_decision. Defined.
#[export] Program Instance Addr_countable : Countable Addr :=
  inj_countable
    (fun a => match a with AZero => inl tt | A4 v => inr (inl v) | A6 v z => inr (inr (v, z)) end)
    (fun x => Some (match x with inl _ => AZero | inr (inl v) => A4 v | inr (inr (v, z)) => A6 v z end)) _.
Next Obligation. by intros []. Qed.

Definition wf_addr (a : Addr) : Prop :=
  match a with
  | AZero => True
  | A4 v => 0 <= v < 2 ^ 32
  | A6 v _ => 0 <= v < 2 ^ 128
  end.

Definition IsValid (a : Addr) : bool := match a with AZero => false | _ => true end.
Definition Is4 (a : Addr) : bool := match a with A4 _ => true | _ => false end.
Definition Is6 (a : Addr) : bool := match a with A6 _ _ => true | _ => false end.
Definition BitLen (a : Addr) : Z := match a with AZero => 0 | A4 _ => 32 | A6 _ _ => 128 end.
Definition hasZone (a : Addr) : bool :=
  match a with A6 _ z => negb (bool_decide (z = [])) | _ => false end.

Definition v4_mapped_base : Z := 65535 * 2 ^ 32.
Definition Is4In6 (a : Addr) : bool :=
  match a with A6 v _ => Z.shiftr v 32 =? 65535 | _ => false end.

(** [Addr.Unmap]: an IPv4-mapped IPv6 address becomes the IPv4 address. *)
Definition Unmap (a : Addr) : Addr :=
  match a with
  | A6 v _ => if Is4In6 a then A4 (v mod 2 ^ 32) else a
  | _ => a
  end.

Lemma Unmap_idemp a : Unmap (Unmap a) = Unmap a.
Proof. destruct a as [|v|v z]; cbn; try done. destruct (Z.shiftr v 32 =? 65535) eqn:E; cbn; [done|by rewrite E]. Qed.

Definition AddrFrom4 (b : bytes) : Addr := A4 (be_get b).
Definition AddrFrom16 (b : bytes) : Addr := A6 (be_get b) [].
Definition WithZone (a : Addr) (z : bytes) : Addr :=
  match a with A6 v _ => A6 v z | _ => a end.

(** [As4]/[As16]/[AsSlice]: the bytes of the address. *)
Definition As4 (a : Addr) : bytes :=
  match a with A4 v => be_put 4 v | A6 v _ => be_put 4 (v mod 2 ^ 32) | AZero => [] end.
Definition As16 (a : Addr) : bytes :=
  match a with A4 v => be_put 16 (v4_mapped_base + v) | A6 v _ => be_put 16 v | AZero => be_put 16 0 end.

(** ** Parsing *)

Record v4_state := { f_val : Z; f_digits : nat; f_fields : list Z; f_prev_dot : bool }.

(** The loop of [parseIPv4Fields] over the rest of the string. *)
Fixpoint parse4_loop (s : bytes) (st : v4_state) : option v4_state :=
  match s with
  | [] => Some st
  | c :: s' =>
      if (48 <=? c) && (c <=? 57) then
        if (f_digits st =? 1)%nat && (f_val st =? 0) then None
        else
          let val := f_val st * 10 + (c - 48) in
          if 255 <? val then None
          else parse4_loop s' {| f_val := val; f_digits := S (f_digits st);
                                 f_fields := f_fields st; f_prev_dot := false |}
      else if c =? 46 then
        if f_prev_dot st || bool_decide (s' = []) then None
        else if (length (f_fields st) =? 3)%nat then None
        else parse4_loop s' {| f_val := 0; f_digits := 0;
                               f_fields := f_fields st ++ [f_val st]; f_prev_dot := true |}
      else None
  end.

(** [parseIPv4Fields]: four octets, no leading zeros.  A leading dot is refused
    like a repeated one. *)
Definition parseIPv4Fields (s : bytes) : option (list Z) :=
  match parse4_loop s {| f_val := 0; f_digits := 0; f_fields := []; f_prev_dot := true |} with
  | Some st => if (length (f_fields st) <? 3)%nat then None else Some (f_fields st ++ [f_val st])
  | None => None
  end.

Definition parseIPv4 (s : bytes) : option Addr := AddrFrom4 <$> parseIPv4Fields s.

Definition hex_val (c : Z) : option Z :=
  if (48 <=? c) && (c <=? 57) then Some (c - 48)
  else if (97 <=? c) && (c <=? 102) then Some (c - 97 + 10)
  else if (65 <=? c) && (c <=? 70) then Some (c - 65 + 10)
  else None.

(** One hexadecimal group: its value, its digits and the rest; [None] when it is
    longer than four digits or exceeds 16 bits. *)
Fixpoint hex_group (s : bytes) (off : nat) (acc : Z) : option (nat * Z * bytes) :=
  match s with
  | [] => Some (off, acc, [])
  | c :: s' =>
      match hex_val c with
      | None => Some (off, acc, s)
      | Some d =>
          let acc' := acc * 16 + d in
          if (3 <? off)%nat || (65535 <? acc') then None else hex_group s' (S off) acc'
      end
  end.

(** The group loop of [parseIPv6]: the bytes written so far, the position of the
    ellipsis, and the rest of the string.  At most eight rounds run. *)
Fixpoint parse6_loop (rounds : nat) (s : bytes) (ip : bytes) (ell : option nat)
    : option (bytes * option nat * bytes) :=
  match rounds with
  | O => Some (ip, ell, s)
  | S rounds' =>
      match hex_group s 0 0 with
      | None => None
      | Some (off, acc, rest) =>
          if (off =? 0)%nat then None
          else if bool_decide (head rest = Some 46) then
            if bool_decide (ell = None) && negb (length ip =? 12)%nat then None
            else if (16 <? length ip + 4)%nat then None
            else (fun f => (ip ++ f, ell, [])) <$> parseIPv4Fields s
          else
            let ip' := ip ++ be_put 2 acc in
            match rest with
            | [] => Some (ip', ell, [])
            | c :: rest1 =>
                if negb (c =? 58) then None
                else match rest1 with
                | [] => None
                | c1 :: rest2 =>
                    if c1 =? 58 then
                      if bool_decide (ell = None) then
                        match rest2 with
                        | [] => Some (ip', Some (length ip'), [])
                        | _ => if (length ip' <? 16)%nat then parse6_loop rounds' rest2 ip' (Some (length ip'))
                               else Some (ip', Some (length ip'), rest2)
                        end
                      else None
                    else if (length ip' <? 16)%nat then parse6_loop rounds' rest1 ip' ell
                    else Some (ip', ell, rest1)
                end
            end
      end
  end.

Definition parseIPv6 (inp : bytes) : option Addr :=
  let split := match IndexByte inp 37 with
               | Some i => if bool_decide (drop (S i) inp = []) then None
                           else Some (take i inp, drop (S i) inp)
               | None => Some (inp, [])
               end in
  match split with
  | None => None
  | Some (s, zone) =>
      let '(s1, ell0) := if HasPrefix s [58; 58] then (drop 2 s, Some 0%nat) else (s, None) in
      if bool_decide (ell0 <> None) && bool_decide (s1 = []) then Some (A6 0 zone)
      else
        match parse6_loop 8 s1 [] ell0 with
        | Some (ip, ell, []) =>
            if (length ip <? 16)%nat then
              match ell with
              | None => None
              | Some e => Some (A6 (be_get (take e ip ++ replicate (16 - length ip) 0 ++ drop e ip)) zone)
              end
            else match ell with
                 | Some _ => None
                 | None => Some (A6 (be_get ip) zone)
                 end
        | _ => None
        end
  end.

(** [netip.ParseAddr]: the first [.], [:] or [%] decides the family. *)
Definition ParseAddr (s : bytes) : option Addr :=
  match find (fun c => (c =? 46) || (c =? 58) || (c =? 37)) s with
  | Some c => if c =? 46 then parseIPv4 s else if c =? 58 then parseIPv6 s else None
  | None => None
  end.

(** [net.ParseIP(s) != nil]. *)
Definition ParseIP_ok (s : bytes) : bool :=
  match ParseAddr s with Some a => negb (hasZone a) | None => false end.

(** Whatever [ParseAddr] accepts is an address of its width. *)
Lemma parse4_loop_wf s : forall st st1,
  parse4_loop s st = Some st1 ->
  wf_bytes (f_fields st ++ [f_val st]) -> (length (f_fields st) <= 3)%nat ->
  wf_bytes (f_fields st1 ++ [f_val st1]) /\ (length (f_fields st1) <= 3)%nat.
Proof.
  induction s as [|c s IH]; cbn [parse4_loop]; intros st st1 H Hw Hl; [by simplify_eq|].
  apply wf_bytes_app in Hw as [Hf Hv]. apply Forall_cons in Hv as [Hv _]. unfold is_byte in Hv.
  destruct ((48 <=? c) && (c <=? 57)) eqn:Ec.
  - to_prop. destruct (_ && _); [done|]. destruct (255 <? _) eqn:E in H; [done|]. to_prop.
    apply IH in H; [done| |done]. cbn. apply wf_bytes_app. split; [done|].
    constructor; [unfold is_byte; lia|constructor].
  - destruct (c =? 46); [|done]. destruct (_ || _); [done|].
    destruct (length (f_fields st) =? 3)%nat eqn:E; [done|]. apply Nat.eqb_neq in E.
    apply IH in H; [done|cbn..].
    + apply wf_bytes_app. split; [|by repeat constructor]. apply wf_bytes_app. split; [done|].
      constructor; [done|constructor].
    + rewrite length_app. cbn. lia.
Qed.
Lemma parseIPv4Fields_wf s f : parseIPv4Fields s = Some f -> wf_bytes f /\ length f = 4%nat.
Proof.
  unfold parseIPv4Fields. destruct (parse4_loop _ _) as [st|] eqn:E; [|done].
  destruct (length (f_fields st) <? 3)%nat eqn:El; [done|]. apply Nat.ltb_ge in El. intros [= <-].
  apply parse4_loop_wf in E as [Hw Hl]; [|by repeat constructor|cbn; lia].
  split; [done|]. rewrite length_app. cbn. lia.
Qed.
Lemma parse6_loop_wf rounds : forall s ip ell ip1 ell1 rest,
  parse6_loop rounds s ip ell = Some (ip1, ell1, rest) ->
  wf_bytes ip -> (length ip + 2 * rounds = 16)%nat -> wf_bytes ip1 /\ (length ip1 <= 16)%nat.
Proof.
  induction rounds as [|k IH]; cbn [parse6_loop]; intros s ip ell ip1 ell1 rest H Hw Hl; [simplify_eq; split; [done|lia]|].
  destruct (hex_group s 0 0) as [[[off acc] tl]|]; [|done]. destruct (off =? 0)%nat; [done|].
  destruct (bool_decide (head tl = Some 46)).
  { destruct (_ && _); [done|]. destruct (16 <? _)%nat eqn:E; [done|]. apply Nat.ltb_ge in E.
    destruct (parseIPv4Fields s) as [f|] eqn:Ef; [|done]. apply parseIPv4Fields_wf in Ef as [Wf Lf].
    cbn in H. simplify_eq. split; [by apply wf_bytes_app|]. rewrite length_app. lia. }
  assert (wf_bytes (ip ++ be_put 2 acc) /\ length (ip ++ be_put 2 acc) = (length ip + 2)%nat) as [Hw1 Hl1].
  { split; [apply wf_bytes_app; split; [done|apply wf_be_put]|]. by rewrite length_app, length_be_put. }
  revert H. generalize dependent (ip ++ be_put 2 acc). intros ip' Hw1 Hl1 H.
  assert (wf_bytes ip' /\ (length ip' <= 16)%nat) as Done by (split; [done|lia]).
  assert (forall s e, parse6_loop k s ip' e = Some (ip1, ell1, rest) -> wf_bytes ip1 /\ (length ip1 <= 16)%nat) as Go
    by (intros; eapply IH; [done..|lia]).
  repeat case_match; simplify_eq; eauto.
Qed.

Lemma ParseAddr_wf s a : ParseAddr s = Some a -> wf_addr a /\ IsValid a = true.
Proof.
  unfold ParseAddr. destruct (find _ s) as [c|]; [|done]. destruct (c =? 46).
  - unfold parseIPv4. destruct (parseIPv4Fields s) as [f|] eqn:E; [|done]. intros [= <-].
    apply parseIPv4Fields_wf in E as [Hw Hl]. split; [|done]. pose proof (be_get_bound f Hw) as B.
    unfold len in B. by rewrite Hl in B.
  - destruct (c =? 58); [|done]. unfold parseIPv6.
    assert (forall b zone, wf_bytes b -> length b = 16%nat -> wf_addr (A6 (be_get b) zone)) as H16
      by (intros b zone Hw Hl; pose proof (be_get_bound b Hw) as B; unfold len in B; by rewrite Hl in B).
    destruct (match IndexByte s 37 with Some _ => _ | None => _ end) as [[s0 zone]|]; [|done].
    destruct (if HasPrefix s0 _ then _ else _) as [s1 ell0].
    destruct (_ && _); [intros [= <-]; split; [|done]; cbn; lia|].
    destruct (parse6_loop 8 s1 [] ell0) as [[[ip ell] [|? ?]]|] eqn:E; [|done..].
    apply parse6_loop_wf in E as [Hw Hl]; [|constructor|done].
    destruct (length ip <? 16)%nat eqn:El; destruct ell as [e|]; try done; intros [= <-]; (split; [|done]).
    + apply Nat.ltb_lt in El. apply H16.
      * unfold wf_bytes in *. rewrite !Forall_app. split_and!; [by apply Forall_take| |by apply Forall_drop].
        apply Forall_replicate. unfold is_byte. lia.
      * rewrite !length_app, length_take, length_drop, length_replicate. lia.
    + apply Nat.ltb_ge in El. apply H16; [done|lia].
Qed.

(** ** Prefixes *)

(** [netip.Prefix]: [bits1] is the source's [bitsPlusOne]; 0 is invalid. *)
Record Prefix := { p_ip : Addr; p_bits1 : Z }.
#[export] Instance Prefix_eq_dec : EqDecision Prefix.
Proof. solve_decision. Defined.

Definition PZero : Prefix := {| p_ip := AZero; p_bits1 := 0 |}.
Definition PValid (p : Prefix) : bool := 0 <? p_bits1 p.
Definition Bits (p : Prefix) : Z := p_bits1 p - 1.

Definition withoutZone (a : Addr) : Addr := match a with A6 v _ => A6 v [] | _ => a end.

Definition PrefixFrom (ip : Addr) (bits : Z) : Prefix :=
  {| p_ip := withoutZone ip;
     p_bits1 := if IsValid ip && (0 <=? bits) && (bits <=? BitLen ip) then bits + 1 else 0 |}.

(** Clear all but the top [bits] bits of a [w]-bit value. *)
Definition mask_top (w bits v : Z) : Z := Z.shiftl (Z.shiftr v (w - bits)) (w - bits).

(** [Addr.Prefix]: mask the address; [None] for an impossible width. *)
Definition AddrPrefix (ip : Addr) (bits : Z) : option Prefix :=
  if bits <? 0 then None
  else match ip with
  | AZero => Some PZero
  | A4 v => if 32 <? bits then None else Some {| p_ip := A4 (mask_top 32 bits v); p_bits1 := bits + 1 |}
  | A6 v _ => if 128 <? bits then None else Some {| p_ip := A6 (mask_top 128 bits v) []; p_bits1 := bits + 1 |}
  end.

Definition Masked (p : Prefix) : Prefix := default PZero (AddrPrefix (p_ip p) (Bits p)).

(** [Prefix.Contains]: never across families, never for a zoned address. *)
Definition PContains (p : Prefix) (ip : Addr) : bool :=
  if negb (PValid p) || hasZone ip then false
  else match p_ip p, ip with
  | A4 a, A4 b => Z.shiftr (Z.lxor b a) (32 - Bits p) =? 0
  | A6 a _, A6 b _ => Z.shiftr (Z.lxor b a) (128 - Bits p) =? 0
  | _, _ => false
  end.

Definition Overlaps (p o : Prefix) : bool :=
  if negb (PValid p) || negb (PValid o) then false
  else if bool_decide (p = o) then true
  else if negb (eqb (Is4 (p_ip p)) (Is4 (p_ip o))) then false
  else
    let minBits := if Bits p <? Bits o then Bits p else Bits o in
    if minBits =? 0 then true
    else match AddrPrefix (p_ip p) minBits, AddrPrefix (p_ip o) minBits with
         | Some p', Some o' => bool_decide (p_ip p' = p_ip o')
         | _, _ => false
         end.

(** [netip.ParsePrefix]: no zone, a bit count without sign or leading zero. *)
Definition ParsePrefix (s : bytes) : option Prefix :=
  match LastIndexByte s 47 with
  | None => None
  | Some i =>
      match ParseAddr (take i s) with
      | None => None
      | Some ip =>
          if hasZone ip then None
          else
            let bitsStr := drop (S i) s in
            match bitsStr with
            | c :: _ :: _ => if (c <? 49) || (57 <? c) then None else
                match Atoi bitsStr with
                | Ok bits => if (bits <? 0) || (BitLen ip <? bits) then None else Some (PrefixFrom ip bits)
                | Err _ => None
                end
            | _ =>
                match Atoi bitsStr with
                | Ok bits => if (bits <? 0) || (BitLen ip <? bits) then None else Some (PrefixFrom ip bits)
                | Err _ => None
                end
            end
      end
  end.

(** ** Printing *)

Definition string4 (v : Z) : bytes :=
  Join (map Itoa (be_put 4 v)) [46].

Fixpoint hex_fuel (fuel : nat) (n : Z) (acc : bytes) : bytes :=
  match fuel with
  | O => acc
  | S fuel' =>
      let d := n mod 16 in
      let acc' := (if d <? 10 then 48 + d else 87 + d) :: acc in
      if n <? 16 then acc' else hex_fuel fuel' (n / 16) acc'
  end.
Definition hex16 (n : Z) : bytes := hex_fuel 4 n [].

(** The eight groups of an IPv6 address. *)
Definition groups6 (v : Z) : list Z :=
  map (fun i => (v / 2 ^ (16 * (7 - Z.of_nat i))) mod 65536) (seq 0 8).

(** Length of the run of zero groups at the head. *)
Fixpoint zero_run (gs : list Z) : nat :=
  match gs with
  | g :: gs' => if g =? 0 then S (zero_run gs') else 0%nat
  | [] => 0%nat
  end.

(** First longest run of at least two zero groups: start and length. *)
Fixpoint best_run (pos : nat) (gs : list Z) (best : nat * nat) : nat * nat :=
  match gs with
  | [] => best
  | _ :: gs' =>
      let l := zero_run gs in
      best_run (S pos) gs' (if (2 <=? l)%nat && (snd best <? l)%nat then (pos, l) else best)
  end.

Definition string6 (v : Z) (zone : bytes) : bytes :=
  let gs := groups6 v in
  let '(st, l) := best_run 0 gs (0%nat, 0%nat) in
  let body :=
    if (l =? 0)%nat then Join (map hex16 gs) [58]
    else Join (map hex16 (take st gs)) [58] ++ [58; 58] ++ Join (map hex16 (drop (st + l) gs)) [58] in
  if bool_decide (zone = []) then body else body ++ 37 :: zone.

Definition AddrString (a : Addr) : bytes :=
  match a with
  | AZero => lit "invalid IP"
  | A4 v => string4 v
  | A6 v z =>
      if Is4In6 a then
        lit "::ffff:" ++ string4 (v mod 2 ^ 32) ++ (if bool_decide (z = []) then [] else 37 :: z)
      else string6 v z
  end.

Definition PrefixString (p : Prefix) : bytes :=
  if PValid p then AddrString (p_ip p) ++ 47 :: Itoa (Bits p) else lit "invalid Prefix".

(** ** Facts about containment and overlap *)

Definition wf_prefix (p : Prefix) : Prop := 0 <= p_bits1 p <= BitLen (p_ip p) + 1.

Lemma shiftr_lxor_zero a b k : (Z.shiftr (Z.lxor a b) k =? 0) = true <-> Z.shiftr a k = Z.shiftr b k.
Proof. rewrite Z.eqb_eq, Z.shiftr_lxor, Z.lxor_eq_0_iff. done. Qed.

Lemma shiftr_shorter a b k j :
  0 <= k <= j -> Z.shiftr a k = Z.shiftr b k -> Z.shiftr a j = Z.shiftr b j.
Proof.
  intros Hk E. replace j with (k + (j - k)) by lia. rewrite <- !Z.shiftr_shiftr by lia. by rewrite E.
Qed.

Lemma wf_PrefixFrom ip bits : wf_prefix (PrefixFrom ip bits).
Proof.
  unfold wf_prefix, PrefixFrom. cbn. destruct ip; cbn;
    repeat (case_goal; cbn); to_prop; lia.
Qed.

Lemma wf_Masked p : wf_prefix (Masked p).
Proof.
  unfold Masked, AddrPrefix. destruct (Bits p <? 0) eqn:E; [unfold wf_prefix; cbn; lia|].
  destruct (p_ip p); repeat (case_goal; cbn); unfold wf_prefix; cbn; to_prop; lia.
Qed.

(** An address both prefixes contain makes them overlap. *)
Lemma contains_overlaps p o ip :
  wf_prefix p -> wf_prefix o ->
  PContains p ip = true -> PContains o ip = true -> Overlaps p o = true.
Proof.
  unfold PContains, Overlaps, wf_prefix, Bits.
  destruct (PValid p) eqn:Vp, (PValid o) eqn:Vo, (hasZone ip); cbn; try done.
  unfold PValid in *. to_prop.
  destruct (p_ip p) as [|a|a za] eqn:Ea, (p_ip o) as [|c|c zc] eqn:Ec, ip as [|b|b zb]; try done;
    cbn [BitLen Is4]; intros Wp Wo H1 H2; apply shiftr_lxor_zero in H1, H2.
  all: destruct (bool_decide (p = o)); [done|]; cbn [eqb negb].
  all: set (m := if p_bits1 p - 1 <? p_bits1 o - 1 then p_bits1 p - 1 else p_bits1 o - 1).
  all: assert (0 <= m /\ m <= p_bits1 p - 1 /\ m <= p_bits1 o - 1) as Hm
    by (subst m; case_goal; to_prop; lia).
  all: destruct (m =? 0) eqn:Em; [done|]; unfold AddrPrefix;
    rewrite (proj2 (Z.ltb_ge m 0)) by lia; rewrite (proj2 (Z.ltb_ge _ m)) by lia; cbn.
  all: apply bool_decide_eq_true; f_equal; unfold mask_top; f_equal.
  all: eapply eq_trans; [symmetry|];
    [eapply shiftr_shorter; [|exact H1]; lia | eapply shiftr_shorter; [|exact H2]; lia].
Qed.

(** ** Printed prefixes *)

Lemma split_at_inj {A} (c : A) l1 r1 l2 r2 : c ∉ l1 -> c ∉ l2 -> l1 ++ c :: r1 = l2 ++ c :: r2 -> l1 = l2 /\ r1 = r2.
Proof.
  revert l2. induction l1 as [|x l1 IH]; intros [|y l2] H1 H2 E; cbn in E; simplify_eq.
  - done.
  - set_solver.
  - set_solver.
  - destruct (IH l2) as [-> ->]; set_solver.
Qed.

Lemma Itoa_inj n m : 0 <= n < 2 ^ 32 -> 0 <= m < 2 ^ 32 -> Itoa n = Itoa m -> n = m.
Proof.
  intros Hn Hm E. pose proof (ParseUint_Itoa_bits n 32 Hn ltac:(lia)) as H1. pose proof (ParseUint_Itoa_bits m 32 Hm ltac:(lia)) as H2.
  rewrite E, H2 in H1. by injection H1.
Qed.

Lemma string4_fields v :
  exists a b c d, be_put 4 v = [a; b; c; d] /\ wf_bytes [a; b; c; d] /\
    string4 v = Itoa a ++ 46 :: Itoa b ++ 46 :: Itoa c ++ 46 :: Itoa d.
Proof.
  pose proof (wf_be_put 4 v) as Hw. unfold string4. pose proof (length_be_put 4 v) as Hl.
  destruct (be_put 4 v) as [|a [|b [|c [|d [|]]]]]; try done. exists a, b, c, d. split; [done|]. split; [done|]. done.
Qed.

Lemma string4_inj v w r s :
  0 <= v < 2 ^ 32 -> 0 <= w < 2 ^ 32 -> string4 v ++ 47 :: r = string4 w ++ 47 :: s -> v = w /\ r = s.
Proof.
  intros Hv Hw. destruct (string4_fields v) as (a & b & c & d & Ev & Wv & ->).
  destruct (string4_fields w) as (a' & b' & c' & d' & Ew & Ww & ->).
  unfold wf_bytes in Wv, Ww. rewrite !Forall_cons in Wv, Ww. unfold is_byte in Wv, Ww.
  assert (Hd : forall n, 0 <= n < 256 -> 46 ∉ Itoa n /\ 47 ∉ Itoa n) by (intros n Hn; split; apply Itoa_plain; done || lia).
  rewrite <- !app_assoc. cbn [app]. rewrite <- !app_assoc. cbn [app]. rewrite <- !app_assoc. cbn [app].
  intros E. apply split_at_inj in E as [Ea E]; [|apply Hd; lia..]. apply split_at_inj in E as [Eb E]; [|apply Hd; lia..].
  apply split_at_inj in E as [Ec E]; [|apply Hd; lia..]. apply split_at_inj in E as [Ed E]; [|apply Hd; lia..].
  apply Itoa_inj in Ea, Eb, Ec, Ed; try lia. subst. split; [|done].
  rewrite <- (Z.mod_small v (256 ^ Z.of_nat 4)), <- (Z.mod_small w (256 ^ Z.of_nat 4)) by (change (256 ^ Z.of_nat 4) with (2 ^ 32); lia).
  by rewrite <- !be_get_put, Ev, Ew.
Qed.

Lemma colon_in_6 v z : 58 ∈ AddrString (A6 v z).
Proof.
  unfold AddrString. destruct (Is4In6 (A6 v z)); [rewrite elem_of_app; left; by vm_compute; left|].
  unfold string6. destruct (best_run 0 (groups6 v) (0, 0)%nat) as [st l].
  assert (58 ∈ if (l =? 0)%nat then Join (map hex16 (groups6 v)) [58]
               else Join (map hex16 (take st (groups6 v))) [58] ++ [58; 58] ++ Join (map hex16 (drop (st + l) (groups6 v))) [58]).
  { destruct (l =? 0)%nat; [|set_solver]. unfold groups6. cbn [seq map Join]. rewrite !elem_of_app. set_solver. }
  destruct (bool_decide (z = [])); [done|]. rewrite elem_of_app. by left.
Qed.

(** A prefix whose address and length are in range. *)
Definition good_prefix (p : Prefix) : Prop := wf_addr (p_ip p) /\ wf_prefix p.

(** The text of an IPv4 prefix names it alone among the prefixes that contain anything. *)
Lemma PrefixString_inj4 p q ip :
  good_prefix p -> good_prefix q -> Is4 (p_ip p) = true -> PValid p = true -> PContains q ip = true ->
  PrefixString q = PrefixString p -> q = p.
Proof.
  intros [Hp1 Hp2] [Hq1 Hq2] H4 Hv Hc. assert (PValid q = true) as Hvq by (unfold PContains in Hc; by destruct (PValid q)).
  unfold PrefixString. rewrite Hv, Hvq. unfold wf_prefix, PValid, Bits in *. to_prop.
  destruct p as [[|v|v z] bp]; try done. destruct q as [[|w|w z] bq]; cbn [p_ip p_bits1 AddrString] in *.
  - unfold PContains in Hc. cbn in Hc. by destruct (negb _ || _).
  - cbn [BitLen wf_addr] in *. intros E. apply string4_inj in E as [-> E]; try lia. apply Itoa_inj in E; [|lia..].
    f_equal. lia.
  - intros E. exfalso. assert (58 ∈ string4 v ++ 47 :: Itoa (bp - 1)) as Hin.
    { pose proof (colon_in_6 w z) as Hz. unfold AddrString in Hz. rewrite <- E. rewrite elem_of_app. by left. }
    destruct (string4_fields v) as (a & b & c & d & _ & Wv & E4). rewrite E4 in Hin.
    unfold wf_bytes in Wv. rewrite !Forall_cons in Wv. unfold is_byte in Wv.
    assert (Hd : forall n, 0 <= n -> 58 ∉ Itoa n) by (intros n Hn; apply Itoa_plain; done).
    repeat (rewrite ?elem_of_app, ?elem_of_cons in Hin).
    pose proof (Hd a ltac:(lia)). pose proof (Hd b ltac:(lia)). pose proof (Hd c ltac:(lia)). pose proof (Hd d ltac:(lia)).
    pose proof (Hd (bp - 1) ltac:(lia)). destruct_or! Hin; first [contradiction | discriminate Hin].
Qed.

Lemma mask_top_range w bits v : 0 <= bits <= w -> 0 <= v < 2 ^ w -> 0 <= mask_top w bits v < 2 ^ w.
Proof.
  intros Hb Hv. unfold mask_top. rewrite Z.shiftl_mul_pow2, Z.shiftr_div_pow2 by lia.
  pose proof (Z.pow_pos_nonneg 2 (w - bits) ltac:(lia) ltac:(lia)).
  pose proof (Z.mul_div_le v (2 ^ (w - bits)) ltac:(lia)). pose proof (Z.div_pos v (2 ^ (w - bits)) ltac:(lia) ltac:(lia)). nia.
Qed.
Lemma Masked_addr p : wf_addr (p_ip p) -> wf_addr (p_ip (Masked p)).
Proof.
  intros H. unfold Masked, AddrPrefix. destruct (Z.ltb_spec (Bits p) 0); [done|]. destruct (p_ip p) as [|v|v z]; [done|..].
  - destruct (Z.ltb_spec 32 (Bits p)); [done|]. cbn in *. apply mask_top_range; [lia|done].
  - destruct (Z.ltb_spec 128 (Bits p)); [done|]. cbn in *. apply mask_top_range; [lia|done].
Qed.
Lemma ParsePrefix_addr s p : ParsePrefix s = Some p -> wf_addr (p_ip p).
Proof.
  unfold ParsePrefix. intros H. destruct (LastIndexByte s 47) as [i|]; [|done]. destruct (ParseAddr (take i s)) as [a|] eqn:Ea; [|done].
  apply ParseAddr_wf in Ea as [Hw _]. assert (wf_addr (withoutZone a)) by (by destruct a).
  repeat (case_hyp H; try done); by simplify_eq/=.
Qed.
