(* ===== verification/HostMatch.v ===== *)
(** * Host rules and glob matching (src/vpntunnel/hostmatch.go)

    [globMatch] is the two-index loop of the source, with its last-star
    backtracking; it is proved equivalent to the declarative meaning of a glob
    ([glob_matches]) on subjects that contain no literal star.  [compileHostRules]
    and [hostMatcher_match] model the interception rules built on it. *)

From S2P Require Import Prelude GoStrings NetIP.

Definition STAR : Z := 42.
Definition QUEST : Z := 63.

Section Glob.
Variables pattern s : bytes.

(** One iteration of the [for i < len(s)] loop of [globMatch]. *)
Record glob_state := { g_p : nat; g_i : nat; g_star : option nat; g_mark : nat }.

Definition glob_step (st : glob_state) : option glob_state :=
  match pattern !! g_p st, s !! g_i st with
  | Some c, Some x =>
      if (c =? QUEST) || (c =? x) then
        Some {| g_p := S (g_p st); g_i := S (g_i st); g_star := g_star st; g_mark := g_mark st |}
      else if c =? STAR then
        Some {| g_p := S (g_p st); g_i := g_i st; g_star := Some (g_p st); g_mark := g_i st |}
      else match g_star st with
           | Some star => Some {| g_p := S star; g_i := S (g_mark st);
                                  g_star := Some star; g_mark := S (g_mark st) |}
           | None => None
           end
  | _, _ =>
      match g_star st with
      | Some star => Some {| g_p := S star; g_i := S (g_mark st);
                             g_star := Some star; g_mark := S (g_mark st) |}
      | None => None
      end
  end.

(** The trailing [for p < len(pattern) && pattern[p] == '*'] loop and the
    final comparison. *)
Definition glob_tail (p : nat) : bool := forallb (Z.eqb STAR) (drop p pattern).

Fixpoint glob_loop (fuel : nat) (st : glob_state) : option bool :=
  if (g_i st <? length s)%nat then
    match fuel with
    | O => None
    | S fuel' =>
        match glob_step st with
        | Some st' => glob_loop fuel' st'
        | None => Some false
        end
    end
  else Some (glob_tail (g_p st)).

(** Each iteration advances the pattern or moves the mark forward. *)
Definition glob_fuel : nat := (length s + 1) * (length pattern + 2).
Definition glob_init : glob_state := {| g_p := 0; g_i := 0; g_star := None; g_mark := 0 |}.
End Glob.

Definition globMatch (pattern s : bytes) : bool :=
  default false (glob_loop pattern s (glob_fuel pattern s) glob_init).

(** ** Interception rules *)

(** [hostRule]; [hr_port] is -1 for the default port 443 and 0 for any port. *)
Record hostRule := {
  hr_exclude : bool;
  hr_pattern : bytes;
  hr_port : Z;
  hr_isIP : bool
}.

Record hostMatcher := {
  hm_rules : list hostRule;
  hm_ports : gset Z;
  hm_anyPort : bool
}.

Section HostRules.
Context `{U : UnicodeTables}.

(** [splitRulePort]: "host:port", leaving bare IPv6 literals alone. *)
Definition splitRulePort (s : bytes) : option (bytes * bytes) :=
  if HasPrefix s (lit "[") then
    match LastIndex s (lit "]:") with
    | Some (S i) => Some (take (S (S i)) s, drop (S (S (S i))) s)
    | _ => None
    end
  else if negb (CountByte s 58 =? 1)%nat then None
  else match LastIndexByte s 58 with
       | Some i => Some (take i s, drop (S i) s)
       | None => None
       end.

(** One entry of [compileHostRules]; [None] is [continue]. *)
Definition compileHostRule (raw : bytes) : option hostRule :=
  let s := ToLower (TrimSpace raw) in
  if bool_decide (s = []) || HasPrefix s (lit "#") then None
  else
    let '(exclude, s) := if HasPrefix s (lit "-") then (true, TrimSpace (drop 1 s)) else (false, s) in
    let s := TrimSuffix s (lit ".") in
    let '(s, port) :=
      match splitRulePort s with
      | Some (host, portStr) =>
          match Atoi portStr with
          | Ok p => if (0 <=? p) && (p <=? 65535) then (host, p) else (s, -1)
          | Err _ => (s, -1)
          end
      | None => (s, -1)
      end in
    let s := Trim s (lit "[]") in
    if bool_decide (s = []) then None
    else Some {| hr_exclude := exclude; hr_pattern := s; hr_port := port; hr_isIP := ParseIP_ok s |}.

(** The body of the loop: append the rule and note its explicit port. *)
Definition addHostRule (m : hostMatcher) (r : hostRule) : hostMatcher :=
  {| hm_rules := hm_rules m ++ [r];
     hm_ports := if negb (hr_exclude r) && (0 <? hr_port r) then {[hr_port r]} ∪ hm_ports m else hm_ports m;
     hm_anyPort := hm_anyPort m || (negb (hr_exclude r) && (hr_port r =? 0)) |}.

Definition compileHostRules (entries : list bytes) : hostMatcher :=
  fold_left (fun m raw => match compileHostRule raw with
                          | Some r => addHostRule m r
                          | None => m
                          end)
    entries {| hm_rules := []; hm_ports := ∅; hm_anyPort := false |}.

Definition portMatches (r : hostRule) (port : Z) : bool :=
  if hr_port r =? -1 then port =? 443
  else if hr_port r =? 0 then true
  else port =? hr_port r.

Fixpoint match_rules (rules : list hostRule) (host : bytes) (port : Z) : bool :=
  match rules with
  | [] => false
  | r :: rules' =>
      if negb (portMatches r port) then match_rules rules' host port
      else if globMatch (hr_pattern r) host then negb (hr_exclude r)
      else match_rules rules' host port
  end.

(** [hostMatcher.match]; the nil receiver is [None]. *)
Definition hostMatcher_match (m : option hostMatcher) (host : bytes) (port : Z) : bool :=
  match m with
  | None => false
  | Some m =>
      if bool_decide (host = []) then false
      else match_rules (hm_rules m) (TrimSuffix (ToLower host) (lit ".")) port
  end.

Definition hasExplicitPort (m : option hostMatcher) (port : Z) : bool :=
  match m with
  | None => false
  | Some m => hm_anyPort m || bool_decide (port ∈ hm_ports m)
  end.
End HostRules.

(** ** Declarative meaning *)

(** A star stands for any run, a question mark for one byte, anything else for
    itself. *)
Inductive glob_matches : bytes -> bytes -> Prop :=
| gm_nil : glob_matches [] []
| gm_star p r s : glob_matches p s -> glob_matches (STAR :: p) (r ++ s)
| gm_quest p c s : glob_matches p s -> glob_matches (QUEST :: p) (c :: s)
| gm_char p c s : c <> STAR -> c <> QUEST -> glob_matches p s -> glob_matches (c :: p) (c :: s).

Section GlobProofs.
Variables pattern s : bytes.
Hypothesis no_star : STAR ∉ s.

Definition M (p i : nat) : Prop := glob_matches (drop p pattern) (drop i s).

Lemma M_char p i c x :
  pattern !! p = Some c -> s !! i = Some x -> c <> STAR ->
  M p i <-> (c = QUEST \/ c = x) /\ M (S p) (S i).
Proof.
  intros Hp Hi Hc. unfold M. rewrite (drop_S_lookup _ _ _ Hp), (drop_S_lookup _ _ _ Hi).
  split.
  - intros H. inversion H; subst; naive_solver.
  - intros [[-> | ->] H]; [by constructor|].
    destruct (decide (x = QUEST)) as [->|]; by constructor.
Qed.

Lemma M_star p i :
  pattern !! p = Some STAR -> (i <= length s)%nat ->
  M p i <-> exists k, (i <= k <= length s)%nat /\ M (S p) k.
Proof.
  intros Hp Hi. unfold M. rewrite (drop_S_lookup _ _ _ Hp). split.
  - intros H. inversion H as [|p' r s' H' E1 E2| |]; subst; try done.
    exists (i + length r)%nat.
    assert (length r + length s' = length s - i)%nat as Hl
      by (rewrite <- length_app, E2, length_drop; done).
    split; [lia|]. rewrite <- drop_drop, <- E2, drop_app_length. done.
  - intros (k & Hk & H). replace (drop i s) with (slice i k s ++ drop k s); [by constructor|].
    unfold slice. replace (drop k s) with (drop (k - i) (drop i s)).
    + apply take_drop.
    + rewrite drop_drop. f_equal. lia.
Qed.

Lemma M_end_l i : (i < length s)%nat -> ~ M (length pattern) i.
Proof.
  intros Hi H. unfold M in H. rewrite drop_all in H.
  destruct (drop i s) eqn:E; [|inversion H].
  apply (f_equal length) in E. rewrite length_drop in E. cbn in E. lia.
Qed.

Lemma M_end_r p : M p (length s) <-> glob_tail pattern p = true.
Proof.
  unfold M, glob_tail. rewrite drop_all. generalize (drop p pattern) as q. intros q.
  split.
  - intros H. remember [] as t eqn:E. induction H as [|q r t' H IH| |]; subst; try done.
    apply app_eq_nil in E as [-> ->]. cbn [forallb]. by rewrite IH.
  - induction q as [|c q IH]; cbn; [constructor|].
    intros H. apply andb_true_iff in H as [<-%Z.eqb_eq H].
    apply (gm_star q [] []). auto.
Qed.

(** A star-free stretch of the pattern consumes exactly its own length. *)
Lemma M_starfree n p i :
  (forall j, (j < n)%nat -> exists c, pattern !! (p + j)%nat = Some c /\ c <> STAR) ->
  M p i -> (i <= length s)%nat -> M (p + n) (i + n) /\ (i + n <= length s)%nat.
Proof.
  revert p i. induction n as [|n IH]; intros p i Hsf H Hi.
  { rewrite !Nat.add_0_r. done. }
  destruct (Hsf 0%nat) as (c & Hc & Hne); [lia|]. rewrite Nat.add_0_r in Hc.
  destruct (s !! i) as [x|] eqn:Hx.
  - apply (M_char p i c x Hc Hx Hne) in H as [_ H].
    apply lookup_lt_Some in Hx.
    destruct (IH (S p) (S i)) as [H1 H2]; [|done|lia|].
    + intros j Hj. destruct (Hsf (S j)) as (c' & Hc' & ?); [lia|].
      exists c'. split; [|done]. rewrite <- Hc'. f_equal. lia.
    + split; [|lia]. replace (p + S n)%nat with (S p + n)%nat by lia.
      replace (i + S n)%nat with (S i + n)%nat by lia. done.
  - unfold M in H. rewrite (drop_S_lookup _ _ _ Hc) in H.
    apply lookup_ge_None in Hx. rewrite (drop_ge s i) in H by done.
    inversion H; subst; done.
Qed.

(** What the loop still has to decide: the current position matches, or the
    subject matches from some later start of the last star. *)
Definition pending (st : glob_state) : Prop :=
  M (g_p st) (g_i st) \/
  exists star k, g_star st = Some star /\ (g_mark st < k <= length s)%nat /\ M (S star) k.

Definition glob_inv (st : glob_state) : Prop :=
  (g_p st <= length pattern)%nat /\ (g_i st <= length s)%nat /\ (g_mark st <= g_i st)%nat /\
  forall star, g_star st = Some star ->
    pattern !! star = Some STAR /\ (star < g_p st)%nat /\
    (g_p st - S star = g_i st - g_mark st)%nat /\
    forall j, (S star <= j < g_p st)%nat -> exists c, pattern !! j = Some c /\ c <> STAR.

Lemma pending_later st star k :
  glob_inv st -> g_star st = Some star -> (g_mark st < k <= length s)%nat -> M (S star) k ->
  exists k', (g_i st < k' <= length s)%nat /\ M (g_p st) k'.
Proof.
  intros (Hp & Hi & Hm & Hst) Es Hk H. destruct (Hst _ Es) as (_ & Hlt & Hseg & Hsf).
  destruct (M_starfree (g_p st - S star) (S star) k) as [H1 H2]; [|done|lia|].
  - intros j Hj. apply Hsf. lia.
  - exists (k + (g_p st - S star))%nat. split; [lia|].
    replace (S star + (g_p st - S star))%nat with (g_p st) in H1 by lia. done.
Qed.

Lemma backtrack_ok st star :
  glob_inv st -> (g_i st < length s)%nat -> g_star st = Some star -> ~ M (g_p st) (g_i st) ->
  let st' := {| g_p := S star; g_i := S (g_mark st); g_star := Some star; g_mark := S (g_mark st) |} in
  glob_inv st' /\ (pending st' <-> pending st).
Proof.
  intros (Hp & Hi & Hm & Hst) Hlt Es Hno. destruct (Hst _ Es) as (Hs & Hl & _ & _).
  split.
  - split_and!; cbn; try lia. intros ? [= <-]. split_and!; [done | lia.. |]. intros; exfalso; lia.
  - unfold pending; cbn. split.
    + intros [H | (star' & k & [= <-] & Hk & H)]; right.
      * exists star, (S (g_mark st)). split_and!; [done | lia.. | done].
      * exists star, k. split_and!; [done | lia.. | done].
    + intros [H | (star' & k & E & Hk & H)]; [done|]. rewrite Es in E. injection E as <-.
      destruct (decide (k = S (g_mark st))) as [->|]; [by left|].
      right. exists star, k. split_and!; [done | lia.. | done].
Qed.

Definition glob_measure (st : glob_state) : nat :=
  (length s - g_mark st) * (length pattern + 2) + (length pattern - g_p st).

Lemma step_ok st st' :
  glob_inv st -> (g_i st < length s)%nat -> glob_step pattern s st = Some st' ->
  glob_inv st' /\ (pending st' <-> pending st) /\ (glob_measure st' < glob_measure st)%nat.
Proof.
  intros Hinv Hlt E. pose proof Hinv as (Hp & Hi & Hm & Hst).
  assert (forall star, g_star st = Some star ->
    let st'' := {| g_p := S star; g_i := S (g_mark st); g_star := Some star; g_mark := S (g_mark st) |} in
    (glob_measure st'' < glob_measure st)%nat) as Hback.
  { intros star Es. destruct (Hst _ Es) as (_ & Hl & _ & _). unfold glob_measure; cbn.
    replace (length s - g_mark st)%nat with (S (length s - S (g_mark st))) by lia. nia. }
  destruct (lookup_lt_is_Some_2 s (g_i st) Hlt) as [x Hx].
  unfold glob_step in E. rewrite Hx in E.
  destruct (pattern !! g_p st) as [c|] eqn:Hc.
  - pose proof (lookup_lt_Some _ _ _ Hc) as Hpl.
    destruct ((c =? QUEST) || (c =? x)) eqn:Hm1; [|destruct (c =? STAR) eqn:Hm2].
    + injection E as <-.
      assert (c <> STAR /\ (c = QUEST \/ c = x)) as [Hcs Hcx].
      { apply orb_true_iff in Hm1 as [H%Z.eqb_eq | H%Z.eqb_eq]; split; subst; auto; try done.
        intros ->. apply no_star. by eapply list_elem_of_lookup_2. }
      split_and!; [unfold glob_inv; split_and!; cbn; try lia| |].
      * intros star Es. destruct (Hst _ Es) as (? & ? & ? & Hsf). split_and!; [done | lia.. |].
        intros j Hj. destruct (decide (j = g_p st)) as [->|]; [eauto|]. apply Hsf. lia.
      * unfold pending; cbn. rewrite (M_char _ _ _ _ Hc Hx Hcs). tauto.
      * unfold glob_measure; cbn. lia.
    + injection E as <-. apply Z.eqb_eq in Hm2 as ->.
      split_and!; [unfold glob_inv; split_and!; cbn; try lia| |].
      * intros ? [= <-]. split_and!; [done | lia.. |]. intros; exfalso; lia.
      * unfold pending; cbn. split.
        { intros [H | (star & k & [= <-] & Hk & H)]; left; (apply M_star; [done | lia |]).
          - exists (g_i st). split; [lia | done].
          - exists k. split; [lia | done]. }
        intros [H | (star & k & Es & Hk & H)].
        -- apply M_star in H as (k & Hk & H); [|done..].
           destruct (decide (k = g_i st)) as [->|]; [by left|].
           right. exists (g_p st), k. split_and!; [done | lia.. | done].
        -- destruct (pending_later _ _ _ Hinv Es Hk H) as (k1 & Hk1 & H1).
           apply M_star in H1 as (k2 & Hk2 & H2); [|done|lia].
           right. exists (g_p st), k2. split_and!; [done | lia.. | done].
      * unfold glob_measure; cbn. nia.
    + destruct (g_star st) as [star|] eqn:Es; [|done]. injection E as <-.
      destruct (backtrack_ok st star) as [H1 H2]; [done..| |].
      * rewrite (M_char _ _ _ _ Hc Hx) by lia. to_prop. naive_solver.
      * naive_solver.
  - destruct (g_star st) as [star|] eqn:Es; [|done]. injection E as <-.
    destruct (backtrack_ok st star) as [H1 H2]; [done..| |].
    + apply lookup_ge_None in Hc. replace (g_p st) with (length pattern) by lia.
      by apply M_end_l.
    + naive_solver.
Qed.

Lemma stuck_ok st :
  glob_inv st -> (g_i st < length s)%nat -> glob_step pattern s st = None -> ~ pending st.
Proof.
  intros (Hp & Hi & Hm & Hst) Hlt E.
  destruct (lookup_lt_is_Some_2 s (g_i st) Hlt) as [x Hx].
  unfold glob_step in E. rewrite Hx in E. unfold pending.
  destruct (g_star st) as [star|] eqn:Es.
  { by repeat case_hyp E. }
  intros [H | (? & ? & ? & _)]; [|done].
  destruct (pattern !! g_p st) as [c|] eqn:Hc.
  - destruct ((c =? QUEST) || (c =? x)) eqn:H1; [done|]. destruct (c =? STAR) eqn:H2; [done|].
    apply (M_char _ _ _ _ Hc Hx) in H; to_prop; naive_solver.
  - apply lookup_ge_None in Hc. replace (g_p st) with (length pattern) in H by lia.
    by apply M_end_l in H.
Qed.

Lemma finish_ok st :
  glob_inv st -> ~ (g_i st < length s)%nat -> pending st <-> glob_tail pattern (g_p st) = true.
Proof.
  intros Hinv Hge. pose proof Hinv as (Hp & Hi & _ & _).
  rewrite <- M_end_r. unfold pending. replace (g_i st) with (length s) by lia.
  split; [|auto]. intros [H | (star & k & Es & Hk & H)]; [done|].
  destruct (pending_later _ _ _ Hinv Es Hk H) as (? & ? & _). lia.
Qed.

Lemma glob_loop_ok fuel st :
  glob_inv st -> (glob_measure st < fuel)%nat ->
  exists b, glob_loop pattern s fuel st = Some b /\ (b = true <-> pending st).
Proof.
  revert st. induction fuel as [|fuel IH]; intros st Hinv Hf; [lia|].
  cbn [glob_loop]. destruct (Nat.ltb_spec (g_i st) (length s)) as [Hlt|Hge].
  - destruct (glob_step pattern s st) as [st'|] eqn:E.
    + destruct (step_ok _ _ Hinv Hlt E) as (H1 & H2 & H3).
      destruct (IH st' H1) as (b & Hb & Hiff); [lia|]. exists b. naive_solver.
    + exists false. split; [done|]. pose proof (stuck_ok _ Hinv Hlt E). naive_solver.
  - eexists. split; [done|]. symmetry. apply finish_ok; [done | lia].
Qed.
End GlobProofs.

(** The loop always returns within its fuel. *)
Lemma glob_loop_total pattern s :
  STAR ∉ s -> exists b, glob_loop pattern s (glob_fuel pattern s) glob_init = Some b /\
                        (b = true <-> glob_matches pattern s).
Proof.
  intros Hns. destruct (glob_loop_ok pattern s Hns (glob_fuel pattern s) glob_init) as (b & Hb & Hiff).
  - split_and!; cbn; try lia. done.
  - unfold glob_measure, glob_fuel, glob_init; cbn. nia.
  - exists b. split; [done|]. rewrite Hiff. unfold pending, M; cbn. rewrite !drop_0. naive_solver.
Qed.

Lemma globMatch_iff pattern s :
  STAR ∉ s -> globMatch pattern s = true <-> glob_matches pattern s.
Proof.
  intros Hns. destruct (glob_loop_total pattern s Hns) as (b & Hb & Hiff).
  unfold globMatch. by rewrite Hb.
Qed.

(** C15: on every subject without a literal star, [globMatch] terminates and
    decides exactly the declarative meaning of the glob: the greedy loop that
    remembers only the last star loses no match. *)
Theorem globMatch_correct pattern s :
  STAR ∉ s ->
  is_Some (glob_loop pattern s (glob_fuel pattern s) glob_init) /\
  (globMatch pattern s = true <-> glob_matches pattern s).
Proof.
  intros Hns. split; [|by apply globMatch_iff].
  destruct (glob_loop_total pattern s Hns) as (b & Hb & _). by exists b.
Qed.

Lemma globMatch_correct_witness :
  STAR ∉ lit "api.example.com" /\
  is_Some (glob_loop (lit "*.ex?mple.com") (lit "api.example.com")
             (glob_fuel (lit "*.ex?mple.com") (lit "api.example.com")) glob_init) /\
  (globMatch (lit "*.ex?mple.com") (lit "api.example.com") = true <->
   glob_matches (lit "*.ex?mple.com") (lit "api.example.com")).
Proof.
  assert (STAR ∉ lit "api.example.com") as H by (vm_compute; set_solver).
  split; [exact H | exact (globMatch_correct (lit "*.ex?mple.com") (lit "api.example.com") H)].
Defined.

(** ** Properties of the rules *)

Section HostRuleProofs.
Context `{U : UnicodeTables}.

(** First match wins: the verdict is the polarity of the first rule whose port
    and pattern match, and there is no verdict without one. *)
Lemma match_rules_first rules host port :
  match_rules rules host port = true <->
  exists pre r post, rules = pre ++ r :: post /\ hr_exclude r = false /\
    portMatches r port = true /\ globMatch (hr_pattern r) host = true /\
    Forall (fun r' => (portMatches r' port && globMatch (hr_pattern r') host)%bool = false) pre.
Proof.
  induction rules as [|r rules IH]; cbn.
  - split; [done|]. intros (pre & r & post & H & _). by destruct pre.
  - destruct (portMatches r port) eqn:Ep, (globMatch (hr_pattern r) host) eqn:Eg; cbn.
    1: { rewrite negb_true_iff. split.
      - intros Hx. exists [], r, rules. split_and!; [done..|constructor].
      - intros (pre & r' & post & E & Hx & Hp & Hg & Hpre).
        destruct pre as [|r0 pre]; cbn in E; injection E as -> E; [done|].
        rewrite Forall_cons, Ep, Eg in Hpre. by destruct Hpre. }
    all: rewrite IH; split;
      [ intros (pre & r' & post & -> & Hr); exists (r :: pre), r', post;
        destruct_and! Hr; split_and!; [done..|]; rewrite Forall_cons, Ep, Eg; done
      | intros (pre & r' & post & E & Hx & Hp & Hg & Hpre);
        destruct pre as [|r0 pre]; cbn in E; injection E as -> E;
        [ rewrite ?Ep, ?Eg in *; done
        | rewrite Forall_cons in Hpre; destruct Hpre;
          exists pre, r', post; split_and!; done ] ].
Qed.

Lemma compile_rules_app entries m :
  hm_rules (fold_left (fun m raw => match compileHostRule raw with
                                    | Some r => addHostRule m r | None => m end) entries m)
  = hm_rules m ++ omap compileHostRule entries.
Proof.
  revert m. induction entries as [|e es IH]; intros m; cbn; [by rewrite app_nil_r|].
  rewrite IH. destruct (compileHostRule e); cbn; [by rewrite <- app_assoc|done].
Qed.

(** The ports a matcher must peek at, from its include rules. *)
Definition explicit_ok (m : hostMatcher) : Prop :=
  forall port, (hm_anyPort m || bool_decide (port ∈ hm_ports m)) = true <->
    exists r, r ∈ hm_rules m /\ hr_exclude r = false /\ (hr_port r = 0 \/ 0 < hr_port r /\ hr_port r = port).

Lemma explicit_add m r : explicit_ok m -> explicit_ok (addHostRule m r).
Proof.
  intros H port. specialize (H port). cbn. setoid_rewrite elem_of_app.
  setoid_rewrite list_elem_of_singleton.
  transitivity ((hm_anyPort m || bool_decide (port ∈ hm_ports m)) = true \/
                (hr_exclude r = false /\ (hr_port r = 0 \/ 0 < hr_port r /\ hr_port r = port))).
  - destruct (hr_exclude r); cbn; rewrite ?orb_false_r; [intuition congruence|].
    destruct (Z.ltb_spec 0 (hr_port r)), (Z.eqb_spec (hr_port r) 0);
      rewrite ?orb_true_r, ?orb_false_r, ?orb_true_iff, !bool_decide_eq_true,
        ?elem_of_union, ?elem_of_singleton; intuition (try lia; congruence).
  - rewrite H. split.
    + intros [(r0 & Hr & Hx) | Hx]; [exists r0 | exists r]; auto.
    + intros (r0 & [Hr | ->] & Hx); [left; exists r0 | right]; auto.
Qed.

Lemma explicit_fold entries m :
  explicit_ok m ->
  explicit_ok (fold_left (fun m raw => match compileHostRule raw with
                                       | Some r => addHostRule m r | None => m end) entries m).
Proof.
  revert m. induction entries as [|e es IH]; intros m H; cbn; [done|].
  apply IH. destruct (compileHostRule e); [by apply explicit_add | done].
Qed.

Lemma compileHostRules_rules entries :
  hm_rules (compileHostRules entries) = omap compileHostRule entries.
Proof. unfold compileHostRules. by rewrite compile_rules_app. Qed.

Lemma compileHostRules_explicit entries : explicit_ok (compileHostRules entries).
Proof.
  apply explicit_fold. intros port. cbn. rewrite bool_decide_eq_true.
  split; [set_solver|]. intros (r & Hr & _). by apply elem_of_nil in Hr.
Qed.

Lemma portMatches_cases r port :
  portMatches r port = true <->
  hr_port r = -1 /\ port = 443 \/ hr_port r = 0 \/ (hr_port r <> -1 /\ port = hr_port r).
Proof.
  unfold portMatches. destruct (Z.eqb_spec (hr_port r) (-1)), (Z.eqb_spec (hr_port r) 0);
    rewrite ?Z.eqb_eq; intuition lia.
Qed.

Lemma compileHostRule_port raw r : compileHostRule raw = Some r -> -1 <= hr_port r <= 65535.
Proof.
  unfold compileHostRule. intros H. repeat (case_hyp H; try done);
    simplify_eq/=; repeat (case_match; simplify_eq/=); to_prop; lia.
Qed.
End HostRuleProofs.

(** A host and port are intercepted exactly when the first entry whose port
    and pattern match them is an include rule: compilation keeps the order of the
    entries, and no entry means no interception. *)
Theorem host_first_match `{U : UnicodeTables} entries host port :
  hostMatcher_match (Some (compileHostRules entries)) host port = true <->
  host <> [] /\
  exists pre r post, omap compileHostRule entries = pre ++ r :: post /\ hr_exclude r = false /\
    portMatches r port = true /\
    globMatch (hr_pattern r) (TrimSuffix (ToLower host) (lit ".")) = true /\
    Forall (fun r' => (portMatches r' port &&
                       globMatch (hr_pattern r') (TrimSuffix (ToLower host) (lit ".")))%bool = false) pre.
Proof.
  unfold hostMatcher_match. rewrite compileHostRules_rules.
  destruct (bool_decide (host = [])) eqn:E; to_prop; [naive_solver|].
  rewrite match_rules_first. naive_solver.
Qed.

(** Peeking is complete: every flow [match] would intercept is either on the
    default port 443 or on a port [hasExplicitPort] tells the dispatcher to peek
    at. *)
Theorem peek_ports_complete `{U : UnicodeTables} entries host port :
  hostMatcher_match (Some (compileHostRules entries)) host port = true ->
  port = 443 \/ hasExplicitPort (Some (compileHostRules entries)) port = true.
Proof.
  unfold hostMatcher_match. destruct (bool_decide (host = [])); [done|].
  rewrite match_rules_first. intros (pre & r & post & E & Hx & Hp & _ & _).
  assert (r ∈ hm_rules (compileHostRules entries)) as Hr by (rewrite E; set_solver).
  assert (-1 <= hr_port r) as Hlo.
  { rewrite compileHostRules_rules in Hr. apply list_elem_of_omap in Hr as (raw & _ & Hc).
    apply compileHostRule_port in Hc. lia. }
  apply portMatches_cases in Hp as [[_ ->] | Hp]; [by left|right].
  apply (compileHostRules_explicit entries port). exists r. split_and!; [done..|]. lia.
Qed.

(** A star is not "any run" when the subject has a literal star under it: the
    loop first compares the two stars as ordinary bytes and does not remember the
    star, so the pattern "*" rejects the subject "*a" although the declarative
    meaning accepts it. *)
Theorem globMatch_literal_star_rejected :
  globMatch (lit "*") (lit "*a") = false /\ glob_matches (lit "*") (lit "*a").
Proof.
  split; [by vm_compute|].
  change (glob_matches (STAR :: []) (lit "*a" ++ [])). repeat constructor.
Qed.

#[local] Existing Instance caseless_tables.

Lemma peek_ports_complete_witness :
  let m := Some (compileHostRules [lit "-internal.example.com:8443"; lit "*.example.com:8443"]) in
  hostMatcher_match m (lit "API.example.com.") 8443 = true /\
  (8443 = 443 \/ hasExplicitPort m 8443 = true).
Proof.
  split; [vm_compute; reflexivity|].
  apply (peek_ports_complete [lit "-internal.example.com:8443"; lit "*.example.com:8443"]
           (lit "API.example.com.") 8443).
  vm_compute. reflexivity.
Defined.
