(* ===== verification/Routing.v ===== *)
(** * Routing rules of Tailscale mode (src/vpntunnel/routing.go)

    The compiled rule table, its first-match decisions for names and addresses,
    and the two lists derived from it: the prefixes a full tunnel excludes at the
    operating-system level and the DNS domains the tunnel must see. *)

From S2P Require Import Prelude GoStrings NetIP HostMatch.

(** [fakeIPPrefix] of fakeip.go: 198.18.0.0/15. *)
Definition fakeIPPrefix : Prefix := {| p_ip := A4 (198 * 2 ^ 24 + 18 * 2 ^ 16); p_bits1 := 16 |}.

Inductive routeAction := routeNone | routeSSH | routeDirect.
#[export] Instance routeAction_eq_dec : EqDecision routeAction.
Proof. solve_decision. Defined.

Record routingRuleJSON := { rj_pattern : bytes; rj_action : bytes }.
Record routingConfigJSON := { rc_sendAllViaSSH : bool; rc_rules : list routingRuleJSON }.

Record routingRule := {
  r_action : routeAction;
  r_prefix : Prefix;
  r_domain : bytes;
  r_glob : bytes
}.

Record routeTable := {
  rt_rules : list routingRule;
  rt_sendAllViaSSH : bool;
  rt_sshEnabled : bool
}.

Section Compile.
Context `{U : UnicodeTables}.

(** One entry of [compileRouteTable]; [None] is [continue]. *)
Definition compileRule (raw : routingRuleJSON) : option routingRule :=
  let act := ToLower (TrimSpace (rj_action raw)) in
  let action := if bool_decide (act = lit "ssh") then Some routeSSH
                else if bool_decide (act = lit "direct") then Some routeDirect
                else None in
  match action with
  | None => None
  | Some a =>
      let s := TrimSuffix (ToLower (TrimSpace (rj_pattern raw))) (lit ".") in
      if bool_decide (s = []) || HasPrefix s (lit "#") then None
      else match ParsePrefix s with
      | Some p => Some {| r_action := a; r_prefix := Masked p; r_domain := []; r_glob := [] |}
      | None =>
          match ParseAddr (Trim s (lit "[]")) with
          | Some ad => Some {| r_action := a; r_prefix := PrefixFrom ad (BitLen ad);
                               r_domain := []; r_glob := [] |}
          | None =>
              if ContainsAny s (lit "*?")
              then Some {| r_action := a; r_prefix := PZero; r_domain := []; r_glob := s |}
              else Some {| r_action := a; r_prefix := PZero; r_domain := s; r_glob := [] |}
          end
      end
  end.

Definition compileRouteTable (cfg : routingConfigJSON) (sshEnabled : bool) : routeTable :=
  {| rt_rules := omap compileRule (rc_rules cfg);
     rt_sendAllViaSSH := rc_sendAllViaSSH cfg && sshEnabled;
     rt_sshEnabled := sshEnabled |}.
End Compile.

Definition isHostRule (r : routingRule) : bool :=
  negb (bool_decide (r_domain r = [])) || negb (bool_decide (r_glob r = [])).

(** [routingRule.matchHost]. *)
Definition rule_matchHost (r : routingRule) (host : bytes) : bool :=
  if negb (bool_decide (r_domain r = [])) then
    bool_decide (host = r_domain r) || HasSuffix host (lit "." ++ r_domain r)
  else negb (bool_decide (r_glob r = [])) && globMatch (r_glob r) host.

(** [routeTable.effective]: SSH verdicts are inert without an SSH host. *)
Definition effective (t : routeTable) (a : routeAction) : routeAction :=
  if bool_decide (a = routeSSH) && negb (rt_sshEnabled t) then routeNone else a.

Section Match.
Context `{U : UnicodeTables}.

Definition normHost (host : bytes) : bytes := TrimSuffix (ToLower host) (lit ".").

(** [routeTable.matchHost]; the nil receiver is [None]. *)
Definition matchHost (t : option routeTable) (host : bytes) : routeAction :=
  match t with
  | None => routeNone
  | Some t =>
      if bool_decide (host = []) then routeNone
      else match find (fun r => isHostRule r && rule_matchHost r (normHost host)) (rt_rules t) with
           | Some r => effective t (r_action r)
           | None => routeNone
           end
  end.
End Match.

Definition rule_matchIP (ip : Addr) (r : routingRule) : bool :=
  PValid (r_prefix r) && PContains (r_prefix r) ip.

(** [routeTable.matchIP]. *)
Definition matchIP (t : option routeTable) (ip : Addr) : routeAction :=
  match t with
  | None => routeNone
  | Some t =>
      if negb (IsValid ip) then routeNone
      else match find (rule_matchIP (Unmap ip)) (rt_rules t) with
           | Some r => effective t (r_action r)
           | None => routeNone
           end
  end.

(** [routeTable.prefixes]. *)
Definition prefixes (t : option routeTable) (a : routeAction) : list Prefix :=
  match t with
  | None => []
  | Some t =>
      omap (fun r => if PValid (r_prefix r) && bool_decide (effective t (r_action r) = a)
                     then Some (r_prefix r) else None) (rt_rules t)
  end.

(** The loop of [directExclusions]: [ssh] collects the SSH prefixes seen so far. *)
Fixpoint directExclusions_loop (t : routeTable) (rules : list routingRule) (ssh : list Prefix)
    : list Prefix :=
  match rules with
  | [] => []
  | r :: rules' =>
      if negb (PValid (r_prefix r)) then directExclusions_loop t rules' ssh
      else match effective t (r_action r) with
      | routeSSH => directExclusions_loop t rules' (ssh ++ [r_prefix r])
      | routeDirect =>
          if negb (Overlaps (r_prefix r) fakeIPPrefix) && negb (existsb (Overlaps (r_prefix r)) ssh)
          then r_prefix r :: directExclusions_loop t rules' ssh
          else directExclusions_loop t rules' ssh
      | routeNone => directExclusions_loop t rules' ssh
      end
  end.

Definition directExclusions (t : option routeTable) : list Prefix :=
  match t with None => [] | Some t => directExclusions_loop t (rt_rules t) [] end.

(** [globSuffix]: the longest dot-led literal tail of a glob, without the dot. *)
Definition globSuffix (glob : bytes) : bytes :=
  let tail := match LastIndexAny glob (lit "*?") with Some i => drop (S i) glob | None => glob end in
  match IndexByte tail 46 with
  | Some j => Trim (drop j tail) (lit ".")
  | None => []
  end.

(** The loop of [dnsDomains]: [seen] and [out] grow together. *)
Fixpoint dnsDomains_loop (t : routeTable) (a : routeAction) (rules : list routingRule) (out : list bytes)
    : list bytes :=
  match rules with
  | [] => out
  | r :: rules' =>
      if negb (isHostRule r) || negb (bool_decide (effective t (r_action r) = a))
      then dnsDomains_loop t a rules' out
      else
        let d := if negb (bool_decide (r_domain r = [])) then r_domain r else globSuffix (r_glob r) in
        dnsDomains_loop t a rules' (if bool_decide (d ∈ out) then out else out ++ [d])
  end.

Definition dnsDomains (t : option routeTable) (a : routeAction) : list bytes :=
  match t with None => [] | Some t => dnsDomains_loop t a (rt_rules t) [] end.

(** ** Lookup facts *)

Lemma find_split {A} (f : A -> bool) l x :
  find f l = Some x -> exists pre post, l = pre ++ x :: post /\ f x = true /\ Forall (fun y => f y = false) pre.
Proof.
  induction l as [|y l IH]; cbn; [done|]. destruct (f y) eqn:E.
  - intros [= ->]. exists [], l. split_and!; [done..|constructor].
  - intros H. destruct (IH H) as (pre & post & -> & Hx & Hp).
    exists (y :: pre), post. split_and!; [done..|by constructor].
Qed.

Lemma find_app_skip {A} (f : A -> bool) pre x post :
  f x = true -> exists y, find f (pre ++ x :: post) = Some y /\ (y = x \/ y ∈ pre) /\ f y = true.
Proof.
  intros Hx. induction pre as [|z pre IH]; cbn.
  - rewrite Hx. eauto.
  - destruct (f z) eqn:E; [|destruct IH as (y & -> & [->|Hy] & Hf)].
    + exists z. split_and!; [done|right; constructor|done].
    + exists x. auto.
    + exists y. split_and!; [done|right; by constructor|done].
Qed.

Section CompileFacts.
Context `{U : UnicodeTables}.

Lemma compileRule_action raw r :
  compileRule raw = Some r -> r_action r = routeSSH \/ r_action r = routeDirect.
Proof.
  unfold compileRule. intros H. destruct (bool_decide (_ = lit "ssh"));
    [|destruct (bool_decide (_ = lit "direct")); [|done]];
    repeat (case_hyp H; try done); simplify_eq/=; auto.
Qed.

Lemma compileRule_good raw r : compileRule raw = Some r -> good_prefix (r_prefix r).
Proof.
  unfold compileRule. intros H. split.
  - repeat (case_hyp H; try done); simplify_eq/=.
    all: try done.
    all: match goal with
         | E : ParsePrefix _ = Some _ |- _ => apply Masked_addr; by eapply ParsePrefix_addr
         | E : ParseAddr _ = Some ?ad |- _ => apply ParseAddr_wf in E as [? _]; by destruct ad
         end.
  - repeat (case_hyp H; try done); simplify_eq/=;
      first [apply wf_Masked | apply wf_PrefixFrom | unfold wf_prefix; cbn; lia].
Qed.

Lemma table_rule_good cfg b r :
  r ∈ rt_rules (compileRouteTable cfg b) ->
  (r_action r = routeSSH \/ r_action r = routeDirect) /\ good_prefix (r_prefix r).
Proof.
  cbn. rewrite list_elem_of_omap. intros (raw & _ & H).
  eauto using compileRule_action, compileRule_good.
Qed.
Lemma table_rule cfg b r :
  r ∈ rt_rules (compileRouteTable cfg b) ->
  (r_action r = routeSSH \/ r_action r = routeDirect) /\ wf_prefix (r_prefix r).
Proof. intros [? [_ ?]]%table_rule_good. auto. Qed.
End CompileFacts.

Lemma PContains_valid p ip : PContains p ip = true -> PValid p = true /\ IsValid ip = true.
Proof. unfold PContains. destruct (PValid p), ip, (p_ip p); cbn; try done; case_goal; done. Qed.

(** What an excluded prefix promises: it comes from a direct rule, and it overlaps
    neither the fake range nor any SSH prefix before it. *)
Definition excluded_in (t : routeTable) (p : Prefix) (rules : list routingRule) (ssh : list Prefix) : Prop :=
  exists pre r post, rules = pre ++ r :: post /\ r_prefix r = p /\ PValid p = true /\
    effective t (r_action r) = routeDirect /\ Overlaps p fakeIPPrefix = false /\
    Forall (fun q => Overlaps p q = false) ssh /\
    Forall (fun r' => PValid (r_prefix r') = true -> effective t (r_action r') = routeSSH ->
                      Overlaps p (r_prefix r') = false) pre.

Lemma excluded_in_cons t p r rules ssh :
  (PValid (r_prefix r) = true -> effective t (r_action r) = routeSSH -> Overlaps p (r_prefix r) = false) ->
  excluded_in t p rules ssh -> excluded_in t p (r :: rules) ssh.
Proof.
  intros Hr (pre & r0 & post & -> & H). exists (r :: pre), r0, post.
  destruct_and! H. split_and!; try done. by constructor.
Qed.

Lemma directExclusions_loop_split t rules ssh p :
  p ∈ directExclusions_loop t rules ssh -> excluded_in t p rules ssh.
Proof.
  revert ssh. induction rules as [|r rules IH]; intros ssh; cbn; [by rewrite elem_of_nil|].
  destruct (PValid (r_prefix r)) eqn:V; cbn.
  2: { intros H. apply excluded_in_cons; [congruence|auto]. }
  destruct (effective t (r_action r)) eqn:E; intros H.
  - apply excluded_in_cons; [congruence|auto].
  - destruct (IH _ H) as (pre & r0 & post & -> & Hr0). destruct_and! Hr0.
    match goal with F : Forall _ (ssh ++ _) |- _ => apply Forall_app in F as [? F]; rewrite Forall_singleton in F end.
    exists (r :: pre), r0, post. split_and!; try done. constructor; [by intros|done].
  - destruct (negb (Overlaps (r_prefix r) fakeIPPrefix) && negb (existsb (Overlaps (r_prefix r)) ssh)) eqn:C.
    + apply elem_of_cons in H as [-> | H]; [|apply excluded_in_cons; [congruence|auto]].
      to_prop. exists [], r, rules. split_and!; try done. by apply existsb_False.
    + apply excluded_in_cons; [congruence|auto].
Qed.

(** ** Globs and DNS suffixes *)

(** A literal tail of a glob is a tail of every subject it matches. *)
Lemma glob_literal_suffix q tail s :
  Forall (fun c => c <> STAR /\ c <> QUEST) tail ->
  glob_matches (q ++ tail) s -> exists r, s = r ++ tail.
Proof.
  intros Ht. revert s. induction q as [|c q IH]; intros s H; cbn in H.
  - exists []. cbn. clear -Ht H. revert s H.
    induction Ht as [|c tail [Hs Hq] Ht IH]; intros s H; inversion H; subst; try done.
    f_equal. auto.
  - inversion H; subst;
      match goal with G : glob_matches (q ++ tail) ?s' |- _ => destruct (IH s' G) as [r' ->] end;
      [exists (r ++ r'); by rewrite app_assoc | exists (c0 :: r'); done | exists (c :: r'); done].
Qed.

Lemma elem_of_dot x : x ∈ lit "." <-> x = 46.
Proof. change (lit ".") with [46]. apply list_elem_of_singleton. Qed.

(** [covers d h]: a resolver that routes [d] to the tunnel sends it [h]. *)
Definition covers (d h : bytes) : Prop :=
  d = [] \/ h = d \/ HasSuffix h (lit "." ++ d) = true.

Lemma globSuffix_covers g h :
  STAR ∉ h -> HasSuffix h (lit ".") = false -> globMatch g h = true -> covers (globSuffix g) h.
Proof.
  intros Hns Hdot Hm. apply globMatch_iff in Hm; [|done]. unfold globSuffix.
  set (tail := match LastIndexAny g (lit "*?") with Some i => drop (S i) g | None => g end).
  assert (exists r, h = r ++ tail) as [r ->].
  { apply (glob_literal_suffix (take (length g - length tail) g)).
    - subst tail. unfold LastIndexAny. destruct (last_index_from _ g) as [i|] eqn:E.
      + apply last_index_from_Some in E as (c & _ & _ & E). eapply Forall_impl; [exact E|].
        cbn. intros x Hx. apply bool_decide_eq_false in Hx. unfold STAR, QUEST. set_solver.
      + apply last_index_from_None in E. eapply Forall_impl; [exact E|].
        cbn. intros x Hx. apply bool_decide_eq_false in Hx. unfold STAR, QUEST. set_solver.
    - replace (take _ g ++ tail) with g; [done|]. subst tail.
      destruct (LastIndexAny g (lit "*?")) as [i|].
      + rewrite length_drop. destruct (decide (S i <= length g)%nat).
        * replace (length g - (length g - S i))%nat with (S i) by lia. by rewrite take_drop.
        * rewrite drop_ge by lia. rewrite app_nil_r, take_ge; [done|lia].
      + replace (length g - length g)%nat with 0%nat by lia. done. }
  destruct (IndexByte tail 46) as [j|] eqn:Ej; [|by left].
  destruct (Trim_spec (drop j tail) (lit ".")) as (a & b & E & Ha & Hb & Hl & Hr).
  apply IndexByte_split in Ej as [Ej _].
  assert (drop j tail = 46 :: drop (S j) tail) as Hd.
  { rewrite Ej at 1. rewrite drop_app_length'; [done|].
    assert (j < length tail)%nat by (apply (f_equal length) in Ej; len_lia).
    rewrite length_take. lia. }
  assert (b = []) as ->.
  { destruct b as [|x b] using rev_ind; [done|]. exfalso.
    apply Forall_app in Hb as [_ Hb]. rewrite Forall_singleton in Hb.
    apply elem_of_dot in Hb as ->.
    assert (HasSuffix (r ++ tail) (lit ".") = true); [|congruence].
    apply HasSuffix_true. exists (r ++ take j tail ++ a ++ Trim (drop j tail) (lit ".") ++ b).
    rewrite <- (take_drop j tail) at 1. rewrite E at 1. by rewrite !app_assoc. }
  rewrite app_nil_r in E. destruct (Trim (drop j tail) (lit ".")) as [|x d] eqn:Et; [by left|].
  right; right. destruct a as [|y a] using rev_ind.
  { exfalso. rewrite Hd in E. injection E as <- _. apply (Hl 46 d); [done|]. by apply elem_of_dot. }
  apply Forall_app in Ha as [_ Ha]. rewrite Forall_singleton in Ha.
  apply elem_of_dot in Ha as ->.
  apply HasSuffix_true. exists (r ++ take j tail ++ a).
  rewrite <- (take_drop j tail) at 1. rewrite E. by rewrite <- !app_assoc.
Qed.

Lemma dnsDomains_loop_mono t a rules out d : d ∈ out -> d ∈ dnsDomains_loop t a rules out.
Proof.
  revert out. induction rules as [|r rules IH]; intros out H; cbn; [done|].
  repeat case_goal; apply IH; set_solver.
Qed.

Lemma dnsDomains_loop_rule t a rules out r :
  r ∈ rules -> isHostRule r = true -> effective t (r_action r) = a ->
  (if negb (bool_decide (r_domain r = [])) then r_domain r else globSuffix (r_glob r))
    ∈ dnsDomains_loop t a rules out.
Proof.
  intros Hr Hh He. revert out. induction rules as [|r' rules IH]; intros out; cbn; [set_solver|].
  apply elem_of_cons in Hr as [-> | Hr].
  - rewrite Hh, (bool_decide_true (effective _ _ = _)) by done. cbn. apply dnsDomains_loop_mono.
    generalize (if negb (bool_decide (r_domain r' = [])) then r_domain r' else globSuffix (r_glob r')).
    intros d. clear. case_bool_decide; set_solver.
  - repeat case_goal; auto.
Qed.

(** ** What the table promises *)

Lemma excluded_direct `{U : UnicodeTables} cfg p ip :
  let t := compileRouteTable cfg true in
  p ∈ directExclusions (Some t) -> PContains p (Unmap ip) = true ->
  matchIP (Some t) ip = routeDirect /\ PContains fakeIPPrefix (Unmap ip) = false.
Proof.
  intros t Hp Hc.
  destruct (directExclusions_loop_split _ _ _ _ Hp) as (pre & r & post & E & Er & V & Ha & Hf & _ & Hpre).
  assert (forall r', r' ∈ rt_rules t -> wf_prefix (r_prefix r')) as Hwf
    by (intros r' H; by apply table_rule in H as [_ ?]).
  assert (wf_prefix p) as Wp by (subst p; apply Hwf; rewrite E; set_solver).
  destruct (PContains_valid _ _ Hc) as [_ Hv].
  split.
  - unfold matchIP. assert (IsValid ip = true) as -> by (by destruct ip). cbn [negb].
    rewrite E. destruct (find_app_skip (rule_matchIP (Unmap ip)) pre r post) as (y & -> & Hy & Hm).
    { unfold rule_matchIP. by rewrite Er, V. }
    destruct Hy as [->|Hy]; [done|]. unfold rule_matchIP in Hm. to_prop.
    rewrite Forall_forall in Hpre. specialize (Hpre y Hy).
    assert (y ∈ rt_rules t) as Hin by (rewrite E; set_solver).
    destruct (table_rule _ _ _ Hin) as [[Hs | Hd] Wy]; unfold effective in *; cbn in *.
    + rewrite Hs in Hpre. cbn in Hpre. exfalso.
      assert (Overlaps p (r_prefix y) = true) by (eapply contains_overlaps; eauto).
      rewrite Hpre in *; done.
    + by rewrite Hd.
  - destruct (PContains fakeIPPrefix (Unmap ip)) eqn:F; [|done].
    assert (Overlaps p fakeIPPrefix = true); [|congruence].
    eapply contains_overlaps; eauto. unfold wf_prefix. cbn. lia.
Qed.

(** The prefixes a full tunnel excludes at the OS level are exactly safe: every
    address inside an excluded prefix is one the table itself routes directly, and
    none of them is a fake address, so excluding it never bypasses an SSH rule. *)
Theorem directExclusions_sound `{U : UnicodeTables} cfg p ip :
  let t := compileRouteTable cfg true in
  p ∈ directExclusions (Some t) -> PContains p (Unmap ip) = true ->
  matchIP (Some t) ip = routeDirect /\ PContains fakeIPPrefix (Unmap ip) = false.
Proof. apply excluded_direct. Qed.

Lemma dnsDomains_covers `{U : UnicodeTables} t host a :
  matchHost (Some t) host = a -> a <> routeNone ->
  STAR ∉ normHost host -> HasSuffix (normHost host) (lit ".") = false ->
  exists d, d ∈ dnsDomains (Some t) a /\ covers d (normHost host).
Proof.
  unfold matchHost. destruct (bool_decide (host = [])); [by intros <-|].
  destruct (find _ (rt_rules t)) as [r|] eqn:E; [|by intros <-].
  intros Ha _ Hns Hdot. apply find_split in E as (pre & post & E & Hm & _). to_prop.
  eexists. split.
  - cbn [dnsDomains]. apply (dnsDomains_loop_rule t a _ [] r); [rewrite E; set_solver|done..].
  - unfold rule_matchHost in *. destruct (bool_decide (r_domain r = [])) eqn:Ed; cbn in *.
    + to_prop. by apply globSuffix_covers.
    + right. to_prop. destruct H0 as [H0 | H0]; to_prop; auto.
Qed.

(** The DNS match domains are complete: whenever a host rule decides an action
    for a name, some domain listed for that action covers the name, so the
    resolver sends its query to the tunnel. *)
Theorem dnsDomains_complete `{U : UnicodeTables} t host a :
  matchHost (Some t) host = a -> a <> routeNone ->
  STAR ∉ normHost host -> HasSuffix (normHost host) (lit ".") = false ->
  exists d, d ∈ dnsDomains (Some t) a /\ covers d (normHost host).
Proof. apply dnsDomains_covers. Qed.

(** Without an SSH egress host every SSH rule is inert: no name and no address is
    routed to SSH, no prefix or DNS domain is claimed for it, and the send-all
    switch is off. *)
Theorem ssh_disabled_inert `{U : UnicodeTables} cfg host ip :
  let t := compileRouteTable cfg false in
  matchHost (Some t) host <> routeSSH /\ matchIP (Some t) ip <> routeSSH /\
  prefixes (Some t) routeSSH = [] /\ dnsDomains (Some t) routeSSH = [] /\
  rt_sendAllViaSSH t = false.
Proof.
  cbv zeta. set (t := compileRouteTable cfg false).
  assert (forall a, effective t a <> routeSSH) as He by (intros []; done).
  split_and!.
  - unfold matchHost. repeat case_goal; done || apply He.
  - unfold matchIP. repeat case_goal; done || apply He.
  - cbn [prefixes]. induction (rt_rules t) as [|r l IH]; cbn; [done|].
    rewrite bool_decide_false by apply He. by rewrite andb_false_r.
  - cbn [dnsDomains]. generalize (rt_rules t). intros l. induction l as [|r l IH]; cbn; [done|].
    rewrite bool_decide_false by apply He. cbn. by rewrite orb_true_r.
  - cbn. apply andb_false_r.
Qed.

#[local] Existing Instance caseless_tables.

Definition sample_routing : routingConfigJSON :=
  {| rc_sendAllViaSSH := true;
     rc_rules := [ {| rj_pattern := lit "10.1.0.0/16"; rj_action := lit "ssh" |};
                   {| rj_pattern := lit "10.0.0.0/8"; rj_action := lit "direct" |};
                   {| rj_pattern := lit "192.168.0.0/16"; rj_action := lit "Direct" |};
                   {| rj_pattern := lit "*.corp.example.com"; rj_action := lit "ssh" |} ] |}.

Lemma directExclusions_sound_witness :
  let t := compileRouteTable sample_routing true in
  let p := {| p_ip := A4 (192 * 2 ^ 24 + 168 * 2 ^ 16); p_bits1 := 17 |} in
  let ip := A4 (192 * 2 ^ 24 + 168 * 2 ^ 16 + 77) in
  directExclusions (Some t) = [p] /\
  matchIP (Some t) ip = routeDirect /\ PContains fakeIPPrefix (Unmap ip) = false.
Proof.
  cbv zeta. split; [vm_compute; reflexivity|].
  apply (directExclusions_sound sample_routing
           {| p_ip := A4 (192 * 2 ^ 24 + 168 * 2 ^ 16); p_bits1 := 17 |}).
  - apply list_elem_of_In. vm_compute. left. reflexivity.
  - vm_compute. reflexivity.
Defined.

Lemma dnsDomains_complete_witness :
  let t := compileRouteTable sample_routing true in
  matchHost (Some t) (lit "Git.corp.example.com.") = routeSSH /\
  exists d, d ∈ dnsDomains (Some t) routeSSH /\ covers d (normHost (lit "Git.corp.example.com.")).
Proof.
  split; [vm_compute; reflexivity|].
  apply (dnsDomains_complete (compileRouteTable sample_routing true)
           (lit "Git.corp.example.com.") routeSSH); [vm_compute; reflexivity | done | | ].
  - rewrite <- IndexByte_none. vm_compute. reflexivity.
  - vm_compute. reflexivity.
Defined.
