(* ===== verification/FakeIP.v ===== *)
(** * Fake addresses and remembered direct addresses (src/vpntunnel/fakeip.go)

    [fakeIPPool] and [recentIPs] are both rings of fixed capacity with an index
    from key to slot.  Their operations are modelled as written; both are shown to
    refine one abstract ring ([ring_add]), whose invariant and retention bound are
    proved once. *)

From S2P Require Import Prelude GoStrings NetIP HostMatch Routing.

Definition fakeIPCapacity : Z := 8192.

(** ** The code *)

Record fakeIPPool := {
  fp_base : Z;
  fp_next : Z;
  fp_byHost : gmap bytes Z;
  fp_byIdx : list bytes
}.

Definition newFakeIPPool : fakeIPPool :=
  {| fp_base := u32 (be_get (As4 (p_ip fakeIPPrefix)) + 2);
     fp_next := 0;
     fp_byHost := ∅;
     fp_byIdx := replicate (Z.to_nat fakeIPCapacity) [] |}.

Definition pool_addr (p : fakeIPPool) (idx : Z) : Addr :=
  AddrFrom4 (be_put 4 (u32 (fp_base p + idx))).

(** [fakeIPPool.assign]. *)
Definition assign (p : fakeIPPool) (host : bytes) : Addr * fakeIPPool :=
  match fp_byHost p !! host with
  | Some idx => (pool_addr p idx, p)
  | None =>
      let idx := fp_next p in
      let old := default [] (fp_byIdx p !! Z.to_nat idx) in
      let byHost := if bool_decide (old <> []) then delete old (fp_byHost p) else fp_byHost p in
      let p' := {| fp_base := fp_base p;
                   fp_next := u32 (fp_next p + 1) mod fakeIPCapacity;
                   fp_byHost := <[host := idx]> byHost;
                   fp_byIdx := <[Z.to_nat idx := host]> (fp_byIdx p) |} in
      (pool_addr p' idx, p')
  end.

(** [fakeIPPool.host]: [None] is the [false] result. *)
Definition pool_host (p : fakeIPPool) (ip : Addr) : option bytes :=
  if negb (Is4 ip) then None
  else
    let v := be_get (As4 ip) in
    if (v <? fp_base p) || (fakeIPCapacity <=? v - fp_base p) then None
    else
      let h := default [] (fp_byIdx p !! Z.to_nat (v - fp_base p)) in
      if bool_decide (h = []) then None else Some h.

Record recentIPs := {
  ri_cap : Z;
  ri_order : list Addr;
  ri_set : gmap Addr Z;
  ri_next : Z
}.

Definition newRecentIPs (capacity : Z) : recentIPs :=
  {| ri_cap := capacity; ri_order := replicate (Z.to_nat capacity) AZero; ri_set := ∅; ri_next := 0 |}.

(** [recentIPs.add]. *)
Definition ri_add (l : recentIPs) (ip : Addr) : recentIPs :=
  let ip := Unmap ip in
  match ri_set l !! ip with
  | Some _ => l
  | None =>
      let old := default AZero (ri_order l !! Z.to_nat (ri_next l)) in
      let set := if IsValid old then delete old (ri_set l) else ri_set l in
      {| ri_cap := ri_cap l;
         ri_order := <[Z.to_nat (ri_next l) := ip]> (ri_order l);
         ri_set := <[ip := ri_next l]> set;
         ri_next := (ri_next l + 1) mod ri_cap l |}
  end.

Definition ri_contains (l : recentIPs) (ip : Addr) : bool :=
  bool_decide (is_Some (ri_set l !! Unmap ip)).

(** ** The abstract ring *)

Record ring (K : Type) `{Countable K} := {
  rg_cap : Z;
  rg_next : Z;
  rg_slots : list K;
  rg_index : gmap K Z
}.
Arguments rg_cap {K _ _} r.
Arguments rg_next {K _ _} r.
Arguments rg_slots {K _ _} r.
Arguments rg_index {K _ _} r.

Section Ring.
Context {K : Type} `{Countable K} (hole : K).

(** Keep [k], evicting the oldest key once the ring is full. *)
Definition ring_add (r : ring K) (k : K) : ring K :=
  match rg_index r !! k with
  | Some _ => r
  | None =>
      let old := default hole (rg_slots r !! Z.to_nat (rg_next r)) in
      {| rg_cap := rg_cap r;
         rg_next := (rg_next r + 1) mod rg_cap r;
         rg_slots := <[Z.to_nat (rg_next r) := k]> (rg_slots r);
         rg_index := <[k := rg_next r]>
           (if bool_decide (old <> hole) then delete old (rg_index r) else rg_index r) |}
  end.

(** The index and the slots are inverse to each other. *)
Record ring_ok (r : ring K) : Prop := {
  rok_cap : 0 < rg_cap r;
  rok_next : 0 <= rg_next r < rg_cap r;
  rok_len : length (rg_slots r) = Z.to_nat (rg_cap r);
  rok_index : forall k i, rg_index r !! k = Some i ->
    0 <= i < rg_cap r /\ rg_slots r !! Z.to_nat i = Some k /\ k <> hole;
  rok_slots : forall i k, 0 <= i -> rg_slots r !! Z.to_nat i = Some k -> k <> hole ->
    rg_index r !! k = Some i
}.

Lemma slot_at r i : ring_ok r -> 0 <= i < rg_cap r -> exists k, rg_slots r !! Z.to_nat i = Some k.
Proof.
  intros Hr Hi. apply lookup_lt_is_Some_2. rewrite (rok_len _ Hr). lia.
Qed.

Lemma ring_add_index r k k' :
  ring_ok r -> rg_index r !! k = None ->
  rg_index (ring_add r k) !! k' =
    if decide (k' = k) then Some (rg_next r)
    else if decide (rg_slots r !! Z.to_nat (rg_next r) = Some k') then None
    else rg_index r !! k'.
Proof.
  intros Hr Hk. unfold ring_add. rewrite Hk. cbn.
  destruct (slot_at r (rg_next r) Hr (rok_next _ Hr)) as [old Ho]. rewrite Ho. cbn.
  destruct (decide (k' = k)) as [->|Hne]; [apply lookup_insert_eq|].
  rewrite lookup_insert_ne by done. destruct (decide (Some old = Some k')) as [[= ->]|Hno].
  - case_bool_decide as Hh; [apply lookup_delete_eq|].
    destruct (rg_index r !! k') as [j|] eqn:E; [|done].
    apply (rok_index _ Hr) in E as (_ & _ & ?). tauto.
  - case_bool_decide; [|done]. apply lookup_delete_ne. congruence.
Qed.

Lemma ring_add_slots r k j :
  ring_ok r -> rg_index r !! k = None -> 0 <= j < rg_cap r ->
  rg_slots (ring_add r k) !! Z.to_nat j =
    if decide (j = rg_next r) then Some k else rg_slots r !! Z.to_nat j.
Proof.
  intros Hr Hk Hj. unfold ring_add. rewrite Hk. cbn. pose proof (rok_next _ Hr).
  destruct (decide (j = rg_next r)) as [->|].
  - apply list_lookup_insert_eq. rewrite (rok_len _ Hr). lia.
  - apply list_lookup_insert_ne. lia.
Qed.

Lemma ring_add_meta r k :
  rg_index r !! k = None ->
  rg_cap (ring_add r k) = rg_cap r /\ rg_next (ring_add r k) = (rg_next r + 1) mod rg_cap r /\
  length (rg_slots (ring_add r k)) = length (rg_slots r).
Proof. intros Hk. unfold ring_add. rewrite Hk. cbn. rewrite length_insert. done. Qed.

Lemma ring_add_ok r k : k <> hole -> ring_ok r -> ring_ok (ring_add r k).
Proof.
  intros Hh Hr. destruct (rg_index r !! k) as [i|] eqn:Hk.
  { unfold ring_add. by rewrite Hk. }
  destruct (ring_add_meta r k Hk) as (Ec & En & El).
  pose proof (rok_cap _ Hr). pose proof (rok_next _ Hr).
  constructor; rewrite ?Ec, ?En, ?El.
  - done.
  - apply Z.mod_pos_bound. lia.
  - apply (rok_len _ Hr).
  - intros k' i. rewrite ring_add_index by done.
    destruct (decide (k' = k)) as [->|]; [intros [= <-]|destruct (decide _) as [|Hno]; [done|intros E]].
    + split_and!; [lia..| |done]. rewrite ring_add_slots by done. by rewrite decide_True.
    + destruct (rok_index _ Hr _ _ E) as (Hi & Hs & ?). split_and!; [lia..| |done].
      rewrite ring_add_slots by done. rewrite decide_False; [done|]. intros ->. done.
  - intros i k' Hi Hs Hne.
    assert (i < rg_cap r) as Hlt.
    { apply lookup_lt_Some in Hs. rewrite El, (rok_len _ Hr) in Hs. lia. }
    rewrite ring_add_slots in Hs by done. rewrite ring_add_index by done.
    destruct (decide (i = rg_next r)) as [->|Hin].
    + injection Hs as ->. by rewrite decide_True.
    + pose proof (rok_slots _ Hr _ _ Hi Hs Hne) as E.
      rewrite decide_False by (intros ->; congruence).
      rewrite decide_False; [done|]. intros E2.
      pose proof (rok_slots _ Hr _ _ (proj1 (rok_next _ Hr)) E2 Hne). congruence.
Qed.

(** Right after [ring_add] the key is present. *)
Lemma ring_add_present r k : is_Some (rg_index (ring_add r k) !! k).
Proof.
  unfold ring_add. destruct (rg_index r !! k) eqn:E; [by rewrite E|]. cbn.
  rewrite lookup_insert_eq. eauto.
Qed.

(** How many further allocations leave slot [i] alone. *)
Definition slack (r : ring K) (i : Z) : Z := (i - rg_next r) mod rg_cap r.

Lemma ring_add_keeps r k k0 i :
  ring_ok r -> rg_index r !! k0 = Some i -> 0 < slack r i ->
  rg_index (ring_add r k) !! k0 = Some i /\ slack r i - 1 <= slack (ring_add r k) i.
Proof.
  intros Hr Hi Hs. destruct (rg_index r !! k) as [j|] eqn:Hk.
  { unfold ring_add. rewrite Hk. split; [done|lia]. }
  pose proof (rok_cap _ Hr). pose proof (rok_next _ Hr).
  destruct (rok_index _ Hr _ _ Hi) as (Hb & Hsl & Hh).
  destruct (ring_add_meta r k Hk) as (Ec & En & El). split.
  - rewrite ring_add_index by done. rewrite decide_False by congruence.
    rewrite decide_False; [done|]. intros E.
    pose proof (rok_slots _ Hr _ _ (proj1 (rok_next _ Hr)) E Hh). rewrite Hi in *.
    assert (i = rg_next r) as -> by congruence. unfold slack in Hs.
    rewrite Z.sub_diag, Z.mod_0_l in Hs; lia.
  - unfold slack in *. rewrite Ec, En. rewrite Zminus_mod_idemp_r.
    replace (i - (rg_next r + 1)) with (i - rg_next r - 1) by lia.
    rewrite <- (Zminus_mod_idemp_l (i - rg_next r) 1). rewrite (Z.mod_small (_ - 1)); [lia|].
    pose proof (Z.mod_pos_bound (i - rg_next r) (rg_cap r)). lia.
Qed.

Lemma ring_adds_keep ks r k0 i :
  ring_ok r -> Forall (fun k => k <> hole) ks ->
  rg_index r !! k0 = Some i -> len ks <= slack r i ->
  rg_index (fold_left ring_add ks r) !! k0 = Some i.
Proof.
  revert r. induction ks as [|k ks IH]; intros r Hr Hks Hi Hs; cbn; [done|].
  rewrite len_cons in Hs. pose proof (len_nonneg ks). apply Forall_cons in Hks as [Hk Hks].
  destruct (ring_add_keeps r k k0 i Hr Hi) as [H1 H2]; [lia|].
  apply IH; [by apply ring_add_ok|done|done|lia].
Qed.

(** A fresh key survives the next [cap - 1] additions. *)
Lemma ring_fresh_survives r k ks :
  ring_ok r -> k <> hole -> rg_index r !! k = None ->
  Forall (fun k => k <> hole) ks -> len ks < rg_cap r ->
  is_Some (rg_index (fold_left ring_add ks (ring_add r k)) !! k).
Proof.
  intros Hr Hh Hk Hks Hl. exists (rg_next r).
  destruct (ring_add_meta r k Hk) as (Ec & En & El). pose proof (rok_cap _ Hr).
  apply ring_adds_keep; [by apply ring_add_ok|done| |].
  - rewrite ring_add_index by done. by rewrite decide_True.
  - unfold slack. rewrite Ec, En. rewrite Zminus_mod_idemp_r.
    replace (rg_next r - (rg_next r + 1)) with (-1) by lia.
    rewrite <- (Z.mod_unique_pos (-1) (rg_cap r) (-1) (rg_cap r - 1)); lia.
Qed.

Lemma ring_adds_ok ks r : ring_ok r -> Forall (fun k => k <> hole) ks -> ring_ok (fold_left ring_add ks r).
Proof.
  revert r. induction ks as [|k ks IH]; intros r Hr Hks; cbn; [done|].
  apply Forall_cons in Hks as [Hk Hks]. apply IH; [by apply ring_add_ok|done].
Qed.

Lemma ring_empty_ok cap :
  0 < cap -> ring_ok {| rg_cap := cap; rg_next := 0; rg_slots := replicate (Z.to_nat cap) hole; rg_index := ∅ |}.
Proof.
  intros Hc. constructor; cbn; [lia|lia|apply length_replicate| |].
  - intros k i. by rewrite lookup_empty.
  - intros i k _ E. apply lookup_replicate in E as [-> _]. done.
Qed.
End Ring.

(** ** Both structures refine the ring *)

Definition pool_ring (p : fakeIPPool) : ring bytes :=
  {| rg_cap := fakeIPCapacity; rg_next := fp_next p; rg_slots := fp_byIdx p; rg_index := fp_byHost p |}.

Definition recent_ring (l : recentIPs) : ring Addr :=
  {| rg_cap := ri_cap l; rg_next := ri_next l; rg_slots := ri_order l; rg_index := ri_set l |}.

(** The pool sits at its fixed base and its ring is consistent. *)
Record pool_ok (p : fakeIPPool) : Prop := {
  pok_base : fp_base p = 198 * 2 ^ 24 + 18 * 2 ^ 16 + 2;
  pok_ring : ring_ok [] (pool_ring p)
}.

Lemma newFakeIPPool_ok : pool_ok newFakeIPPool.
Proof.
  constructor; [by vm_compute|].
  apply (ring_empty_ok [] fakeIPCapacity). unfold fakeIPCapacity. lia.
Qed.

Lemma assign_refines p host :
  pool_ok p -> pool_ring (assign p host).2 = ring_add [] (pool_ring p) host.
Proof.
  intros Hp. unfold assign, ring_add, pool_ring; cbn.
  destruct (fp_byHost p !! host); [done|]. cbn.
  f_equal; [|f_equal; by repeat case_bool_decide].
  pose proof (rok_next _ _ (pok_ring _ Hp)) as Hn. cbn in Hn. unfold fakeIPCapacity in *.
  unfold wrap. rewrite (Z.mod_small (_ + 1)); [done|]. lia.
Qed.

Lemma assign_base p host : fp_base (assign p host).2 = fp_base p.
Proof. unfold assign. by destruct (fp_byHost p !! host). Qed.

Lemma assign_ok p host : host <> [] -> pool_ok p -> pool_ok (assign p host).2.
Proof.
  intros Hh Hp. constructor.
  - rewrite assign_base. apply Hp.
  - rewrite assign_refines by done. apply ring_add_ok; [done|apply Hp].
Qed.

(** The address [assign] returns is that of the slot the index records. *)
Lemma assign_addr p host :
  exists i, fp_byHost (assign p host).2 !! host = Some i /\
            (assign p host).1 = pool_addr (assign p host).2 i.
Proof.
  unfold assign. destruct (fp_byHost p !! host) eqn:E; cbn; [eauto|].
  eexists. split; [apply lookup_insert_eq|done].
Qed.

Lemma pool_addr_value p i :
  pool_ok p -> 0 <= i < fakeIPCapacity -> pool_addr p i = A4 (fp_base p + i).
Proof.
  intros Hp Hi. unfold pool_addr, AddrFrom4. rewrite be_get_put, (pok_base _ Hp). f_equal.
  unfold wrap, fakeIPCapacity in *. change (256 ^ Z.of_nat 4) with (2 ^ 32).
  rewrite Z.mod_mod by lia. apply Z.mod_small. lia.
Qed.

Lemma pool_host_addr p i h :
  pool_ok p -> fp_byHost p !! h = Some i -> pool_host p (pool_addr p i) = Some h.
Proof.
  intros Hp Hi. destruct (rok_index _ _ (pok_ring _ Hp) h i Hi) as (Hb & Hs & Hh). cbn in Hb, Hs.
  rewrite pool_addr_value by done. unfold pool_host. cbn [Is4 negb As4].
  rewrite be_get_put, (pok_base _ Hp). change (256 ^ Z.of_nat 4) with (2 ^ 32).
  unfold fakeIPCapacity in *. rewrite Z.mod_small by lia.
  rewrite (proj2 (Z.ltb_ge _ _)), (proj2 (Z.leb_gt _ _)) by lia. cbn [orb].
  replace (_ - _) with i by lia. rewrite Hs. cbn. by rewrite bool_decide_false.
Qed.

(** The pools reachable from the initial one by assigning names. *)
Definition assign_all (hosts : list bytes) (p : fakeIPPool) : fakeIPPool :=
  fold_left (fun p h => (assign p h).2) hosts p.

Lemma assign_all_ok hosts p :
  Forall (fun h => h <> []) hosts -> pool_ok p -> pool_ok (assign_all hosts p).
Proof.
  revert p. induction hosts as [|h hs IH]; intros p Hh Hp; cbn; [done|].
  apply Forall_cons in Hh as [? ?]. apply IH; [done|by apply assign_ok].
Qed.

Lemma assign_all_refines hosts p :
  Forall (fun h => h <> []) hosts -> pool_ok p ->
  pool_ring (assign_all hosts p) = fold_left (ring_add []) hosts (pool_ring p).
Proof.
  revert p. induction hosts as [|h hs IH]; intros p Hh Hp; cbn; [done|].
  apply Forall_cons in Hh as [? ?]. fold (assign_all hs (assign p h).2).
  rewrite IH by (done || by apply assign_ok). by rewrite assign_refines.
Qed.

Lemma assign_all_base hosts p : fp_base (assign_all hosts p) = fp_base p.
Proof.
  revert p. induction hosts as [|h hs IH]; intros p; cbn; [done|].
  fold (assign_all hs (assign p h).2). by rewrite IH, assign_base.
Qed.

(** A fake address resolves back to its name.  In any pool reachable by
    assigning non-empty names, the address [assign] hands out lies inside
    198.18.0.0/15, and [host] maps it to that very name. *)
Theorem fake_roundtrip hosts h :
  Forall (fun h => h <> []) hosts -> h <> [] ->
  let p := assign_all hosts newFakeIPPool in
  let '(a, p') := assign p h in
  pool_host p' a = Some h /\ PContains fakeIPPrefix a = true.
Proof.
  intros Hhs Hh p. assert (pool_ok p) as Hp by (apply assign_all_ok; [done|apply newFakeIPPool_ok]).
  pose proof (assign_ok p h Hh Hp) as Hp'. destruct (assign_addr p h) as (i & Hi & Ha).
  destruct (assign p h) as [a p']. cbn in *. subst a. split; [by apply pool_host_addr|].
  destruct (rok_index _ _ (pok_ring _ Hp') h i Hi) as (Hb & _). cbn in Hb.
  rewrite pool_addr_value, (pok_base _ Hp') by done. unfold PContains. cbn.
  apply shiftr_lxor_zero. unfold Bits; cbn. rewrite !Z.shiftr_div_pow2 by lia.
  change (2 ^ (32 - (16 - 1))) with 131072. unfold fakeIPCapacity in Hb. zlia.
Qed.

(** Distinct names hold distinct addresses in every reachable pool. *)
Theorem fake_no_clash hosts h1 h2 i1 i2 :
  Forall (fun h => h <> []) hosts ->
  let p := assign_all hosts newFakeIPPool in
  fp_byHost p !! h1 = Some i1 -> fp_byHost p !! h2 = Some i2 -> h1 <> h2 ->
  pool_addr p i1 <> pool_addr p i2.
Proof.
  intros Hhs p H1 H2 Hne E.
  assert (pool_ok p) as Hp by (apply assign_all_ok; [done|apply newFakeIPPool_ok]).
  pose proof (pool_host_addr p i1 h1 Hp H1) as E1.
  pose proof (pool_host_addr p i2 h2 Hp H2) as E2. congruence.
Qed.

(** A newly assigned name keeps its address for at least the next 8191
    assignments, whatever names they are for: only a full turn of the ring can
    take it away. *)
Theorem fake_retention hosts h later :
  Forall (fun h => h <> []) hosts -> h <> [] -> Forall (fun h => h <> []) later ->
  let p := assign_all hosts newFakeIPPool in
  fp_byHost p !! h = None -> len later < fakeIPCapacity ->
  let '(a, p') := assign p h in
  pool_host (assign_all later p') a = Some h.
Proof.
  intros Hhs Hh Hl p Hnone Hlen.
  assert (pool_ok p) as Hp by (apply assign_all_ok; [done|apply newFakeIPPool_ok]).
  pose proof (assign_ok p h Hh Hp) as Hp'. destruct (assign_addr p h) as (i & Hi & Ha).
  pose proof (assign_refines p h Hp) as Href.
  destruct (ring_fresh_survives [] (pool_ring p) h later) as [j Hj]; [apply Hp|done..|].
  rewrite <- Href, <- assign_all_refines in Hj by done. cbn in Hj.
  assert (j = i) as ->.
  { assert (is_Some (rg_index (pool_ring (assign p h).2) !! h)) by eauto.
    pose proof (ring_adds_keep [] later (pool_ring (assign p h).2) h i) as Hk.
    rewrite <- assign_all_refines in Hk by done. cbn in Hk.
    destruct (ring_add_meta [] (pool_ring p) h Hnone) as (Ec & En & _).
    rewrite Hk in Hj; [congruence|apply Hp'|done|done|].
    unfold slack. rewrite Href, Ec, En.
    assert (i = fp_next p) as ->.
    { rewrite <- Href in *. pose proof (ring_add_index [] (pool_ring p) h h (pok_ring _ Hp) Hnone) as Hx.
      rewrite <- Href, decide_True in Hx by done. cbn in Hx. congruence. }
    cbn. rewrite Zminus_mod_idemp_r. unfold fakeIPCapacity in *.
    replace (fp_next p - (fp_next p + 1)) with (-1) by lia. change (-1 mod 8192) with 8191. lia. }
  destruct (assign p h) as [a p']. cbn in *. subst a.
  assert (pool_addr p' i = pool_addr (assign_all later p') i) as ->
    by (unfold pool_addr; by rewrite assign_all_base).
  apply pool_host_addr; [by apply assign_all_ok|done].
Qed.

(** ** Remembered direct addresses *)

Lemma ri_add_refines l ip : recent_ring (ri_add l ip) = ring_add AZero (recent_ring l) (Unmap ip).
Proof.
  unfold ri_add, ring_add, recent_ring; cbn.
  destruct (ri_set l !! Unmap ip); [done|]. cbn. f_equal. f_equal.
  destruct (ri_order l !! Z.to_nat (ri_next l)) as [a|]; cbn; [|done].
  destruct a; cbn; by case_bool_decide.
Qed.

Definition ri_add_all (ips : list Addr) (l : recentIPs) : recentIPs := fold_left ri_add ips l.

Lemma ri_add_all_refines ips l :
  recent_ring (ri_add_all ips l) = fold_left (ring_add AZero) (map Unmap ips) (recent_ring l).
Proof.
  revert l. induction ips as [|ip ips IH]; intros l; cbn; [done|].
  fold (ri_add_all ips (ri_add l ip)). by rewrite IH, ri_add_refines.
Qed.

Lemma ri_contains_ring l ip :
  ri_contains l ip = true <-> is_Some (rg_index (recent_ring l) !! Unmap ip).
Proof. unfold ri_contains. by rewrite bool_decide_eq_true. Qed.

Lemma ring_adds_only {K} `{Countable K} (hole : K) ks r k :
  is_Some (rg_index (fold_left (ring_add hole) ks r) !! k) -> k ∈ ks \/ is_Some (rg_index r !! k).
Proof.
  revert r. induction ks as [|k' ks IH]; intros r Hin; cbn in *; [by right|].
  apply IH in Hin as [Hin | Hin]; [by left; constructor|]. unfold ring_add in Hin.
  destruct (rg_index r !! k') eqn:E; [by right|]. cbn in Hin.
  destruct (decide (k' = k)) as [->|Hne]; [left; constructor|]. right.
  rewrite lookup_insert_ne in Hin by done. case_bool_decide; [|done].
  destruct Hin as [i Hin]. apply lookup_delete_Some in Hin as [_ Hin]. eauto.
Qed.

Lemma Unmap_valid ip : IsValid ip = true -> Unmap ip <> AZero.
Proof. destruct ip as [|v|v z]; cbn; [done..|]. by case_goal. Qed.

Lemma unmap_holes ips : Forall (fun a => IsValid a = true) ips -> Forall (fun k => k <> AZero) (map Unmap ips).
Proof. induction 1; cbn; constructor; auto using Unmap_valid. Qed.

(** The memory of direct addresses is exact within its window: it contains only
    addresses that were added, and an address added while absent is still there
    after fewer than [capacity] further additions. *)
Theorem recent_window cap before a later ip :
  0 < cap -> Forall (fun a => IsValid a = true) (before ++ a :: later) ->
  let l := ri_add_all before (newRecentIPs cap) in
  (ri_contains (ri_add_all (before ++ a :: later) (newRecentIPs cap)) ip = true ->
     exists b, b ∈ before ++ a :: later /\ Unmap b = Unmap ip) /\
  (ri_contains l a = false -> len later < cap ->
     ri_contains (ri_add_all later (ri_add l a)) a = true).
Proof.
  intros Hc Hv l. apply unmap_holes in Hv. rewrite map_app in Hv.
  apply Forall_app in Hv as [Hb [Ha Hl]%Forall_cons].
  assert (ring_ok AZero (recent_ring (newRecentIPs cap))) as H0 by by apply (ring_empty_ok AZero).
  split.
  - rewrite ri_contains_ring, ri_add_all_refines. intros Hin.
    apply ring_adds_only in Hin as [Hin | [? Hin]]; [|done].
    apply list_elem_of_In, in_map_iff in Hin as (b & E & Hin). exists b. by rewrite list_elem_of_In.
  - intros Hno Hlen. apply ri_contains_ring. rewrite ri_add_all_refines, ri_add_refines.
    unfold l in *. rewrite ri_add_all_refines.
    apply ring_fresh_survives; [by apply ring_adds_ok|done| |done|].
    + rewrite <- ri_add_all_refines. apply eq_None_not_Some. rewrite <- ri_contains_ring. congruence.
    + unfold len in *. rewrite length_map. rewrite <- ri_add_all_refines. cbn.
      enough (ri_cap (ri_add_all before (newRecentIPs cap)) = cap) as -> by done.
      clear. change cap with (ri_cap (newRecentIPs cap)) at 2. generalize (newRecentIPs cap).
      induction before as [|b bs IH]; intros l; cbn; [done|].
      fold (ri_add_all bs (ri_add l b)). rewrite IH. unfold ri_add. by destruct (ri_set l !! Unmap b).
Qed.

(** [directIPMemory] of tailnetpath.go. *)
Definition directIPMemory : Z := 4096.

(** The address 10.0.0.0 + n. *)
Definition sample_ip (n : Z) : Addr := A4 (10 * 2 ^ 24 + n).

(** An address that is answered again is not refreshed: after 4095 other
    answers, recording the first address once more and then a single new one
    forgets it, although it was among the last two answers. *)
Theorem recent_not_refreshed :
  let l := ri_add_all (sample_ip 0 :: map (fun n => sample_ip (Z.of_nat n)) (seq 1 4095))
             (newRecentIPs directIPMemory) in
  ri_contains (ri_add l (sample_ip 0)) (sample_ip 0) = true /\
  ri_contains (ri_add (ri_add l (sample_ip 0)) (sample_ip 5000)) (sample_ip 0) = false.
Proof. vm_compute. done. Qed.

(** ** Witnesses *)

Definition two_hosts : list bytes := [lit "a.example.com"; lit "b.example.com"].

Lemma two_hosts_ok : Forall (fun h : bytes => h <> []) two_hosts.
Proof. repeat constructor; done. Defined.

Lemma fake_roundtrip_witness :
  let '(a, p') := assign (assign_all two_hosts newFakeIPPool) (lit "git.corp") in
  pool_host p' a = Some (lit "git.corp") /\ PContains fakeIPPrefix a = true.
Proof. apply (fake_roundtrip two_hosts (lit "git.corp") two_hosts_ok). done. Defined.

Lemma fake_no_clash_witness :
  let p := assign_all two_hosts newFakeIPPool in
  fp_byHost p !! lit "a.example.com" = Some 0 /\ fp_byHost p !! lit "b.example.com" = Some 1 /\
  pool_addr p 0 <> pool_addr p 1.
Proof.
  split; [vm_compute; reflexivity|]. split; [vm_compute; reflexivity|].
  apply (fake_no_clash two_hosts (lit "a.example.com") (lit "b.example.com") 0 1 two_hosts_ok);
    [vm_compute; reflexivity.. | done].
Defined.

Lemma fake_retention_witness :
  let '(a, p') := assign (assign_all two_hosts newFakeIPPool) (lit "git.corp") in
  pool_host (assign_all two_hosts p') a = Some (lit "git.corp").
Proof.
  apply (fake_retention two_hosts (lit "git.corp") two_hosts two_hosts_ok);
    [done | exact two_hosts_ok | vm_compute; reflexivity | vm_compute; reflexivity].
Defined.

Lemma recent_window_witness :
  ri_contains (ri_add_all [sample_ip 2] (ri_add (ri_add_all [sample_ip 0] (newRecentIPs 2)) (sample_ip 1)))
    (sample_ip 1) = true.
Proof.
  apply (recent_window 2 [sample_ip 0] (sample_ip 1) [sample_ip 2] (sample_ip 1));
    [lia | repeat constructor | vm_compute; reflexivity | vm_compute; reflexivity].
Defined.
