(* ===== verification/IPPacket.v ===== *)
(** * Raw IP packets (src/vpntunnel/dnspacket.go)

    Header parsing, the Internet checksum on 32-bit accumulators, and the
    construction of UDP replies over IPv4 and IPv6. *)

From S2P Require Import Prelude GoStrings NetIP.

Definition ipProtoTCP : Z := 6.
Definition ipProtoUDP : Z := 17.

Record ipPacketInfo := {
  pi_src : Addr;
  pi_dst : Addr;
  pi_proto : Z;
  pi_l4 : bytes;
  pi_srcPort : Z;
  pi_dstPort : Z;
  pi_hasL4Ports : bool
}.

(** The tail of [parseIPPacket]: ports of TCP and UDP. *)
Definition with_ports (src dst : Addr) (proto : Z) (l4 : bytes) : ipPacketInfo :=
  let ports := ((proto =? ipProtoTCP) || (proto =? ipProtoUDP)) && (8 <=? len l4) in
  {| pi_src := src; pi_dst := dst; pi_proto := proto; pi_l4 := l4;
     pi_srcPort := if ports then be_get (slice 0 2 l4) else 0;
     pi_dstPort := if ports then be_get (slice 2 4 l4) else 0;
     pi_hasL4Ports := ports |}.

(** [parseIPPacket]; [None] is the [false] result. *)
Definition parseIPPacket (pkt : bytes) : option ipPacketInfo :=
  if len pkt <? 1 then None
  else
    let version := Z.shiftr (at_ pkt 0) 4 in
    if version =? 4 then
      if len pkt <? 20 then None
      else
        let ihl := Z.land (at_ pkt 0) 15 * 4 in
        let total := be_get (slice 2 4 pkt) in
        if (ihl <? 20) || (total <? ihl) || (len pkt <? total) then None
        else
          let l4 := if Z.land (be_get (slice 6 8 pkt)) 8191 =? 0
                    then slice (Z.to_nat ihl) (Z.to_nat total) pkt else [] in
          Some (with_ports (AddrFrom4 (slice 12 16 pkt)) (AddrFrom4 (slice 16 20 pkt)) (at_ pkt 9) l4)
    else if version =? 6 then
      if len pkt <? 40 then None
      else
        let payloadLen := be_get (slice 4 6 pkt) in
        if len pkt <? 40 + payloadLen then None
        else Some (with_ports (AddrFrom16 (slice 8 24 pkt)) (AddrFrom16 (slice 24 40 pkt)) (at_ pkt 6)
                     (slice 40 (40 + Z.to_nat payloadLen) pkt))
    else None.

(** [ipPacketInfo.udpPayload]; [nil] is the empty slice. *)
Definition udpPayload (i : ipPacketInfo) : bytes :=
  if negb (pi_proto i =? ipProtoUDP) || (len (pi_l4 i) <? 8) then []
  else
    let n := be_get (slice 4 6 (pi_l4 i)) in
    if (n <? 8) || (len (pi_l4 i) <? n) then [] else slice 8 (Z.to_nat n) (pi_l4 i).

(** [checksumFold]: the loop on a [uint32] runs at most twice. *)
Fixpoint fold_loop (fuel : nat) (sum : Z) : Z :=
  match fuel with
  | O => sum
  | S fuel' => if 65535 <? sum then fold_loop fuel' (u32 (Z.shiftr sum 16 + Z.land sum 65535)) else sum
  end.
Definition checksumFold (sum : Z) : Z := Z.lxor (u16 (fold_loop 3 sum)) 65535.

(** [checksumAdd]: 16-bit words, a trailing byte padded on the right, wrapping at
    32 bits. *)
Fixpoint checksumAdd (sum : Z) (b : bytes) : Z :=
  match b with
  | b0 :: b1 :: b' => checksumAdd (u32 (sum + (b0 * 256 + b1))) b'
  | [b0] => u32 (sum + b0 * 256)
  | [] => sum
  end.

Record AddrPort := { ap_addr : Addr; ap_port : Z }.

(** [copy(pkt[off:], bs)] for a [bs] that fits. *)
Definition put_at (off : nat) (bs : bytes) (pkt : bytes) : bytes :=
  take off pkt ++ bs ++ drop (off + length bs) pkt.

(** The UDP header, payload and checksum, written into [l4]; [pseudo] is the sum of
    the address words. *)
Definition fillUDP (src dst : AddrPort) (udpLen : Z) (pseudo : Z) (payload l4 : bytes) : bytes :=
  let l4 := put_at 0 (be_put 2 (ap_port src)) l4 in
  let l4 := put_at 2 (be_put 2 (ap_port dst)) l4 in
  let l4 := put_at 4 (be_put 2 (u16 udpLen)) l4 in
  let l4 := put_at 8 payload l4 in
  let pseudo := u32 (pseudo + u32 (ipProtoUDP + u32 udpLen)) in
  let sum := checksumFold (checksumAdd pseudo l4) in
  let sum := if sum =? 0 then 65535 else sum in
  put_at 6 (be_put 2 sum) l4.

(** [buildUDPPacket]. *)
Definition buildUDPPacket (src dst : AddrPort) (payload : bytes) : bytes :=
  let udpLen := 8 + len payload in
  if Is4 (ap_addr src) then
    let pkt := replicate (Z.to_nat (20 + udpLen)) 0 in
    let pkt := put_at 0 [69] pkt in
    let pkt := put_at 2 (be_put 2 (u16 (len pkt))) pkt in
    let pkt := put_at 8 [64] pkt in
    let pkt := put_at 9 [ipProtoUDP] pkt in
    let pkt := put_at 12 (As4 (ap_addr src)) pkt in
    let pkt := put_at 16 (As4 (ap_addr dst)) pkt in
    let pkt := put_at 10 (be_put 2 (checksumFold (checksumAdd 0 (take 20 pkt)))) pkt in
    let pseudo := checksumAdd 0 (slice 12 20 pkt) in
    take 20 pkt ++ fillUDP src dst udpLen pseudo payload (drop 20 pkt)
  else
    let pkt := replicate (Z.to_nat (40 + udpLen)) 0 in
    let pkt := put_at 0 [96] pkt in
    let pkt := put_at 4 (be_put 2 (u16 udpLen)) pkt in
    let pkt := put_at 6 [ipProtoUDP] pkt in
    let pkt := put_at 7 [64] pkt in
    let pkt := put_at 8 (As16 (ap_addr src)) pkt in
    let pkt := put_at 24 (As16 (ap_addr dst)) pkt in
    let pseudo := checksumAdd 0 (slice 8 40 pkt) in
    take 40 pkt ++ fillUDP src dst udpLen pseudo payload (drop 40 pkt).

(** ** The Internet checksum *)

(** The sum of the 16-bit words, without wrap-around. *)
Fixpoint word_sum (b : bytes) : Z :=
  match b with
  | b0 :: b1 :: b' => b0 * 256 + b1 + word_sum b'
  | [b0] => b0 * 256
  | [] => 0
  end.

(** Induction two bytes at a time. *)
Lemma pair_ind (P : bytes -> Prop) :
  P [] -> (forall x, P [x]) -> (forall x y l, P l -> P (x :: y :: l)) -> forall l, P l.
Proof.
  intros H0 H1 H2 l. enough (P l /\ forall x, P (x :: l)) by tauto.
  induction l as [|y l [IH1 IH2]]; auto.
Qed.

Lemma checksumAdd_sum b : forall sum, 0 <= sum < 2 ^ 32 -> checksumAdd sum b = u32 (sum + word_sum b).
Proof.
  induction b as [|x|x y l IH] using pair_ind; intros sum Hs; cbn [checksumAdd word_sum].
  - unfold wrap. rewrite Z.add_0_r. by rewrite Z.mod_small.
  - done.
  - rewrite IH by (unfold wrap; apply Z.mod_pos_bound; lia).
    unfold wrap. rewrite Zplus_mod_idemp_l. f_equal. lia.
Qed.

Lemma word_sum_bound b : wf_bytes b -> 0 <= word_sum b <= 65535 * ((len b + 1) / 2).
Proof.
  induction b as [|x|x y l IH] using pair_ind; intros Hw.
  - cbn. vm_compute. done.
  - apply Forall_cons in Hw as [Hw _]. unfold is_byte in Hw. cbn.
    change ((len [x] + 1) / 2) with 1. lia.
  - apply Forall_cons in Hw as [Hx [Hy Hw]%Forall_cons]. unfold is_byte in *. specialize (IH Hw).
    cbn [word_sum]. rewrite !len_cons. pose proof (len_nonneg l).
    replace (1 + (1 + len l) + 1) with (len l + 1 + 1 * 2) by lia. rewrite Z.div_add by lia. lia.
Qed.

Lemma word_sum_app a b : Nat.Even (length a) -> word_sum (a ++ b) = word_sum a + word_sum b.
Proof.
  induction a as [|x|x y l IH] using pair_ind; intros He; cbn [app word_sum].
  - lia.
  - destruct He as [k Hk]. cbn in Hk. lia.
  - rewrite IH; [lia|]. destruct He as [k Hk]. exists (k - 1)%nat. cbn in Hk. lia.
Qed.

(** One round of folding keeps the value modulo 65535. *)
Lemma fold_step s : 0 <= s < 2 ^ 32 -> 65535 < s ->
  let s' := u32 (Z.shiftr s 16 + Z.land s 65535) in
  s' mod 65535 = s mod 65535 /\ 0 < s' <= 131070 /\ (s <= 131070 -> s' <= 65535).
Proof.
  intros Hs Hb. change 65535 with (Z.ones 16) at 1. rewrite Z.land_ones, Z.shiftr_div_pow2 by lia.
  unfold wrap. change (2 ^ 16) with 65536. change (2 ^ 32) with 4294967296 in *.
  rewrite (Z.mod_small (_ + _)) by zlia. cbv zeta. split_and!; [|zlia..].
  rewrite (Z.div_mod s 65536) at 3 by lia.
  replace (65536 * (s / 65536) + s mod 65536) with (s / 65536 + s mod 65536 + (s / 65536) * 65535) by lia.
  by rewrite Z.mod_add.
Qed.

(** Folding yields the representative of the sum in [1, 65535] (0 only for 0). *)
Lemma fold_loop_spec s : 0 <= s < 2 ^ 32 ->
  0 <= fold_loop 3 s <= 65535 /\ fold_loop 3 s mod 65535 = s mod 65535 /\ (0 < s -> 0 < fold_loop 3 s).
Proof.
  intros Hs. cbn [fold_loop]. destruct (Z.ltb_spec 65535 s) as [H1|]; [|lia].
  destruct (fold_step s Hs H1) as (E1 & B1 & _).
  set (s1 := u32 (Z.shiftr s 16 + Z.land s 65535)) in *.
  destruct (Z.ltb_spec 65535 s1) as [H2|]; [|lia].
  destruct (fold_step s1 ltac:(lia) H2) as (E2 & B2 & C2).
  set (s2 := u32 (Z.shiftr s1 16 + Z.land s1 65535)) in *.
  specialize (C2 ltac:(lia)). destruct (Z.ltb_spec 65535 s2); [lia|]. lia.
Qed.

Lemma lxor_complement16 x : 0 <= x <= 65535 -> Z.lxor x 65535 = 65535 - x.
Proof.
  intros Hx. change 65535 with (Z.ones 16). 
  assert (Z.lxor x (Z.ones 16) = Z.ldiff (Z.ones 16) x) as ->.
  { apply Z.bits_inj'. intros n Hn. rewrite Z.lxor_spec, Z.ldiff_spec.
    destruct (Z.ltb_spec n 16).
    - rewrite Z.ones_spec_low by lia. by destruct (Z.testbit x n).
    - rewrite Z.ones_spec_high by lia. rewrite Z.bits_above_log2; [done|lia|].
      destruct (decide (x = 0)) as [->|]; [cbn; lia|].
      apply Z.log2_lt_pow2; [lia|]. assert (2 ^ 16 <= 2 ^ n) by (apply Z.pow_le_mono_r; lia).
      change (2 ^ 16) with 65536 in *. lia. }
  rewrite Z.sub_nocarry_ldiff; [done|]. apply Z.bits_inj'. intros n Hn.
  rewrite Z.ldiff_spec, Z.bits_0. destruct (Z.ltb_spec n 16).
  - rewrite Z.ones_spec_low by lia. by rewrite andb_false_r.
  - rewrite (Z.bits_above_log2 x); [done|lia|].
    destruct (decide (x = 0)) as [->|]; [cbn; lia|].
    apply Z.log2_lt_pow2; [lia|]. assert (2 ^ 16 <= 2 ^ n) by (apply Z.pow_le_mono_r; lia).
    change (2 ^ 16) with 65536 in *. lia.
Qed.

(** The complement of a sum makes the total fold to all ones. *)
Lemma checksumFold_spec s : 0 < s < 2 ^ 32 ->
  0 <= checksumFold s < 65535 /\ (s + checksumFold s) mod 65535 = 0.
Proof.
  intros Hs. destruct (fold_loop_spec s ltac:(lia)) as (B & E & P). unfold checksumFold, wrap.
  rewrite Z.mod_small by lia. rewrite lxor_complement16 by lia. specialize (P ltac:(lia)).
  split; [lia|]. rewrite Zplus_mod, Zminus_mod, <- E. rewrite Z.mod_same by lia.
  rewrite Z.sub_0_l. generalize (fold_loop 3 s) as f. intros f. zlia.
Qed.

Lemma checksumFold_verifies s : 0 < s < 2 ^ 32 -> s mod 65535 = 0 -> checksumFold s = 0.
Proof.
  intros Hs H0. destruct (fold_loop_spec s ltac:(lia)) as (B & E & P). unfold checksumFold, wrap.
  rewrite Z.mod_small by lia. rewrite lxor_complement16 by lia. specialize (P ltac:(lia)).
  rewrite H0 in E. zlia.
Qed.

(** ** Shape of a built packet *)

Definition udp_segment (sp dp n ck : Z) (payload : bytes) : bytes :=
  be_put 2 sp ++ be_put 2 dp ++ be_put 2 n ++ be_put 2 ck ++ payload.

Definition header4 (total ck s d : Z) : bytes :=
  [69; 0] ++ be_put 2 total ++ [0; 0; 0; 0; 64; ipProtoUDP] ++ be_put 2 ck ++ be_put 4 s ++ be_put 4 d.

Definition header6 (n : Z) (s d : bytes) : bytes :=
  [96; 0; 0; 0] ++ be_put 2 n ++ [ipProtoUDP; 64] ++ s ++ d.

(** The checksum [fillUDP] stores. *)
Definition udp_checksum (pseudo n : Z) (seg0 : bytes) : Z :=
  let sum := checksumFold (checksumAdd (u32 (pseudo + u32 (ipProtoUDP + u32 n))) seg0) in
  if sum =? 0 then 65535 else sum.

Lemma fillUDP_eq src dst pseudo payload :
  fillUDP src dst (8 + len payload) pseudo payload (replicate (8 + length payload) 0) =
  udp_segment (ap_port src) (ap_port dst) (u16 (8 + len payload))
    (udp_checksum pseudo (8 + len payload)
       (udp_segment (ap_port src) (ap_port dst) (u16 (8 + len payload)) 0 payload)) payload.
Proof.
  assert (put_at 8 payload
    (be_put 2 (ap_port src) ++ be_put 2 (ap_port dst) ++ be_put 2 (u16 (8 + len payload)) ++
     [0; 0] ++ replicate (length payload) 0) =
    udp_segment (ap_port src) (ap_port dst) (u16 (8 + len payload)) 0 payload) as E.
  { unfold put_at. cbn [be_put app take drop Nat.add]. rewrite drop_ge by (rewrite length_replicate; lia).
    rewrite app_nil_r. done. }
  unfold fillUDP. 
  match goal with |- context [checksumAdd _ ?x] => replace x with
    (udp_segment (ap_port src) (ap_port dst) (u16 (8 + len payload)) 0 payload) by exact (eq_sym E) end.
  fold (udp_checksum pseudo (8 + len payload)
          (udp_segment (ap_port src) (ap_port dst) (u16 (8 + len payload)) 0 payload)).
  generalize (udp_checksum pseudo (8 + len payload)
          (udp_segment (ap_port src) (ap_port dst) (u16 (8 + len payload)) 0 payload)). intros ck.
  done.
Qed.

Lemma build4_eq s d sp dp payload :
  let n := 8 + len payload in
  let ck := checksumFold (checksumAdd 0 (header4 (u16 (20 + n)) 0 s d)) in
  buildUDPPacket {| ap_addr := A4 s; ap_port := sp |} {| ap_addr := A4 d; ap_port := dp |} payload =
  header4 (u16 (20 + n)) ck s d ++
  udp_segment sp dp (u16 n)
    (udp_checksum (checksumAdd 0 (be_put 4 s ++ be_put 4 d)) n (udp_segment sp dp (u16 n) 0 payload)) payload.
Proof.
  intros n ck. unfold buildUDPPacket. cbn [Is4 ap_addr ap_port As4]. fold n.
  replace (Z.to_nat (20 + n)) with (20 + (8 + length payload))%nat by (subst n; unfold len; lia).
  rewrite replicate_add. set (rest := replicate (8 + length payload) 0).
  assert (len (put_at 0 [69] (replicate 20 0 ++ rest)) = 20 + n) as El.
  { unfold put_at, len, n. subst rest.
    rewrite !length_app, length_take, length_drop, !length_app, !length_replicate. cbn [length].
    unfold len. lia. }
  rewrite !El.
  match goal with |- context [checksumAdd 0 (take 20 ?p)] =>
    replace p with (header4 (u16 (20 + n)) 0 s d ++ rest) by done end.
  replace (take 20 (header4 (u16 (20 + n)) 0 s d ++ rest)) with (header4 (u16 (20 + n)) 0 s d) by done.
  fold ck. generalize ck. clear ck. intros ck.
  match goal with |- context [slice 12 20 ?p] =>
    replace p with (header4 (u16 (20 + n)) ck s d ++ rest) by done end.
  replace (take 20 (header4 (u16 (20 + n)) ck s d ++ rest)) with (header4 (u16 (20 + n)) ck s d) by done.
  replace (drop 20 (header4 (u16 (20 + n)) ck s d ++ rest)) with rest by done.
  replace (slice 12 20 (header4 (u16 (20 + n)) ck s d ++ rest)) with (be_put 4 s ++ be_put 4 d) by done.
  f_equal. subst n rest. apply fillUDP_eq.
Qed.

Lemma build6_eq s d zs zd sp dp payload :
  let n := 8 + len payload in
  buildUDPPacket {| ap_addr := A6 s zs; ap_port := sp |} {| ap_addr := A6 d zd; ap_port := dp |} payload =
  header6 (u16 n) (be_put 16 s) (be_put 16 d) ++
  udp_segment sp dp (u16 n)
    (udp_checksum (checksumAdd 0 (be_put 16 s ++ be_put 16 d)) n (udp_segment sp dp (u16 n) 0 payload)) payload.
Proof.
  intros n. unfold buildUDPPacket. cbn [Is4 ap_addr ap_port As16]. fold n.
  replace (Z.to_nat (40 + n)) with (40 + (8 + length payload))%nat by (subst n; unfold len; lia).
  rewrite replicate_add. set (rest := replicate (8 + length payload) 0).
  match goal with |- context [slice 8 40 ?p] =>
    replace p with (header6 (u16 n) (be_put 16 s) (be_put 16 d) ++ rest) by done end.
  set (h := header6 (u16 n) (be_put 16 s) (be_put 16 d)).
  replace (take 40 (h ++ rest)) with h by done.
  replace (drop 40 (h ++ rest)) with rest by done.
  replace (slice 8 40 (h ++ rest)) with (be_put 16 s ++ be_put 16 d) by done.
  f_equal. subst n rest. apply fillUDP_eq.
Qed.

Lemma length_udp_segment sp dp n ck payload : length (udp_segment sp dp n ck payload) = (8 + length payload)%nat.
Proof. done. Qed.

Lemma len_header4 t ck s d : length (header4 t ck s d) = 20%nat.
Proof. done. Qed.

Lemma be_get_put2 z : 0 <= z < 65536 -> be_get (be_put 2 z) = z.
Proof. intros H. rewrite be_get_put. apply Z.mod_small. done. Qed.

Lemma u16_id z : 0 <= z < 65536 -> u16 z = z.
Proof. intros H. unfold wrap. by apply Z.mod_small. Qed.

(** Ports and payload of a well-sized segment. *)
Lemma with_ports_udp src dst sp dp ck payload :
  0 <= sp < 65536 -> 0 <= dp < 65536 -> 8 + len payload < 65536 ->
  let i := with_ports src dst ipProtoUDP (udp_segment sp dp (8 + len payload) ck payload) in
  pi_srcPort i = sp /\ pi_dstPort i = dp /\ pi_hasL4Ports i = true /\ udpPayload i = payload.
Proof.
  intros Hs Hd Hn i. pose proof (len_nonneg payload) as Hl0.
  set (seg := udp_segment sp dp (8 + len payload) ck payload) in *.
  assert (len seg = 8 + len payload) as Hl.
  { unfold len, seg. rewrite length_udp_segment. lia. }
  assert (pi_hasL4Ports i = true) as Hp.
  { unfold i, with_ports. cbn [pi_hasL4Ports]. rewrite (proj2 (Z.leb_le 8 (len seg))) by lia. done. }
  unfold i, with_ports in Hp |- *. cbn [pi_hasL4Ports pi_srcPort pi_dstPort] in Hp |- *.
  rewrite Hp. split_and!; [by apply be_get_put2..|done|].
  unfold udpPayload. cbn [pi_proto pi_l4]. rewrite Hl.
  rewrite (proj2 (Z.ltb_ge _ _)) by lia. cbn [orb negb Z.eqb].
  change (slice 4 6 seg) with (be_put 2 (8 + len payload)). rewrite be_get_put2 by lia.
  rewrite !(proj2 (Z.ltb_ge _ _)) by lia. change (negb (ipProtoUDP =? ipProtoUDP) || false) with false.
  cbn [orb]. unfold slice. change (drop 8 seg) with payload. apply take_ge. unfold len. lia.
Qed.

(** An IPv4 header in front of a segment of the length it states. *)
Lemma parse_header4 total ck s d seg :
  wf_addr (A4 s) -> wf_addr (A4 d) -> total = 20 + len seg -> total < 65536 ->
  parseIPPacket (header4 total ck s d ++ seg) = Some (with_ports (A4 s) (A4 d) ipProtoUDP seg).
Proof.
  intros Ws Wd -> Ht. pose proof (len_nonneg seg).
  set (h := header4 (20 + len seg) ck s d).
  assert (len (h ++ seg) = 20 + len seg) as El
    by (rewrite len_app; unfold len at 1; change (length h) with 20%nat; lia).
  unfold parseIPPacket. rewrite El. rewrite !(proj2 (Z.ltb_ge _ _)) by lia.
  change (at_ (h ++ seg) 0) with 69. change (Z.shiftr 69 4 =? 4) with true. cbv iota.
  change (Z.land 69 15 * 4) with 20.
  change (slice 2 4 (h ++ seg)) with (be_put 2 (20 + len seg)).
  rewrite be_get_put2 by lia. rewrite !(proj2 (Z.ltb_ge _ _)) by lia. cbn [orb].
  change (Z.land (be_get (slice 6 8 (h ++ seg))) 8191 =? 0) with true. cbv iota.
  change (at_ (h ++ seg) 9) with ipProtoUDP.
  change (slice 12 16 (h ++ seg)) with (be_put 4 s).
  change (slice 16 20 (h ++ seg)) with (be_put 4 d).
  unfold AddrFrom4. rewrite !be_get_put. change (256 ^ Z.of_nat 4) with (2 ^ 32).
  cbn [wf_addr] in Ws, Wd. rewrite !Z.mod_small by done. do 2 f_equal.
  rewrite slice_app_r by done. change (length h) with 20%nat.
  replace (Z.to_nat (20 + len seg) - 20)%nat with (length seg) by (unfold len; lia).
  apply slice_full.
Qed.

(** An IPv6 header in front of a segment of the length it states. *)
Lemma parse_header6 s d seg :
  wf_addr (A6 s []) -> wf_addr (A6 d []) -> len seg < 65536 ->
  parseIPPacket (header6 (len seg) (be_put 16 s) (be_put 16 d) ++ seg) =
  Some (with_ports (A6 s []) (A6 d []) ipProtoUDP seg).
Proof.
  intros Ws Wd Ht. pose proof (len_nonneg seg).
  set (h := header6 (len seg) (be_put 16 s) (be_put 16 d)).
  assert (len (h ++ seg) = 40 + len seg) as El
    by (rewrite len_app; unfold len at 1; change (length h) with 40%nat; lia).
  unfold parseIPPacket. rewrite El. rewrite !(proj2 (Z.ltb_ge _ _)) by lia.
  change (at_ (h ++ seg) 0) with 96. change (Z.shiftr 96 4 =? 4) with false.
  change (Z.shiftr 96 4 =? 6) with true. cbv iota.
  change (slice 4 6 (h ++ seg)) with (be_put 2 (len seg)).
  rewrite be_get_put2 by lia. rewrite !(proj2 (Z.ltb_ge _ _)) by lia.
  change (at_ (h ++ seg) 6) with ipProtoUDP.
  change (slice 8 24 (h ++ seg)) with (be_put 16 s).
  change (slice 24 40 (h ++ seg)) with (be_put 16 d).
  unfold AddrFrom16. rewrite !be_get_put. change (256 ^ Z.of_nat 16) with (2 ^ 128).
  cbn [wf_addr] in Ws, Wd. rewrite !Z.mod_small by done. do 2 f_equal.
  rewrite slice_app_r by (change (length h) with 40%nat; lia). change (length h) with 40%nat.
  replace (40 + Z.to_nat (len seg) - 40)%nat with (length seg) by (unfold len; lia).
  apply slice_full.
Qed.

Lemma len_udp_segment sp dp n ck payload : len (udp_segment sp dp n ck payload) = 8 + len payload.
Proof. unfold len. rewrite length_udp_segment. lia. Qed.

Definition same_family (a b : Addr) : Prop := Is4 a = Is4 b.

(** [buildUDPPacket] followed by [parseIPPacket] is the identity: for every pair
    of zone-less addresses of one family and every payload that fits a datagram,
    the packet parses, and its addresses, ports, protocol and UDP payload are the
    ones it was built from. *)
Theorem udp_packet_roundtrip src dst payload :
  IsValid (ap_addr src) = true -> IsValid (ap_addr dst) = true ->
  wf_addr (ap_addr src) -> wf_addr (ap_addr dst) ->
  same_family (ap_addr src) (ap_addr dst) ->
  hasZone (ap_addr src) = false -> hasZone (ap_addr dst) = false ->
  0 <= ap_port src < 65536 -> 0 <= ap_port dst < 65536 -> len payload <= 65507 ->
  exists i, parseIPPacket (buildUDPPacket src dst payload) = Some i /\
    pi_src i = ap_addr src /\ pi_dst i = ap_addr dst /\ pi_proto i = ipProtoUDP /\
    pi_srcPort i = ap_port src /\ pi_dstPort i = ap_port dst /\ pi_hasL4Ports i = true /\
    udpPayload i = payload.
Proof.
  destruct src as [[|s|s zs] sp], dst as [[|d|d zd] dp]; cbn [ap_addr ap_port IsValid hasZone];
    intros Vs Vd Ws Wd Hf Zs Zd Hs Hd Hl; try done; pose proof (len_nonneg payload) as Hl0.
  - rewrite build4_eq. cbv zeta. rewrite (u16_id (20 + _)), (u16_id (8 + _)) by lia.
    eexists. rewrite parse_header4 by (rewrite ?len_udp_segment; done || lia). split; [done|].
    set (uck := udp_checksum _ _ _).
    destruct (with_ports_udp (A4 s) (A4 d) sp dp uck payload) as (? & ? & ? & ?); [lia..|]. done.
  - apply negb_false_iff, bool_decide_eq_true in Zs, Zd. subst zs zd.
    rewrite build6_eq. cbv zeta. rewrite (u16_id (8 + _)) by lia.
    set (uck := udp_checksum _ _ _).
    replace (header6 (8 + len payload)) with (header6 (len (udp_segment sp dp (8 + len payload) uck payload)))
      by (by rewrite len_udp_segment).
    eexists. rewrite parse_header6 by (rewrite ?len_udp_segment; done || lia). split; [done|].
    destruct (with_ports_udp (A6 s []) (A6 d []) sp dp uck payload) as (? & ? & ? & ?); [lia..|]. done.
Qed.

(** ** Checksums of a built packet *)

Lemma word_put2 z : 0 <= z < 65536 -> u8 (z / 256 ^ Z.of_nat 1) * 256 + u8 (z / 256 ^ Z.of_nat 0) = z.
Proof.
  intros H. unfold wrap. change (256 ^ Z.of_nat 1) with 256. change (256 ^ Z.of_nat 0) with 1.
  change (2 ^ 8) with 256. zlia.
Qed.

(** Storing a checksum in a zeroed field adds it to the sum. *)
Lemma header4_sum t ck s d :
  0 <= ck < 65536 -> word_sum (header4 t ck s d) = word_sum (header4 t 0 s d) + ck.
Proof.
  intros H. unfold header4. cbn [be_put app word_sum].
  pose proof (word_put2 ck H). pose proof (word_put2 0 ltac:(lia)). lia.
Qed.

Lemma segment_sum sp dp n ck payload :
  0 <= ck < 65536 ->
  word_sum (udp_segment sp dp n ck payload) = word_sum (udp_segment sp dp n 0 payload) + ck.
Proof.
  intros H. unfold udp_segment. cbn [be_put app word_sum].
  pose proof (word_put2 ck H). pose proof (word_put2 0 ltac:(lia)). lia.
Qed.

Lemma wf_header4 t ck s d : wf_bytes (header4 t ck s d).
Proof.
  unfold header4. rewrite !wf_bytes_app. split_and!; auto with go_bytes.
  all: repeat constructor; unfold ipProtoUDP; lia.
Qed.

Lemma wf_udp_segment sp dp n ck payload : wf_bytes payload -> wf_bytes (udp_segment sp dp n ck payload).
Proof. intros H. unfold udp_segment. rewrite !wf_bytes_app. auto 10 with go_bytes. Qed.

Lemma u32_id z : 0 <= z < 2 ^ 32 -> u32 z = z.
Proof. intros H. unfold wrap. by apply Z.mod_small. Qed.

Lemma header_checksum_ok t s d :
  let ck := checksumFold (checksumAdd 0 (header4 t 0 s d)) in
  checksumFold (checksumAdd 0 (header4 t ck s d)) = 0.
Proof.
  pose proof (word_sum_bound (header4 t 0 s d) (wf_header4 _ _ _ _)) as B.
  change (65535 * ((len (header4 t 0 s d) + 1) / 2)) with 655350 in B.
  assert (0 < word_sum (header4 t 0 s d)) as P.
  { unfold header4. cbn [be_put app word_sum]. unfold ipProtoUDP.
    assert (forall z, 0 <= u8 z) by (intros z; apply (wf_u8 z)).
    repeat match goal with |- context [u8 ?z] => pose proof (H z); generalize dependent (u8 z); intros end.
    lia. }
  rewrite (checksumAdd_sum _ 0), Z.add_0_l, u32_id by lia. cbv zeta.
  destruct (checksumFold_spec (word_sum (header4 t 0 s d)) ltac:(lia)) as [C D].
  set (ck := checksumFold _) in *.
  rewrite checksumAdd_sum, header4_sum, Z.add_0_l by lia. rewrite u32_id by lia.
  apply checksumFold_verifies; lia.
Qed.

(** The pseudo-header sum of the UDP checksum. *)
Definition pseudo_sum (addrs : bytes) (n : Z) : Z := word_sum addrs + ipProtoUDP + n.

Lemma udp_checksum_ok addrs sp dp payload :
  wf_bytes addrs -> len addrs <= 32 -> wf_bytes payload -> len payload <= 65507 ->
  let n := 8 + len payload in
  let ck := udp_checksum (checksumAdd 0 addrs) n (udp_segment sp dp (u16 n) 0 payload) in
  0 < ck <= 65535 /\
  checksumFold (checksumAdd (pseudo_sum addrs n) (udp_segment sp dp (u16 n) ck payload)) = 0.
Proof.
  intros Wa La Wp Lp n ck. pose proof (len_nonneg payload). pose proof (len_nonneg addrs).
  pose proof (word_sum_bound addrs Wa) as Ba.
  assert (0 <= word_sum addrs <= 1048560) as Ba'.
  { assert ((len addrs + 1) / 2 < 17) by (apply Z.div_lt_upper_bound; lia). lia. }
  pose proof (word_sum_bound (udp_segment sp dp (u16 n) 0 payload) (wf_udp_segment _ _ _ _ _ Wp)) as Bs.
  assert (0 <= word_sum (udp_segment sp dp (u16 n) 0 payload) <= 2147450880) as Bs'.
  { rewrite len_udp_segment in Bs. assert ((8 + len payload + 1) / 2 <= 32758)
      by (apply Z.div_le_upper_bound; lia). lia. }
  assert (u32 (checksumAdd 0 addrs + u32 (ipProtoUDP + u32 n)) = pseudo_sum addrs n) as Ep.
  { rewrite checksumAdd_sum, Z.add_0_l by lia. unfold pseudo_sum, ipProtoUDP, n.
    rewrite (u32_id (word_sum addrs)), (u32_id (8 + len payload)) by lia.
    rewrite (u32_id (17 + (8 + len payload))) by lia. rewrite u32_id by lia. lia. }
  unfold ck, udp_checksum. rewrite Ep.
  assert (17 <= pseudo_sum addrs n <= 1200000) as Bp by (unfold pseudo_sum, ipProtoUDP, n; lia).
  rewrite (checksumAdd_sum (udp_segment sp dp (u16 n) 0 payload)) by lia. rewrite u32_id by lia.
  set (x := pseudo_sum addrs n + word_sum (udp_segment sp dp (u16 n) 0 payload)) in *.
  assert (0 < x < 2 ^ 32) as Bx by lia.
  destruct (checksumFold_spec x Bx) as [C D]. set (c := checksumFold x) in *.
  assert (forall k, 0 < k <= 65535 -> (x + k) mod 65535 = 0 ->
    checksumFold (checksumAdd (pseudo_sum addrs n) (udp_segment sp dp (u16 n) k payload)) = 0) as G.
  { intros k Hk Hm. rewrite checksumAdd_sum, segment_sum by lia.
    rewrite Z.add_assoc. fold x. rewrite u32_id by lia. apply checksumFold_verifies; lia. }
  destruct (Z.eqb_spec c 0) as [E|E]; (split; [lia|apply G; [lia|]]); [|done].
  rewrite E, Z.add_0_r in D. zlia.
Qed.

(** The checksums of a built packet verify: summing the IPv4 header, and the
    pseudo header with the UDP segment, folds to zero, and the UDP checksum field
    is never zero (which would mean "no checksum"). *)
Theorem udp_packet_checksums s d sp dp payload :
  wf_bytes payload -> len payload <= 65507 ->
  let pkt := buildUDPPacket {| ap_addr := A4 s; ap_port := sp |} {| ap_addr := A4 d; ap_port := dp |} payload in
  checksumFold (checksumAdd 0 (take 20 pkt)) = 0 /\
  checksumFold (checksumAdd (pseudo_sum (slice 12 20 pkt) (8 + len payload)) (drop 20 pkt)) = 0 /\
  0 < be_get (slice 26 28 pkt) <= 65535.
Proof.
  intros Wp Lp pkt. unfold pkt. rewrite build4_eq. cbv zeta.
  set (hck := checksumFold (checksumAdd 0 (header4 _ 0 s d))). set (h := header4 _ hck s d). set (uck := udp_checksum _ _ _).
  set (seg := udp_segment sp dp _ uck payload).
  change (take 20 (h ++ seg)) with h. change (drop 20 (h ++ seg)) with seg.
  change (slice 12 20 (h ++ seg)) with (be_put 4 s ++ be_put 4 d).
  change (slice 26 28 (h ++ seg)) with (be_put 2 uck).
  assert (wf_bytes (be_put 4 s ++ be_put 4 d)) as Wa by (apply wf_bytes_app; auto with go_bytes).
  destruct (udp_checksum_ok (be_put 4 s ++ be_put 4 d) sp dp payload Wa) as [B E]; [done..|].
  split_and!; [apply header_checksum_ok|exact E|..]; rewrite be_get_put2; apply B || (fold uck in B; lia).
Qed.

(** ** Witnesses *)

Definition sample_src : AddrPort := {| ap_addr := A4 (100 * 2 ^ 24 + 100 * 2 ^ 16 + 100 * 2 ^ 8 + 100); ap_port := 53 |}.
Definition sample_dst : AddrPort := {| ap_addr := A4 (10 * 2 ^ 24 + 2); ap_port := 40000 |}.

Lemma udp_packet_roundtrip_witness :
  exists i, parseIPPacket (buildUDPPacket sample_src sample_dst (lit "answer")) = Some i /\
    pi_src i = ap_addr sample_src /\ pi_dst i = ap_addr sample_dst /\ pi_proto i = ipProtoUDP /\
    pi_srcPort i = 53 /\ pi_dstPort i = 40000 /\ pi_hasL4Ports i = true /\ udpPayload i = lit "answer".
Proof.
  apply (udp_packet_roundtrip sample_src sample_dst (lit "answer"));
    first [reflexivity | split; [vm_compute; discriminate | vm_compute; reflexivity] | vm_compute; discriminate].
Defined.

Lemma udp_packet_checksums_witness :
  let pkt := buildUDPPacket sample_src sample_dst (lit "answer") in
  checksumFold (checksumAdd 0 (take 20 pkt)) = 0 /\
  checksumFold (checksumAdd (pseudo_sum (slice 12 20 pkt) (8 + len (lit "answer"))) (drop 20 pkt)) = 0 /\
  0 < be_get (slice 26 28 pkt) <= 65535.
Proof.
  apply (udp_packet_checksums (100 * 2 ^ 24 + 100 * 2 ^ 16 + 100 * 2 ^ 8 + 100) (10 * 2 ^ 24 + 2) 53 40000 (lit "answer")).
  - repeat constructor; vm_compute; done.
  - vm_compute. discriminate.
Defined.
