(* ===== verification/WebSocket.v ===== *)
(** * Passive WebSocket frame tap (src/vpntunnel/websocket.go)

    The tap parses one direction of a WebSocket byte stream handed over in
    arbitrary chunks and records one event per frame.  The chunked parser is
    proved equal to a byte-at-a-time reference automaton, so the events do not
    depend on how the stream was cut, and to record exactly the frames that an
    RFC 6455 sender put on the wire. *)

From S2P Require Import Prelude GoStrings.

Definition wsFramePayloadCap : Z := Z.shiftl 64 10.

(** [utf8.Valid]: no position decodes to the one-byte error rune. *)
Fixpoint utf8_valid_fuel (fuel : nat) (s : bytes) : bool :=
  match fuel, s with
  | _, [] => true
  | O, _ => false
  | S fuel', _ =>
      let '(r, n) := DecodeRune s in
      negb ((r =? RuneError) && (n =? 1)%nat) && utf8_valid_fuel fuel' (drop n s)
  end.
Definition utf8_Valid (s : bytes) : bool := utf8_valid_fuel (length s) s.

(** [base64.StdEncoding.EncodeToString]. *)
Definition b64_char (z : Z) : Z :=
  if z <? 26 then 65 + z else if z <? 52 then 97 + (z - 26)
  else if z <? 62 then 48 + (z - 52) else if z =? 62 then 43 else 47.

Fixpoint base64_encode (s : bytes) : bytes :=
  match s with
  | [] => []
  | [a] => [b64_char (Z.shiftr a 2); b64_char (Z.land (Z.shiftl a 4) 63); 61; 61]
  | [a; b] => [b64_char (Z.shiftr a 2);
               b64_char (Z.lor (Z.land (Z.shiftl a 4) 63) (Z.shiftr b 4));
               b64_char (Z.land (Z.shiftl b 2) 63); 61]
  | a :: b :: c :: s' =>
      b64_char (Z.shiftr a 2)
      :: b64_char (Z.lor (Z.land (Z.shiftl a 4) 63) (Z.shiftr b 4))
      :: b64_char (Z.lor (Z.land (Z.shiftl b 2) 63) (Z.shiftr c 6))
      :: b64_char (Z.land c 63) :: base64_encode s'
  end.

Record wsFrameEvent := {
  ev_ts : Z;
  ev_dir : bytes;
  ev_op : Z;
  ev_fin : bool;
  ev_len : Z;
  ev_text : option bytes;
  ev_b64 : bytes;
  ev_truncated : bool;
  ev_compressed : bool
}.

(** The tap.  [t_rec] says whether a recorder is attached; [t_log] is the list of
    events appended (one JSON line each) to [t_path] through the recorder. *)
Record wsTap := mkTap {
  t_rec : bool;
  t_path : bytes;
  t_dir : bytes;
  t_hdr : bytes;
  t_need : Z;
  t_remaining : Z;
  t_offset : Z;
  t_mask : bytes;
  t_masked : bool;
  t_op : Z;
  t_fin : bool;
  t_rsv1 : bool;
  t_length : Z;
  t_payload : bytes;
  t_msgOp : Z;
  t_broken : bool;
  t_log : list wsFrameEvent
}.

Definition newWSTap (rec : bool) (txID dir : bytes) : wsTap :=
  {| t_rec := rec; t_path := lit "ws/" ++ txID ++ lit ".jsonl"; t_dir := dir; t_hdr := []; t_need := 2;
     t_remaining := 0; t_offset := 0; t_mask := [0; 0; 0; 0]; t_masked := false; t_op := 0;
     t_fin := false; t_rsv1 := false; t_length := 0; t_payload := []; t_msgOp := 0;
     t_broken := false; t_log := [] |}.

(** Field assignments, grouped as the code performs them. *)
Definition set_hdr (t : wsTap) (hdr : bytes) : wsTap :=
  mkTap (t_rec t) (t_path t) (t_dir t) hdr (t_need t) (t_remaining t) (t_offset t) (t_mask t)
    (t_masked t) (t_op t) (t_fin t) (t_rsv1 t) (t_length t) (t_payload t) (t_msgOp t) (t_broken t) (t_log t).

Definition set_need (t : wsTap) (need : Z) : wsTap :=
  mkTap (t_rec t) (t_path t) (t_dir t) (t_hdr t) need (t_remaining t) (t_offset t) (t_mask t)
    (t_masked t) (t_op t) (t_fin t) (t_rsv1 t) (t_length t) (t_payload t) (t_msgOp t) (t_broken t) (t_log t).

Definition set_flags (t : wsTap) (fin rsv1 : bool) (op : Z) (masked : bool) : wsTap :=
  mkTap (t_rec t) (t_path t) (t_dir t) (t_hdr t) (t_need t) (t_remaining t) (t_offset t) (t_mask t)
    masked op fin rsv1 (t_length t) (t_payload t) (t_msgOp t) (t_broken t) (t_log t).

Definition set_broken (t : wsTap) (length : Z) : wsTap :=
  mkTap (t_rec t) (t_path t) (t_dir t) (t_hdr t) (t_need t) (t_remaining t) (t_offset t) (t_mask t)
    (t_masked t) (t_op t) (t_fin t) (t_rsv1 t) length (t_payload t) (t_msgOp t) true (t_log t).

Definition set_frame (t : wsTap) (length : Z) (mask : bytes) : wsTap :=
  mkTap (t_rec t) (t_path t) (t_dir t) (t_hdr t) 0 length 0 mask
    (t_masked t) (t_op t) (t_fin t) (t_rsv1 t) length [] (t_msgOp t) (t_broken t) (t_log t).

Definition set_data (t : wsTap) (payload : bytes) (offset remaining : Z) : wsTap :=
  mkTap (t_rec t) (t_path t) (t_dir t) (t_hdr t) (t_need t) remaining offset (t_mask t)
    (t_masked t) (t_op t) (t_fin t) (t_rsv1 t) (t_length t) payload (t_msgOp t) (t_broken t) (t_log t).

Definition set_emitted (t : wsTap) (msgOp : Z) (log : list wsFrameEvent) : wsTap :=
  mkTap (t_rec t) (t_path t) (t_dir t) [] 2 (t_remaining t) (t_offset t) (t_mask t)
    (t_masked t) (t_op t) (t_fin t) (t_rsv1 t) (t_length t) [] msgOp (t_broken t) log.

(** Header bytes a frame starting with [b1] in second position takes. *)
Definition header_want (b1 : Z) : Z :=
  let l7 := Z.land b1 127 in
  2 + (if l7 =? 126 then 2 else if l7 =? 127 then 8 else 0)
    + (if Z.land b1 128 =? 0 then 0 else 4).

Definition parseHeader (t0 : wsTap) : wsTap * bool :=
  let b0 := at_ (t_hdr t0) 0 in
  let b1 := at_ (t_hdr t0) 1 in
  let t := set_flags t0 (negb (Z.land b0 128 =? 0)) (negb (Z.land b0 64 =? 0)) (Z.land b0 15)
             (negb (Z.land b1 128 =? 0)) in
  let l7 := Z.land b1 127 in
  let want := header_want b1 in
  if len (t_hdr t) <? want then (set_need t want, false)
  else
    let '(length, pos) :=
      if l7 =? 126 then (be_get (slice 2 4 (t_hdr t)), 4%nat)
      else if l7 =? 127 then (be_get (slice 2 10 (t_hdr t)), 10%nat)
      else (l7, 2%nat) in
    if (l7 =? 127) && negb (Z.shiftr length 63 =? 0) then (set_broken t length, false)
    else
      let mask := if t_masked t then slice pos (pos + 4) (t_hdr t) else t_mask t in
      (set_frame t length mask, true).

(** XOR of a chunk with the masking key, starting at stream position [off]. *)
Definition mask_from (mask : bytes) (off : Z) (s : bytes) : bytes :=
  imap (fun i b => Z.lxor b (at_ mask (Z.to_nat (u64 (off + Z.of_nat i) mod 4)))) s.

Lemma lxor_byte a b : is_byte a -> is_byte b -> is_byte (Z.lxor a b).
Proof.
  unfold is_byte. intros Ha Hb. split.
  - apply Z.lxor_nonneg. lia.
  - destruct (Z.eq_dec (Z.lxor a b) 0) as [->|Hne]; [lia|].
    apply (Z.log2_lt_pow2 _ 8); [pose proof (proj2 (Z.lxor_nonneg a b)); lia|].
    assert (forall c, 0 <= c < 256 -> Z.log2 c < 8) as L.
    { intros c Hc. destruct (Z.eq_dec c 0) as [->|]; [done|]. apply Z.log2_lt_pow2; lia. }
    pose proof (Z.log2_lxor a b). pose proof (L a Ha). pose proof (L b Hb). lia.
Qed.

Section Tap.
(** The [k]-th reading of the millisecond clock. *)
Context (nowMs : nat -> Z).

Definition frame_event (t : wsTap) (effective : Z) : wsFrameEvent :=
  let text := (effective =? 1) && negb (t_rsv1 t) && utf8_Valid (t_payload t) in
  {| ev_ts := nowMs (length (t_log t)); ev_dir := t_dir t; ev_op := t_op t; ev_fin := t_fin t;
     ev_len := t_length t;
     ev_text := if text then Some (t_payload t) else None;
     ev_b64 := if text then [] else base64_encode (t_payload t);
     ev_truncated := len (t_payload t) <? t_length t; ev_compressed := t_rsv1 t |}.

Definition emit (t : wsTap) : wsTap :=
  let msgOp := if (t_op t =? 1) || (t_op t =? 2) then t_op t else t_msgOp t in
  let effective := if t_op t =? 0 then msgOp else t_op t in
  set_emitted t msgOp (t_log t ++ [frame_event t effective]).

(** The payload branch of [Write]: copy what fits under the cap, unmask it, and
    account for the whole chunk. *)
Definition absorb (t : wsTap) (chunk : bytes) : wsTap :=
  let k := len chunk in
  let room := u64 (wsFramePayloadCap - len (t_payload t)) in
  let payload :=
    if 0 <? room then
      let tk := if room <? len chunk then take (Z.to_nat room) chunk else chunk in
      t_payload t ++ (if t_masked t then mask_from (t_mask t) (t_offset t) tk else tk)
    else t_payload t in
  set_data t payload (u64 (t_offset t + k)) (u64 (t_remaining t - k)).

Definition emit_if_done (t : wsTap) : wsTap := if t_remaining t =? 0 then emit t else t.

(** The loop of [Write]; [None] only when the fuel runs out. *)
Fixpoint write_loop (fuel : nat) (t : wsTap) (p : bytes) : option wsTap :=
  match fuel with
  | O => None
  | S fuel' =>
      if len p =? 0 then Some t
      else if 0 <? t_need t then
        let k := Z.min (t_need t - len (t_hdr t)) (len p) in
        let t1 := set_hdr t (t_hdr t ++ take (Z.to_nat k) p) in
        let p1 := drop (Z.to_nat k) p in
        if len (t_hdr t1) <? t_need t1 then Some t1
        else
          let '(t2, ok) := parseHeader t1 in
          if ok then write_loop fuel' (emit_if_done t2) p1
          else if t_broken t2 then Some t2
          else write_loop fuel' t2 p1
      else
        let k := Z.min (len p) (t_remaining t) in
        write_loop fuel' (emit_if_done (absorb t (take (Z.to_nat k) p))) (drop (Z.to_nat k) p)
  end.

(** [wsTap.Write]: the new tap and the byte count reported to the caller. *)
Definition Write (t : wsTap) (p : bytes) : option (wsTap * Z) :=
  if negb (t_rec t) || t_broken t then Some (t, len p)
  else t' ← write_loop (S (length p)) t p; Some (t', len p).

(** ** Reference: one byte at a time *)

Definition wsByte (t : wsTap) (b : Z) : wsTap :=
  if t_broken t then t
  else if 0 <? t_need t then
    let t1 := set_hdr t (t_hdr t ++ [b]) in
    if len (t_hdr t1) <? t_need t1 then t1
    else let '(t2, ok) := parseHeader t1 in if ok then emit_if_done t2 else t2
  else emit_if_done (absorb t [b]).

(** Between two bytes: either a header is being collected, or a payload of known
    remaining length. *)
Definition collecting (t : wsTap) : Prop := 2 <= t_need t /\ len (t_hdr t) < t_need t.
Definition in_payload (t : wsTap) : Prop :=
  t_need t = 0 /\ 0 < t_remaining t /\ 0 <= t_offset t /\ t_offset t + t_remaining t < 2 ^ 63 /\
  len (t_payload t) <= wsFramePayloadCap.
Definition tap_ok (t : wsTap) : Prop :=
  wf_bytes (t_hdr t) /\ (t_broken t = true \/ collecting t \/ in_payload t).

(** ** Payload chunks *)

Definition unmask (t : wsTap) (off : Z) (s : bytes) : bytes :=
  if t_masked t then mask_from (t_mask t) off s else s.

Lemma length_unmask t off s : length (unmask t off s) = length s.
Proof. unfold unmask, mask_from. destruct (t_masked t); by rewrite ?length_imap. Qed.

Lemma mask_from_app m off a b : mask_from m off (a ++ b) = mask_from m off a ++ mask_from m (off + len a) b.
Proof.
  unfold mask_from. rewrite imap_app. f_equal. apply imap_ext. intros i x Hx. unfold len. cbn.
  by replace (off + Z.of_nat (length a + i)) with (off + Z.of_nat (length a) + Z.of_nat i) by lia.
Qed.

Lemma unmask_app t off a b : unmask t off (a ++ b) = unmask t off a ++ unmask t (off + len a) b.
Proof. unfold unmask. destruct (t_masked t); [apply mask_from_app|done]. Qed.

Lemma u64_id z : 0 <= z < 2 ^ 64 -> u64 z = z.
Proof. intros H. unfold wrap. by apply Z.mod_small. Qed.

Lemma absorb_eq t c :
  in_payload t -> len c <= t_remaining t ->
  absorb t c = set_data t (t_payload t ++ unmask t (t_offset t)
                             (take (Z.to_nat (wsFramePayloadCap - len (t_payload t))) c))
                 (t_offset t + len c) (t_remaining t - len c).
Proof.
  intros (_ & Hr & Ho & Hb & Hp) Hc. pose proof (len_nonneg c). pose proof (len_nonneg (t_payload t)).
  unfold absorb, unmask. rewrite (u64_id (t_offset t + _)), (u64_id (t_remaining t - _)) by lia.
  assert (wsFramePayloadCap = 65536) as Ecap by done.
  rewrite (u64_id (wsFramePayloadCap - _)) by lia. f_equal.
  destruct (Z.ltb_spec 0 (wsFramePayloadCap - len (t_payload t))).
  - destruct (Z.ltb_spec (wsFramePayloadCap - len (t_payload t)) (len c)); [done|].
    rewrite take_ge; [done|]. unfold len in *. lia.
  - replace (Z.to_nat _) with 0%nat by lia. rewrite take_0. unfold mask_from.
    destruct (t_masked t); cbn; by rewrite app_nil_r.
Qed.

Lemma set_data_twice t p o r p' o' r' : set_data (set_data t p o r) p' o' r' = set_data t p' o' r'.
Proof. done. Qed.

Lemma set_data_ext t p o r p' o' r' : p = p' -> o = o' -> r = r' -> set_data t p o r = set_data t p' o' r'.
Proof. by intros -> -> ->. Qed.

Lemma in_payload_absorb t c :
  in_payload t -> len c < t_remaining t -> in_payload (absorb t c).
Proof.
  intros H Hc. rewrite absorb_eq by (done || lia). destruct H as (Hn & Hr & Ho & Hb & Hp).
  pose proof (len_nonneg c). split_and!; cbn; try done; try lia.
  unfold len in *. rewrite length_app, length_unmask, length_take. lia.
Qed.

Lemma absorb_app t a b :
  in_payload t -> len a + len b <= t_remaining t -> 0 < len b ->
  absorb (absorb t a) b = absorb t (a ++ b).
Proof.
  intros H Hl Hb. pose proof (len_nonneg a).
  rewrite (absorb_eq t (a ++ b)) by (rewrite ?len_app; done || lia).
  assert (in_payload (absorb t a)) as H1 by (apply in_payload_absorb; done || lia).
  rewrite absorb_eq; [|done|rewrite absorb_eq by (done || lia); cbn; lia].
  rewrite absorb_eq by (done || lia). destruct H as (_ & _ & _ & _ & Hp).
  rewrite set_data_twice. cbn [set_data t_payload t_offset t_remaining]. rewrite !len_app.
  apply set_data_ext; [|lia..].
  rewrite <- app_assoc. f_equal. rewrite firstn_app, unmask_app. f_equal.
  set (n := Z.to_nat (wsFramePayloadCap - len (t_payload t))).
  change (unmask (set_data _ _ _ _)) with (unmask t).
  destruct (decide (length a <= n)%nat) as [Hn|Hn].
  - rewrite (take_ge a) by lia. f_equal. f_equal.
    unfold len in *. rewrite length_unmask. subst n. rewrite ?(take_ge a) by lia. lia.
  - replace (n - length a)%nat with 0%nat by lia. rewrite take_0.
    replace (Z.to_nat _) with 0%nat; [by rewrite take_0; unfold unmask; destruct (t_masked t)|].
    unfold len in *. rewrite length_unmask, length_take. subst n. lia.
Qed.

(** ** Folding the reference automaton over a chunk *)

Lemma hdr_fold q : forall t,
  t_broken t = false -> 0 < t_need t -> len (t_hdr t) + len q < t_need t ->
  fold_left wsByte q t = set_hdr t (t_hdr t ++ q).
Proof.
  induction q as [|b q IH]; intros t Hbr Hn Hl; cbn [fold_left].
  - destruct t; cbn. unfold set_hdr; cbn. by rewrite app_nil_r.
  - rewrite len_cons in Hl. pose proof (len_nonneg q).
    assert (wsByte t b = set_hdr t (t_hdr t ++ [b])) as ->.
    { unfold wsByte. rewrite Hbr. destruct (Z.ltb_spec 0 (t_need t)); [|lia]. cbn.
      rewrite len_app, len_cons, len_nil. destruct (Z.ltb_spec (len (t_hdr t) + (1 + 0)) (t_need t)); [done|lia]. }
    rewrite IH; cbn; [|done..|rewrite len_app, len_cons, len_nil; lia].
    unfold set_hdr; cbn. by rewrite <- app_assoc.
Qed.

Lemma payload_fold q : forall t,
  t_broken t = false -> in_payload t -> 0 < len q <= t_remaining t ->
  fold_left wsByte q t = emit_if_done (absorb t q).
Proof.
  induction q as [|b q IH]; intros t Hbr Hin Hq; [unfold len in Hq; cbn in Hq; lia|].
  rewrite len_cons in Hq. cbn [fold_left].
  assert (wsByte t b = emit_if_done (absorb t [b])) as ->.
  { unfold wsByte. rewrite Hbr. destruct Hin as (-> & _). done. }
  destruct (decide (q = [])) as [->|Hne]; [done|].
  assert (0 < len q) by (destruct q; [done|rewrite len_cons; pose proof (len_nonneg q); lia]).
  assert (t_remaining (absorb t [b]) = t_remaining t - 1) as Hr.
  { rewrite absorb_eq by (rewrite ?len_cons, ?len_nil; done || lia). done. }
  unfold emit_if_done at 1. destruct (Z.eqb_spec (t_remaining (absorb t [b])) 0); [lia|].
  rewrite IH; [|done|apply in_payload_absorb; rewrite ?len_cons, ?len_nil; done || lia|lia].
  f_equal. apply absorb_app; rewrite ?len_cons, ?len_nil; done || lia.
Qed.

Lemma broken_fold q t : t_broken t = true -> fold_left wsByte q t = t.
Proof.
  intros H. induction q as [|b q IH]; cbn; [done|]. unfold wsByte at 2. by rewrite H.
Qed.

(** ** The invariant *)

Lemma emit_collecting t : collecting (emit t).
Proof. split; cbn; rewrite ?len_nil; lia. Qed.

Lemma header_want_bounds b : 2 <= header_want b <= 14.
Proof. unfold header_want. repeat case_match; lia. Qed.

Lemma land7 b : 0 <= Z.land b 127 < 128.
Proof. change 127 with (Z.ones 7). rewrite Z.land_ones by lia. apply Z.mod_pos_bound. lia. Qed.

Lemma be_get_range (n : nat) s : wf_bytes s -> (length s <= n)%nat -> 0 <= be_get s < 256 ^ Z.of_nat n.
Proof.
  intros Hw Hl. pose proof (be_get_bound s Hw) as [B1 B2]. split; [done|].
  eapply Z.lt_le_trans; [done|]. apply Z.pow_le_mono_r; [lia|]. unfold len. lia.
Qed.

(** What a completed header tells: the tap is in a payload, has just emitted an
    empty frame, waits for more header, or is broken. *)
Lemma parseHeader_ok t t' ok :
  wf_bytes (t_hdr t) -> t_broken t = false -> parseHeader t = (t', ok) ->
  wf_bytes (t_hdr t') /\ t_rec t' = t_rec t /\
  if ok then t_broken t' = false /\ tap_ok (emit_if_done t')
  else t_broken t' = true \/ (t_broken t' = false /\ collecting t').
Proof.
  intros Hw Hbr. unfold parseHeader. cbn [t_hdr set_flags].
  set (b0 := at_ _ 0). set (b1 := at_ _ 1). pose proof (header_want_bounds b1) as Hwant.
  destruct (Z.ltb_spec (len (t_hdr t)) (header_want b1)) as [Hlt|Hge].
  { intros [= <- <-]. cbn. split_and!; try done. right. split; [done|]. split; cbn; lia. }
  set (lp := if Z.land b1 127 =? 126 then _ else _).
  assert (0 <= lp.1 < 2 ^ 64) as Hl.
  { unfold lp. pose proof (land7 b1).
    repeat case_match; cbn [fst]; [..|lia].
    - pose proof (be_get_range 2 (slice 2 4 (t_hdr t)) ltac:(auto with go_bytes) ltac:(len_lia)). lia.
    - pose proof (be_get_range 8 (slice 2 10 (t_hdr t)) ltac:(auto with go_bytes) ltac:(len_lia)).
      change (256 ^ Z.of_nat 8) with (2 ^ 64) in *. lia. }
  assert (Z.land b1 127 <> 127 -> lp.1 < 65536) as Hsmall.
  { intros Hne. unfold lp. pose proof (land7 b1). repeat case_match; to_prop; cbn [fst]; [|done|lia].
    pose proof (be_get_range 2 (slice 2 4 (t_hdr t)) ltac:(auto with go_bytes) ltac:(len_lia)). lia. }
  destruct lp as [n pos]. cbn [fst] in *.
  destruct ((Z.land b1 127 =? 127) && negb (Z.shiftr n 63 =? 0)) eqn:E; intros [= <- <-].
  { cbn. auto. }
  assert (n < 2 ^ 63) as Hn.
  { apply andb_false_iff in E as [E|E]; to_prop; [specialize (Hsmall E); lia|].
    rewrite Z.shiftr_div_pow2 in E by lia. apply Z.div_small_iff in E; lia. }
  split_and!; try done. unfold emit_if_done. cbn.
  destruct (Z.eqb_spec n 0).
  - split; [constructor|]. right; left. apply emit_collecting.
  - split; [done|]. right; right. split_and!; cbn; try lia. by vm_compute.
Qed.

Lemma emit_if_done_fields t :
  t_broken (emit_if_done t) = t_broken t /\ t_rec (emit_if_done t) = t_rec t.
Proof. unfold emit_if_done. by case_match. Qed.

Lemma absorb_ok t c :
  wf_bytes (t_hdr t) -> in_payload t -> 0 < len c <= t_remaining t ->
  tap_ok (emit_if_done (absorb t c)).
Proof.
  intros Hw Hin Hc. unfold emit_if_done. destruct (Z.eqb_spec (t_remaining (absorb t c)) 0) as [E|E].
  - split; [constructor|]. right; left. apply emit_collecting.
  - split; [done|]. right; right. apply in_payload_absorb; [done|].
    rewrite absorb_eq in E by (done || lia). cbn in E. lia.
Qed.

(** A header chunk either stays short of [t_need], or its last byte completes it. *)
Lemma header_chunk t q :
  t_broken t = false -> collecting t -> len (t_hdr t) + len q = t_need t ->
  fold_left wsByte q t =
    let '(t2, ok) := parseHeader (set_hdr t (t_hdr t ++ q)) in if ok then emit_if_done t2 else t2.
Proof.
  intros Hbr [Hn Hl] Hq. destruct q as [|b q _] using rev_ind; [unfold len in *; cbn in *; lia|].
  rewrite len_app, len_cons, len_nil in Hq. rewrite fold_left_app, (hdr_fold q) by (done || lia).
  cbn [fold_left]. unfold wsByte. cbn [set_hdr t_broken t_need t_hdr]. rewrite Hbr.
  destruct (Z.ltb_spec 0 (t_need t)); [|lia]. rewrite !len_app, len_cons, len_nil.
  destruct (Z.ltb_spec (len (t_hdr t) + len q + (1 + 0)) (t_need t)); [lia|].
  rewrite <- app_assoc. done.
Qed.

Lemma len_pos_drop (k : Z) (p : bytes) :
  0 < k <= len p -> (length (drop (Z.to_nat k) p) < length p)%nat.
Proof. intros H. rewrite length_drop. unfold len in H. lia. Qed.

Lemma len_take_min (k : Z) (p : bytes) : 0 <= k <= len p -> len (take (Z.to_nat k) p) = k.
Proof. intros H. unfold len in *. rewrite length_take. lia. Qed.

Lemma fold_split k p t : fold_left wsByte p t = fold_left wsByte (drop k p) (fold_left wsByte (take k p) t).
Proof. by rewrite <- fold_left_app, take_drop. Qed.

(** The chunked loop is the byte-at-a-time automaton. *)
Lemma write_loop_bytes fuel : forall t p,
  tap_ok t -> t_broken t = false -> wf_bytes p -> (length p < fuel)%nat ->
  write_loop fuel t p = Some (fold_left wsByte p t).
Proof.
  induction fuel as [|fuel IH]; intros t p [Hw Hok] Hbr Hp Hf; [lia|]. cbn [write_loop].
  destruct (Z.eqb_spec (len p) 0) as [E|E]; [by destruct p|].
  pose proof (len_nonneg p) as Hp0. destruct Hok as [Hok|[Hc|Hin]]; [congruence|..].
  - destruct (Z.ltb_spec 0 (t_need t)) as [_|]; [|destruct Hc; lia].
    set (k := Z.min _ _). cbn [set_hdr t_hdr t_need].
    assert (0 < k <= len p) as Hk by (destruct Hc; lia).
    rewrite (fold_split (Z.to_nat k) p t).
    rewrite len_app, len_take_min by lia.
    destruct (Z.ltb_spec (len (t_hdr t) + k) (t_need t)) as [Hlt|Hge].
    + assert (drop (Z.to_nat k) p = []) as -> by (apply drop_ge; unfold len in *; lia).
      cbn [fold_left]. rewrite (hdr_fold (take _ p)) by (rewrite ?len_take_min; done || (destruct Hc; lia)).
      done.
    + rewrite (header_chunk t (take _ p)) by (rewrite ?len_take_min; done || (destruct Hc; lia)).
      destruct (parseHeader _) as [t2 ok] eqn:Eh.
      apply parseHeader_ok in Eh as (Hw2 & _ & Hpost); [|cbn; apply wf_bytes_app; auto with go_bytes|done].
      pose proof (len_pos_drop k p Hk). destruct ok.
      * destruct Hpost as [Hb2 Hok2]. apply IH; [done| |auto with go_bytes|lia].
        by rewrite (proj1 (emit_if_done_fields t2)).
      * destruct Hpost as [Hb2|[Hb2 Hc2]]; rewrite Hb2; [by rewrite broken_fold|].
        apply IH; [split; auto|done|auto with go_bytes|lia].
  - destruct (Z.ltb_spec 0 (t_need t)) as [Hn|_]; [destruct Hin; lia|].
    set (k := Z.min _ _). assert (0 < k <= len p) as Hk by (destruct Hin as (_ & ? & _); lia).
    pose proof (len_pos_drop k p Hk).
    rewrite (fold_split (Z.to_nat k) p t).
    rewrite (payload_fold (take _ p)) by (rewrite ?len_take_min; (done || destruct Hin as (_ & ? & _); lia)).
    apply IH; [apply absorb_ok; rewrite ?len_take_min; (done || destruct Hin as (_ & ? & _); lia)| |auto with go_bytes|lia].
    by rewrite (proj1 (emit_if_done_fields _)).
Qed.

Lemma wsByte_keeps t b : is_byte b -> tap_ok t -> tap_ok (wsByte t b) /\ t_rec (wsByte t b) = t_rec t.
Proof.
  intros Hb [Hw Hok]. unfold wsByte. destruct (t_broken t) eqn:Hbr; [split; [split; auto|done]|].
  destruct Hok as [?|[[Hn Hl]|Hin]]; [done|..].
  - destruct (Z.ltb_spec 0 (t_need t)) as [_|]; [|lia].
    assert (wf_bytes (t_hdr t ++ [b])) as Hw1 by (apply wf_bytes_app; split; [done|constructor; [exact Hb|constructor]]).
    cbn [set_hdr t_hdr t_need]. destruct (Z.ltb_spec (len (t_hdr t ++ [b])) (t_need t)).
    + split; [split; [done|]|done]. right; left. by split.
    + destruct (parseHeader _) as [t2 ok] eqn:Eh. apply parseHeader_ok in Eh as (Hw2 & Hr & Hpost); [|done..].
      destruct ok; [rewrite (proj2 (emit_if_done_fields t2)); tauto|]. split; [|done]. split; tauto.
  - destruct (Z.ltb_spec 0 (t_need t)) as [Hn|_]; [destruct Hin; lia|].
    split; [|exact (proj2 (emit_if_done_fields (absorb t [b])))].
    apply absorb_ok; [done..|]. change (len [b]) with 1. destruct Hin as (_ & ? & _). lia.
Qed.

Lemma fold_keeps p : forall t, wf_bytes p -> tap_ok t ->
  tap_ok (fold_left wsByte p t) /\ t_rec (fold_left wsByte p t) = t_rec t.
Proof.
  induction p as [|b p IH]; intros t Hp Ht; [done|]. apply Forall_cons in Hp as [Hb Hp].
  destruct (wsByte_keeps t b Hb Ht) as [H1 H2]. cbn. destruct (IH _ Hp H1) as [H3 H4]. by rewrite H4.
Qed.

Lemma Write_bytes t p :
  t_rec t = true -> tap_ok t -> wf_bytes p -> Write t p = Some (fold_left wsByte p t, len p).
Proof.
  intros Hr Ht Hp. unfold Write. rewrite Hr. destruct (t_broken t) eqn:Hb; cbn [negb orb].
  - by rewrite broken_fold.
  - by rewrite write_loop_bytes by (done || lia).
Qed.

(** A sequence of writes; the tap after the last one. *)
Fixpoint writes (t : wsTap) (ps : list bytes) : option wsTap :=
  match ps with
  | [] => Some t
  | p :: ps' => '(t', _) ← Write t p; writes t' ps'
  end.

Lemma writes_bytes ps : forall t,
  t_rec t = true -> tap_ok t -> Forall wf_bytes ps -> writes t ps = Some (fold_left wsByte (concat ps) t).
Proof.
  induction ps as [|p ps IH]; intros t Hr Ht Hp; [done|]. apply Forall_cons in Hp as [Hp Hps].
  cbn [writes concat]. rewrite Write_bytes by done. cbn. rewrite fold_left_app.
  destruct (fold_keeps p t Hp Ht) as [H1 H2]. apply IH; [by rewrite H2|done..].
Qed.

(** Chunking independence: however the stream is cut into writes, the tap
    accepts all of it, stays well formed, and ends in the same state with the
    same recorded events as after a single write of the whole stream. *)
Theorem ws_chunking t ps :
  t_rec t = true -> tap_ok t -> Forall wf_bytes ps ->
  exists t', writes t ps = Some t' /\ Write t (concat ps) = Some (t', len (concat ps)) /\ tap_ok t'.
Proof.
  intros Hr Ht Hps. assert (wf_bytes (concat ps)) as Hw by (by apply Forall_concat).
  exists (fold_left wsByte (concat ps) t). rewrite writes_bytes, Write_bytes by done.
  split_and!; [done..|]. by apply fold_keeps.
Qed.

(** ** What a sender puts on the wire (RFC 6455, section 5.2) *)

Record wsFrame := { f_fin : bool; f_rsv1 : bool; f_op : Z; f_mask : option bytes; f_data : bytes }.

Definition wf_frame (f : wsFrame) : Prop :=
  0 <= f_op f < 16 /\ wf_bytes (f_data f) /\ len (f_data f) < 2 ^ 63 /\
  match f_mask f with Some m => wf_bytes m /\ length m = 4%nat | None => True end.

#[export] Instance wf_frame_dec f : Decision (wf_frame f).
Proof. unfold wf_frame. destruct (f_mask f); apply _. Defined.

Definition flag (b : bool) (v : Z) : Z := if b then v else 0.
Definition len7 (n : Z) : Z := if n <? 126 then n else if n <? 65536 then 126 else 127.
Definition ext_len (n : Z) : bytes :=
  if n <? 126 then [] else if n <? 65536 then be_put 2 n else be_put 8 n.
Definition frame_b0 (f : wsFrame) : Z := flag (f_fin f) 128 + flag (f_rsv1 f) 64 + f_op f.
Definition frame_b1 (f : wsFrame) : Z := flag (bool_decide (is_Some (f_mask f))) 128 + len7 (len (f_data f)).
Definition frame_ext (f : wsFrame) : bytes := ext_len (len (f_data f)) ++ default [] (f_mask f).
Definition frame_header (f : wsFrame) : bytes := [frame_b0 f; frame_b1 f] ++ frame_ext f.
Definition encode_frame (f : wsFrame) : bytes :=
  frame_header f ++
  match f_mask f with Some m => mask_from m 0 (f_data f) | None => f_data f end.

(** Events of a frame sequence: [k] events are already recorded and [msgOp] is the
    opcode of the message being continued. *)
Definition next_op (msgOp : Z) (f : wsFrame) : Z :=
  if (f_op f =? 1) || (f_op f =? 2) then f_op f else msgOp.
Definition spec_event (dir : bytes) (k : nat) (msgOp : Z) (f : wsFrame) : wsFrameEvent :=
  let shown := take (Z.to_nat wsFramePayloadCap) (f_data f) in
  let effective := if f_op f =? 0 then next_op msgOp f else f_op f in
  let text := (effective =? 1) && negb (f_rsv1 f) && utf8_Valid shown in
  {| ev_ts := nowMs k; ev_dir := dir; ev_op := f_op f; ev_fin := f_fin f; ev_len := len (f_data f);
     ev_text := if text then Some shown else None;
     ev_b64 := if text then [] else base64_encode shown;
     ev_truncated := wsFramePayloadCap <? len (f_data f); ev_compressed := f_rsv1 f |}.
Fixpoint spec_events (dir : bytes) (k : nat) (msgOp : Z) (fs : list wsFrame) : list wsFrameEvent :=
  match fs with
  | [] => []
  | f :: fs' => spec_event dir k msgOp f :: spec_events dir (S k) (next_op msgOp f) fs'
  end.

Definition idle (t : wsTap) : Prop :=
  t_rec t = true /\ t_broken t = false /\ t_hdr t = [] /\ t_need t = 2.

(** *** The header bits *)

Lemma b0_bits f : 0 <= f_op f < 16 ->
  Z.land (frame_b0 f) 128 = flag (f_fin f) 128 /\ Z.land (frame_b0 f) 64 = flag (f_rsv1 f) 64 /\
  Z.land (frame_b0 f) 15 = f_op f.
Proof.
  unfold frame_b0. generalize (f_op f). intros op Hop.
  assert (forallb (fun o => forallb (fun a => forallb (fun b =>
     let z := flag a 128 + flag b 64 + o in
     (Z.land z 128 =? flag a 128) && (Z.land z 64 =? flag b 64) && (Z.land z 15 =? o)) [true; false])
     [true; false]) (seqZ 0 16) = true) as H by (vm_compute; reflexivity).
  rewrite forallb_True, Forall_forall in H. specialize (H op). rewrite elem_of_seqZ in H.
  specialize (H ltac:(lia)). cbn in H.
  destruct (f_fin f), (f_rsv1 f); to_prop; tauto.
Qed.

Lemma b1_bits (m : bool) l : 0 <= l < 128 ->
  Z.land (flag m 128 + l) 127 = l /\ Z.land (flag m 128 + l) 128 = flag m 128.
Proof.
  intros Hl.
  assert (forallb (fun o => forallb (fun a => let z := flag a 128 + o in
     (Z.land z 127 =? o) && (Z.land z 128 =? flag a 128)) [true; false]) (seqZ 0 128) = true)
    as H by (vm_compute; reflexivity).
  rewrite forallb_True, Forall_forall in H. specialize (H l). rewrite elem_of_seqZ in H.
  specialize (H ltac:(lia)). cbn in H. destruct m; to_prop; tauto.
Qed.

Lemma len7_range n : 0 <= n -> 0 <= len7 n < 128.
Proof. intros H. unfold len7. repeat case_match; to_prop; lia. Qed.

Lemma header_want_frame f : wf_frame f -> header_want (frame_b1 f) = len (frame_header f).
Proof.
  intros (_ & _ & Hl & Hm). pose proof (len_nonneg (f_data f)) as H0.
  destruct (b1_bits (bool_decide (is_Some (f_mask f))) (len7 (len (f_data f))) (len7_range _ H0)) as [E1 E2].
  unfold header_want, frame_b1. rewrite E1, E2. unfold frame_header, frame_ext, len7, ext_len.
  rewrite !len_app. change (len [frame_b0 f; frame_b1 f]) with 2.
  set (n := len (f_data f)) in *.
  assert (len (default [] (f_mask f)) = if flag (bool_decide (is_Some (f_mask f))) 128 =? 0 then 0 else 4) as ->.
  { destruct (f_mask f) as [m|]; [destruct Hm as [_ Hm]; unfold len; cbn; by rewrite Hm|done]. }
  destruct (Z.ltb_spec n 126); [|destruct (Z.ltb_spec n 65536)]; cbn [Z.eqb];
    unfold len at 1; rewrite ?length_be_put; cbn [length];
    repeat match goal with |- context [?a =? ?b] => destruct (Z.eqb_spec a b) end; try lia.
Qed.

Definition masked_frame (f : wsFrame) : bool := bool_decide (is_Some (f_mask f)).
Definition frame_start (t : wsTap) (f : wsFrame) : wsTap :=
  set_frame (set_flags (set_hdr t (frame_header f)) (f_fin f) (f_rsv1 f) (f_op f) (masked_frame f))
    (len (f_data f)) (default (t_mask t) (f_mask f)).

Lemma slice_mid (h e m : bytes) (i j : nat) :
  length h = i -> j = (i + length e)%nat -> slice i j (h ++ e ++ m) = e.
Proof.
  intros Hh ->. rewrite slice_app_r by lia. rewrite Hh, Nat.sub_diag.
  replace (i + length e - i)%nat with (length e) by lia.
  rewrite slice_app_l by lia. apply slice_full.
Qed.

Lemma slice_end (h e m : bytes) (i j : nat) :
  (length h + length e)%nat = i -> j = (i + length m)%nat -> slice i j (h ++ e ++ m) = m.
Proof.
  intros Hh ->. rewrite app_assoc, slice_app_r by (rewrite length_app; lia).
  rewrite length_app, Hh, Nat.sub_diag. replace (i + length m - i)%nat with (length m) by lia.
  apply slice_full.
Qed.

(** The length field of a frame header, as [parseHeader] reads it. *)
Lemma frame_length f : wf_frame f ->
  (if len7 (len (f_data f)) =? 126 then (be_get (slice 2 4 (frame_header f)), 4%nat)
   else if len7 (len (f_data f)) =? 127 then (be_get (slice 2 10 (frame_header f)), 10%nat)
   else (len7 (len (f_data f)), 2%nat))
  = (len (f_data f), (2 + length (ext_len (len (f_data f))))%nat).
Proof.
  intros (_ & _ & Hl & _). pose proof (len_nonneg (f_data f)) as H0.
  unfold frame_header, frame_ext, len7, ext_len. set (n := len (f_data f)) in *.
  destruct (Z.ltb_spec n 126); [|destruct (Z.ltb_spec n 65536)].
  - destruct (Z.eqb_spec n 126), (Z.eqb_spec n 127); try lia. done.
  - change (126 =? 126) with true. cbv iota. rewrite (slice_mid _ (be_put 2 n)) by (rewrite ?length_be_put; done).
    rewrite be_get_put, Z.mod_small by (change (256 ^ Z.of_nat 2) with 65536; lia).
    by rewrite length_be_put.
  - change (127 =? 126) with false. change (127 =? 127) with true. cbv iota.
    rewrite (slice_mid _ (be_put 8 n)) by (rewrite ?length_be_put; done).
    rewrite be_get_put, Z.mod_small by (change (256 ^ Z.of_nat 8) with (2 ^ 64); lia).
    by rewrite length_be_put.
Qed.

Lemma negb_flag b v : v <> 0 -> negb (flag b v =? 0) = b.
Proof. intros H. destruct b; cbn; [|done]. by destruct (Z.eqb_spec v 0). Qed.

Lemma parse_frame t f :
  wf_frame f -> parseHeader (set_hdr t (frame_header f)) = (frame_start t f, true).
Proof.
  intros Hf. pose proof (frame_length f Hf) as Elen. pose proof (header_want_frame f Hf) as Ewant.
  destruct Hf as (Hop & _ & Hl & Hm). pose proof (len_nonneg (f_data f)) as H0.
  destruct (b0_bits f Hop) as (B1 & B2 & B3).
  destruct (b1_bits (masked_frame f) (len7 (len (f_data f))) (len7_range _ H0)) as [E1 E2].
  unfold parseHeader. cbn [set_hdr t_hdr set_flags t_masked t_mask].
  change (at_ (frame_header f) 0) with (frame_b0 f). change (at_ (frame_header f) 1) with (frame_b1 f).
  rewrite Ewant, Z.ltb_irrefl, B1, B2, B3, !negb_flag by done.
  unfold frame_b1. fold (masked_frame f). rewrite E1, E2, negb_flag by done. rewrite Elen.
  replace (Z.shiftr (len (f_data f)) 63) with 0
    by (rewrite Z.shiftr_div_pow2 by lia; rewrite Z.div_small; lia).
  rewrite andb_false_r. unfold frame_start. f_equal. f_equal.
  unfold masked_frame. destruct (f_mask f) as [m|] eqn:Em; [|done]. destruct Hm as [_ Hm].
  cbn [default]. rewrite bool_decide_true by done.
  unfold frame_header, frame_ext. rewrite Em. cbn [default].
  apply slice_end; unfold id; cbn [length]; lia.
Qed.

Lemma header_fold t f :
  idle t -> wf_frame f -> fold_left wsByte (frame_header f) t = emit_if_done (frame_start t f).
Proof.
  intros (_ & Hbr & Hh & Hn) Hf. unfold frame_header at 1. rewrite fold_left_app.
  assert (collecting t) as Hc by (split; rewrite ?Hh, ?Hn, ?len_nil; lia).
  rewrite (header_chunk t [frame_b0 f; frame_b1 f]); [|done..|by rewrite Hh, Hn]. rewrite Hh. cbn [app].
  pose proof (header_want_frame f Hf) as Ewant. pose proof (parse_frame t f Hf) as Eparse.
  assert (len (frame_header f) = 2 + len (frame_ext f)) as El.
  { unfold frame_header. rewrite len_app. done. }
  destruct (decide (frame_ext f = [])) as [Ee|Ee].
  { unfold frame_header in Eparse at 1. rewrite Ee, app_nil_r in Eparse. rewrite Eparse, Ee. done. }
  assert (0 < len (frame_ext f)) by (destruct (frame_ext f); [done|len_lia]).
  set (t1 := set_need (set_flags (set_hdr t [frame_b0 f; frame_b1 f])
    (negb (Z.land (frame_b0 f) 128 =? 0)) (negb (Z.land (frame_b0 f) 64 =? 0)) (Z.land (frame_b0 f) 15)
    (negb (Z.land (frame_b1 f) 128 =? 0))) (header_want (frame_b1 f))).
  assert (parseHeader (set_hdr t [frame_b0 f; frame_b1 f]) = (t1, false)) as ->.
  { unfold parseHeader. cbn [set_hdr t_hdr set_flags].
    change (at_ [frame_b0 f; frame_b1 f] 0) with (frame_b0 f).
    change (at_ [frame_b0 f; frame_b1 f] 1) with (frame_b1 f).
    change (len [frame_b0 f; frame_b1 f]) with 2.
    destruct (Z.ltb_spec 2 (header_want (frame_b1 f))); [done|lia]. }
  rewrite (header_chunk t1 (frame_ext f)); [|done| |].
  - change (t_hdr t1 ++ frame_ext f) with (frame_header f). by rewrite parse_frame.
  - split; cbn [t1 set_need t_need t_hdr set_flags set_hdr]; [lia|].
    change (len [frame_b0 f; frame_b1 f]) with 2. lia.
  - cbn [t1 set_need t_need t_hdr set_flags set_hdr].
    change (len [frame_b0 f; frame_b1 f]) with 2. lia.
Qed.

(** *** The payload *)

Lemma mask_from_take m off n s : mask_from m off (take n s) = take n (mask_from m off s).
Proof.
  revert n s off. intros n s off. rewrite <- (take_drop n s) at 2. rewrite mask_from_app.
  destruct (decide (n <= length s)%nat).
  - rewrite take_app_length'; [done|]. unfold mask_from. rewrite length_imap, length_take. lia.
  - rewrite (drop_ge s) by lia. rewrite (take_ge s) by lia. cbn. rewrite app_nil_r.
    rewrite take_ge; [done|]. unfold mask_from. rewrite length_imap. lia.
Qed.

Lemma mask_from_twice m off s : mask_from m off (mask_from m off s) = s.
Proof.
  unfold mask_from. apply list_eq. intros i. rewrite !list_lookup_imap.
  destruct (s !! i) as [x|]; [|done]. cbn. f_equal.
  by rewrite Z.lxor_assoc, Z.lxor_nilpotent, Z.lxor_0_r.
Qed.

Definition frame_body (f : wsFrame) : bytes :=
  match f_mask f with Some m => mask_from m 0 (f_data f) | None => f_data f end.

Lemma len_frame_body f : len (frame_body f) = len (f_data f).
Proof. unfold frame_body, mask_from, len. destruct (f_mask f); by rewrite ?length_imap. Qed.

Lemma unmask_body t f n : unmask (frame_start t f) 0 (take n (frame_body f)) = take n (f_data f).
Proof.
  unfold unmask, frame_start, masked_frame, frame_body. cbn.
  destruct (f_mask f) as [m|]; cbn; [|done]. by rewrite mask_from_take, mask_from_twice.
Qed.

(** One frame, from idle to idle. *)
Lemma frame_fold t f :
  idle t -> wf_frame f ->
  fold_left wsByte (encode_frame f) t =
  emit (set_data (frame_start t f) (take (Z.to_nat wsFramePayloadCap) (f_data f)) (len (f_data f)) 0).
Proof.
  intros Hi Hf. unfold encode_frame. fold (frame_body f). rewrite fold_left_app, header_fold by done.
  destruct Hf as (_ & _ & Hl & _). pose proof (len_frame_body f) as Hb.
  destruct (decide (f_data f = [])) as [E|E].
  - rewrite E in Hb. destruct (frame_body f) eqn:Eb; [|unfold len in Hb; cbn in Hb; lia]. cbn [fold_left].
    unfold emit_if_done, frame_start. rewrite E. cbn. by rewrite take_nil.
  - assert (0 < len (f_data f)) by (destruct (f_data f); [done|len_lia]).
    unfold emit_if_done. cbn [frame_start set_frame t_remaining].
    destruct (Z.eqb_spec (len (f_data f)) 0); [lia|]. fold (frame_start t f).
    assert (in_payload (frame_start t f)) as Hin by (split_and!; cbn; try lia; by vm_compute).
    rewrite payload_fold; [|apply Hi|done|cbn; lia].
    rewrite absorb_eq; [|done|cbn; lia]. cbn [frame_start set_frame t_payload t_offset t_remaining app].
    fold (frame_start t f). rewrite unmask_body. change (len (@nil Z)) with 0.
    rewrite Z.sub_0_r, Hb, Z.sub_diag. unfold emit_if_done. cbn. done.
Qed.

Lemma shown_truncated (c : Z) (s : bytes) :
  0 <= c -> (len (take (Z.to_nat c) s) <? len s) = (c <? len s).
Proof.
  intros Hc. unfold len. rewrite length_take. set (n := length s).
  destruct (Z.ltb_spec (Z.of_nat (Z.to_nat c `min` n)) (Z.of_nat n)), (Z.ltb_spec c (Z.of_nat n)); lia || done.
Qed.

Lemma frame_step t f :
  idle t -> wf_frame f ->
  let t' := fold_left wsByte (encode_frame f) t in
  idle t' /\ t_dir t' = t_dir t /\ t_msgOp t' = next_op (t_msgOp t) f /\
  t_log t' = t_log t ++ [spec_event (t_dir t) (length (t_log t)) (t_msgOp t) f].
Proof.
  intros Hi Hf. rewrite frame_fold by done. destruct Hi as (Hr & Hb & _ & _). cbv zeta.
  split_and!; try done. unfold emit. cbn [set_emitted t_log set_data frame_start set_frame set_flags set_hdr].
  unfold frame_event, spec_event, next_op.
  cbn [t_op t_rsv1 t_payload t_log t_dir t_fin t_length t_msgOp set_data frame_start set_frame set_flags set_hdr].
  rewrite shown_truncated by (by vm_compute). reflexivity.
Qed.

Lemma wf_mask_from m off s : wf_bytes m -> wf_bytes s -> wf_bytes (mask_from m off s).
Proof.
  intros Hm Hs. unfold mask_from. apply Forall_lookup_2. intros i x.
  rewrite list_lookup_imap, fmap_Some. intros (y & Hy & ->).
  pose proof (wf_bytes_lookup _ _ _ Hs Hy) as By.
  assert (is_byte (at_ m (Z.to_nat (u64 (off + Z.of_nat i) mod 4)))) as Bm.
  { unfold at_. destruct (m !! _) eqn:E; cbn; [|unfold is_byte; lia].
    eapply wf_bytes_lookup; [exact Hm|exact E]. }
  by apply lxor_byte.
Qed.

Lemma wf_encode_frame f : wf_frame f -> wf_bytes (encode_frame f).
Proof.
  intros (Hop & Hd & Hl & Hm). pose proof (len_nonneg (f_data f)) as H0.
  pose proof (len7_range _ H0). unfold encode_frame, frame_header, frame_ext. rewrite !wf_bytes_app.
  split_and!.
  - unfold frame_b0, frame_b1, flag. repeat constructor; unfold is_byte; repeat case_match; lia.
  - unfold ext_len. repeat case_match; auto with go_bytes; constructor.
  - destruct (f_mask f); [apply Hm|constructor].
  - destruct (f_mask f) as [m|]; [|done]. destruct Hm as [Hm _]. by apply wf_mask_from.
Qed.

Lemma frames_fold fs : forall t,
  idle t -> Forall wf_frame fs ->
  let t' := fold_left wsByte (concat (map encode_frame fs)) t in
  idle t' /\ t_log t' = t_log t ++ spec_events (t_dir t) (length (t_log t)) (t_msgOp t) fs.
Proof.
  induction fs as [|f fs IH]; intros t Hi Hfs; cbn -[encode_frame].
  { by rewrite app_nil_r. }
  apply Forall_cons in Hfs as [Hf Hfs]. rewrite fold_left_app.
  destruct (frame_step t f Hi Hf) as (Hi' & Hd & Hm & Hlog).
  destruct (IH _ Hi' Hfs) as [Hi2 Hlog2]. split; [done|]. rewrite Hlog2, Hlog, Hd, Hm.
  rewrite <- app_assoc, length_app. cbn. by rewrite Nat.add_1_r.
Qed.

(** C31: The recorded frames are the sent frames: for every sequence of well-formed
    frames, masked or not and of any length the protocol allows, in any chunking,
    the tap records one event per frame with its opcode, FIN and length, the
    unmasked payload up to the cap, and the truncation mark exactly when the payload
    is longer than the cap; afterwards it is idle again. *)
Theorem ws_frames_recorded t fs ps :
  idle t -> Forall wf_frame fs -> concat ps = concat (map encode_frame fs) ->
  exists t', writes t ps = Some t' /\ idle t' /\
    t_log t' = t_log t ++ spec_events (t_dir t) (length (t_log t)) (t_msgOp t) fs.
Proof.
  intros Hi Hfs Hps. exists (fold_left wsByte (concat ps) t).
  assert (wf_bytes (concat ps)) as Hw.
  { rewrite Hps. apply Forall_concat, Forall_map. eapply Forall_impl; [done|]. apply wf_encode_frame. }
  destruct Hi as (Hr & Hb & Hh & Hn).
  assert (tap_ok t) as Hok.
  { split; [rewrite Hh; constructor|]. right; left. split; rewrite ?Hh, ?Hn, ?len_nil; lia. }
  rewrite writes_bytes; [|done..|by apply Forall_concat in Hw].
  split; [done|]. rewrite Hps. by apply frames_fold.
Qed.
End Tap.

(** ** Witnesses *)

Definition ws_sample_frames : list wsFrame :=
  [ {| f_fin := false; f_rsv1 := false; f_op := 1; f_mask := Some [1; 2; 3; 4]; f_data := lit "hel" |};
    {| f_fin := true; f_rsv1 := false; f_op := 0; f_mask := Some [9; 8; 7; 6]; f_data := lit "lo" |};
    {| f_fin := true; f_rsv1 := false; f_op := 9; f_mask := None; f_data := [] |} ].
Definition ws_sample_chunks : list bytes :=
  let s := concat (map encode_frame ws_sample_frames) in [take 3 s; []; slice 3 8 s; drop 8 s].
Definition ws_sample_tap : wsTap := newWSTap true (lit "7") (lit "out").

Lemma ws_chunking_witness :
  exists t', writes Z.of_nat ws_sample_tap ws_sample_chunks = Some t' /\
    Write Z.of_nat ws_sample_tap (concat ws_sample_chunks) = Some (t', len (concat ws_sample_chunks)) /\
    tap_ok t'.
Proof.
  apply (ws_chunking Z.of_nat ws_sample_tap ws_sample_chunks); [reflexivity|..].
  - split; [constructor|]. right; left. split; vm_compute; [discriminate|reflexivity].
  - apply (bool_decide_eq_true_1 (Forall wf_bytes ws_sample_chunks)). vm_compute. reflexivity.
Defined.

Lemma ws_frames_recorded_witness :
  exists t', writes Z.of_nat ws_sample_tap ws_sample_chunks = Some t' /\ idle t' /\
    t_log t' = spec_events Z.of_nat (lit "out") 0 0 ws_sample_frames.
Proof.
  apply (ws_frames_recorded Z.of_nat ws_sample_tap ws_sample_frames ws_sample_chunks).
  - repeat split.
  - apply (bool_decide_eq_true_1 (Forall wf_frame ws_sample_frames)). vm_compute. reflexivity.
  - vm_compute. reflexivity.
Defined.
