(* ===== verification/DNSMessage.v ===== *)
(** * DNS messages (src/vpntunnel/dnspacket.go, dnscache.go)

    Queries and answers through the message codec of golang.org/x/net.  The codec
    itself is not part of this repository: it is the parameter [DNSCodec], and what
    the code relies on is stated as the laws [DNSCodecLaws].  The file ends with a
    small reference codec that satisfies the laws. *)

From S2P Require Import Prelude GoStrings NetIP.

Definition TypeA : Z := 1.
Definition TypeAAAA : Z := 28.
Definition dnsTypeHTTPS : Z := 65.
Definition ClassINET : Z := 1.
Definition RCodeSuccess : Z := 0.

(** The header fields the code reads or sets; it leaves the others zero. *)
Record Header := {
  h_ID : Z;
  h_Response : bool;
  h_OpCode : Z;
  h_RecursionDesired : bool;
  h_RecursionAvailable : bool;
  h_RCode : Z
}.
Record Question := { q_Name : bytes; q_Type : Z; q_Class : Z }.
Record ResourceHeader := { rh_Name : bytes; rh_Type : Z; rh_Class : Z; rh_TTL : Z }.

(** The parser and the builder of the codec.  Every operation that can fail
    returns an option; an operation that mutates its receiver returns the new one. *)
Class DNSCodec := {
  Parser : Set;
  p_Start : bytes -> option (Header * Parser);
  p_Question : Parser -> option (Question * Parser);
  p_SkipAllQuestions : Parser -> option Parser;
  p_AnswerHeader : Parser -> option (ResourceHeader * Parser);
  p_AResource : Parser -> option (bytes * Parser);
  p_AAAAResource : Parser -> option (bytes * Parser);
  p_SkipAnswer : Parser -> option Parser;
  Builder : Set;
  b_New : Header -> Builder;
  b_EnableCompression : Builder -> Builder;
  b_StartQuestions : Builder -> option Builder;
  b_Question : Builder -> Question -> option Builder;
  b_StartAnswers : Builder -> option Builder;
  b_AResource : Builder -> ResourceHeader -> bytes -> option Builder;
  b_Finish : Builder -> option bytes
}.

(** What the code relies on.  A message holds at most 65535 answers and every answer
    consumed leaves one less; [p_SkipAllQuestions] skips what [p_Question] left; a
    finished message parses back to what was put into it. *)
Class DNSCodecLaws (C : DNSCodec) := {
  answers_left : Parser -> nat;
  start_answers m h p : p_Start m = Some (h, p) -> Z.of_nat (answers_left p) <= 65535;
  question_answers p q p' : p_Question p = Some (q, p') -> (answers_left p' <= answers_left p)%nat;
  skip_questions_answers p p' : p_SkipAllQuestions p = Some p' -> (answers_left p' <= answers_left p)%nat;
  answer_header_answers p h p' : p_AnswerHeader p = Some (h, p') -> (answers_left p' <= answers_left p)%nat;
  a_answers p r p' : p_AResource p = Some (r, p') -> (answers_left p' < answers_left p)%nat;
  aaaa_answers p r p' : p_AAAAResource p = Some (r, p') -> (answers_left p' < answers_left p)%nat;
  skip_answers p p' : p_SkipAnswer p = Some p' -> (answers_left p' < answers_left p)%nat;
  skip_after_question p q p' :
    p_Question p = Some (q, p') -> p_SkipAllQuestions p' = p_SkipAllQuestions p;
  built_without_answer h (c : bool) q b1 b2 m :
    b_StartQuestions (if c then b_EnableCompression (b_New h) else b_New h) = Some b1 ->
    b_Question b1 q = Some b2 -> b_Finish b2 = Some m ->
    exists p p' p'', p_Start m = Some (h, p) /\ p_Question p = Some (q, p') /\
      p_SkipAllQuestions p = Some p'' /\ p_AnswerHeader p'' = None;
  built_with_answer h (c : bool) q rh a b1 b2 b3 b4 m :
    b_StartQuestions (if c then b_EnableCompression (b_New h) else b_New h) = Some b1 ->
    b_Question b1 q = Some b2 -> b_StartAnswers b2 = Some b3 ->
    rh_Type rh = TypeA -> length a = 4%nat ->
    b_AResource b3 rh a = Some b4 -> b_Finish b4 = Some m ->
    exists p p' p'' p3 p4, p_Start m = Some (h, p) /\ p_Question p = Some (q, p') /\
      p_SkipAllQuestions p = Some p'' /\ p_AnswerHeader p'' = Some (rh, p3) /\
      p_AResource p3 = Some (a, p4) /\ p_AnswerHeader p4 = None
}.

(** The first question of a DNS query. *)
Record dnsQuestion := { dq_header : Header; dq_q : Question; dq_name : bytes }.

Section DNS.
Context `{U : UnicodeTables} {C : DNSCodec}.

Definition canonName (name : bytes) : bytes := TrimSuffix (ToLower name) (lit ".").

Definition parseDNSQuery (msg : bytes) : option dnsQuestion :=
  '(h, p) ← p_Start msg;
  if h_Response h then None
  else
    '(q, _) ← p_Question p;
    Some {| dq_header := h; dq_q := q; dq_name := canonName (q_Name q) |}.

Definition responseHeader (h : Header) (rcode : Z) : Header :=
  {| h_ID := h_ID h; h_Response := true; h_OpCode := h_OpCode h;
     h_RecursionDesired := h_RecursionDesired h; h_RecursionAvailable := true; h_RCode := rcode |}.

Definition answerHeader (q : dnsQuestion) (ttl : Z) : ResourceHeader :=
  {| rh_Name := q_Name (dq_q q); rh_Type := TypeA; rh_Class := ClassINET; rh_TTL := ttl |}.

(** The optional A record of [dnsAnswer]. *)
Definition answerSection (q : dnsQuestion) (a4 : option Addr) (ttl : Z) (b : Builder) : option Builder :=
  match a4 with
  | Some a =>
      if Is4 a && (q_Type (dq_q q) =? TypeA) then
        b' ← b_StartAnswers b; b_AResource b' (answerHeader q ttl) (As4 a)
      else Some b
  | None => Some b
  end.

(** [dnsAnswer]; [None] is the [nil] slice. *)
Definition dnsAnswer (q : dnsQuestion) (rcode : Z) (a4 : option Addr) (ttl : Z) : option bytes :=
  let b := b_EnableCompression (b_New (responseHeader (dq_header q) rcode)) in
  b1 ← b_StartQuestions b;
  b2 ← b_Question b1 (dq_q q);
  b3 ← answerSection q a4 ttl b2;
  b_Finish b3.

(** The answer loop of [dnsAnswerAddrs]; the flag tells that the loop returned
    rather than ran out of fuel. *)
Fixpoint answer_loop (fuel : nat) (p : Parser) (out : list Addr) : list Addr * bool :=
  match fuel with
  | O => (out, false)
  | S fuel' =>
      match p_AnswerHeader p with
      | None => (out, true)
      | Some (ah, p1) =>
          if rh_Type ah =? TypeA then
            match p_AResource p1 with
            | None => (out, true)
            | Some (r, p2) => answer_loop fuel' p2 (out ++ [AddrFrom4 r])
            end
          else if rh_Type ah =? TypeAAAA then
            match p_AAAAResource p1 with
            | None => (out, true)
            | Some (r, p2) => answer_loop fuel' p2 (out ++ [AddrFrom16 r])
            end
          else
            match p_SkipAnswer p1 with
            | None => (out, true)
            | Some p2 => answer_loop fuel' p2 out
            end
      end
  end.

(** A DNS message carries at most 65535 answers. *)
Definition answer_fuel : nat := Z.to_nat 65536.

Definition dnsAnswerAddrs (msg : bytes) : list Addr :=
  match p_Start msg with
  | None => []
  | Some (h, p) =>
      if negb (h_Response h) then []
      else match p_SkipAllQuestions p with
           | None => []
           | Some p' => (answer_loop answer_fuel p' []).1
           end
  end.

Definition synthesizeHTTPSNoData (query : bytes) : option bytes :=
  '(h, p) ← p_Start query;
  if h_Response h then None
  else
    '(q, _) ← p_Question p;
    if negb (q_Type q =? dnsTypeHTTPS) then None
    else
      let b := b_New (responseHeader h RCodeSuccess) in
      b1 ← b_StartQuestions b;
      b2 ← b_Question b1 q;
      b_Finish b2.

(** ** Properties *)
Context {L : DNSCodecLaws C}.

(** With more fuel than answers the loop returns by itself. *)
Lemma answer_loop_returns fuel : forall p out,
  (answers_left p < fuel)%nat -> (answer_loop fuel p out).2 = true.
Proof.
  induction fuel as [|fuel IH]; intros p out Hf; [lia|]. cbn [answer_loop].
  destruct (p_AnswerHeader p) as [[ah p1]|] eqn:Eh; [|done]. apply answer_header_answers in Eh.
  destruct (rh_Type ah =? TypeA); [|destruct (rh_Type ah =? TypeAAAA)].
  - destruct (p_AResource p1) as [[r p2]|] eqn:E; [|done]. apply a_answers in E. apply IH. lia.
  - destruct (p_AAAAResource p1) as [[r p2]|] eqn:E; [|done]. apply aaaa_answers in E. apply IH. lia.
  - destruct (p_SkipAnswer p1) as [p2|] eqn:E; [|done]. apply skip_answers in E. apply IH. lia.
Qed.

Lemma answer_fuel_enough m h p p' :
  p_Start m = Some (h, p) -> p_SkipAllQuestions p = Some p' -> (answers_left p' < answer_fuel)%nat.
Proof.
  intros H1%start_answers H2%skip_questions_answers. unfold answer_fuel.
  assert (Z.of_nat (answers_left p') < 65536) by lia. lia.
Qed.

(** One step of the loop with a positive budget, without unfolding the budget. *)
Lemma answer_loop_unfold fuel p out :
  (0 < fuel)%nat ->
  answer_loop fuel p out =
  match p_AnswerHeader p with
  | None => (out, true)
  | Some (ah, p1) =>
      if rh_Type ah =? TypeA then
        match p_AResource p1 with
        | None => (out, true)
        | Some (r, p2) => answer_loop (pred fuel) p2 (out ++ [AddrFrom4 r])
        end
      else if rh_Type ah =? TypeAAAA then
        match p_AAAAResource p1 with
        | None => (out, true)
        | Some (r, p2) => answer_loop (pred fuel) p2 (out ++ [AddrFrom16 r])
        end
      else
        match p_SkipAnswer p1 with
        | None => (out, true)
        | Some p2 => answer_loop (pred fuel) p2 out
        end
  end.
Proof. destruct fuel; [lia|done]. Qed.

Lemma answer_fuel_large : (2 <= answer_fuel)%nat.
Proof. unfold answer_fuel. apply Nat2Z.inj_le. rewrite Z2Nat.id; lia. Qed.

Lemma As4_roundtrip v : 0 <= v < 2 ^ 32 -> AddrFrom4 (As4 (A4 v)) = A4 v.
Proof.
  intros H. unfold AddrFrom4, As4. rewrite be_get_put. f_equal. apply Z.mod_small.
  by change (256 ^ Z.of_nat 4) with (2 ^ 32).
Qed.

Lemma answer_read_back q rcode v ttl msg :
  0 <= v < 2 ^ 32 -> q_Type (dq_q q) = TypeA ->
  dnsAnswer q rcode (Some (A4 v)) ttl = Some msg ->
  dnsAnswerAddrs msg = [A4 v] /\
  exists p p', p_Start msg = Some (responseHeader (dq_header q) rcode, p) /\
               p_Question p = Some (dq_q q, p').
Proof.
  intros Hv Ht Hm. unfold dnsAnswer, answerSection in Hm. rewrite Ht in Hm. cbn [Is4 andb] in Hm.
  rewrite Z.eqb_refl in Hm.
  destruct (b_StartQuestions _) as [b1|] eqn:E1; [|done]. cbn in Hm.
  destruct (b_Question b1 _) as [b2|] eqn:E2; [|done]. cbn in Hm.
  destruct (b_StartAnswers b2) as [b3|] eqn:E3; [|done]. cbn in Hm.
  destruct (b_AResource b3 _ _) as [b4|] eqn:E4; [|done]. cbn in Hm.
  destruct (built_with_answer _ true _ (answerHeader q ttl) _ b1 b2 b3 b4 msg E1 E2 E3 eq_refl (length_be_put 4 v) E4 Hm)
    as (p & p' & p'' & p3 & p4 & S1 & S2 & S3 & S4 & S5 & S6).
  split; [|by exists p, p'].
  unfold dnsAnswerAddrs. rewrite S1. cbn [h_Response responseHeader negb]. rewrite S3.
  pose proof answer_fuel_large. rewrite answer_loop_unfold by lia. rewrite S4. cbn [rh_Type answerHeader].
  rewrite Z.eqb_refl, S5. rewrite answer_loop_unfold by lia. rewrite S6. cbn [fst app].
  f_equal. by apply As4_roundtrip.
Qed.

(** An answer built for an address question is read back as exactly that
    address: the response carries the query's id and question, and
    [dnsAnswerAddrs] on it returns the one address. *)
Theorem dns_answer_roundtrip q rcode v ttl msg :
  0 <= v < 2 ^ 32 -> q_Type (dq_q q) = TypeA ->
  dnsAnswer q rcode (Some (A4 v)) ttl = Some msg ->
  dnsAnswerAddrs msg = [A4 v] /\
  exists p p', p_Start msg = Some (responseHeader (dq_header q) rcode, p) /\
               p_Question p = Some (dq_q q, p').
Proof. apply answer_read_back. Qed.

(** Every other answer is empty: without a usable address, and for the synthetic
    HTTPS reply, the message has no address records; and the synthetic reply is
    only ever given to an HTTPS query. *)
Theorem dns_empty_answers q rcode a4 ttl query msg :
  (dnsAnswer q rcode a4 ttl = Some msg ->
   match a4 with Some a => Is4 a && (q_Type (dq_q q) =? TypeA) | None => false end = false ->
   dnsAnswerAddrs msg = []) /\
  (synthesizeHTTPSNoData query = Some msg ->
   dnsAnswerAddrs msg = [] /\
   exists dq, parseDNSQuery query = Some dq /\ q_Type (dq_q dq) = dnsTypeHTTPS).
Proof.
  assert (forall m h p p'', p_Start m = Some (h, p) -> p_SkipAllQuestions p = Some p'' ->
            p_AnswerHeader p'' = None -> dnsAnswerAddrs m = []) as Empty.
  { intros m h p p'' S1 S2 S3. unfold dnsAnswerAddrs. rewrite S1. destruct (h_Response h); [|done]. cbn.
    rewrite S2. pose proof answer_fuel_large. rewrite answer_loop_unfold by lia. by rewrite S3. }
  split.
  - unfold dnsAnswer, answerSection. intros Hm Hn. set (hd := responseHeader _ _) in Hm.
    destruct (b_StartQuestions _) as [b1|] eqn:E1; [|done]. cbn in Hm.
    destruct (b_Question b1 _) as [b2|] eqn:E2; [|done]. cbn in Hm.
    assert (b_Finish b2 = Some msg) as E3.
    { destruct a4 as [a|]; [|done]. by rewrite Hn in Hm. }
    destruct (built_without_answer _ true _ b1 b2 msg E1 E2 E3) as (p & p' & p'' & S1 & _ & S2 & S3). eauto.
  - unfold synthesizeHTTPSNoData, parseDNSQuery.
    destruct (p_Start query) as [[h p]|]; [|done]. cbn. destruct (h_Response h); [done|].
    destruct (p_Question p) as [[q' p1]|]; [|done]. cbn.
    destruct (Z.eqb_spec (q_Type q') dnsTypeHTTPS) as [Et|]; [|done]. cbn.
    destruct (b_StartQuestions _) as [b1|] eqn:E1; [|done]. cbn.
    destruct (b_Question b1 q') as [b2|] eqn:E2; [|done]. cbn. intros E3.
    destruct (built_without_answer _ false _ b1 b2 msg E1 E2 E3) as (p2 & p' & p'' & S1 & _ & S2 & S3).
    split; [eauto|]. by eexists.
Qed.
End DNS.

(** ** A reference codec

    Messages as encoded trees: enough to show that the laws are consistent and to
    run the functions above. *)
Module RefCodec.

#[export] Instance Question_eq_dec : EqDecision Question.
Proof. solve_decision. Defined.
#[export] Instance Header_eq_dec : EqDecision Header.
Proof. solve_decision. Defined.
#[export] Instance ResourceHeader_eq_dec : EqDecision ResourceHeader.
Proof. solve_decision. Defined.

Definition q_tuple (q : Question) := (q_Name q, q_Type q, q_Class q).
Definition tuple_q (t : bytes * Z * Z) : Question :=
  let '(n, ty, c) := t in {| q_Name := n; q_Type := ty; q_Class := c |}.
Definition r_tuple (r : ResourceHeader) := (rh_Name r, rh_Type r, rh_Class r, rh_TTL r).
Definition tuple_r (t : bytes * Z * Z * Z) : ResourceHeader :=
  let '(n, ty, c, l) := t in {| rh_Name := n; rh_Type := ty; rh_Class := c; rh_TTL := l |}.
Definition h_tuple (h : Header) :=
  (h_ID h, h_Response h, h_OpCode h, h_RecursionDesired h, h_RecursionAvailable h, h_RCode h).
Definition tuple_h (t : Z * bool * Z * bool * bool * Z) : Header :=
  let '(i, r, o, d, a, c) := t in
  {| h_ID := i; h_Response := r; h_OpCode := o; h_RecursionDesired := d; h_RecursionAvailable := a; h_RCode := c |}.

#[export] Program Instance Question_countable : Countable Question :=
  inj_countable' q_tuple tuple_q _.
Next Obligation. by intros []. Qed.
#[export] Program Instance ResourceHeader_countable : Countable ResourceHeader :=
  inj_countable' r_tuple tuple_r _.
Next Obligation. by intros []. Qed.
#[export] Program Instance Header_countable : Countable Header :=
  inj_countable' h_tuple tuple_h _.
Next Obligation. by intros []. Qed.

Definition answers : Set := list (ResourceHeader * bytes).
Definition message : Set := Header * list Question * answers.

Definition start (m : bytes) : option (Header * (list Question * answers)) :=
  match m with
  | [Zpos c] =>
      match (decode c : option message) with
      | Some (h, qs, rs) => if Z.of_nat (length rs) <=? 65535 then Some (h, (qs, rs)) else None
      | None => None
      end
  | _ => None
  end.
Definition question (p : list Question * answers) : option (Question * (list Question * answers)) :=
  match p with (q :: qs, rs) => Some (q, (qs, rs)) | _ => None end.
Definition skip_questions (p : list Question * answers) : option (list Question * answers) := Some ([], p.2).
Definition answer_header (p : list Question * answers) : option (ResourceHeader * (list Question * answers)) :=
  match p with ([], (rh, _) :: _) => Some (rh, p) | _ => None end.
Definition resource (ty : Z) (n : nat) (p : list Question * answers) : option (bytes * (list Question * answers)) :=
  match p with
  | (qs, (rh, a) :: rs) =>
      if (rh_Type rh =? ty) && (length a =? n)%nat then Some (a, (qs, rs)) else None
  | _ => None
  end.
Definition skip_answer (p : list Question * answers) : option (list Question * answers) :=
  match p with (qs, _ :: rs) => Some (qs, rs) | _ => None end.
Definition finish (b : message) : option bytes :=
  if Z.of_nat (length b.2) <=? 65535 then Some [Zpos (encode b)] else None.

#[export] Instance codec : DNSCodec := {|
  Parser := list Question * answers;
  p_Start := start;
  p_Question := question;
  p_SkipAllQuestions := skip_questions;
  p_AnswerHeader := answer_header;
  p_AResource := resource TypeA 4;
  p_AAAAResource := resource TypeAAAA 16;
  p_SkipAnswer := skip_answer;
  Builder := message;
  b_New := fun h => (h, [], []);
  b_EnableCompression := fun b => b;
  b_StartQuestions := fun b => Some b;
  b_Question := fun '(h, qs, rs) q => Some (h, qs ++ [q], rs);
  b_StartAnswers := fun b => Some b;
  b_AResource := fun '(h, qs, rs) rh a => Some (h, qs, rs ++ [(rh, a)]);
  b_Finish := finish
|}.

Lemma start_finish b m : finish b = Some m -> start m = Some (b.1.1, (b.1.2, b.2)).
Proof.
  destruct b as [[h qs] rs]. unfold finish, start. cbn [fst snd].
  destruct (Z.of_nat (length rs) <=? 65535) eqn:E; [|done]. intros [= <-].
  rewrite decode_encode. by rewrite E.
Qed.

#[export] Program Instance codec_laws : DNSCodecLaws codec := {| answers_left := fun p => length p.2 |}.
Next Obligation.
  intros m h p. cbn. unfold start. repeat case_match; try done. intros [= <- <-]. to_prop. cbn. lia.
Qed.
Next Obligation. intros [[|q' qs] rs] q p'; [done|]. intros [= <- <-]. cbn. lia. Qed.
Next Obligation. intros p p' [= <-]. cbn. lia. Qed.
Next Obligation. intros [[|] [|[rh a] rs]] h p'; try done. intros [= <- <-]. cbn. lia. Qed.
Next Obligation.
  intros [qs [|[rh a] rs]] r p'; [done|]. cbn. case_match; [|done]. intros [= <- <-]. cbn. lia.
Qed.
Next Obligation.
  intros [qs [|[rh a] rs]] r p'; [done|]. cbn. case_match; [|done]. intros [= <- <-]. cbn. lia.
Qed.
Next Obligation. intros [qs [|x rs]] p'; [done|]. intros [= <-]. cbn. lia. Qed.
Next Obligation. intros [[|q' qs] rs] q p'; [done|]. by intros [= <- <-]. Qed.
Next Obligation.
  intros h c q b1 b2 m H1 H2 H3. assert (b2 = (h, [q], [])) as -> by (destruct c; naive_solver).
  apply start_finish in H3. cbn in *. by eexists _, _, _.
Qed.
Next Obligation.
  intros h c q rh a b1 b2 b3 b4 m H1 H2 H3 Ht Ha H4 H5.
  assert (b4 = (h, [q], [(rh, a)])) as -> by (destruct c; naive_solver).
  apply start_finish in H5. cbn in *. eexists _, _, _, _, _. split_and!; [done..| |].
  - cbn. by rewrite Ht, Ha.
  - done.
Qed.
End RefCodec.

(** ** Witnesses *)
#[local] Existing Instance RefCodec.codec.

Definition sample_question : dnsQuestion := {|
  dq_header := {| h_ID := 4660; h_Response := false; h_OpCode := 0; h_RecursionDesired := true;
                  h_RecursionAvailable := false; h_RCode := 0 |};
  dq_q := {| q_Name := lit "Api.Example.com."; q_Type := TypeA; q_Class := ClassINET |};
  dq_name := lit "api.example.com" |}.
Definition sample_https_query : bytes :=
  default [] (RefCodec.finish
    (dq_header sample_question, [{| q_Name := lit "a.b."; q_Type := dnsTypeHTTPS; q_Class := ClassINET |}], [])).
Definition sample_answer : bytes :=
  default [] (dnsAnswer sample_question 0 (Some (A4 3221225985)) 60).
Definition sample_nodata : bytes := default [] (synthesizeHTTPSNoData sample_https_query).

Lemma dns_answer_roundtrip_witness :
  dnsAnswerAddrs sample_answer = [A4 3221225985] /\
  exists p p', p_Start sample_answer = Some (responseHeader (dq_header sample_question) 0, p) /\
               p_Question p = Some (dq_q sample_question, p').
Proof.
  apply (dns_answer_roundtrip (L := RefCodec.codec_laws) sample_question 0 3221225985 60 sample_answer);
    [lia|reflexivity|vm_compute; reflexivity].
Defined.

Lemma dns_empty_answers_witness :
  dnsAnswerAddrs sample_nodata = [] /\
  exists dq, parseDNSQuery (U := caseless_tables) sample_https_query = Some dq /\
             q_Type (dq_q dq) = dnsTypeHTTPS.
Proof.
  apply (proj2 (dns_empty_answers (U := caseless_tables) (L := RefCodec.codec_laws) sample_question 0 None 60
           sample_https_query sample_nodata)).
  vm_compute. reflexivity.
Defined.
