(* ===== verification/DNSCache.v ===== *)
(** * The reverse DNS cache (src/vpntunnel/dnscache.go)

    [items] maps an address to an element of the doubly linked list [lru]; the
    elements are shared between the two and updated in place, so they live in a
    store of their own here.  The cache is proved to refine a bounded list of
    (address, name) pairs, most recently used first. *)

From S2P Require Import Prelude GoStrings NetIP DNSMessage.

Definition dnsCacheSize : Z := 2048.

Record dnsCacheEntry := { ce_ip : Addr; ce_name : bytes }.

(** List elements are identified by numbers; [c_elems] is the store of their
    values and [c_next] the next fresh identity. *)
Record dnsCache := {
  c_items : gmap Addr nat;
  c_lru : list nat;
  c_elems : gmap nat dnsCacheEntry;
  c_next : nat
}.

Definition newDNSCache : dnsCache :=
  {| c_items := ∅; c_lru := []; c_elems := ∅; c_next := 0 |}.

(** [list.MoveToFront] *)
Definition MoveToFront (el : nat) (l : list nat) : list nat := el :: filter (fun x => x <> el) l.

(** [dnsCache.lookup]; a [nil] receiver is [None] and the empty name the miss. *)
Definition lookup (c : option dnsCache) (ip : bytes) : option dnsCache * bytes :=
  match c with
  | None => (None, [])
  | Some c =>
      match ParseAddr ip with
      | None => (Some c, [])
      | Some addr =>
          match c_items c !! Unmap addr with
          | Some el =>
              (Some {| c_items := c_items c; c_lru := MoveToFront el (c_lru c);
                       c_elems := c_elems c; c_next := c_next c |},
               match c_elems c !! el with Some e => ce_name e | None => [] end)
          | None => (Some c, [])
          end
      end
  end.

(** The eviction loop of [put]. *)
Fixpoint evict (fuel : nat) (c : dnsCache) : dnsCache :=
  match fuel with
  | O => c
  | S fuel' =>
      if dnsCacheSize <? len (c_lru c) then
        match last (c_lru c) with
        | Some old =>
            evict fuel'
              {| c_items := match c_elems c !! old with
                            | Some e => delete (ce_ip e) (c_items c)
                            | None => c_items c end;
                 c_lru := take (length (c_lru c) - 1) (c_lru c);
                 c_elems := delete old (c_elems c);
                 c_next := c_next c |}
        | None => c
        end
      else c
  end.

Definition put (c : dnsCache) (addr0 : Addr) (name : bytes) : dnsCache :=
  let addr := Unmap addr0 in
  match c_items c !! addr with
  | Some el =>
      {| c_items := c_items c; c_lru := MoveToFront el (c_lru c);
         c_elems := alter (fun e => {| ce_ip := ce_ip e; ce_name := name |}) el (c_elems c);
         c_next := c_next c |}
  | None =>
      let el := c_next c in
      evict (S (length (c_lru c)))
        {| c_items := <[addr := el]> (c_items c); c_lru := el :: c_lru c;
           c_elems := <[el := {| ce_ip := addr; ce_name := name |}]> (c_elems c);
           c_next := S el |}
  end.

Section Observe.
Context `{U : UnicodeTables} {C : DNSCodec}.

(** The answer loop of [observe]. *)
Fixpoint observe_loop (fuel : nat) (p : Parser) (name : bytes) (c : dnsCache) : dnsCache :=
  match fuel with
  | O => c
  | S fuel' =>
      match p_AnswerHeader p with
      | None => c
      | Some (ah, p1) =>
          if rh_Type ah =? TypeA then
            match p_AResource p1 with
            | None => c
            | Some (r, p2) => observe_loop fuel' p2 name (put c (AddrFrom4 r) name)
            end
          else if rh_Type ah =? TypeAAAA then
            match p_AAAAResource p1 with
            | None => c
            | Some (r, p2) => observe_loop fuel' p2 name (put c (AddrFrom16 r) name)
            end
          else
            match p_SkipAnswer p1 with
            | None => c
            | Some p2 => observe_loop fuel' p2 name c
            end
      end
  end.

(** [dnsCache.observe] *)
Definition observe (c : option dnsCache) (msg : bytes) : option dnsCache :=
  match c with
  | None => None
  | Some c =>
      Some match p_Start msg with
      | None => c
      | Some (h, p) =>
          if negb (h_Response h) then c
          else match p_Question p with
               | None => c
               | Some (q, p1) =>
                   match p_SkipAllQuestions p1 with
                   | None => c
                   | Some p2 => observe_loop answer_fuel p2 (canonName (q_Name q)) c
                   end
               end
      end
  end.
End Observe.

(** ** The abstract cache *)

(** Entries most recently used first, distinct addresses, at most
    [dnsCacheSize] of them. *)
Abbreviation acache := (list (Addr * bytes)).
Definition aput (s : acache) (a : Addr) (name : bytes) : acache :=
  take (Z.to_nat dnsCacheSize) ((a, name) :: filter (fun e => e.1 <> a) s).
Definition alookup (s : acache) (a : Addr) : option bytes :=
  snd <$> find (fun e => bool_decide (e.1 = a)) s.
Definition atouch (s : acache) (a : Addr) : acache :=
  match alookup s a with Some n => (a, n) :: filter (fun e => e.1 <> a) s | None => s end.

Definition entry_of (c : dnsCache) (el : nat) : Addr * bytes :=
  match c_elems c !! el with Some e => (ce_ip e, ce_name e) | None => (AZero, []) end.
Definition abs (c : dnsCache) : acache := map (entry_of c) (c_lru c).

Record cache_ok (c : dnsCache) : Prop := {
  ok_nodup : NoDup (c_lru c);
  ok_fresh : forall el, el ∈ c_lru c -> (el < c_next c)%nat;
  ok_elem : forall el, el ∈ c_lru c -> is_Some (c_elems c !! el);
  ok_items : forall a el, c_items c !! a = Some el <-> el ∈ c_lru c /\ (entry_of c el).1 = a;
  ok_size : len (c_lru c) <= dnsCacheSize
}.

(** The same without the size bound, which [put] breaks before it evicts. *)
Record cache_pre (c : dnsCache) : Prop := {
  pre_nodup : NoDup (c_lru c);
  pre_fresh : forall el, el ∈ c_lru c -> (el < c_next c)%nat;
  pre_elem : forall el, el ∈ c_lru c -> is_Some (c_elems c !! el);
  pre_items : forall a el, c_items c !! a = Some el <-> el ∈ c_lru c /\ (entry_of c el).1 = a
}.

Lemma ok_pre c : cache_ok c <-> cache_pre c /\ len (c_lru c) <= dnsCacheSize.
Proof.
  split; [intros [H1 H2 H3 H4 H5]; split; [by constructor|done]|intros [[H1 H2 H3 H4] H5]; by constructor].
Qed.

Lemma entry_inj c el el' :
  cache_pre c -> el ∈ c_lru c -> el' ∈ c_lru c -> (entry_of c el).1 = (entry_of c el').1 -> el = el'.
Proof.
  intros Hc H1 H2 He. pose proof (proj2 (pre_items _ Hc _ el) (conj H1 eq_refl)) as E1.
  pose proof (proj2 (pre_items _ Hc _ el') (conj H2 eq_refl)) as E2. congruence.
Qed.

Lemma elem_of_MoveToFront el l x : el ∈ l -> x ∈ MoveToFront el l <-> x ∈ l.
Proof.
  intros H. unfold MoveToFront. rewrite elem_of_cons, list_elem_of_filter.
  destruct (decide (x = el)) as [->|]; tauto.
Qed.

Lemma NoDup_MoveToFront el l : NoDup l -> NoDup (MoveToFront el l).
Proof.
  intros H. apply NoDup_cons. split; [rewrite list_elem_of_filter; tauto|]. by apply NoDup_filter.
Qed.

Lemma length_remove_one (el : nat) l : NoDup l -> el ∈ l -> S (length (filter (fun x => x <> el) l)) = length l.
Proof.
  induction 1 as [|x l Hx Hl IH]; intros Hin; [by apply elem_of_nil in Hin|].
  rewrite filter_cons. destruct (decide (x <> el)) as [Hne|Heq].
  - apply elem_of_cons in Hin as [->|Hin]; [done|]. cbn. by rewrite IH.
  - apply dec_stable in Heq as ->. cbn. f_equal. f_equal.
    apply filter_all. apply Forall_forall. by intros y Hy ->.
Qed.

(** Filtering the elements is filtering the entries. *)
Lemma abs_filter c el l :
  cache_pre c -> el ∈ c_lru c -> l ⊆ c_lru c ->
  map (entry_of c) (filter (fun x => x <> el) l) = filter (fun e => e.1 <> (entry_of c el).1) (map (entry_of c) l).
Proof.
  intros Hc Hel. induction l as [|x l IH]; intros Hl; [done|]. cbn [map].
  assert (x ∈ c_lru c) as Hx by (apply Hl; apply elem_of_cons; by left).
  assert (l ⊆ c_lru c) as Hl' by (intros y Hy; apply Hl; apply elem_of_cons; by right).
  rewrite !filter_cons.
  destruct (decide (x <> el)) as [Hne|Heq], (decide ((entry_of c x).1 <> (entry_of c el).1)) as [Hn2|Hq2].
  - cbn. by rewrite IH.
  - apply dec_stable in Hq2. by apply entry_inj in Hq2.
  - apply dec_stable in Heq. congruence.
  - by apply IH.
Qed.

Lemma alookup_abs c a el :
  cache_pre c -> c_items c !! a = Some el -> alookup (abs c) a = Some (entry_of c el).2.
Proof.
  intros Hc Hel. apply (pre_items _ Hc) in Hel as [Hin Ha]. unfold alookup, abs.
  assert (forall l, l ⊆ c_lru c -> el ∈ l ->
    find (fun e => bool_decide (e.1 = a)) (map (entry_of c) l) = Some (entry_of c el)) as H.
  { induction l as [|x l IH]; intros Hl Hi; [by apply elem_of_nil in Hi|]. cbn.
    assert (x ∈ c_lru c) as Hx by (apply Hl; apply elem_of_cons; by left).
    case_bool_decide as E.
    - f_equal. f_equal. apply (entry_inj c); [done..|congruence].
    - apply IH; [intros y Hy; apply Hl; apply elem_of_cons; by right|].
      apply elem_of_cons in Hi as [->|]; [congruence|done]. }
  by rewrite H.
Qed.

Lemma alookup_None c a : cache_pre c -> c_items c !! a = None -> alookup (abs c) a = None.
Proof.
  intros Hc Ha. unfold alookup, abs.
  destruct (find _ _) as [e|] eqn:E; [|done]. apply find_some in E as [Hi He].
  apply bool_decide_eq_true in He. apply in_map_iff in Hi as (el & <- & Hel).
  apply list_elem_of_In in Hel. pose proof (proj2 (pre_items _ Hc a el) (conj Hel He)). congruence.
Qed.

(** Moving an element to the front keeps the invariant. *)
Lemma touch_ok c el elems :
  cache_pre c -> el ∈ c_lru c ->
  (forall x, is_Some (c_elems c !! x) -> is_Some (elems !! x)) ->
  (forall x, (match elems !! x with Some e => (ce_ip e, ce_name e) | None => (AZero, []) end).1 = (entry_of c x).1) ->
  cache_pre {| c_items := c_items c; c_lru := MoveToFront el (c_lru c); c_elems := elems; c_next := c_next c |}.
Proof.
  intros [H1 H2 H3 H4] Hel Hsome Hip. split; cbn.
  - by apply NoDup_MoveToFront.
  - intros x. rewrite elem_of_MoveToFront by done. apply H2.
  - intros x. rewrite elem_of_MoveToFront by done. intros Hx. by apply Hsome, H3.
  - intros a x. rewrite elem_of_MoveToFront by done. unfold entry_of. cbn. rewrite Hip. apply H4.
Qed.

Lemma lookup_refines c ip c' name :
  cache_ok c -> lookup (Some c) ip = (Some c', name) ->
  cache_ok c' /\
  match ParseAddr ip with
  | Some a => abs c' = atouch (abs c) (Unmap a) /\ name = default [] (alookup (abs c) (Unmap a))
  | None => abs c' = abs c /\ name = []
  end.
Proof.
  intros [Hc Hs]%ok_pre. unfold lookup. destruct (ParseAddr ip) as [a|].
  2: { intros [= <- <-]. split; [by apply ok_pre|done]. }
  destruct (c_items c !! Unmap a) as [el|] eqn:E.
  2: { intros [= <- <-]. split; [by apply ok_pre|]. unfold atouch. by rewrite alookup_None. }
  intros [= <- <-]. pose proof (alookup_abs c (Unmap a) el Hc E) as El.
  apply (pre_items _ Hc) in E as [Hin Ha]. split.
  - apply ok_pre. split; [by apply touch_ok|]. unfold len in *. cbn. rewrite length_remove_one; [done|apply Hc|done].
  - unfold atouch. rewrite El. split.
    + pose proof (abs_filter c el (c_lru c) Hc Hin ltac:(done)) as Ef. rewrite Ha in Ef.
      unfold abs at 2. rewrite <- Ef, <- Ha, <- surjective_pairing. done.
    + cbn. unfold entry_of. by destruct (c_elems c !! el).
Qed.

(** Dropping the last element with its item and its value. *)
Definition drop_last (c : dnsCache) (old : nat) : dnsCache :=
  {| c_items := match c_elems c !! old with
                | Some e => delete (ce_ip e) (c_items c)
                | None => c_items c end;
     c_lru := take (length (c_lru c) - 1) (c_lru c);
     c_elems := delete old (c_elems c); c_next := c_next c |}.

Lemma take_init {A} (l : list A) x : take (length (l ++ [x]) - 1) (l ++ [x]) = l.
Proof. rewrite length_app. cbn. replace (length l + 1 - 1)%nat with (length l) by lia. by apply take_app_length. Qed.

Lemma drop_last_ok c l old :
  cache_pre c -> c_lru c = l ++ [old] ->
  cache_pre (drop_last c old) /\ abs (drop_last c old) = map (entry_of c) l.
Proof.
  intros [H1 H2 H3 H4] Hl. unfold drop_last. rewrite Hl, take_init. rewrite Hl in H1.
  apply NoDup_app in H1 as (N1 & N2 & _).
  assert (forall el, el ∈ l -> el <> old) as Hne by (intros el He ->; by apply (N2 old He), list_elem_of_singleton).
  assert (old ∈ c_lru c) as Ho by (rewrite Hl; apply elem_of_app; right; by apply list_elem_of_singleton).
  destruct (H3 old Ho) as [e He]. rewrite He.
  assert (forall el, el ∈ l -> entry_of
     {| c_items := delete (ce_ip e) (c_items c); c_lru := l; c_elems := delete old (c_elems c); c_next := c_next c |} el
     = entry_of c el) as Hent.
  { intros el Hel. unfold entry_of. cbn. rewrite lookup_delete_ne; [done|]. by intros ->; apply (Hne el). }
  assert (forall el, el ∈ l -> el ∈ c_lru c) as Hsub by (intros el Hel; rewrite Hl; apply elem_of_app; by left).
  split; [split; cbn|].
  - done.
  - intros el Hel. apply H2; auto.
  - intros el Hel. rewrite lookup_delete_ne by (intros ->; by apply (Hne el)). auto.
  - intros a el. split.
    + intros [Hne' Hi]%lookup_delete_Some. apply H4 in Hi as [Hin Ha]. rewrite Hl in Hin.
      apply elem_of_app in Hin as [Hin|Hin%list_elem_of_singleton]; [by rewrite Hent|].
      subst el. unfold entry_of in Ha. rewrite He in Ha. done.
    + intros [Hel Ha]. rewrite Hent in Ha by done. apply lookup_delete_Some.
      assert (c_items c !! a = Some el) as Hi by (apply H4; auto). split; [|done].
      intros <-. assert (c_items c !! ce_ip e = Some old) as Ho2.
      { apply H4. split; [done|]. unfold entry_of. by rewrite He. }
      apply (Hne el Hel). congruence.
  - unfold abs. cbn [c_lru]. apply map_ext_in. intros el Hel. apply Hent. by apply list_elem_of_In.
Qed.

Lemma evict_small fuel c : len (c_lru c) <= dnsCacheSize -> evict fuel c = c.
Proof. intros H. destruct fuel; [done|]. cbn. destruct (Z.ltb_spec dnsCacheSize (len (c_lru c))); [lia|done]. Qed.

Lemma evict_ok fuel c :
  cache_pre c -> len (c_lru c) <= dnsCacheSize + 1 ->
  cache_ok (evict (S fuel) c) /\ abs (evict (S fuel) c) = take (Z.to_nat dnsCacheSize) (abs c).
Proof.
  intros Hc Hl. cbn [evict]. destruct (Z.ltb_spec dnsCacheSize (len (c_lru c))) as [Hlt|Hge].
  - assert (len (c_lru c) = dnsCacheSize + 1) as El by lia.
    destruct (c_lru c) as [|old l _] eqn:E using rev_ind; [by vm_compute in El|].
    rewrite last_snoc. rewrite <- E. change {| c_items := _ |} with (drop_last c old).
    rewrite len_app, len_cons, len_nil in El.
    destruct (drop_last_ok c l old Hc E) as [Hd Ha].
    assert (c_lru (drop_last c old) = l) as Elru by (unfold drop_last; cbn; rewrite E; apply take_init).
    rewrite evict_small by (rewrite Elru; lia).
    split; [apply ok_pre; split; [done|rewrite Elru; lia]|]. rewrite Ha. unfold abs. rewrite E, map_app.
    rewrite take_app_length'; [done|]. rewrite length_map. unfold len in El. lia.
  - split; [by apply ok_pre|]. rewrite take_ge; [done|]. unfold abs. rewrite length_map. unfold len in *. lia.
Qed.

(** A fresh element in front. *)
Lemma insert_pre c a el name :
  cache_pre c -> c_items c !! Unmap a = None -> el = c_next c ->
  cache_pre {| c_items := <[Unmap a := el]> (c_items c); c_lru := el :: c_lru c;
               c_elems := <[el := {| ce_ip := Unmap a; ce_name := name |}]> (c_elems c); c_next := S el |}.
Proof.
  intros Hc E ->. destruct Hc as [H1 H2 H3 H4].
  assert (c_next c ∉ c_lru c) as Hfresh by (intros Hin%H2; lia).
  split; cbn.
  - by apply NoDup_cons.
  - intros x [->|Hx%H2]%elem_of_cons; lia.
  - intros x [->|Hx]%elem_of_cons; [by rewrite lookup_insert, decide_True|].
    rewrite lookup_insert_ne by (intros <-; done). auto.
  - intros b x. unfold entry_of. cbn. rewrite elem_of_cons. destruct (decide (b = Unmap a)) as [->|Hb].
    + rewrite lookup_insert, decide_True by done. split.
      * intros [= <-]. rewrite lookup_insert, decide_True by done. auto.
      * intros [[->|Hx] Hip]; [done|]. rewrite lookup_insert_ne in Hip by (intros <-; done).
        assert (c_items c !! Unmap a = Some x) by (apply H4; auto). congruence.
    + rewrite lookup_insert_ne by done. rewrite H4. split.
      * intros [Hx Hip]. split; [by right|]. rewrite lookup_insert_ne by (intros <-; done). done.
      * intros [[->|Hx] Hip]; [rewrite lookup_insert, decide_True in Hip by done; done|].
        split; [done|]. rewrite lookup_insert_ne in Hip by (intros <-; done). done.
Qed.

Lemma put_refines c a name :
  cache_ok c -> cache_ok (put c a name) /\ abs (put c a name) = aput (abs c) (Unmap a) name.
Proof.
  intros [Hc Hs]%ok_pre. unfold put. destruct (c_items c !! Unmap a) as [el|] eqn:E.
  - apply (pre_items _ Hc) in E as [Hin Ha]. destruct (pre_elem _ Hc _ Hin) as [e He].
    set (elems := alter _ el (c_elems c)).
    assert (elems !! el = Some {| ce_ip := ce_ip e; ce_name := name |}) as Hel.
    { unfold elems. by rewrite lookup_alter, He, decide_True. }
    assert (forall x, x <> el -> elems !! x = c_elems c !! x) as Hx.
    { intros x Hne. unfold elems. by rewrite lookup_alter_ne by congruence. }
    set (c' := {| c_items := c_items c; c_lru := _ |}).
    assert (forall x, x <> el -> entry_of c' x = entry_of c x) as Hent.
    { intros x Hne. unfold entry_of, c'. cbn. by rewrite Hx. }
    assert (entry_of c' el = (Unmap a, name)) as Hent2.
    { unfold entry_of, c'. cbn. rewrite Hel. cbn. f_equal. unfold entry_of in Ha. by rewrite He in Ha. }
    assert (len (c_lru c') <= dnsCacheSize) as Hs'.
    { unfold len in *. cbn. rewrite length_remove_one; [done|apply Hc|done]. }
    split.
    + apply ok_pre. split; [|done]. apply touch_ok; [done..| |].
      * intros x. destruct (decide (x = el)) as [->|Hne]; [by rewrite Hel|by rewrite Hx].
      * intros x. change ((entry_of c' x).1 = (entry_of c x).1).
        destruct (decide (x = el)) as [->|Hne]; [by rewrite Hent2, Ha|by rewrite Hent].
    + unfold aput. pose proof (abs_filter c el (c_lru c) Hc Hin ltac:(done)) as Ef. rewrite Ha in Ef.
      rewrite take_ge.
      * unfold abs at 2. rewrite <- Ef. unfold abs. cbn [c_lru c' MoveToFront map]. f_equal; [done|].
        apply map_ext_in. intros x Hxi. apply Hent. apply list_elem_of_In, list_elem_of_filter in Hxi. tauto.
      * unfold abs. rewrite <- Ef. cbn. rewrite length_map.
        rewrite length_remove_one; [unfold len in Hs; lia|apply Hc|done].
  - set (el := c_next c). set (c1 := {| c_items := _ |}).
    assert (el ∉ c_lru c) as Hfresh by (intros Hin%(pre_fresh _ Hc); unfold el in *; lia).
    assert (forall x, x ∈ c_lru c -> entry_of c1 x = entry_of c x) as Hent.
    { intros x Hx. unfold entry_of, c1. cbn. rewrite lookup_insert_ne; [done|]. intros ->. done. }
    assert (entry_of c1 el = (Unmap a, name)) as Hent2.
    { unfold entry_of, c1. cbn. by rewrite lookup_insert, decide_True. }
    assert (cache_pre c1) as Hc1 by (apply (insert_pre c a el name); done).
    destruct (evict_ok (length (c_lru c)) c1 Hc1) as [G1 G2]; [unfold len in *; cbn; lia|].
    split; [done|]. rewrite G2. unfold aput. f_equal. unfold abs, c1. cbn [c_lru map]. f_equal; [done|].
    rewrite filter_all.
    + apply map_ext_in. intros x Hx. apply Hent. by apply list_elem_of_In.
    + apply Forall_forall. intros e (x & -> & Hx)%list_elem_of_fmap Heq.
      assert (c_items c !! Unmap a = Some x) by (apply (pre_items _ Hc); auto). congruence.
Qed.

(** ** Runs of the cache *)

Inductive cache_op := OpPut (a : Addr) (name : bytes) | OpLookup (ip : bytes).

Definition cache_step (c : dnsCache) (o : cache_op) : dnsCache * bytes :=
  match o with
  | OpPut a name => (put c a name, [])
  | OpLookup ip => let '(c', name) := lookup (Some c) ip in (default c c', name)
  end.
Definition acache_step (s : acache) (o : cache_op) : acache * bytes :=
  match o with
  | OpPut a name => (aput s (Unmap a) name, [])
  | OpLookup ip =>
      match ParseAddr ip with
      | Some a => (atouch s (Unmap a), default [] (alookup s (Unmap a)))
      | None => (s, [])
      end
  end.

Fixpoint run_ops {S} (step : S -> cache_op -> S * bytes) (s : S) (ops : list cache_op) : S * list bytes :=
  match ops with
  | [] => (s, [])
  | o :: ops' => let '(s', r) := step s o in let '(s'', rs) := run_ops step s' ops' in (s'', r :: rs)
  end.

Lemma newDNSCache_ok : cache_ok newDNSCache.
Proof.
  split; cbn; try by (intros ? ?%elem_of_nil).
  - constructor.
  - intros a el. rewrite lookup_empty. split; [done|]. by intros [?%elem_of_nil _].
  - by vm_compute.
Qed.

Lemma step_refines c o :
  cache_ok c -> let '(c', r) := cache_step c o in
  cache_ok c' /\ acache_step (abs c) o = (abs c', r).
Proof.
  intros Hc. destruct o as [a name|ip]; cbn [cache_step acache_step].
  - destruct (put_refines c a name Hc) as [H1 H2]. by rewrite H2.
  - destruct (lookup (Some c) ip) as [[c'|] name] eqn:E.
    + destruct (lookup_refines c ip c' name Hc E) as [H1 H2]. cbn. split; [done|].
      destruct (ParseAddr ip); destruct H2 as [-> ->]; done.
    + exfalso. unfold lookup in E. repeat case_match; done.
Qed.

(** C37: the cache refines the bounded most-recently-used list: for every sequence of
    insertions and lookups the concrete map, list and shared elements stay
    consistent and within the bound, and every lookup answers what the abstract
    list answers. *)
Theorem cache_refinement ops :
  let '(c, rs) := run_ops cache_step newDNSCache ops in
  cache_ok c /\ run_ops acache_step [] ops = (abs c, rs).
Proof.
  assert (forall c, cache_ok c -> let '(c', rs) := run_ops cache_step c ops in
    cache_ok c' /\ run_ops acache_step (abs c) ops = (abs c', rs)) as H.
  { induction ops as [|o ops IH]; intros c Hc; cbn; [done|].
    pose proof (step_refines c o Hc) as Hs. destruct (cache_step c o) as [c1 r]. destruct Hs as [Hc1 ->].
    specialize (IH c1 Hc1). destruct (run_ops cache_step c1 ops) as [c2 rs]. destruct IH as [Hc2 ->]. done. }
  apply (H newDNSCache newDNSCache_ok).
Qed.

Section ObserveProofs.
Context `{U : UnicodeTables} {C : DNSCodec} {L : DNSCodecLaws C}.

Definition put_all (name : bytes) (c : dnsCache) (l : list Addr) : dnsCache :=
  fold_left (fun c a => put c a name) l c.

Lemma answer_loop_app fuel : forall p out,
  (answer_loop fuel p out).1 = out ++ (answer_loop fuel p []).1.
Proof.
  induction fuel as [|fuel IH]; intros p out; cbn [answer_loop]; [by rewrite app_nil_r|].
  destruct (p_AnswerHeader p) as [[ah p1]|]; [|by rewrite app_nil_r].
  destruct (rh_Type ah =? TypeA); [|destruct (rh_Type ah =? TypeAAAA)].
  - destruct (p_AResource p1) as [[r p2]|]; [|by rewrite app_nil_r].
    rewrite IH, (IH p2 ([] ++ _)). by rewrite <- app_assoc.
  - destruct (p_AAAAResource p1) as [[r p2]|]; [|by rewrite app_nil_r].
    rewrite IH, (IH p2 ([] ++ _)). by rewrite <- app_assoc.
  - destruct (p_SkipAnswer p1) as [p2|]; [|by rewrite app_nil_r]. apply IH.
Qed.

Lemma observe_loop_fold fuel : forall p name c,
  observe_loop fuel p name c = put_all name c (answer_loop fuel p []).1.
Proof.
  induction fuel as [|fuel IH]; intros p name c; cbn [observe_loop answer_loop]; [done|].
  destruct (p_AnswerHeader p) as [[ah p1]|]; [|done].
  destruct (rh_Type ah =? TypeA); [|destruct (rh_Type ah =? TypeAAAA)].
  - destruct (p_AResource p1) as [[r p2]|]; [|done]. rewrite answer_loop_app. cbn. apply IH.
  - destruct (p_AAAAResource p1) as [[r p2]|]; [|done]. rewrite answer_loop_app. cbn. apply IH.
  - destruct (p_SkipAnswer p1) as [p2|]; [|done]. apply IH.
Qed.

Lemma observe_fold c msg h p q p' :
  p_Start msg = Some (h, p) -> h_Response h = true -> p_Question p = Some (q, p') ->
  observe (Some c) msg = Some (put_all (canonName (q_Name q)) c (dnsAnswerAddrs msg)).
Proof.
  intros H1 H2 H3. unfold observe, dnsAnswerAddrs. rewrite H1, H2. cbn [negb]. rewrite H3.
  rewrite (skip_after_question _ _ _ H3). destruct (p_SkipAllQuestions p); [|done].
  by rewrite observe_loop_fold.
Qed.

Lemma elem_take_filter {A} (P : A -> Prop) `{!forall x, Decision (P x)} (n : nat) l x :
  P x -> x ∈ take n l -> x ∈ take n (filter P l).
Proof.
  revert n. induction l as [|y l IH]; intros n Px Hx; [done|]. destruct n as [|n]; [by apply elem_of_nil in Hx|].
  cbn in Hx. rewrite filter_cons. apply elem_of_cons in Hx as [->|Hx].
  - rewrite decide_True by done. cbn. apply elem_of_cons. by left.
  - destruct (decide (P y)).
    + cbn. apply elem_of_cons. right. by apply IH.
    + pose proof (IH n Px Hx) as Hn. apply elem_of_take in Hn as (i & Hi & Hlt).
      apply elem_of_take. exists i. split; [done|lia].
Qed.

Lemma alookup_unique c a n :
  cache_ok c -> (a, n) ∈ abs c -> alookup (abs c) a = Some n.
Proof.
  intros [Hc _]%ok_pre (el & He & Hel)%list_elem_of_fmap.
  rewrite (alookup_abs c a el Hc); [by rewrite <- He|]. apply (pre_items _ Hc). by rewrite <- He.
Qed.

(** Entries added within the capacity are all still there. *)
Lemma put_all_keeps name l : forall c,
  cache_ok c -> len l <= dnsCacheSize ->
  cache_ok (put_all name c l) /\
  forall a, a ∈ l -> (Unmap a, name) ∈ take (length l) (abs (put_all name c l)).
Proof.
  induction l as [|x l IH] using rev_ind; intros c Hc Hl; [by split; [|intros ? ?%elem_of_nil]|].
  rewrite len_app, len_cons, len_nil in Hl. destruct (IH c Hc ltac:(lia)) as [H1 H2].
  unfold put_all. rewrite fold_left_app. cbn [fold_left]. fold (put_all name c l).
  destruct (put_refines (put_all name c l) x name H1) as [G1 G2]. split; [done|].
  intros a Ha. rewrite G2. unfold aput. rewrite take_take, length_app. cbn [length].
  replace ((length l + 1) `min` Z.to_nat dnsCacheSize)%nat with (S (length l)) by (unfold len in *; lia).
  cbn [take]. apply elem_of_cons. destruct (decide (Unmap a = Unmap x)) as [E|E]; [left; by rewrite E|right].
  apply elem_of_app in Ha as [Ha|Ha%list_elem_of_singleton]; [|by subst].
  apply elem_take_filter; [done|]. by apply H2.
Qed.

(** A response teaches the cache its question name: every address
    [dnsAnswerAddrs] reads from a response (up to the capacity of the cache) is
    afterwards mapped to the lower-cased question name, through CNAME chains
    and whatever the cache held before. *)
Theorem observe_learns c msg h p q p' a :
  cache_ok c ->
  p_Start msg = Some (h, p) -> h_Response h = true -> p_Question p = Some (q, p') ->
  len (dnsAnswerAddrs msg) <= dnsCacheSize -> a ∈ dnsAnswerAddrs msg ->
  exists c', observe (Some c) msg = Some c' /\ cache_ok c' /\
    alookup (abs c') (Unmap a) = Some (canonName (q_Name q)).
Proof.
  intros Hc H1 H2 H3 Hl Ha. rewrite (observe_fold c msg h p q p' H1 H2 H3).
  destruct (put_all_keeps (canonName (q_Name q)) _ c Hc Hl) as [G1 G2].
  eexists. split_and!; [done..|]. apply alookup_unique; [done|].
  specialize (G2 a Ha). apply elem_of_take in G2 as (i & Hi & _). by apply list_elem_of_lookup_2 in Hi.
Qed.
End ObserveProofs.

#[local] Existing Instance RefCodec.codec.
#[local] Existing Instance caseless_tables.

Lemma observe_learns_witness :
  exists c', observe (Some newDNSCache) sample_answer = Some c' /\ cache_ok c' /\
    alookup (abs c') (Unmap (A4 3221225985)) = Some (lit "api.example.com").
Proof.
  apply (observe_learns (L := RefCodec.codec_laws) newDNSCache sample_answer
    (responseHeader (dq_header sample_question) 0)
    ([dq_q sample_question], [(answerHeader sample_question 60, [192; 0; 2; 1])])
    (dq_q sample_question) ([], [(answerHeader sample_question 60, [192; 0; 2; 1])])
    (A4 3221225985)).
  - apply newDNSCache_ok.
  - vm_compute. reflexivity.
  - reflexivity.
  - reflexivity.
  - vm_compute. discriminate.
  - apply (bool_decide_eq_true_1 (A4 3221225985 ∈ dnsAnswerAddrs sample_answer)). vm_compute. reflexivity.
Defined.
