(* ===== verification/Http1.v ===== *)
(** * HTTP/1.x heads and framing (src/vpntunnel/http1.go)

    Ordered header lists, reading a head from a buffered reader, parsing and
    serialising request and response heads, and the body framing a head implies. *)

From S2P Require Import Prelude GoStrings.

Definition CR : Z := 13.
Definition LF : Z := 10.
Definition crlf : bytes := [CR; LF].
Definition maxHeadBytes : Z := Z.shiftl 64 10.

(** The errors of this component. *)
Inductive h1_error :=
| ErrEOF
| ErrUnexpectedEOF
| ErrConn                       (* any other read error of the connection *)
| ErrWrite                      (* a write to the other side failed *)
| ErrHeadTooLarge
| ErrEmptyHead
| ErrMalformedHeader (line : bytes)
| ErrMalformedRequest (line : bytes)
| ErrMalformedStatus (line : bytes)
| ErrMalformedCode (code : bytes)
| ErrConflictingLength
| ErrBadLength (v : bytes)
| ErrTransferEncoding
| ErrLineTooLong
| ErrBadChunkSize (v : bytes).

#[export] Instance h1_error_eq_dec : EqDecision h1_error.
Proof. solve_decision. Defined.

(** ** Header lists *)

Record hdr := mkHdr { hdr_name : bytes; hdr_value : bytes }.
Abbreviation hdrList := (list hdr).

#[export] Instance hdr_eq_dec : EqDecision hdr.
Proof. solve_decision. Defined.

Section Headers.
Context `{U : UnicodeTables}.

Definition named (name : bytes) (kv : hdr) : bool := EqualFold (hdr_name kv) name.

Definition hdr_get (h : hdrList) (name : bytes) : bytes :=
  match find (named name) h with Some kv => hdr_value kv | None => [] end.

Definition hdr_has (h : hdrList) (name : bytes) : bool := existsb (named name) h.

Definition hdr_pairs (h : hdrList) : list (bytes * bytes) :=
  map (fun kv => (hdr_name kv, hdr_value kv)) h.

(** The comma-separated tokens of one field value. *)
Definition value_tokens (v : bytes) : list bytes :=
  filter (fun t => t <> []) (map (fun t => ToLower (TrimSpace t)) (Split v 44)).
Definition hdr_tokens (h : hdrList) (name : bytes) : list bytes :=
  concat (map (fun kv => if named name kv then value_tokens (hdr_value kv) else []) h).

Definition hdr_add (h : hdrList) (name value : bytes) : hdrList := h ++ [mkHdr name value].

(** The loop of [hdrList.set]: the first field of that name takes the value, later
    ones are dropped. *)
Fixpoint hdr_set_loop (h : hdrList) (name value : bytes) (found : bool) : hdrList * bool :=
  match h with
  | [] => ([], found)
  | kv :: h' =>
      if named name kv then
        if found then hdr_set_loop h' name value found
        else let '(out, f) := hdr_set_loop h' name value true in (mkHdr (hdr_name kv) value :: out, f)
      else let '(out, f) := hdr_set_loop h' name value found in (kv :: out, f)
  end.
Definition hdr_set (h : hdrList) (name value : bytes) : hdrList :=
  let '(out, found) := hdr_set_loop h name value false in
  if found then out else hdr_add out name value.

Definition hdr_del (h : hdrList) (name : bytes) : hdrList :=
  filter (fun kv => named name kv = false) h.
End Headers.

Definition hasToken (tokens : list bytes) (tok : bytes) : bool := bool_decide (tok ∈ tokens).

Record reqHead := { rq_method : bytes; rq_target : bytes; rq_proto : bytes; rq_headers : hdrList }.
Record resHead := { rs_proto : bytes; rs_status : Z; rs_reason : bytes; rs_headers : hdrList }.

(** ** Buffered input ([bufio.Reader])

    [br_rest] is what the peer still sends before the stream ends with an error;
    [br_size] the capacity of the buffer. *)
Record breader := mkReader { br_rest : bytes; br_size : nat; br_end : h1_error }.

Inductive slice_err := SliceFull | SliceErr (e : h1_error).

(** [bufio.Reader.ReadSlice('\n')]: a line with its delimiter; a full buffer without
    one; or what is left with the error that ends the stream. *)
Definition ReadSlice (br : breader) : bytes * option slice_err * breader :=
  let window := take (br_size br) (br_rest br) in
  match IndexByte window LF with
  | Some i => (take (S i) window, None, mkReader (drop (S i) (br_rest br)) (br_size br) (br_end br))
  | None =>
      if (br_size br <=? length (br_rest br))%nat
      then (window, Some SliceFull, mkReader (drop (br_size br) (br_rest br)) (br_size br) (br_end br))
      else (br_rest br, Some (SliceErr (br_end br)), mkReader [] (br_size br) (br_end br))
  end.

Definition blank_line (line : bytes) : bool :=
  bool_decide (line = crlf) || bool_decide (line = [LF]).

(** The loop of [readHead]; [None] only when the fuel runs out. *)
Fixpoint readHead_loop (fuel : nat) (br : breader) (buf : bytes) : option (result h1_error bytes * breader) :=
  match fuel with
  | O => None
  | S fuel' =>
      let '(line, err, br1) := ReadSlice br in
      match err with
      | Some (SliceErr e) =>
          let e' := if (len buf =? 0) && (len line =? 0) then e
                    else if bool_decide (e = ErrEOF) then ErrUnexpectedEOF else e in
          Some (Err e', br1)
      | _ =>
          if (len buf =? 0) && blank_line line then readHead_loop fuel' br1 buf
          else
            let buf1 := buf ++ line in
            if maxHeadBytes <? len buf1 then Some (Err ErrHeadTooLarge, br1)
            else if bool_decide (is_Some err) then readHead_loop fuel' br1 buf1
            else if blank_line line then Some (Ok buf1, br1)
            else readHead_loop fuel' br1 buf1
      end
  end.
Definition readHead (br : breader) : option (result h1_error bytes * breader) :=
  readHead_loop (S (length (br_rest br))) br [].

(** ** Parsing *)

Definition head_field (hs : hdrList) (l : bytes) : result h1_error hdrList :=
  match IndexByte l 58 with
  | Some (S i) => Ok (hs ++ [mkHdr (take (S i) l) (TrimSpace (drop (S (S i)) l))])
  | _ => Err (ErrMalformedHeader l)
  end.

(** One line of the header loop of [splitHeadLines]. *)
Definition head_line (hs : hdrList) (l0 : bytes) : result h1_error hdrList :=
  let l := TrimRight l0 [CR] in
  match l with
  | [] => Ok hs
  | c :: _ =>
      match last hs with
      | Some kv =>
          if (c =? 32) || (c =? 9)
          then Ok (take (length hs - 1) hs ++ [mkHdr (hdr_name kv) (hdr_value kv ++ [32] ++ TrimSpace l)])
          else head_field hs l
      | None => head_field hs l
      end
  end.

Fixpoint head_lines (ls : list bytes) (hs : hdrList) : result h1_error hdrList :=
  match ls with
  | [] => Ok hs
  | l :: ls' => (let! hs' := head_line hs l in head_lines ls' hs')%go
  end.

Definition splitHeadLines (raw : bytes) : result h1_error (bytes * hdrList) :=
  match Split (TrimRight raw crlf) LF with
  | [] => Err ErrEmptyHead
  | l0 :: ls => (let! hs := head_lines ls [] in Ok (TrimRight l0 [CR], hs))%go
  end.

Definition parseRequestHead (raw : bytes) : result h1_error reqHead :=
  (let! (first, hs) := splitHeadLines raw in
   match SplitN 2 first 32 with
   | [m; t; p] =>
       if HasPrefix p (lit "HTTP/")
       then Ok {| rq_method := m; rq_target := t; rq_proto := p; rq_headers := hs |}
       else Err (ErrMalformedRequest first)
   | _ => Err (ErrMalformedRequest first)
   end)%go.

Definition parseResponseHead (raw : bytes) : result h1_error resHead :=
  (let! (first, hs) := splitHeadLines raw in
   match SplitN 2 first 32 with
   | p :: c :: rest =>
       if HasPrefix p (lit "HTTP/") then
         match Atoi c with
         | Ok code =>
             if (code <? 100) || (999 <? code) then Err (ErrMalformedCode c)
             else Ok {| rs_proto := p; rs_status := code;
                        rs_reason := match rest with r :: _ => r | [] => [] end; rs_headers := hs |}
         | Err _ => Err (ErrMalformedCode c)
         end
       else Err (ErrMalformedStatus first)
   | _ => Err (ErrMalformedStatus first)
   end)%go.

(** ** Serialising *)

Definition field_line (kv : hdr) : bytes := hdr_name kv ++ lit ": " ++ hdr_value kv.
Definition serializeHead (first : bytes) (hs : hdrList) : bytes :=
  first ++ crlf ++ concat (map (fun kv => field_line kv ++ crlf) hs) ++ crlf.
Definition req_serialize (r : reqHead) : bytes :=
  serializeHead (rq_method r ++ lit " " ++ rq_target r ++ lit " " ++ rq_proto r) (rq_headers r).
Definition res_serialize (r : resHead) : bytes :=
  let first := rs_proto r ++ lit " " ++ Itoa (rs_status r) in
  serializeHead (if bool_decide (rs_reason r = []) then first else first ++ lit " " ++ rs_reason r) (rs_headers r).

(** ** Framing *)

Inductive framingKind := framingNone | framingLength | framingChunked | framingUntilClose.
#[export] Instance framingKind_eq_dec : EqDecision framingKind.
Proof. solve_decision. Defined.

Section Framing.
Context `{U : UnicodeTables}.

(** The loop of [contentLength] over the fields: the common trimmed value. *)
Fixpoint length_values (hs : hdrList) (v : bytes) : option bytes :=
  match hs with
  | [] => Some v
  | kv :: hs' =>
      if named (lit "Content-Length") kv then
        let val := TrimSpace (hdr_value kv) in
        if negb (bool_decide (v = [])) && negb (bool_decide (v = val)) then None
        else length_values hs' val
      else length_values hs' v
  end.

(** [contentLength]: no usable field is [Ok None]. *)
Definition contentLength (hs : hdrList) : result h1_error (option Z) :=
  match length_values hs [] with
  | None => Err ErrConflictingLength
  | Some [] => Ok None
  | Some v =>
      match ParseInt v 10 64 with
      | Ok n => if n <? 0 then Err (ErrBadLength v) else Ok (Some n)
      | Err _ => Err (ErrBadLength v)
      end
  end.

Definition requestFraming (r : reqHead) : result h1_error (framingKind * Z) :=
  match last (hdr_tokens (rq_headers r) (lit "Transfer-Encoding")) with
  | Some te =>
      if bool_decide (te = lit "chunked") then Ok (framingChunked, 0) else Err ErrTransferEncoding
  | None =>
      (let! n := contentLength (rq_headers r) in
       match n with
       | Some n => if 0 <? n then Ok (framingLength, n) else Ok (framingNone, 0)
       | None => Ok (framingNone, 0)
       end)%go
  end.

Definition responseFraming (method : bytes) (r : resHead) : result h1_error (framingKind * Z) :=
  if bool_decide (method = lit "HEAD") || (rs_status r =? 204) || (rs_status r =? 304)
     || ((100 <=? rs_status r) && (rs_status r <? 200))
  then Ok (framingNone, 0)
  else if bool_decide (method = lit "CONNECT") && (200 <=? rs_status r) && (rs_status r <? 300)
  then Ok (framingUntilClose, 0)
  else
    match last (hdr_tokens (rs_headers r) (lit "Transfer-Encoding")) with
    | Some te =>
        if bool_decide (te = lit "chunked") then Ok (framingChunked, 0) else Ok (framingUntilClose, 0)
    | None =>
        (let! n := contentLength (rs_headers r) in
         match n with
         | Some n => if n =? 0 then Ok (framingNone, 0) else Ok (framingLength, n)
         | None => Ok (framingUntilClose, 0)
         end)%go
    end.
End Framing.

(** ** Reading a head *)

(** A line of the stream: text without LF, then LF. *)
Definition is_line (l : bytes) : Prop := exists s, l = s ++ [LF] /\ LF ∉ s.

Lemma ReadSlice_line l rest size e :
  is_line l -> (length l <= size)%nat ->
  ReadSlice (mkReader (l ++ rest) size e) = (l, None, mkReader rest size e).
Proof.
  intros (s & -> & Hs) Hl. unfold ReadSlice. cbn [br_rest br_size br_end].
  rewrite take_app_ge by done. rewrite <- !app_assoc. cbn [app].
  rewrite IndexByte_app by done. by rewrite take_through, drop_through.
Qed.

Lemma ReadSlice_full s rest size e :
  LF ∉ s -> length s = size ->
  ReadSlice (mkReader (s ++ rest) size e) = (s, Some SliceFull, mkReader rest size e).
Proof.
  intros Hs Hl. unfold ReadSlice. cbn [br_rest br_size br_end]. rewrite take_app_length' by done.
  rewrite (proj2 (IndexByte_none s LF) Hs). rewrite length_app.
  destruct (Nat.leb_spec size (length s + length rest)); [|lia]. by rewrite drop_app_length' by done.
Qed.

Lemma ReadSlice_shrinks br line err br1 :
  (1 <= br_size br)%nat -> ReadSlice br = (line, err, br1) ->
  br_size br1 = br_size br /\
  (match err with Some (SliceErr _) => True | _ => (length (br_rest br1) < length (br_rest br))%nat end).
Proof.
  intros Hs. unfold ReadSlice. destruct (IndexByte _ LF) as [i|] eqn:E.
  - intros [= <- <- <-]. split; [done|]. cbn. apply IndexByte_split in E as (E & _).
    apply (f_equal length) in E. rewrite length_take, length_app in E. cbn in E. rewrite length_drop. lia.
  - destruct (Nat.leb_spec (br_size br) (length (br_rest br))); intros [= <- <- <-]; (split; [done|]); cbn; [|done].
    rewrite length_drop. lia.
Qed.

Lemma readHead_loop_total fuel : forall br buf,
  (1 <= br_size br)%nat -> (length (br_rest br) < fuel)%nat -> is_Some (readHead_loop fuel br buf).
Proof.
  induction fuel as [|fuel IH]; intros br buf Hs Hf; [lia|]. cbn [readHead_loop].
  destruct (ReadSlice br) as [[line err] br1] eqn:E. apply ReadSlice_shrinks in E as [Hs1 Hlt]; [|done].
  destruct err as [[|e]|]; [|done|]; repeat case_match; try done; apply IH; rewrite ?Hs1; lia.
Qed.

Lemma blank_line_is_line l : blank_line l = true -> is_line l /\ (length l <= 2)%nat.
Proof.
  unfold blank_line. intros H. apply orb_true_iff in H as [H|H]; to_prop; subst l.
  - split; [|done]. exists [CR]. split; [done|]. by intros ?%list_elem_of_singleton.
  - split; [|cbn; lia]. exists []. split; [done|]. by intros ?%elem_of_nil.
Qed.

Lemma ReadSlice_splits br line err br1 :
  ReadSlice br = (line, err, br1) -> br_rest br = line ++ br_rest br1 /\ br_size br1 = br_size br /\ br_end br1 = br_end br.
Proof.
  unfold ReadSlice. destruct (IndexByte _ LF) as [i|] eqn:E.
  - intros [= <- <- <-]. split; [|done]. cbn [br_rest]. apply IndexByte_split in E as (E & _).
    apply (f_equal length) in E. rewrite length_app, !length_take in E. cbn in E.
    rewrite take_take. replace (S i `min` br_size br)%nat with (S i) by lia. by rewrite take_drop.
  - case_match; intros [= <- <- <-]; (split; [|done]); cbn [br_rest]; [by rewrite take_drop|by rewrite app_nil_r].
Qed.

(** [readHead] takes blank lines and then the head off the stream, nothing else. *)
Lemma readHead_consumes br raw br1 :
  readHead br = Some (Ok raw, br1) ->
  exists blanks, Forall (fun b => blank_line b = true) blanks /\
    br_rest br = concat blanks ++ raw ++ br_rest br1 /\ br_size br1 = br_size br /\ raw <> [].
Proof.
  unfold readHead. generalize (S (length (br_rest br))). intros fuel.
  assert (forall buf br, readHead_loop fuel br buf = Some (Ok raw, br1) -> exists blanks,
    Forall (fun b => blank_line b = true) blanks /\ (buf = [] \/ blanks = []) /\
    buf ++ br_rest br = concat blanks ++ raw ++ br_rest br1 /\ br_size br1 = br_size br /\ raw <> []) as H.
  { induction fuel as [|fuel IH]; intros buf b; [done|]. cbn [readHead_loop].
    destruct (ReadSlice b) as [[line err] b1] eqn:E. apply ReadSlice_splits in E as (E1 & E2 & _).
    rewrite E1. destruct err as [[|e]|]; [|done|].
    - destruct ((len buf =? 0) && blank_line line) eqn:Eb.
      + apply andb_true_iff in Eb as [Eb1%Z.eqb_eq Eb2]. assert (buf = []) as -> by (destruct buf; [done|revert Eb1; len_lia]).
        intros (bl & F & _ & A & S & N)%IH. exists (line :: bl). cbn [app concat] in A |- *. rewrite A, <- app_assoc.
        split_and!; [by constructor|by left|done|congruence|done].
      + case_match; [done|]. rewrite bool_decide_eq_true_2 by (by eexists).
        intros (bl & F & O & A & S & N)%IH. exists bl. rewrite app_assoc.
        split_and!; [done| |done|congruence|done]. destruct O as [O| ->]; [|by right].
        left. by apply app_eq_nil in O as [? _].
    - destruct ((len buf =? 0) && blank_line line) eqn:Eb.
      + apply andb_true_iff in Eb as [Eb1%Z.eqb_eq Eb2]. assert (buf = []) as -> by (destruct buf; [done|revert Eb1; len_lia]).
        intros (bl & F & _ & A & S & N)%IH. exists (line :: bl). cbn [app concat] in A |- *. rewrite A, <- app_assoc.
        split_and!; [by constructor|by left|done|congruence|done].
      + case_match; [done|]. rewrite bool_decide_eq_false_2 by (by intros [? ?]). destruct (blank_line line) eqn:El.
        * intros [= <- <-]. exists []. cbn [concat app]. rewrite <- app_assoc. split_and!; [done|by right|done|done|].
          apply blank_line_is_line in El as [(s & -> & _) _]. by destruct buf, s.
        * intros (bl & F & O & A & S & N)%IH. exists bl. rewrite app_assoc.
          split_and!; [done| |done|congruence|done]. destruct O as [O| ->]; [|by right].
          left. by apply app_eq_nil in O as [? _]. }
  intros (bl & F & _ & A & S & N)%H. by exists bl.
Qed.

(** Enough fuel for a stream is enough for a shorter one. *)
Lemma readHead_blanks bs : forall fuel rest size e,
  Forall (fun b => blank_line b = true) bs -> (2 <= size)%nat -> (length (concat bs ++ rest) < fuel)%nat ->
  exists fuel', (length rest < fuel')%nat /\
    readHead_loop fuel (mkReader (concat bs ++ rest) size e) [] = readHead_loop fuel' (mkReader rest size e) [].
Proof.
  induction bs as [|b bs IH]; intros fuel rest size e Hb Hs Hf; [by exists fuel|].
  apply Forall_cons in Hb as [Hb Hbs]. destruct (blank_line_is_line b Hb) as [Hl Hl2].
  cbn [concat] in *. rewrite <- app_assoc in *. rewrite length_app in Hf.
  assert (0 < length b)%nat by (destruct Hl as (s & -> & _); rewrite length_app; cbn; lia).
  destruct fuel as [|fuel]; [lia|]. cbn [readHead_loop]. rewrite ReadSlice_line by (done || lia).
  rewrite Hb. cbn [andb Z.eqb]. change (len (@nil Z) =? 0) with true. cbn [andb].
  apply IH; [done..|]. lia.
Qed.

Lemma readHead_lines ls : forall fuel buf term rest size e,
  Forall (fun l => is_line l /\ blank_line l = false /\ (length l <= size)%nat) ls ->
  blank_line term = true -> (2 <= size)%nat -> (ls <> [] \/ buf <> []) ->
  len (buf ++ concat ls ++ term) <= maxHeadBytes -> (length (concat ls ++ term ++ rest) < fuel)%nat ->
  readHead_loop fuel (mkReader (concat ls ++ term ++ rest) size e) buf =
  Some (Ok (buf ++ concat ls ++ term), mkReader rest size e).
Proof.
  induction ls as [|l ls IH]; intros fuel buf term rest size e Hls Ht Hs Hne Hmax Hf;
    (destruct fuel as [|fuel]; [lia|]); cbn [concat app] in *; cbn [readHead_loop].
  - destruct (blank_line_is_line term Ht) as [Hl Hl2]. rewrite ReadSlice_line by (done || lia).
    destruct (Z.eqb_spec (len buf) 0) as [Hb|Hb]; [by destruct Hne, buf|]. cbn [andb].
    destruct (Z.ltb_spec maxHeadBytes (len (buf ++ term))); [lia|].
    rewrite bool_decide_eq_false_2 by (by intros [? ?]). by rewrite Ht.
  - apply Forall_cons in Hls as [(Hl & Hnb & Hlen) Hls]. rewrite <- !app_assoc in *.
    rewrite ReadSlice_line by done. rewrite Hnb, andb_false_r.
    assert (0 < length l)%nat by (destruct Hl as (s & -> & _); rewrite length_app; cbn; lia).
    rewrite !len_app in Hmax. pose proof (len_nonneg (concat ls)). pose proof (len_nonneg term).
    destruct (Z.ltb_spec maxHeadBytes (len (buf ++ l))) as [Hbig|_]; [rewrite len_app in Hbig; lia|].
    rewrite bool_decide_eq_false_2 by (by intros [? ?]).
    rewrite length_app in Hf. rewrite IH; [by rewrite <- app_assoc|done..| | |lia].
    + right. intros [_ ->]%app_nil. cbn in *. lia.
    + rewrite !len_app. lia.
Qed.

(** [readHead] always returns, and on a stream whose lines fit the buffer it
    returns exactly the head up to its blank line, skipping stray blank lines in
    front, and leaves the rest of the stream unread. *)
Theorem readHead_exact bs ls term rest size e :
  Forall (fun b => blank_line b = true) bs ->
  Forall (fun l => is_line l /\ blank_line l = false /\ (length l <= size)%nat) ls -> ls <> [] ->
  blank_line term = true -> (2 <= size)%nat -> len (concat ls ++ term) <= maxHeadBytes ->
  readHead (mkReader (concat bs ++ concat ls ++ term ++ rest) size e) =
    Some (Ok (concat ls ++ term), mkReader rest size e) /\
  forall br, br_size br = size -> is_Some (readHead br).
Proof.
  intros Hb Hl Hne Ht Hs Hmax. split.
  - unfold readHead. cbn [br_rest].
    destruct (readHead_blanks bs (S (length (concat bs ++ concat ls ++ term ++ rest)))
                (concat ls ++ term ++ rest) size e Hb Hs ltac:(lia)) as (fuel & Hf & ->).
    rewrite readHead_lines by (done || by left). done.
  - intros br E. apply readHead_loop_total; lia.
Qed.

(** A header line that fills the buffer exactly ends the head early: when the
    text of a line is as long as the reader's buffer, its own line terminator is
    read as the blank line, and everything after it is left for the body. *)
Theorem readHead_cuts_long_line first line rest size e :
  is_line first -> blank_line first = false -> (length first <= size)%nat ->
  LF ∉ line -> length line = size -> (2 <= size)%nat ->
  len (first ++ line ++ crlf) <= maxHeadBytes ->
  readHead (mkReader (first ++ line ++ crlf ++ rest) size e) =
    Some (Ok (first ++ line ++ crlf), mkReader rest size e).
Proof.
  intros Hf Hnb Hlf Hline Hll Hs Hmax. unfold readHead. cbn [br_rest].
  assert (0 < length first)%nat by (destruct Hf as (s & -> & _); rewrite length_app; cbn; lia).
  rewrite !len_app in Hmax. change (len crlf) with 2 in Hmax. pose proof (len_nonneg line).
  set (n := length (first ++ line ++ crlf ++ rest)).
  assert (2 < n)%nat as Hn by (unfold n; rewrite !length_app; cbn [crlf length]; lia).
  destruct n as [|[|n]]; [lia..|]. cbn [readHead_loop]. rewrite ReadSlice_line by done.
  rewrite Hnb, andb_false_r. cbn [app].
  destruct (Z.ltb_spec maxHeadBytes (len first)); [lia|]. rewrite bool_decide_eq_false_2 by (by intros [? ?]).
  cbn [readHead_loop]. rewrite ReadSlice_full by done.
  assert ((len first =? 0) = false) as -> by (apply Z.eqb_neq; unfold len; lia). cbn [andb].
  destruct (Z.ltb_spec maxHeadBytes (len (first ++ line))) as [Hb|_]; [rewrite len_app in Hb; lia|].
  rewrite bool_decide_eq_true_2 by done. cbn [readHead_loop].
  rewrite ReadSlice_line; [|by apply blank_line_is_line|cbn; lia].
  assert ((len (first ++ line) =? 0) = false) as -> by (apply Z.eqb_neq; rewrite len_app; unfold len; lia).
  cbn [andb]. rewrite <- app_assoc.
  destruct (Z.ltb_spec maxHeadBytes (len (first ++ line ++ crlf))) as [Hb|_];
    [rewrite !len_app in Hb; change (len crlf) with 2 in Hb; lia|].
  rewrite bool_decide_eq_false_2 by (by intros [? ?]). done.
Qed.

(** ** Serialise, then parse *)

(** [TrimRight] cuts exactly a suffix of cut bytes that follows another byte. *)
Lemma TrimLeft_cut a s set : all_in set a -> (forall c t, s = c :: t -> c ∉ set) -> TrimLeft (a ++ s) set = s.
Proof.
  intros Ha Hs. induction Ha as [|c a Hc Ha IH]; cbn.
  - destruct s as [|c t]; [done|]. unfold TrimLeft. cbn. rewrite bool_decide_eq_false_2; [done|]. by eapply Hs.
  - unfold TrimLeft in *. cbn. by rewrite bool_decide_eq_true_2.
Qed.

Lemma TrimRight_cut s b set : all_in set b -> (forall c t, s = t ++ [c] -> c ∉ set) -> TrimRight (s ++ b) set = s.
Proof.
  intros Hb Hs. unfold TrimRight. rewrite reverse_app, TrimLeft_cut.
  - apply reverse_involutive.
  - by apply Forall_reverse.
  - intros c t E. apply (f_equal reverse) in E. rewrite reverse_involutive, reverse_cons in E. by eapply Hs.
Qed.

Definition clean (s : bytes) : Prop := CR ∉ s /\ LF ∉ s.

Lemma clean_app s t : clean (s ++ t) <-> clean s /\ clean t.
Proof. unfold clean. rewrite !not_elem_of_app. tauto. Qed.

Lemma TrimRight_clean s b : clean s -> all_in crlf b -> TrimRight (s ++ b) crlf = s.
Proof.
  intros [H1 H2] Hb. apply TrimRight_cut; [done|]. intros c t -> Hc.
  rewrite not_elem_of_app in H1, H2. unfold crlf in Hc.
  apply elem_of_cons in Hc as [->|Hc%list_elem_of_singleton]; [|subst c].
  - apply H1, list_elem_of_singleton. done.
  - apply H2, list_elem_of_singleton. done.
Qed.

Lemma TrimRight_CR s b : clean s -> all_in [CR] b -> TrimRight (s ++ b) [CR] = s.
Proof.
  intros [H1 _] Hb. apply TrimRight_cut; [done|]. intros c t -> ->%list_elem_of_singleton.
  rewrite not_elem_of_app in H1. apply H1, list_elem_of_singleton. done.
Qed.

(** The lines of a serialised head as [splitHeadLines] sees them: every line but the
    last keeps its CR. *)
Fixpoint seen_lines (l : bytes) (ls : list bytes) : list bytes :=
  match ls with
  | [] => [l]
  | l' :: ls' => (l ++ [CR]) :: seen_lines l' ls'
  end.

Lemma split_joined l ls :
  clean l -> Forall (fun x => clean x /\ x <> []) ls ->
  Split (TrimRight (l ++ crlf ++ concat (map (fun x => x ++ crlf) ls) ++ crlf) crlf) LF = seen_lines l ls.
Proof.
  intros Hl Hls.
  assert (exists s z, l ++ crlf ++ concat (map (fun x => x ++ crlf) ls) ++ crlf = s ++ z /\ all_in crlf z /\
            (s = [] -> l = []) /\ (forall c t, s = t ++ [c] -> c ∉ crlf) /\ Split s LF = seen_lines l ls)
    as (s & z & -> & Hz & _ & Hs & <-).
  2: { by rewrite TrimRight_cut. }
  revert l Hl. induction Hls as [|l' ls [Hl' Hne'] Hls IH]; intros l Hl; cbn [map concat seen_lines].
  - exists l, (crlf ++ crlf). split_and!; [done| |done| |by apply Split_no_sep, Hl].
    + by apply (bool_decide_eq_true_1 (Forall (fun c => c ∈ crlf) (crlf ++ crlf))).
    + intros c t ->. apply clean_app in Hl as [_ [H1 H2]]. unfold crlf.
      rewrite list_elem_of_singleton in H1, H2. rewrite elem_of_cons, list_elem_of_singleton. naive_solver.
  - destruct (IH l' Hl') as (s & z & E & Hz & Hn & Hs & Hsp).
    exists (l ++ crlf ++ s), z. rewrite <- !app_assoc. rewrite E. split_and!; [done..| | |].
    + by intros [_ ?]%app_nil.
    + intros c t Hc. destruct s as [|x s _] using rev_ind; [by destruct Hne'; apply Hn|].
      apply (Hs c s). rewrite !app_assoc in Hc. apply app_inj_tail in Hc as [_ ->]. done.
    + change (l ++ crlf ++ s) with (l ++ [CR] ++ LF :: s). rewrite app_assoc, Split_app; [by rewrite Hsp|].
      apply not_elem_of_app. split; [apply Hl|]. by intros ?%list_elem_of_singleton.
Qed.

(** A field the serialiser writes and the parser reads back unchanged. *)
Definition wf_hdr (kv : hdr) : Prop :=
  hdr_name kv <> [] /\ clean (hdr_name kv) /\ 58 ∉ hdr_name kv /\
  head (hdr_name kv) <> Some 32 /\ head (hdr_name kv) <> Some 9 /\
  clean (hdr_value kv) /\ TrimSpace (hdr_value kv) = hdr_value kv.

Lemma TrimSpace_lead v : TrimSpace v = v -> TrimSpace (32 :: v) = v.
Proof.
  intros H. rewrite <- H at 2. unfold TrimSpace. by f_equal.
Qed.

Lemma clean_field kv : wf_hdr kv -> clean (field_line kv) /\ field_line kv <> [].
Proof.
  intros (Hn & Hc & _ & _ & _ & Hv & _). unfold field_line. split.
  - apply clean_app. split; [done|]. apply clean_app. split; [|done].
    split; by apply (bool_decide_eq_true_1 (_ ∉ lit ": ")).
  - by intros [? _]%app_nil.
Qed.

Lemma head_line_field hs kv b :
  wf_hdr kv -> all_in [CR] b -> head_line hs (field_line kv ++ b) = Ok (hs ++ [kv]).
Proof.
  intros Hw Hb. destruct (clean_field kv Hw) as [Hcl Hne]. destruct Hw as (Hn & _ & Hcol & H32 & H9 & _ & Htrim).
  unfold head_line. rewrite TrimRight_CR by done.
  assert (head_field hs (field_line kv) = Ok (hs ++ [kv])) as Hf.
  { unfold head_field, field_line. change (lit ": " ++ hdr_value kv) with (58 :: 32 :: hdr_value kv).
    rewrite IndexByte_app by done. destruct (length (hdr_name kv)) as [|i] eqn:El.
    { by apply nil_length_inv in El. }
    rewrite <- El, take_app_length, drop_through, TrimSpace_lead by done. by destruct kv. }
  destruct (field_line kv) as [|c l] eqn:El; [done|].
  assert (head (hdr_name kv) = Some c) as Hc.
  { unfold field_line in El. destruct (hdr_name kv); [done|]. by injection El as ->. }
  destruct (last hs); [|done].
  destruct (Z.eqb_spec c 32); [congruence|]. destruct (Z.eqb_spec c 9); [congruence|]. done.
Qed.

Lemma head_lines_fields hs : forall kv acc,
  wf_hdr kv -> Forall wf_hdr hs ->
  head_lines (seen_lines (field_line kv) (map field_line hs)) acc = Ok (acc ++ kv :: hs).
Proof.
  induction hs as [|kv' hs IH]; intros kv acc Hkv Hhs; cbn [map seen_lines head_lines].
  - rewrite <- (app_nil_r (field_line kv)), head_line_field by (done || constructor). done.
  - apply Forall_cons in Hhs as [Hkv' Hhs].
    rewrite head_line_field; [|done|by apply (bool_decide_eq_true_1 (Forall (fun c => c ∈ [CR]) [CR]))].
    cbn [rbind]. rewrite IH by done. by rewrite <- app_assoc.
Qed.

Lemma splitHeadLines_serialize first hs :
  clean first -> Forall wf_hdr hs -> splitHeadLines (serializeHead first hs) = Ok (first, hs).
Proof.
  intros Hf Hhs. unfold splitHeadLines, serializeHead.
  replace (map (fun kv => field_line kv ++ crlf) hs) with (map (fun x => x ++ crlf) (map field_line hs))
    by (by rewrite map_map).
  rewrite split_joined; [|done|].
  2: { apply Forall_map. eapply Forall_impl; [exact Hhs|]. cbn. intros kv. apply clean_field. }
  destruct hs as [|kv hs]; cbn [map seen_lines].
  - cbn. rewrite <- (app_nil_r first) at 1. rewrite TrimRight_CR by (done || constructor). done.
  - apply Forall_cons in Hhs as [Hkv Hhs]. rewrite head_lines_fields by done. cbn.
    rewrite TrimRight_CR; [done..|]. by apply (bool_decide_eq_true_1 (Forall (fun c => c ∈ [CR]) [CR])).
Qed.

(** Heads without line breaks or blanks inside their parts. *)
Definition wf_req (r : reqHead) : Prop :=
  clean (rq_method r) /\ clean (rq_target r) /\ clean (rq_proto r) /\
  32 ∉ rq_method r /\ 32 ∉ rq_target r /\ HasPrefix (rq_proto r) (lit "HTTP/") = true /\
  Forall wf_hdr (rq_headers r).
Definition wf_res (r : resHead) : Prop :=
  clean (rs_proto r) /\ 32 ∉ rs_proto r /\ HasPrefix (rs_proto r) (lit "HTTP/") = true /\
  100 <= rs_status r <= 999 /\ clean (rs_reason r) /\ Forall wf_hdr (rs_headers r).

Lemma clean_space : clean (lit " ").
Proof. split; by apply (bool_decide_eq_true_1 (_ ∉ lit " ")). Qed.

Lemma status_digits n : 100 <= n <= 999 -> Atoi (Itoa n) = Ok n /\ clean (Itoa n) /\ 32 ∉ Itoa n.
Proof.
  intros Hn.
  assert (forallb (fun n => match Atoi (Itoa n) with Ok m => m =? n | Err _ => false end &&
    bool_decide (CR ∉ Itoa n) && bool_decide (LF ∉ Itoa n) && bool_decide (32 ∉ Itoa n)) (seqZ 100 900) = true)
    as H by (vm_compute; reflexivity).
  rewrite forallb_True, Forall_forall in H. specialize (H n). rewrite elem_of_seqZ in H.
  specialize (H ltac:(lia)). cbn in H. to_prop. destruct (Atoi (Itoa n)); [|done]. to_prop. by subst.
Qed.

(** Heads survive a serialise/parse cycle: every request or response head whose
    parts hold no line breaks parses back from its serialisation to itself, header
    order, case and duplicates included. *)
Theorem head_roundtrip req res :
  (wf_req req -> parseRequestHead (req_serialize req) = Ok req) /\
  (wf_res res -> parseResponseHead (res_serialize res) = Ok res).
Proof.
  pose proof clean_space as Hsp. split.
  - intros (H1 & H2 & H3 & H4 & H5 & H6 & H7). unfold parseRequestHead, req_serialize.
    rewrite splitHeadLines_serialize; [|by rewrite !clean_app|done]. cbn [rbind].
    change (lit " ") with [32]. cbn [app]. rewrite !SplitN_app by done. cbn [SplitN]. rewrite H6. by destruct req.
  - intros (H1 & H2 & H3 & H4 & H5 & H6). destruct (status_digits _ H4) as (A1 & A2 & A3).
    unfold parseResponseHead, res_serialize.
    assert ((rs_status res <? 100) || (999 <? rs_status res) = false) as Hr.
    { apply orb_false_iff. split; apply Z.ltb_ge; lia. }
    destruct (bool_decide (rs_reason res = [])) eqn:Er;
      (rewrite splitHeadLines_serialize; [|by rewrite !clean_app|done]); cbn [rbind];
      change (lit " ") with [32]; cbn [app]; rewrite <- ?app_assoc; cbn [app]; rewrite SplitN_app by done.
    + rewrite SplitN_none by done. rewrite H3, A1, Hr. apply bool_decide_eq_true in Er.
      destruct res; cbn in *. by rewrite Er.
    + rewrite SplitN_app by done. cbn [SplitN]. rewrite H3, A1, Hr. by destruct res.
Qed.

(** ** Header edits *)
Section HeaderProofs.
Context `{U : UnicodeTables}.

Abbreviation others n h := (filter (fun kv => named n kv = false) h).
Abbreviation those n h := (filter (fun kv => named n kv = true) h).

Lemma fold_eq_refl s : fold_eq s s = true.
Proof. induction s as [|a s IH]; [done|]. cbn. unfold rune_fold_eq. by rewrite Z.eqb_refl, IH. Qed.

Lemma EqualFold_refl s : EqualFold s s = true.
Proof. apply fold_eq_refl. Qed.

Lemma others_cons n kv (h : hdrList) : others n (kv :: h) = if named n kv then others n h else kv :: others n h.
Proof. rewrite filter_cons. destruct (named n kv); [by rewrite decide_False|by rewrite decide_True]. Qed.

Lemma those_cons n kv (h : hdrList) : those n (kv :: h) = if named n kv then kv :: those n h else those n h.
Proof. rewrite filter_cons. destruct (named n kv); [by rewrite decide_True|by rewrite decide_False]. Qed.

Lemma those_others n (h : hdrList) : those n (others n h) = [].
Proof.
  induction h as [|x h IH]; [done|]. rewrite others_cons. destruct (named n x) eqn:E; [done|].
  by rewrite those_cons, E.
Qed.

Lemma others_others n (h : hdrList) : others n (others n h) = others n h.
Proof.
  induction h as [|x h IH]; [done|]. rewrite others_cons. destruct (named n x) eqn:E; [done|].
  by rewrite others_cons, E, IH.
Qed.

Lemma those_single n (h : hdrList) x : those n h = [x] -> find (named n) h = Some x.
Proof.
  induction h as [|y h IH]; [done|]. rewrite those_cons. cbn [find].
  destruct (named n y); [by intros [= ->]|done].
Qed.

Lemma set_loop_found h n v : hdr_set_loop h n v true = (others n h, true).
Proof.
  induction h as [|kv h IH]; [done|]. cbn [hdr_set_loop]. rewrite others_cons.
  by destruct (named n kv); rewrite IH.
Qed.

Lemma set_loop_spec h n v :
  let '(out, found) := hdr_set_loop h n v false in
  others n out = others n h /\ if found then exists n', those n out = [mkHdr n' v] else those n out = [].
Proof.
  induction h as [|kv h IH]; [done|]. cbn [hdr_set_loop]. rewrite others_cons.
  destruct (named n kv) eqn:E.
  - rewrite set_loop_found. assert (named n (mkHdr (hdr_name kv) v) = true) as E' by exact E.
    rewrite others_cons, those_cons, E', others_others, those_others. split; [done|by eexists].
  - destruct (hdr_set_loop h n v false) as [out f]. rewrite others_cons, those_cons, E.
    destruct IH as [-> IH]. done.
Qed.

(** Header edits act on one name only: after [set] exactly one field of that name
    is left and it has the new value, after [del] none, after [add] one more; the
    fields of other names keep their order, spelling and values. *)
Theorem header_edits h n v :
  others n (hdr_set h n v) = others n h /\
  (exists n', those n (hdr_set h n v) = [mkHdr n' v]) /\ hdr_get (hdr_set h n v) n = v /\
  others n (hdr_del h n) = others n h /\ those n (hdr_del h n) = [] /\
  others n (hdr_add h n v) = others n h /\ those n (hdr_add h n v) = those n h ++ [mkHdr n v].
Proof.
  assert (named n (mkHdr n v) = true) as Hn by apply EqualFold_refl.
  assert (forall g, others n (hdr_add g n v) = others n g /\ those n (hdr_add g n v) = those n g ++ [mkHdr n v])
    as Hadd.
  { intros g. unfold hdr_add. rewrite !filter_app. rewrite others_cons, those_cons, Hn. by rewrite app_nil_r. }
  assert (others n (hdr_set h n v) = others n h /\ exists n', those n (hdr_set h n v) = [mkHdr n' v]) as [G1 [n' G2]].
  { unfold hdr_set. pose proof (set_loop_spec h n v) as Hs.
    destruct (hdr_set_loop h n v false) as [out [|]]; destruct Hs as [Ho Ht]; [done|].
    destruct (Hadd out) as [-> ->]. rewrite Ht. split; [done|by eexists]. }
  split_and!; [done|by eexists| |apply others_others|apply those_others|apply Hadd..].
  unfold hdr_get. by rewrite (those_single _ _ _ G2).
Qed.

(** ** Framing *)

Lemma length_values_agree hs : forall v w,
  length_values hs v = Some w ->
  (v <> [] -> w = v) /\
  forall kv, kv ∈ hs -> named (lit "Content-Length") kv = true ->
    TrimSpace (hdr_value kv) = [] \/ TrimSpace (hdr_value kv) = w.
Proof.
  induction hs as [|kv hs IH]; intros v w; cbn [length_values].
  { intros [= <-]. split; [done|]. by intros ? ?%elem_of_nil. }
  destruct (named (lit "Content-Length") kv) eqn:E.
  - set (val := TrimSpace (hdr_value kv)).
    destruct (negb (bool_decide (v = [])) && negb (bool_decide (v = val))) eqn:Ec; [done|].
    intros H. destruct (IH val w H) as [H1 H2]. split.
    + intros Hv. apply andb_false_iff in Ec as [Ec|Ec]; to_prop; [done|]. subst v. by apply H1.
    + intros x [->|Hx]%elem_of_cons Hn; [|by apply H2].
      destruct (decide (val = [])) as [|Hne]; [by left|]. right. symmetry. by apply H1.
  - intros H. destruct (IH v w H) as [H1 H2]. split; [done|].
    intros x [->|Hx]%elem_of_cons Hn; [congruence|by apply H2].
Qed.

Lemma contentLength_sound hs n :
  contentLength hs = Ok (Some n) ->
  0 <= n /\ forall kv, kv ∈ hs -> named (lit "Content-Length") kv = true ->
    TrimSpace (hdr_value kv) = [] \/ ParseInt (TrimSpace (hdr_value kv)) 10 64 = Ok n.
Proof.
  unfold contentLength. destruct (length_values hs []) as [[|c v]|] eqn:E; try done.
  apply length_values_agree in E as [_ E]. destruct (ParseInt (c :: v) 10 64) as [m|] eqn:Ep; [|done].
  destruct (Z.ltb_spec m 0); [done|]. intros [= ->]. split; [lia|].
  intros kv Hkv Hn. destruct (E kv Hkv Hn) as [-> | ->]; auto.
Qed.

(** The length fields of a head all say [n]; empty ones say nothing. *)
Definition lengths_agree (hs : hdrList) (n : Z) : Prop :=
  forall kv, kv ∈ hs -> named (lit "Content-Length") kv = true ->
    TrimSpace (hdr_value kv) = [] \/ ParseInt (TrimSpace (hdr_value kv)) 10 64 = Ok n.

Lemma contentLength_none hs n : contentLength hs = Ok None -> lengths_agree hs n.
Proof.
  unfold contentLength. destruct (length_values hs []) as [[|c v]|] eqn:E; try done.
  - intros _ kv Hkv Hn. apply length_values_agree in E as [_ E]. left. by destruct (E kv Hkv Hn).
  - destruct (ParseInt (c :: v) 10 64); [by case_match|done].
Qed.

(** Request framing is unambiguous: chunked framing is chosen exactly when
    there are transfer codings and the last is chunked; otherwise there is no
    transfer coding, every length field present agrees on the length used, and the
    body is never delimited by the end of the connection. *)
Theorem request_framing_unambiguous r k n :
  requestFraming r = Ok (k, n) ->
  let te := hdr_tokens (rq_headers r) (lit "Transfer-Encoding") in
  match k with
  | framingChunked => last te = Some (lit "chunked")
  | framingLength => te = [] /\ 0 < n /\ lengths_agree (rq_headers r) n
  | framingNone => te = [] /\ lengths_agree (rq_headers r) 0
  | framingUntilClose => False
  end.
Proof.
  unfold requestFraming. set (te := hdr_tokens _ _). destruct (last te) as [t|] eqn:El.
  - case_bool_decide as E; [|done]. intros [= <- <-]. cbn. by subst t.
  - assert (te = []) as Hte by (by apply last_None in El).
    destruct (contentLength (rq_headers r)) as [[m|]|] eqn:Ec; cbn [rbind]; [..|done].
    + apply contentLength_sound in Ec as [Hm Ha].
      destruct (Z.ltb_spec 0 m); intros [= <- <-]; cbn; [done|]. split; [done|].
      assert (m = 0) as -> by lia. done.
    + intros [= <- <-]. cbn. split; [done|]. by apply contentLength_none.
Qed.
End HeaderProofs.

(** ** Witnesses *)
#[local] Existing Instance caseless_tables.

Definition sample_req : reqHead := {|
  rq_method := lit "POST"; rq_target := lit "/v1?q=a"; rq_proto := lit "HTTP/1.1";
  rq_headers := [mkHdr (lit "Host") (lit "api.example.com"); mkHdr (lit "content-length") (lit "12");
                 mkHdr (lit "X-Empty") []] |}.
Definition sample_res : resHead := {|
  rs_proto := lit "HTTP/1.1"; rs_status := 404; rs_reason := lit "Not Found";
  rs_headers := [mkHdr (lit "Server") (lit "x y")] |}.

#[export] Instance clean_dec s : Decision (clean s).
Proof. unfold clean. apply _. Defined.
#[export] Instance wf_hdr_dec kv : Decision (wf_hdr kv).
Proof. unfold wf_hdr. apply _. Defined.
#[export] Instance wf_req_dec r : Decision (wf_req r).
Proof. unfold wf_req. apply _. Defined.
#[export] Instance wf_res_dec r : Decision (wf_res r).
Proof. unfold wf_res. apply _. Defined.

Lemma head_roundtrip_witness :
  parseRequestHead (req_serialize sample_req) = Ok sample_req /\
  parseResponseHead (res_serialize sample_res) = Ok sample_res.
Proof.
  destruct (head_roundtrip sample_req sample_res) as [H1 H2]. split; [apply H1|apply H2].
  - apply (bool_decide_eq_true_1 (wf_req sample_req)). vm_compute. reflexivity.
  - apply (bool_decide_eq_true_1 (wf_res sample_res)). vm_compute. reflexivity.
Defined.

Lemma request_framing_unambiguous_witness :
  requestFraming sample_req = Ok (framingLength, 12) /\
  hdr_tokens (rq_headers sample_req) (lit "Transfer-Encoding") = [] /\ 0 < 12 /\
  lengths_agree (rq_headers sample_req) 12.
Proof.
  assert (requestFraming sample_req = Ok (framingLength, 12)) as H by (vm_compute; reflexivity).
  split; [exact H|]. exact (request_framing_unambiguous sample_req framingLength 12 H).
Defined.

Lemma is_line_intro s : bool_decide (LF ∉ s) = true -> is_line (s ++ [LF]).
Proof. intros H%bool_decide_eq_true. by exists s. Qed.

Lemma readHead_exact_witness :
  readHead (mkReader (crlf ++ lit "GET / HTTP/1.1" ++ crlf ++ crlf ++ lit "rest") 16 ErrEOF) =
    Some (Ok (lit "GET / HTTP/1.1" ++ crlf ++ crlf), mkReader (lit "rest") 16 ErrEOF) /\
  forall br, br_size br = 16%nat -> is_Some (readHead br).
Proof.
  apply (readHead_exact [crlf] [lit "GET / HTTP/1.1" ++ crlf] crlf (lit "rest") 16 ErrEOF).
  - repeat constructor.
  - repeat constructor. apply (is_line_intro (lit "GET / HTTP/1.1" ++ [CR])). vm_compute. reflexivity.
  - discriminate.
  - reflexivity.
  - lia.
  - vm_compute. discriminate.
Defined.

Definition long_line : bytes := lit "Cookie: " ++ replicate 4088 97.

Lemma readHead_cuts_long_line_witness :
  readHead (mkReader ((lit "GET / HTTP/1.1" ++ crlf) ++ long_line ++ crlf ++ lit "Host: a" ++ crlf ++ crlf)
              4096 ErrEOF) =
    Some (Ok ((lit "GET / HTTP/1.1" ++ crlf) ++ long_line ++ crlf),
          mkReader (lit "Host: a" ++ crlf ++ crlf) 4096 ErrEOF).
Proof.
  apply (readHead_cuts_long_line (lit "GET / HTTP/1.1" ++ crlf) long_line (lit "Host: a" ++ crlf ++ crlf) 4096 ErrEOF).
  - apply (is_line_intro (lit "GET / HTTP/1.1" ++ [CR])). vm_compute. reflexivity.
  - reflexivity.
  - vm_compute. lia.
  - apply (bool_decide_eq_true_1 (LF ∉ long_line)). vm_compute. reflexivity.
  - reflexivity.
  - lia.
  - vm_compute. discriminate.
Defined.
