(* ===== verification/Http1Body.v ===== *)
(** * HTTP/1.x bodies (src/vpntunnel/http1.go, proxy_h1.go, rewrite.go)

    Forwarding a body with its framing while handing the payload to a recorder, and
    the spill buffer that holds a body back for a rewrite.  The copy loops are
    verified against the interface [TeeWriter]; a plain connection with a recorder
    and the spill buffer both implement it. *)

From S2P Require Import Prelude GoStrings Http1.

(** The connection written to: what it has accepted so far grows by exactly the
    bytes of every successful write. *)
Class Conn (D : Type) := {
  d_write : D -> bytes -> D * bool;
  d_out : D -> bytes;
  d_write_ok d p d' : d_write d p = (d', true) -> d_out d' = d_out d ++ p
}.

(** A pair of writers over one state: the forwarding side [tw_dst] and the payload
    side [tw_sink]. *)
Class TeeWriter (W : Type) := {
  tw_dst : W -> bytes -> W * bool;
  tw_sink : W -> bytes -> W * bool;
  tw_out : W -> bytes;
  tw_pay : W -> bytes;
  tw_inv : W -> Prop;
  tw_dst_ok w p w' : tw_inv w -> tw_dst w p = (w', true) ->
    tw_inv w' /\ tw_out w' = tw_out w ++ p /\ tw_pay w' = tw_pay w;
  tw_sink_ok w p w' : tw_inv w -> tw_sink w p = (w', true) ->
    tw_inv w' /\ tw_out w' = tw_out w /\ tw_pay w' = tw_pay w ++ p
}.

Definition advance (br : breader) (k : nat) : breader :=
  mkReader (drop k (br_rest br)) (br_size br) (br_end br).

Section Copy.
Context {W : Type} {T : TeeWriter W}.
(** How many bytes the next read yields; clipped to what is wanted and available. *)
Context (read_size : bytes -> Z).

Definition piece (rest : bytes) (limit : Z) : Z :=
  Z.max 1 (Z.min (read_size rest) (Z.min limit (len rest))).

(** The result of a copy: the writers, the reader, and the error if any; [None] only
    when the fuel runs out. *)
Abbreviation copied := (option (W * breader * option h1_error)).

(** One piece through [io.TeeReader]: sink first, then destination. *)
Definition forward (w : W) (p : bytes) : W * bool :=
  let '(w1, ok1) := tw_sink w p in
  if ok1 then tw_dst w1 p else (w1, false).

(** [io.CopyN(dst, io.TeeReader(src, sink), n)] *)
Fixpoint copyN_loop (fuel : nat) (w : W) (br : breader) (n : Z) : copied :=
  match fuel with
  | O => None
  | S fuel' =>
      if n <=? 0 then Some (w, br, None)
      else if bool_decide (br_rest br = []) then Some (w, br, Some (br_end br))
      else
        let k := piece (br_rest br) n in
        let '(w1, ok) := forward w (take (Z.to_nat k) (br_rest br)) in
        let br1 := advance br (Z.to_nat k) in
        if ok then copyN_loop fuel' w1 br1 (n - k) else Some (w1, br1, Some ErrWrite)
  end.
Definition copyN (w : W) (br : breader) (n : Z) : copied :=
  copyN_loop (S (length (br_rest br))) w br n.

(** [io.Copy(dst, io.TeeReader(src, sink))] *)
Fixpoint copyAll_loop (fuel : nat) (w : W) (br : breader) : copied :=
  match fuel with
  | O => None
  | S fuel' =>
      if bool_decide (br_rest br = [])
      then Some (w, br, if bool_decide (br_end br = ErrEOF) then None else Some (br_end br))
      else
        let k := piece (br_rest br) (len (br_rest br)) in
        let '(w1, ok) := forward w (take (Z.to_nat k) (br_rest br)) in
        let br1 := advance br (Z.to_nat k) in
        if ok then copyAll_loop fuel' w1 br1 else Some (w1, br1, Some ErrWrite)
  end.
Definition copyAll (w : W) (br : breader) : copied := copyAll_loop (S (length (br_rest br))) w br.

(** [readLine] *)
Definition readLine (br : breader) : result h1_error bytes * breader :=
  match ReadSlice br with
  | (line, None, br1) => (Ok line, br1)
  | (_, Some SliceFull, br1) => (Err ErrLineTooLong, br1)
  | (_, Some (SliceErr e), br1) => (Err e, br1)
  end.

(** The size a chunk line announces. *)
Definition chunk_size (line : bytes) : result h1_error Z :=
  let s := TrimSpace line in
  let s := match IndexByte s 59 with Some i => TrimSpace (take i s) | None => s end in
  match ParseInt s 16 64 with
  | Ok n => if n <? 0 then Err (ErrBadChunkSize s) else Ok n
  | Err _ => Err (ErrBadChunkSize s)
  end.

(** The trailer loop of [copyChunked]. *)
Fixpoint trailers (fuel : nat) (w : W) (br : breader) : copied :=
  match fuel with
  | O => None
  | S fuel' =>
      match readLine br with
      | (Err e, br1) => Some (w, br1, Some e)
      | (Ok tl, br1) =>
          let '(w1, ok) := tw_dst w tl in
          if negb ok then Some (w1, br1, Some ErrWrite)
          else if blank_line tl then Some (w1, br1, None)
          else trailers fuel' w1 br1
      end
  end.

Fixpoint chunked_loop (fuel : nat) (w : W) (br : breader) : copied :=
  match fuel with
  | O => None
  | S fuel' =>
      match readLine br with
      | (Err e, br1) => Some (w, br1, Some e)
      | (Ok line, br1) =>
          match chunk_size line with
          | Err e => Some (w, br1, Some e)
          | Ok size =>
              let '(w1, ok) := tw_dst w line in
              if negb ok then Some (w1, br1, Some ErrWrite)
              else if size =? 0 then trailers (S (length (br_rest br1))) w1 br1
              else
                match copyN w1 br1 size with
                | Some (w2, br2, None) =>
                    match readLine br2 with
                    | (Err e, br3) => Some (w2, br3, Some e)
                    | (Ok crlf', br3) =>
                        let '(w3, ok3) := tw_dst w2 crlf' in
                        if ok3 then chunked_loop fuel' w3 br3 else Some (w3, br3, Some ErrWrite)
                    end
                | r => r
                end
          end
      end
  end.
Definition copyChunked (w : W) (br : breader) : copied := chunked_loop (S (length (br_rest br))) w br.

(** [copyBody]; a [nil] sink is a writer that discards. *)
Definition copyBody (w : W) (br : breader) (kind : framingKind) (n : Z) : copied :=
  match kind with
  | framingNone => Some (w, br, None)
  | framingLength => copyN w br n
  | framingUntilClose => copyAll w br
  | framingChunked => copyChunked w br
  end.

(** ** What a framed body carries *)

(** [chunked_body c p]: the bytes [c] are chunks with payload [p], then trailers. *)
Inductive chunked_body : bytes -> bytes -> Prop :=
| chunk_last line ts term :
    is_line line -> chunk_size line = Ok 0 ->
    Forall (fun l => is_line l /\ blank_line l = false) ts -> is_line term -> blank_line term = true ->
    chunked_body (line ++ concat ts ++ term) []
| chunk_more line n data line2 c p :
    is_line line -> chunk_size line = Ok n -> 0 < n -> len data = n -> is_line line2 ->
    chunked_body c p -> chunked_body (line ++ data ++ line2 ++ c) (data ++ p).

Definition framed (kind : framingKind) (n : Z) (c p rest : bytes) : Prop :=
  match kind with
  | framingNone => c = [] /\ p = []
  | framingLength => p = c /\ len c = Z.max 0 n
  | framingUntilClose => p = c /\ rest = []
  | framingChunked => chunked_body c p
  end.

(** A finished copy: [c] left the reader and reached the destination, [p] the sink. *)
Definition moved (w : W) (br : breader) (w' : W) (br' : breader) (c p : bytes) : Prop :=
  br_rest br = c ++ br_rest br' /\ br_size br' = br_size br /\ tw_inv w' /\
  tw_out w' = tw_out w ++ c /\ tw_pay w' = tw_pay w ++ p.

Lemma moved_refl w br : tw_inv w -> moved w br w br [] [].
Proof. intros H. split_and!; by rewrite ?app_nil_r. Qed.

Lemma moved_trans w1 b1 w2 b2 w3 b3 c p c' p' :
  moved w1 b1 w2 b2 c p -> moved w2 b2 w3 b3 c' p' -> moved w1 b1 w3 b3 (c ++ c') (p ++ p').
Proof.
  intros (A1 & A2 & A3 & A4 & A5) (B1 & B2 & B3 & B4 & B5).
  split_and!; [by rewrite A1, B1, <- app_assoc|congruence|done|..].
  - by rewrite B4, A4, <- app_assoc.
  - by rewrite B5, A5, <- app_assoc.
Qed.

Lemma piece_bounds rest limit : rest <> [] -> 0 < limit -> 0 < piece rest limit <= len rest /\ piece rest limit <= limit.
Proof.
  intros H1 H2. unfold piece. assert (0 < len rest) by (destruct rest; [done|len_lia]). lia.
Qed.

Lemma forward_moved w br (k : nat) w1 :
  tw_inv w -> forward w (take k (br_rest br)) = (w1, true) ->
  moved w br w1 (advance br k) (take k (br_rest br)) (take k (br_rest br)).
Proof.
  intros Hw. unfold forward. destruct (tw_sink w _) as [wa [|]] eqn:E1; [|done]. intros E2.
  apply tw_sink_ok in E1 as (I1 & O1 & P1); [|done]. apply tw_dst_ok in E2 as (I2 & O2 & P2); [|done].
  unfold moved, advance. cbn. rewrite take_drop. split_and!; [done..|congruence|congruence].
Qed.

Lemma copyN_loop_spec fuel : forall w br n,
  tw_inv w -> (length (br_rest br) < fuel)%nat ->
  exists w' br' e, copyN_loop fuel w br n = Some (w', br', e) /\
    (e = None -> exists c, moved w br w' br' c c /\ len c = Z.max 0 n).
Proof.
  induction fuel as [|fuel IH]; intros w br n Hw Hf; [lia|]. cbn [copyN_loop].
  destruct (Z.leb_spec n 0).
  { eexists _, _, _. split; [done|]. intros _. exists []. split; [by apply moved_refl|]. unfold len. cbn. lia. }
  case_bool_decide as Er; [by eexists _, _, _|].
  destruct (piece_bounds (br_rest br) n Er ltac:(lia)) as [Hk1 Hk2]. set (k := piece _ _) in *.
  destruct (forward w _) as [w1 [|]] eqn:E; [|by eexists _, _, _].
  apply forward_moved in E; [|done].
  destruct (IH w1 (advance br (Z.to_nat k)) (n - k)) as (w' & br' & e & -> & He).
  { apply E. } { cbn. rewrite length_drop. unfold len in *. lia. }
  eexists _, _, _. split; [done|]. intros Ee. destruct (He Ee) as (c & Hc & Hl).
  exists (take (Z.to_nat k) (br_rest br) ++ c). split; [by eapply moved_trans|].
  rewrite len_app, Hl. unfold len in *. rewrite length_take. lia.
Qed.

Lemma copyAll_loop_spec fuel : forall w br,
  tw_inv w -> (length (br_rest br) < fuel)%nat ->
  exists w' br' e, copyAll_loop fuel w br = Some (w', br', e) /\
    (e = None -> exists c, moved w br w' br' c c /\ br_rest br' = []).
Proof.
  induction fuel as [|fuel IH]; intros w br Hw Hf; [lia|]. cbn [copyAll_loop].
  case_bool_decide as Er.
  { eexists _, _, _. split; [done|]. intros _. exists []. split; [by apply moved_refl|done]. }
  assert (0 < len (br_rest br)) by (destruct (br_rest br); [done|len_lia]).
  destruct (piece_bounds (br_rest br) (len (br_rest br)) Er ltac:(lia)) as [Hk1 Hk2]. set (k := piece _ _) in *.
  destruct (forward w _) as [w1 [|]] eqn:E; [|by eexists _, _, _].
  apply forward_moved in E; [|done].
  destruct (IH w1 (advance br (Z.to_nat k))) as (w' & br' & e & -> & He).
  { apply E. } { cbn. rewrite length_drop. unfold len in *. lia. }
  eexists _, _, _. split; [done|]. intros Ee. destruct (He Ee) as (c & Hc & Hl).
  exists (take (Z.to_nat k) (br_rest br) ++ c). split; [by eapply moved_trans|done].
Qed.

Lemma readLine_ok br line br1 :
  readLine br = (Ok line, br1) ->
  is_line line /\ br_rest br = line ++ br_rest br1 /\ br_size br1 = br_size br.
Proof.
  unfold readLine, ReadSlice. destruct (IndexByte _ LF) as [i|] eqn:E.
  - intros [= <- <-]. cbn. set (win := take (br_size br) (br_rest br)) in *.
    assert (i < length win)%nat as Hi.
    { unfold IndexByte in E. apply index_from_Some in E as (x & Hl & _). by eapply lookup_lt_Some. }
    apply IndexByte_split in E as [E Hn].
    assert (take (S i) win = take i win ++ [LF]) as Et.
    { rewrite E at 1. assert (length (take i win) = i) as Hl by (rewrite length_take; lia).
      rewrite <- Hl at 1. apply take_through. }
    split_and!; [|..|done].
    + exists (take i win). by rewrite Et.
    + unfold win in *. rewrite length_take in Hi. rewrite take_take.
      replace (S i `min` br_size br)%nat with (S i) by lia. by rewrite take_drop.
  - destruct (_ <=? _)%nat; intros [=].
Qed.

Lemma line_moved w br line br1 w1 :
  tw_inv w -> readLine br = (Ok line, br1) -> tw_dst w line = (w1, true) ->
  is_line line /\ moved w br w1 br1 line [] /\ (length (br_rest br1) < length (br_rest br))%nat.
Proof.
  intros Hw H1 H2. apply readLine_ok in H1 as (L & R & S'). apply tw_dst_ok in H2 as (I & O & P); [|done].
  split; [done|]. split; [unfold moved; by rewrite app_nil_r|]. rewrite R, length_app.
  destruct L as (s & -> & _). rewrite length_app. cbn. lia.
Qed.

Lemma trailers_spec fuel : forall w br,
  tw_inv w -> (length (br_rest br) < fuel)%nat ->
  exists w' br' e, trailers fuel w br = Some (w', br', e) /\
    (e = None -> exists ts term, moved w br w' br' (concat ts ++ term) [] /\
       Forall (fun l => is_line l /\ blank_line l = false) ts /\ is_line term /\ blank_line term = true).
Proof.
  induction fuel as [|fuel IH]; intros w br Hw Hf; [lia|]. cbn [trailers].
  destruct (readLine br) as [[tl|e] br1] eqn:Er; [|by eexists _, _, _].
  destruct (tw_dst w tl) as [w1 [|]] eqn:Ew; cbn [negb]; [|by eexists _, _, _].
  destruct (line_moved _ _ _ _ _ Hw Er Ew) as (L & M & Hlt).
  destruct (blank_line tl) eqn:Eb.
  - eexists _, _, _. split; [done|]. intros _. by exists [], tl.
  - destruct (IH w1 br1) as (w' & br' & e & -> & He); [apply M|lia|].
    eexists _, _, _. split; [done|]. intros Ee. destruct (He Ee) as (ts & term & M2 & Hts & Ht).
    exists (tl :: ts), term. split; [|split; [by constructor|done]].
    pose proof (moved_trans _ _ _ _ _ _ _ _ _ _ M M2) as M3. cbn [concat]. by rewrite <- app_assoc.
Qed.

Lemma chunked_loop_spec fuel : forall w br,
  tw_inv w -> (length (br_rest br) < fuel)%nat ->
  exists w' br' e, chunked_loop fuel w br = Some (w', br', e) /\
    (e = None -> exists c p, moved w br w' br' c p /\ chunked_body c p).
Proof.
  induction fuel as [|fuel IH]; intros w br Hw Hf; [lia|]. cbn [chunked_loop].
  destruct (readLine br) as [[line|e] br1] eqn:Er; [|by eexists _, _, _].
  destruct (chunk_size line) as [n|e] eqn:En; [|by eexists _, _, _].
  destruct (tw_dst w line) as [w1 [|]] eqn:Ew; cbn [negb]; [|by eexists _, _, _].
  destruct (line_moved _ _ _ _ _ Hw Er Ew) as (L & M & Hlt).
  assert (tw_inv w1) as Hw1 by apply M.
  destruct (Z.eqb_spec n 0) as [->|Hn0].
  { destruct (trailers_spec (S (length (br_rest br1))) w1 br1 Hw1 ltac:(lia)) as (w' & br' & e & -> & He).
    eexists _, _, _. split; [done|]. intros Ee. destruct (He Ee) as (ts & term & M2 & Hts & Ht1 & Ht2).
    eexists _, _. split; [exact (moved_trans _ _ _ _ _ _ _ _ _ _ M M2)|]. by apply chunk_last. }
  assert (0 < n) as Hn.
  { unfold chunk_size in En. destruct (ParseInt _ 16 64) as [m|]; [|done].
    destruct (Z.ltb_spec m 0); [done|]. injection En as ->. lia. }
  destruct (copyN_loop_spec (S (length (br_rest br1))) w1 br1 n Hw1 ltac:(lia)) as (w2 & br2 & e2 & Ec & He2).
  unfold copyN. rewrite Ec. destruct e2 as [e2|]; [by eexists _, _, _|].
  destruct (He2 eq_refl) as (data & M2 & Hdata).
  destruct (readLine br2) as [[line2|e] br3] eqn:Er2; [|by eexists _, _, _].
  destruct (tw_dst w2 line2) as [w3 [|]] eqn:Ew2; [|by eexists _, _, _].
  assert (tw_inv w2) as Hw2 by apply M2. destruct (line_moved _ _ _ _ _ Hw2 Er2 Ew2) as (L2 & M3 & Hlt2).
  destruct (IH w3 br3) as (w' & br' & e & -> & He).
  { apply M3. }
  { destruct M2 as (R2 & _). rewrite R2, length_app in Hlt. lia. }
  eexists _, _, _. split; [done|]. intros Ee. destruct (He Ee) as (c & p & M4 & Hc).
  exists (line ++ data ++ line2 ++ c), (data ++ p). split.
  - exact (moved_trans _ _ _ _ _ _ _ _ _ _ M
             (moved_trans _ _ _ _ _ _ _ _ _ _ M2 (moved_trans _ _ _ _ _ _ _ _ _ _ M3 M4))).
  - apply (chunk_more line n); try done. lia.
Qed.

Lemma copyBody_spec w br kind n :
  tw_inv w ->
  exists w' br' e, copyBody w br kind n = Some (w', br', e) /\
    (e = None -> exists c p, moved w br w' br' c p /\ framed kind n c p (br_rest br')).
Proof.
  intros Hw. destruct kind; cbn [copyBody framed].
  - eexists _, _, _. split; [done|]. intros _. exists [], []. split; [by apply moved_refl|done].
  - destruct (copyN_loop_spec (S (length (br_rest br))) w br n Hw ltac:(lia)) as (w' & br' & e & E & He).
    eexists _, _, _. split; [exact E|]. intros Ee. destruct (He Ee) as (c & M & Hl). by exists c, c.
  - destruct (chunked_loop_spec (S (length (br_rest br))) w br Hw ltac:(lia)) as (w' & br' & e & E & He).
    eexists _, _, _. split; [exact E|]. intros Ee. destruct (He Ee) as (c & p & M & Hc). by exists c, p.
  - destruct (copyAll_loop_spec (S (length (br_rest br))) w br Hw ltac:(lia)) as (w' & br' & e & E & He).
    eexists _, _, _. split; [exact E|]. intros Ee. destruct (He Ee) as (c & M & Hl). by exists c, c.
Qed.

(** [copyBody] always returns, and when it reports success the destination has
    received exactly the bytes taken from the source, framing included, and the sink
    exactly the payload they carry under the message's framing, for every way the
    reads are cut and for every pair of writers that honours [TeeWriter]. *)
Theorem copyBody_transparent w br kind n :
  tw_inv w ->
  exists w' br' e, copyBody w br kind n = Some (w', br', e) /\
    (e = None -> exists c p,
       br_rest br = c ++ br_rest br' /\ tw_out w' = tw_out w ++ c /\ tw_pay w' = tw_pay w ++ p /\
       framed kind n c p (br_rest br')).
Proof.
  intros Hw. destruct (copyBody_spec w br kind n Hw) as (w' & br' & e & E & He).
  eexists _, _, _. split; [exact E|]. intros Ee. destruct (He Ee) as (c & p & (M1 & _ & _ & M2 & M3) & F).
  by exists c, p.
Qed.
End Copy.

(** ** A connection and a recorder *)

Record tee (D : Type) := mkTee { te_conn : D; te_sink : bytes }.
Arguments mkTee {D}.
Arguments te_conn {D}.
Arguments te_sink {D}.

(** [dst] is the connection itself and the sink never fails. *)
#[export] Program Instance tee_writer {D} `{Conn D} : TeeWriter (tee D) := {|
  tw_dst w p := let '(d, ok) := d_write (te_conn w) p in (mkTee d (te_sink w), ok);
  tw_sink w p := (mkTee (te_conn w) (te_sink w ++ p), true);
  tw_out w := d_out (te_conn w);
  tw_pay := te_sink;
  tw_inv _ := True
|}.
Next Obligation.
  intros D C w p w' _. cbn. destruct (d_write (te_conn w) p) as [d ok] eqn:E. intros [= <- ->].
  cbn. split_and!; [done|by apply d_write_ok|done].
Qed.
Next Obligation. intros D C w p w' _. cbn. by intros [= <-]. Qed.

(** ** The spill buffer *)

(** [sp_head] is what [onSpill] writes: the head of the unmodified message. *)
Record spillBuffer (D : Type) := mkSpill {
  sp_raw : bytes;
  sp_data : bytes;
  sp_limit : Z;
  sp_spilled : bool;
  sp_dst : D;
  sp_head : bytes;
  sp_sink : bytes;
  sp_err : bool
}.
Arguments mkSpill {D}.
Arguments sp_raw {D}.
Arguments sp_data {D}.
Arguments sp_limit {D}.
Arguments sp_spilled {D}.
Arguments sp_dst {D}.
Arguments sp_head {D}.
Arguments sp_sink {D}.
Arguments sp_err {D}.

Section Spill.
Context {D : Type} `{C : Conn D}.

Definition rawLimit (s : spillBuffer D) : Z := sp_limit s + Z.shiftl 64 10.

Definition set_dst (s : spillBuffer D) (d : D) (err : bool) : spillBuffer D :=
  mkSpill (sp_raw s) (sp_data s) (sp_limit s) (sp_spilled s) d (sp_head s) (sp_sink s) err.

(** [spillBuffer.spill]: head, buffered bytes, then the payload to the recorder. *)
Definition spill (s : spillBuffer D) : spillBuffer D * bool :=
  let '(d1, ok1) := d_write (sp_dst s) (sp_head s) in
  if negb ok1 then (set_dst s d1 true, false)
  else
    let '(d2, ok2) := d_write d1 (sp_raw s) in
    if negb ok2 then (set_dst s d2 true, false)
    else (mkSpill [] [] (sp_limit s) true d2 (sp_head s) (sp_sink s ++ sp_data s) (sp_err s), true).

(** [spillRaw.Write] *)
Definition spillRaw_Write (s : spillBuffer D) (p : bytes) : spillBuffer D * bool :=
  if sp_err s then (s, false)
  else
    let '(s1, ok) :=
      if negb (sp_spilled s) && (rawLimit s <? len (sp_raw s) + len p) then spill s else (s, true) in
    if negb ok then (s1, false)
    else if sp_spilled s1 then
      let '(d, ok2) := d_write (sp_dst s1) p in (set_dst s1 d (sp_err s1), ok2)
    else (mkSpill (sp_raw s1 ++ p) (sp_data s1) (sp_limit s1) false (sp_dst s1) (sp_head s1) (sp_sink s1) (sp_err s1),
          true).

(** [spillData.Write] *)
Definition spillData_Write (s : spillBuffer D) (p : bytes) : spillBuffer D * bool :=
  if sp_spilled s then
    (mkSpill (sp_raw s) (sp_data s) (sp_limit s) true (sp_dst s) (sp_head s) (sp_sink s ++ p) (sp_err s), true)
  else
    let s1 := mkSpill (sp_raw s) (sp_data s ++ p) (sp_limit s) false (sp_dst s) (sp_head s) (sp_sink s) (sp_err s) in
    if sp_limit s1 <? len (sp_data s1) then spill s1 else (s1, true).

(** What the other side has seen, or would see if the buffer were flushed now. *)
Definition spill_out (s : spillBuffer D) : bytes :=
  if sp_spilled s then d_out (sp_dst s) else d_out (sp_dst s) ++ sp_head s ++ sp_raw s.

(** While it holds a body back the buffer is bounded; once spilled it is empty. *)
Definition spill_inv (s : spillBuffer D) : Prop :=
  0 <= sp_limit s /\
  if sp_spilled s then sp_raw s = [] /\ sp_data s = []
  else len (sp_data s) <= sp_limit s /\ len (sp_raw s) <= rawLimit s.

Lemma spill_ok s s' :
  spill s = (s', true) ->
  sp_spilled s' = true /\ sp_raw s' = [] /\ sp_data s' = [] /\ sp_limit s' = sp_limit s /\
  d_out (sp_dst s') = d_out (sp_dst s) ++ sp_head s ++ sp_raw s /\ sp_sink s' = sp_sink s ++ sp_data s /\
  sp_head s' = sp_head s.
Proof.
  unfold spill. destruct (d_write (sp_dst s) (sp_head s)) as [d1 [|]] eqn:E1; [|done]. cbn [negb].
  destruct (d_write d1 (sp_raw s)) as [d2 [|]] eqn:E2; [|done]. intros [= <-]. cbn.
  apply d_write_ok in E1, E2. split_and!; try done. by rewrite E2, E1, <- app_assoc.
Qed.

(** A successful write: invariant kept, the view of both sides extended, and as long
    as nothing has spilled the connection is untouched. *)
Definition spill_step (s s' : spillBuffer D) (out pay : bytes) : Prop :=
  spill_inv s' /\ spill_out s' = spill_out s ++ out /\
  sp_sink s' ++ sp_data s' = (sp_sink s ++ sp_data s) ++ pay /\ sp_head s' = sp_head s /\
  (sp_spilled s' = false -> sp_spilled s = false /\ sp_dst s' = sp_dst s /\ sp_sink s' = sp_sink s).

Lemma spillData_ok s p s' :
  spill_inv s -> spillData_Write s p = (s', true) -> spill_step s s' [] p.
Proof.
  intros [Hl Hi]. unfold spillData_Write, spill_step, spill_inv, spill_out. destruct (sp_spilled s) eqn:Es.
  - intros [= <-]. destruct Hi as [Hr Hd]. cbn. rewrite Hr, Hd, !app_nil_r. done.
  - cbn [sp_limit sp_data].
    destruct (Z.ltb_spec (sp_limit s) (len (sp_data s ++ p))) as [Hlt|Hge].
    + intros H. apply spill_ok in H as (S1 & S2 & S3 & S4 & S5 & S6 & S7). cbn in *.
      rewrite S1, S2, S3, S4, S5, S6, !app_nil_r. by rewrite <- !app_assoc.
    + intros [= <-]. cbn. rewrite <- !app_assoc, app_nil_r. destruct Hi. done.
Qed.

Lemma spillRaw_ok s p s' :
  spill_inv s -> spillRaw_Write s p = (s', true) -> spill_step s s' p [].
Proof.
  intros [Hl Hi]. unfold spillRaw_Write, spill_step. destruct (sp_err s); [done|].
  destruct (sp_spilled s) eqn:Es; cbn [negb andb].
  - rewrite Es. destruct (d_write (sp_dst s) p) as [d [|]] eqn:E; [|done]. intros [= <-]. apply d_write_ok in E.
    unfold spill_inv, spill_out. cbn. rewrite Es, E, app_nil_r. done.
  - destruct (Z.ltb_spec (rawLimit s) (len (sp_raw s) + len p)) as [Hlt|Hge].
    + destruct (spill s) as [s1 [|]] eqn:E; [|done]. cbn [negb].
      apply spill_ok in E as (S1 & S2 & S3 & S4 & S5 & S6 & S7). rewrite S1.
      destruct (d_write (sp_dst s1) p) as [d [|]] eqn:E; [|done]. intros [= <-]. apply d_write_ok in E.
      unfold spill_inv, spill_out. cbn. rewrite S1, S2, S3, S4, Es, E, S5, S6, !app_nil_r. done.
    + cbn [negb]. rewrite Es. intros [= <-]. unfold spill_inv, spill_out, rawLimit in *. cbn. rewrite Es in *.
      rewrite len_app, !app_assoc, app_nil_r. destruct Hi. done.
Qed.

(** The spill buffer as a writer pair, for a body headed by [head] and a connection
    that was in state [d0] when the body began. *)
Definition spill_hold (head : bytes) (d0 : D) (sink0 : bytes) (s : spillBuffer D) : Prop :=
  spill_inv s /\ sp_head s = head /\ (sp_spilled s = false -> sp_dst s = d0 /\ sp_sink s = sink0).

Lemma spill_hold_step head d0 k0 s s' out pay :
  spill_hold head d0 k0 s -> spill_step s s' out pay ->
  spill_hold head d0 k0 s' /\ spill_out s' = spill_out s ++ out /\
  sp_sink s' ++ sp_data s' = (sp_sink s ++ sp_data s) ++ pay.
Proof.
  intros (H1 & H2 & H3) (S1 & S2 & S3 & S4 & S5). split; [|done]. split_and!; [done|congruence|].
  intros Hs. destruct (S5 Hs) as (Ha & -> & ->). by apply H3.
Qed.

#[refine] Definition spill_writer (head : bytes) (d0 : D) (k0 : bytes) : TeeWriter (spillBuffer D) := {|
  tw_dst := spillRaw_Write;
  tw_sink := spillData_Write;
  tw_out := spill_out;
  tw_pay s := sp_sink s ++ sp_data s;
  tw_inv := spill_hold head d0 k0
|}.
Proof.
  - intros s p s' H E. rewrite <- (app_nil_r (sp_sink s ++ sp_data s)).
    eapply spill_hold_step; [done|]. apply spillRaw_ok; [apply H|done].
  - intros s p s' H E. rewrite <- (app_nil_r (spill_out s)).
    eapply spill_hold_step; [done|]. apply spillData_ok; [apply H|done].
Defined.
End Spill.

(** ** Witness *)

(** A connection that accepts everything. *)
#[export] Program Instance bytes_conn : Conn bytes := {| d_write d p := (d ++ p, true); d_out d := d |}.
Next Obligation. by intros d p d' [= <-]. Qed.

Definition sample_chunks : breader :=
  mkReader (lit "5;x=1" ++ crlf ++ lit "hello" ++ crlf ++ lit "0" ++ crlf ++ crlf ++ lit "next") 16 ErrEOF.

Definition sample_tee : tee bytes := mkTee [] [].

Lemma copyBody_transparent_witness :
  exists w' br' e, copyBody (fun _ => 2) sample_tee sample_chunks framingChunked 0 = Some (w', br', e) /\
    (e = None -> exists c p,
       br_rest sample_chunks = c ++ br_rest br' /\ tw_out w' = tw_out sample_tee ++ c /\ tw_pay w' = tw_pay sample_tee ++ p /\
       framed framingChunked 0 c p (br_rest br')).
Proof.
  apply (copyBody_transparent (T := tee_writer) (fun _ => 2) sample_tee sample_chunks framingChunked 0). exact I.
Defined.
