(* ===== verification/Rewrite.v ===== *)
(** * Rewrite rules (src/vpntunnel/rewrite.go, proxy_h1.go)

    Compilation and matching of rewrite rules, their header and body actions, and
    [forwardBufferedBody], which replaces a whole message body or passes it through.
    Regular expressions and the decompressors are parameters. *)

From S2P Require Import Prelude GoStrings HostMatch Http1 Http1Body.

Definition rewriteBufferLimit : Z := Z.shiftl 1 20.
Definition rewriteDecodeLimit : Z := Z.shiftl 4 20.

Record rewriteRule := {
  rr_ID : bytes;
  rr_Enabled : bool;
  rr_Match : bytes;
  rr_IsRegex : bool;
  rr_Phase : bytes;
  rr_Action : bytes;
  rr_Header : bytes;
  rr_Value : bytes;
  rr_Find : bytes;
  rr_Replace : bytes;
  rr_BodyRegex : bool
}.

(** A byte slice, [None] being [nil]: the code that sends a rewritten message tells the
    two apart. *)
Abbreviation slice := (option bytes).

(** [regexp]; [ReplaceAll] may return a nil slice. *)
Class Regexp := {
  re : Type;
  re_Compile : bytes -> option re;
  re_MatchString : re -> bytes -> bool;
  re_ReplaceAll : re -> bytes -> bytes -> slice
}.

(** [compress/gzip], [compress/zlib], [compress/flate]: the decompressed bytes up to a
    limit; [None] when the stream is not valid. *)
Class Decompress := {
  gunzip : bytes -> Z -> option bytes;
  zlib_header : bytes -> bool;
  inflate_zlib : bytes -> Z -> option bytes;
  inflate_raw : bytes -> Z -> option bytes
}.

(** [bytes.ReplaceAll]: non-overlapping, left to right; an empty pattern matches before
    every rune and at the end.  Without a match the result is a copy made by appending
    to nil, so it is nil when the input is empty. *)
Fixpoint replace_nonempty (fuel : nat) (s old new : bytes) : bytes :=
  match fuel with
  | O => s
  | S fuel' =>
      match s with
      | [] => []
      | c :: s' =>
          if HasPrefix s old then new ++ replace_nonempty fuel' (drop (length old) s) old new
          else c :: replace_nonempty fuel' s' old new
      end
  end.
Fixpoint replace_empty (fuel : nat) (s new : bytes) : bytes :=
  match fuel with
  | O => new
  | S fuel' =>
      match s with
      | [] => new
      | _ => let n := snd (DecodeRune s) in new ++ take n s ++ replace_empty fuel' (drop n s) new
      end
  end.
Definition ReplaceAll (s old new : bytes) : slice :=
  match old with
  | [] => Some (replace_empty (length s) s new)
  | _ => if Contains s old then Some (replace_nonempty (length s) s old new)
         else if bool_decide (s = []) then None else Some s
  end.

(** The header list an action edits. *)
Class HeaderEditor (H : Type) := {
  he_add : H -> bytes -> bytes -> H;
  he_set : H -> bytes -> bytes -> H;
  he_del : H -> bytes -> H
}.
#[export] Instance hdrList_editor `{U : UnicodeTables} : HeaderEditor hdrList := {|
  he_add := hdr_add; he_set := hdr_set; he_del := hdr_del
|}.

Section Rewrite.
Context `{U : UnicodeTables} {R : Regexp} {Dz : Decompress}.

Record compiledRewrite := { cr_rule : rewriteRule; cr_glob : bytes; cr_urlRe : option re; cr_bodyRe : option re }.

Definition normalizeURLGlob (p : bytes) : bytes :=
  let p := TrimSpace p in
  let p := if Contains p (lit "://") then p else lit "*://" ++ p in
  let rest := drop (default 0%nat (Index p (lit "://")) + 3) p in
  if Contains rest (lit "/") then p else p ++ lit "/*".

(** One rule of [compileRewriteRules]; [None] is a rule left out. *)
Definition compileRewrite (r : rewriteRule) : option compiledRewrite :=
  if negb (rr_Enabled r) || bool_decide (TrimSpace (rr_Match r) = []) then None
  else
    url ← (if rr_IsRegex r then rx ← re_Compile (rr_Match r); Some ([], Some rx)
           else Some (normalizeURLGlob (rr_Match r), None));
    body ← (if bool_decide (rr_Action r = lit "replaceBody") then
              if bool_decide (rr_Find r = []) then None
              else if rr_BodyRegex r then rx ← re_Compile (rr_Find r); Some (Some rx)
              else Some None
            else Some None);
    Some {| cr_rule := r; cr_glob := fst url; cr_urlRe := snd url; cr_bodyRe := body |}.
Definition compileRewriteRules (rules : list rewriteRule) : list compiledRewrite :=
  omap compileRewrite rules.

Definition rw_matches (c : compiledRewrite) (url : bytes) : bool :=
  match cr_urlRe c with Some rx => re_MatchString rx url | None => globMatch (cr_glob c) url end.
Definition matching (rules : list compiledRewrite) (phase url : bytes) : list compiledRewrite :=
  filter (fun c => bool_decide (rr_Phase (cr_rule c) = phase) && rw_matches c url = true) rules.

Definition hasBodyRule (rules : list compiledRewrite) : bool :=
  existsb (fun c => bool_decide (rr_Action (cr_rule c) = lit "replaceBody")) rules.

Fixpoint applyHeaderRewrites {H} `{HeaderEditor H} (rules : list compiledRewrite) (h : H) : H * list bytes :=
  match rules with
  | [] => (h, [])
  | c :: rules' =>
      let r := cr_rule c in
      let act : option H :=
        if bool_decide (rr_Action r = lit "addHeader") then Some (he_add h (rr_Header r) (rr_Value r))
        else if bool_decide (rr_Action r = lit "setHeader") then Some (he_set h (rr_Header r) (rr_Value r))
        else if bool_decide (rr_Action r = lit "removeHeader") then Some (he_del h (rr_Header r))
        else None in
      match act with
      | Some h' => let '(h'', ids) := applyHeaderRewrites rules' h' in (h'', rr_ID r :: ids)
      | None => applyHeaderRewrites rules' h
      end
  end.

Definition body_action (c : compiledRewrite) (body : bytes) : slice :=
  match cr_bodyRe c with
  | Some rx => re_ReplaceAll rx body (rr_Replace (cr_rule c))
  | None => ReplaceAll body (rr_Find (cr_rule c)) (rr_Replace (cr_rule c))
  end.
Fixpoint applyBodyRewrites (rules : list compiledRewrite) (body : slice) : slice * list bytes :=
  match rules with
  | [] => (body, [])
  | c :: rules' =>
      if negb (bool_decide (rr_Action (cr_rule c) = lit "replaceBody")) then applyBodyRewrites rules' body
      else
        let next := body_action c (default [] body) in
        let '(out, ids) := applyBodyRewrites rules' next in
        (out, if bool_decide (default [] next = default [] body) then ids else rr_ID (cr_rule c) :: ids)
  end.

(** [decodeBody]; [None] is [ok=false].  Whether an empty result is nil is not
    observable: it is sent on only after a rule has replaced it. *)
Definition decodeBody (data encoding : bytes) : option bytes :=
  let enc := ToLower (TrimSpace encoding) in
  if bool_decide (enc = []) || bool_decide (enc = lit "identity") then Some data
  else
    let limit := (rewriteDecodeLimit + 1) in
    out ← (if bool_decide (enc = lit "gzip") || bool_decide (enc = lit "x-gzip") then gunzip data limit
           else if bool_decide (enc = lit "deflate") then
             if zlib_header data then inflate_zlib data limit else inflate_raw data limit
           else None);
    if (rewriteDecodeLimit <? len out) then None else Some out.

(** ** Forwarding a buffered message *)
Context {D : Type} `{C : Conn D} (read_size : bytes -> Z).

(** [forwardBufferedBody]: the rule ids applied, what [headFor] was asked for (if it was
    called), the connection, the recorder's payload and the reader afterwards.  [headFor] is given the new body,
    or nil for the head of the original message. *)
Definition forwardBufferedBody (dst : D) (src : breader) (kind : framingKind) (n : Z) (sink : bytes)
    (rules : list compiledRewrite) (encoding : bytes) (headFor : option bytes -> bytes)
    : option (result h1_error (list bytes) * option slice * D * bytes * breader) :=
  let sp := mkSpill [] [] rewriteBufferLimit false dst (headFor None) sink false in
  '(sp', br', e) ← copyBody (T := spill_writer (headFor None) dst sink) read_size sp src kind n;
  match e with
  | Some e => Some (Err e, (if sp_spilled sp' || sp_err sp' then Some None else None), sp_dst sp', sp_sink sp', br')
  | None =>
      if sp_spilled sp' then Some (Ok [], Some None, sp_dst sp', sp_sink sp', br')
      else
        let through :=
          let '(d, ok) := d_write (sp_dst sp') (headFor None ++ sp_raw sp') in
          if ok then Some (Ok [], Some None, d, sp_sink sp' ++ sp_data sp', br')
          else Some (Err ErrWrite, Some None, d, sp_sink sp', br') in
        match decodeBody (sp_data sp') encoding with
        | Some decoded =>
            let '(out, ids) := applyBodyRewrites rules (Some decoded) in
            match ids with
            | [] => through
            | _ =>
                let '(d, ok) := d_write (sp_dst sp') (headFor out ++ default [] out) in
                if ok then Some (Ok ids, Some out, d, sp_sink sp' ++ default [] out, br')
                else Some (Err ErrWrite, Some out, d, sp_sink sp', br')
            end
        | None => through
        end
  end.

(** A buffered message goes out whole, in exactly one form: when
    [forwardBufferedBody] succeeds, either some rules applied and the connection
    receives the head for the rewritten payload and that payload, or none did and it receives
    the original head followed by exactly the framed bytes read, whether they were
    buffered to the end or spilled half way; and the recorder receives exactly the
    payload that was sent. *)
Theorem buffered_message_integrity dst src kind n sink rules encoding headFor ids asked d' sink' br' :
  forwardBufferedBody dst src kind n sink rules encoding headFor = Some (Ok ids, asked, d', sink', br') ->
  exists c p, br_rest src = c ++ br_rest br' /\ framed kind n c p (br_rest br') /\
    ((ids = [] /\ d_out d' = d_out dst ++ headFor None ++ c /\ sink' = sink ++ p) \/
     (ids <> [] /\ exists decoded out, decodeBody p encoding = Some decoded /\
        applyBodyRewrites rules (Some decoded) = (out, ids) /\
        d_out d' = d_out dst ++ headFor out ++ default [] out /\ sink' = sink ++ default [] out)).
Proof.
  unfold forwardBufferedBody. set (T := spill_writer (headFor None) dst sink). set (sp := mkSpill _ _ _ _ _ _ _ _).
  assert (spill_hold (headFor None) dst sink sp) as Hw by (split_and!; cbn; done || (split; by vm_compute)).
  destruct (copyBody_spec (T := T) read_size sp src kind n Hw) as (sp' & br1 & e & -> & He). cbn.
  destruct e as [e|]; [done|]. destruct (He eq_refl) as (c & p & (M1 & M2 & M3 & M4 & M5) & F). clear He.
  destruct M3 as ([_ Hi] & Hh & Hhold). cbn in M4, M5. rewrite app_nil_r in M4, M5.
  destruct (sp_spilled sp') eqn:Es.
  - intros [= <- _ <- <- <-]. exists c, p. split_and!; [done..|]. left. unfold spill_out in M4. rewrite Es in M4.
    cbn in M4. destruct Hi as [_ Hd]. rewrite Hd, app_nil_r in M5.
    rewrite <- app_assoc in M4. done.
  - destruct (Hhold eq_refl) as [Hdst Hsink]. unfold spill_out in M4. rewrite Es, Hdst, Hh in M4. cbn in M4.
    rewrite <- !app_assoc in M4. apply app_inv_head, app_inv_head in M4 as Hraw.
    rewrite Hsink in M5. apply app_inv_head in M5 as Hdata. rewrite Hdst, Hsink, Hraw, Hdata.
    destruct (d_write dst (headFor None ++ c)) as [d1 ok1] eqn:E1.
    destruct (decodeBody p encoding) as [decoded|] eqn:Ed.
    2: { destruct ok1; [|done]. intros [= <- _ <- <- <-]. apply d_write_ok in E1. exists c, p.
         split_and!; [done..|]. by left. }
    destruct (applyBodyRewrites rules (Some decoded)) as [out rids] eqn:Ea. destruct rids as [|i rids].
    + destruct ok1; [|done]. intros [= <- _ <- <- <-]. apply d_write_ok in E1. exists c, p.
      split_and!; [done..|]. by left.
    + destruct (d_write dst (headFor out ++ default [] out)) as [d2 [|]] eqn:E2; [|done].
      intros [= <- _ <- <- <-]. apply d_write_ok in E2. exists c, p. split_and!; [done..|]. right.
      split; [done|]. by exists decoded, out.
Qed.
End Rewrite.

(** ** URL patterns *)

Lemma glob_matches_app p s q t : glob_matches p s -> glob_matches q t -> glob_matches (p ++ q) (s ++ t).
Proof.
  induction 1; intros Hq; cbn; [done|..].
  - rewrite <- app_assoc. apply gm_star. auto.
  - apply gm_quest. auto.
  - apply gm_char; auto.
Qed.

Lemma glob_matches_lit p : STAR ∉ p -> QUEST ∉ p -> glob_matches p p.
Proof.
  induction p as [|c p IH]; intros H1 H2; [constructor|].
  apply not_elem_of_cons in H1 as [? ?], H2 as [? ?]. apply gm_char; auto.
Qed.

Lemma Contains_slash s sub : 47 ∉ s -> 47 ∈ sub -> Contains s sub = false.
Proof.
  intros Hs Hsub. unfold Contains. apply bool_decide_eq_false_2. intros [i Hi]. revert i Hi.
  assert (forall s, 47 ∉ s -> HasPrefix s sub = false) as Hp.
  { intros x Hx. apply bool_decide_eq_false_2. intros [k ->]. apply not_elem_of_app in Hx. tauto. }
  induction s as [|c s IH]; intros i; cbn [Index]; rewrite Hp by done; [done|].
  apply not_elem_of_cons in Hs as [_ Hs]. destruct (Index s sub) as [j|]; [|done]. by destruct (IH Hs j).
Qed.

(** A host pattern without a path becomes a pattern for every URL of that host. *)
Lemma normalizeURLGlob_host p :
  TrimSpace p = p -> 47 ∉ p -> normalizeURLGlob p = lit "*://" ++ p ++ lit "/*".
Proof.
  intros Ht Hs. unfold normalizeURLGlob. rewrite Ht.
  rewrite (Contains_slash p (lit "://") Hs) by (vm_compute; set_solver).
  assert (Index (lit "*://" ++ p) (lit "://") = Some 1%nat) as Ei.
  { change (lit "*://" ++ p) with (42 :: lit "://" ++ p). cbn [Index].
    assert (HasPrefix (42 :: lit "://" ++ p) (lit "://") = false) as -> by (apply bool_decide_eq_false_2; by intros [? [=]]).
    assert (HasPrefix (lit "://" ++ p) (lit "://") = true) as Hp by (apply HasPrefix_true; by exists p).
    change (lit "://" ++ p) with (58 :: 47 :: 47 :: p) in *. cbn [Index]. by rewrite Hp. }
  rewrite Ei. change (drop (default 0%nat (Some 1%nat) + 3) (lit "*://" ++ p)) with p.
  rewrite (Contains_slash p (lit "/") Hs) by (vm_compute; set_solver). by rewrite <- app_assoc.
Qed.

Section RewriteProofs.
Context `{U : UnicodeTables} {R : Regexp}.

(** A rule written as a bare host pattern applies to every URL of the hosts it
    matches, whatever the scheme and path; and no compiled body rule has an empty
    search string. *)
Theorem host_rule_covers_urls r c scheme host path :
  compileRewrite r = Some c -> rr_IsRegex r = false ->
  TrimSpace (rr_Match r) = rr_Match r -> 47 ∉ rr_Match r ->
  glob_matches (rr_Match r) host ->
  let url := scheme ++ lit "://" ++ host ++ lit "/" ++ path in
  STAR ∉ url ->
  rw_matches c url = true /\
  (rr_Action (cr_rule c) = lit "replaceBody" -> rr_Find (cr_rule c) <> []).
Proof.
  intros Hc Hre Ht Hs Hg url Hstar. unfold compileRewrite in Hc. rewrite Hre in Hc.
  destruct (negb (rr_Enabled r) || _); [done|]. cbn in Hc.
  destruct (if bool_decide (rr_Action r = lit "replaceBody") then _ else _) as [body|] eqn:Eb; [|done].
  injection Hc as <-. cbn. split.
  - unfold rw_matches. cbn. apply globMatch_iff; [done|]. rewrite normalizeURLGlob_host by done.
    change (lit "*://") with ([STAR] ++ lit "://"). rewrite <- !app_assoc. cbn [app].
    apply gm_star. apply glob_matches_app.
    { apply glob_matches_lit; vm_compute; set_solver. }
    apply glob_matches_app; [done|]. change (lit "/*") with (lit "/" ++ [STAR]).
    apply glob_matches_app; [apply glob_matches_lit; vm_compute; set_solver|].
    rewrite <- (app_nil_r path). apply gm_star. constructor.
  - intros Ha. rewrite bool_decide_eq_true_2 in Eb by done. by case_bool_decide.
Qed.
End RewriteProofs.

(** ** Witnesses *)

#[local] Instance no_regexp : Regexp :=
  {| re := unit; re_Compile := fun _ => None; re_MatchString := fun _ _ => false; re_ReplaceAll := fun _ b _ => Some b |}.
#[local] Instance no_decompress : Decompress :=
  {| gunzip := fun _ _ => None; zlib_header := fun _ => false;
     inflate_zlib := fun _ _ => None; inflate_raw := fun _ _ => None |}.
#[local] Existing Instance caseless_tables.

Definition sample_rule : rewriteRule := {|
  rr_ID := lit "r1"; rr_Enabled := true; rr_Match := lit "*.example.com"; rr_IsRegex := false;
  rr_Phase := lit "response"; rr_Action := lit "replaceBody"; rr_Header := []; rr_Value := [];
  rr_Find := lit "hello"; rr_Replace := lit "goodbye"; rr_BodyRegex := false |}.
Definition sample_compiled : compiledRewrite :=
  {| cr_rule := sample_rule; cr_glob := lit "*://*.example.com/*"; cr_urlRe := None; cr_bodyRe := None |}.

Lemma host_rule_covers_urls_witness :
  rw_matches sample_compiled (lit "https" ++ lit "://" ++ lit "api.example.com" ++ lit "/" ++ lit "v1/x") = true /\
  (rr_Action sample_rule = lit "replaceBody" -> rr_Find sample_rule <> []).
Proof.
  apply (host_rule_covers_urls sample_rule sample_compiled (lit "https") (lit "api.example.com") (lit "v1/x")).
  - vm_compute. reflexivity.
  - reflexivity.
  - vm_compute. reflexivity.
  - apply (bool_decide_eq_true_1 (47 ∉ rr_Match sample_rule)). vm_compute. reflexivity.
  - apply (gm_star (lit ".example.com") (lit "api") (lit ".example.com")).
    apply glob_matches_lit; [apply (bool_decide_eq_true_1 (STAR ∉ lit ".example.com"))
                            |apply (bool_decide_eq_true_1 (QUEST ∉ lit ".example.com"))]; vm_compute; reflexivity.
  - apply (bool_decide_eq_true_1 (STAR ∉ _)). vm_compute. reflexivity.
Defined.

Definition sample_headFor (b : option bytes) : bytes :=
  match b with Some b => lit "new " ++ Itoa (len b) ++ lit ":" | None => lit "old:" end.

Definition fresh_conn : bytes := [].
Definition after_chunks : breader := mkReader (lit "next") 16 ErrEOF.

Lemma buffered_message_integrity_witness :
  exists c p, br_rest sample_chunks = c ++ br_rest after_chunks /\
    framed framingChunked 0 c p (br_rest after_chunks) /\
    (([lit "r1"] = [] /\ d_out (lit "new 7:goodbye") = d_out fresh_conn ++ sample_headFor None ++ c /\
      lit "goodbye" = [] ++ p) \/
     ([lit "r1"] <> [] /\ exists decoded out, decodeBody p [] = Some decoded /\
        applyBodyRewrites [sample_compiled] (Some decoded) = (out, [lit "r1"]) /\
        d_out (lit "new 7:goodbye") = d_out fresh_conn ++ sample_headFor out ++ default [] out /\
        lit "goodbye" = [] ++ default [] out)).
Proof.
  apply (buffered_message_integrity (D := bytes) (fun _ => 2) fresh_conn sample_chunks framingChunked 0 []
           [sample_compiled] [] sample_headFor [lit "r1"] (Some (Some (lit "goodbye")))
           (lit "new 7:goodbye") (lit "goodbye") after_chunks).
  vm_compute. reflexivity.
Defined.

(** ** A body that becomes empty *)

Definition body_rule (id find repl : string) : compiledRewrite := {|
  cr_rule := {| rr_ID := lit id; rr_Enabled := true; rr_Match := lit "*"; rr_IsRegex := false;
                rr_Phase := lit "response"; rr_Action := lit "replaceBody"; rr_Header := []; rr_Value := [];
                rr_Find := lit find; rr_Replace := lit repl; rr_BodyRegex := false |};
  cr_glob := lit "*"; cr_urlRe := None; cr_bodyRe := None |}.

(** When one rule removes the whole body and a later rule finds nothing in what is
    left, the new body is a nil slice, which [headFor] takes for "send the original
    head": the message goes out with its old length and no body at all. *)
Lemma emptied_body_keeps_old_head :
  forwardBufferedBody (D := bytes) (fun _ => 2) [] (mkReader (lit "adnext") 16 ErrEOF) framingLength 2 []
    [body_rule "r1" "ad" ""; body_rule "r2" "x" "y"] [] sample_headFor =
  Some (Ok [lit "r1"], Some None, lit "old:", [], mkReader (lit "next") 16 ErrEOF) /\
  forwardBufferedBody (D := bytes) (fun _ => 2) [] (mkReader (lit "adnext") 16 ErrEOF) framingLength 2 []
    [body_rule "r1" "ad" ""] [] sample_headFor =
  Some (Ok [lit "r1"], Some (Some []), lit "new 0:", [], mkReader (lit "next") 16 ErrEOF).
Proof. split; vm_compute; reflexivity. Qed.
