(* ===== verification/SshTime.v ===== *)
(** * Time specifications of ssh_config (src/tssh/comm.go)

    [convertSshTime] sums number/unit pairs in 32-bit arithmetic with overflow
    checks; [formatSshTime] prints a number of seconds as such a sum. *)

From S2P Require Import Prelude GoStrings.

Inductive time_error :=
| ErrEmptyTime
| ErrInvalidChar (c : Z) (pos : Z)
| ErrValueOverflow (pos : Z)
| ErrInvalidUnit (c : Z)
| ErrTimeOverflow
| ErrTotalOverflow.

Definition MaxUint32 : Z := 2 ^ 32 - 1.

(** The digits at the front, and what follows. *)
Fixpoint take_digits (s : bytes) : bytes * bytes :=
  match s with
  | [] => ([], [])
  | c :: s' => if is_digit c then let '(d, r) := take_digits s' in (c :: d, r) else ([], s)
  end.

Definition unit_of (c : Z) : option Z :=
  if (c =? 115) || (c =? 83) then Some 1
  else if (c =? 109) || (c =? 77) then Some 60
  else if (c =? 104) || (c =? 72) then Some (60 * 60)
  else if (c =? 100) || (c =? 68) then Some (24 * 60 * 60)
  else if (c =? 119) || (c =? 87) then Some (7 * 24 * 60 * 60)
  else None.

(** The multiplier after a number: a unit letter, or seconds at the end. *)
Definition time_unit (rest : bytes) : result time_error (Z * bytes) :=
  match rest with
  | [] => Ok (1, [])
  | u :: rest' => match unit_of u with Some m => Ok (m, rest') | None => Err (ErrInvalidUnit u) end
  end.

(** The loop of [convertSshTime] at byte position [pos]; [None] only when the fuel
    runs out. *)
Fixpoint time_loop (fuel : nat) (pos : Z) (s : bytes) (total : Z) : option (result time_error Z) :=
  match fuel with
  | O => None
  | S fuel' =>
      match s with
      | [] => Some (Ok total)
      | c :: _ =>
          let '(digits, rest) := take_digits s in
          if bool_decide (digits = []) then Some (Err (ErrInvalidChar c pos))
          else
            match ParseUint digits 10 32 with
            | Err _ => Some (Err (ErrValueOverflow pos))
            | Ok val =>
                match time_unit rest with
                | Err e => Some (Err e)
                | Ok (multiplier, rest') =>
                    if negb (val =? 0) && (MaxUint32 / val <? multiplier) then Some (Err ErrTimeOverflow)
                    else
                      let val' := u32 (val * multiplier) in
                      if u32 (MaxUint32 - val') <? total then Some (Err ErrTotalOverflow)
                      else time_loop fuel' (pos + (len s - len rest')) rest' (u32 (total + val'))
                end
            end
      end
  end.
Definition convertSshTime (s : bytes) : option (result time_error Z) :=
  match s with [] => Some (Err ErrEmptyTime) | _ => time_loop (S (length s)) 0 s 0 end.

Definition time_units : list (Z * Z) :=
  [(119, 7 * 24 * 60 * 60); (100, 24 * 60 * 60); (104, 60 * 60); (109, 60); (115, 1)].

Fixpoint format_loop (units : list (Z * Z)) (seconds : Z) : bytes :=
  match units with
  | [] => []
  | (suffix, value) :: us =>
      if value <=? seconds
      then itoa_nonneg (seconds / value) ++ [suffix] ++ format_loop us (seconds mod value)
      else format_loop us seconds
  end.
Definition formatSshTime (seconds : Z) : bytes :=
  if seconds =? 0 then lit "0s" else format_loop time_units seconds.

(** ** The meaning of a time string *)

(** [time_means s n]: the string is a sequence of digits and units adding up to
    [n], over the integers. *)
Inductive time_means : bytes -> Z -> Prop :=
| tm_nil : time_means [] 0
| tm_bare digits v :
    Forall (fun c => is_digit c = true) digits -> ParseUint digits 10 32 = Ok v -> time_means digits v
| tm_unit digits v u m s n :
    Forall (fun c => is_digit c = true) digits -> ParseUint digits 10 32 = Ok v -> unit_of u = Some m ->
    time_means s n -> time_means (digits ++ u :: s) (v * m + n).

Lemma take_digits_spec s : let '(d, r) := take_digits s in
  s = d ++ r /\ Forall (fun c => is_digit c = true) d /\ match r with c :: _ => is_digit c = false | [] => True end.
Proof.
  induction s as [|c s IH]; cbn; [by repeat constructor|]. destruct (is_digit c) eqn:E; [|done].
  destruct (take_digits s) as [d r]. destruct IH as (-> & H1 & H2). split_and!; [done|by constructor|done].
Qed.

Lemma take_digits_app d r :
  Forall (fun c => is_digit c = true) d -> match r with c :: _ => is_digit c = false | [] => True end ->
  take_digits (d ++ r) = (d, r).
Proof.
  intros Hd Hr. induction Hd as [|c d Hc Hd IH]; cbn.
  - destruct r as [|c r]; cbn; [done|]. by rewrite Hr.
  - by rewrite Hc, IH.
Qed.

Lemma parse_uint_go_range base max s acc n :
  0 <= acc <= max -> 0 < base -> parse_uint_go base max s acc = Ok n -> 0 <= n <= max.
Proof.
  revert acc. induction s as [|c s IH]; intros acc Ha Hb; cbn; [by intros [= <-]|].
  destruct (digit_val c) as [d|] eqn:E; [|done].
  assert (0 <= d) by (unfold digit_val in E; repeat case_match; to_prop; simplify_eq; lia).
  destruct (d <? base); [|done]. destruct (Z.ltb_spec max (acc * base + d)); [done|]. apply IH; nia.
Qed.

Lemma ParseUint_range s n : ParseUint s 10 32 = Ok n -> 0 <= n <= MaxUint32.
Proof.
  unfold ParseUint. destruct s; [done|]. apply parse_uint_go_range; unfold MaxUint32; lia.
Qed.

Lemma unit_bounds u m : unit_of u = Some m -> 1 <= m <= 604800.
Proof. unfold unit_of. repeat case_match; intros; simplify_eq; lia. Qed.

(** The 32-bit checks never let a product or a sum wrap. *)
Lemma no_wrap_product val m :
  0 <= val <= MaxUint32 -> 1 <= m -> negb (val =? 0) && (MaxUint32 / val <? m) = false ->
  u32 (val * m) = val * m /\ 0 <= val * m <= MaxUint32.
Proof.
  intros Hv Hm H. assert (0 <= val * m <= MaxUint32) as Hb.
  { destruct (Z.eqb_spec val 0) as [->|Hne]; [unfold MaxUint32; lia|]. cbn in H. apply Z.ltb_ge in H.
    assert (val * (MaxUint32 / val) <= MaxUint32) by (apply Z.mul_div_le; lia). nia. }
  split; [|done]. unfold wrap, MaxUint32 in *. apply Z.mod_small. lia.
Qed.

Lemma time_unit_means digits val rest m rest' :
  Forall (fun c => is_digit c = true) digits -> ParseUint digits 10 32 = Ok val ->
  time_unit rest = Ok (m, rest') ->
  1 <= m /\ (length rest' <= length rest)%nat /\
  forall k, time_means rest' k -> time_means (digits ++ rest) (val * m + k).
Proof.
  intros Hd Hp. destruct rest as [|u r]; cbn [time_unit].
  - intros [= <- <-]. split_and!; [lia|done|]. intros k Hk. rewrite app_nil_r.
    inversion Hk as [|? v ? Hp'|d0]; subst; [|done|by destruct d0].
    rewrite Z.mul_1_r, Z.add_0_r. by constructor.
  - destruct (unit_of u) as [m'|] eqn:Eu; [|done]. intros [= <- <-]. pose proof (unit_bounds _ _ Eu).
    split_and!; [lia|cbn; lia|]. intros k Hk. by eapply tm_unit.
Qed.

Lemma time_loop_sound fuel : forall pos s total n,
  0 <= total <= MaxUint32 -> time_loop fuel pos s total = Some (Ok n) ->
  exists k, time_means s k /\ n = total + k /\ 0 <= n <= MaxUint32.
Proof.
  induction fuel as [|fuel IH]; intros pos s total n Ht; cbn [time_loop]; [done|].
  destruct s as [|c s']. { intros [= <-]. exists 0. split; [constructor|lia]. }
  pose proof (take_digits_spec (c :: s')) as Hd. destruct (take_digits (c :: s')) as [digits rest].
  destruct Hd as (-> & Hdig & _). case_bool_decide as E; [done|].
  destruct (ParseUint digits 10 32) as [val|] eqn:Ep; [|done]. pose proof (ParseUint_range _ _ Ep) as Hv.
  destruct (time_unit rest) as [[m rest']|] eqn:Eu; [|done].
  destruct (time_unit_means digits val rest m rest' Hdig Ep Eu) as (Hm & _ & Hmean).
  destruct (negb (val =? 0) && (MaxUint32 / val <? m)) eqn:Eo; [done|].
  destruct (no_wrap_product val m Hv Hm Eo) as [-> Hvm].
  assert (u32 (MaxUint32 - val * m) = MaxUint32 - val * m) as ->
    by (unfold wrap, MaxUint32 in *; apply Z.mod_small; lia).
  destruct (Z.ltb_spec (MaxUint32 - val * m) total) as [|Hle]; [done|].
  assert (u32 (total + val * m) = total + val * m) as ->
    by (unfold wrap, MaxUint32 in *; apply Z.mod_small; lia).
  intros H. apply IH in H as (k & Hk & -> & Hn); [|lia].
  exists (val * m + k). split; [by apply Hmean|lia].
Qed.

Lemma time_loop_total fuel : forall pos s total, (length s < fuel)%nat -> is_Some (time_loop fuel pos s total).
Proof.
  induction fuel as [|fuel IH]; intros pos s total Hf; [lia|]. cbn [time_loop]. destruct s as [|c s']; [done|].
  pose proof (take_digits_spec (c :: s')) as Hd. destruct (take_digits (c :: s')) as [digits rest].
  destruct Hd as (E & Hdig & _). case_bool_decide as Ed; [done|].
  destruct (ParseUint digits 10 32) as [val|] eqn:Ep; [|done].
  destruct (time_unit rest) as [[m rest']|] eqn:Eu; [|done].
  destruct (time_unit_means digits val rest m rest' Hdig Ep Eu) as (_ & Hl & _).
  repeat case_match; try done. apply IH. rewrite E, length_app in Hf. destruct digits; [done|]. cbn in Hf. lia.
Qed.

(** [convertSshTime] always returns; when it accepts a string the result is the
    exact sum the string denotes, so no 32-bit operation in it ever wraps. *)
Theorem convertSshTime_exact s :
  is_Some (convertSshTime s) /\
  forall n, convertSshTime s = Some (Ok n) -> time_means s n /\ 0 <= n < 2 ^ 32.
Proof.
  split.
  - destruct s; [done|]. apply time_loop_total. lia.
  - intros n. destruct s as [|c s]; [done|]. intros H.
    apply time_loop_sound in H as (k & Hk & -> & Hn); [|unfold MaxUint32; lia].
    rewrite Z.add_0_l in *. unfold MaxUint32 in Hn. split; [done|lia].
Qed.

(** ** Round trip *)

(** One number with its unit is consumed in one iteration. *)
Lemma time_loop_token fuel pos n u m s total :
  0 <= n -> unit_of u = Some m -> 0 <= total -> total + n * m <= MaxUint32 ->
  exists pos', time_loop (S fuel) pos (itoa_nonneg n ++ u :: s) total = time_loop fuel pos' s (total + n * m).
Proof.
  intros Hn Hu Ht Hmax. pose proof (unit_bounds _ _ Hu) as Hm. assert (n <= MaxUint32) as Hn2 by nia.
  assert (Forall (fun c => is_digit c = true) (itoa_nonneg n)) as Hdig by (apply itoa_digits; [lia|constructor]).
  assert (itoa_nonneg n <> []) as Hne by (apply itoa_nonempty; left; lia).
  assert (is_digit u = false) as Hud.
  { destruct (is_digit u) eqn:E; [|done]. unfold is_digit in E. to_prop. revert Hu. unfold unit_of.
    repeat match goal with |- context [u =? ?k] => destruct (Z.eqb_spec u k); [lia|] end. done. }
  cbn [time_loop]. destruct (itoa_nonneg n ++ u :: s) as [|c s'] eqn:E; [by destruct (itoa_nonneg n)|].
  rewrite <- E, take_digits_app by done. rewrite bool_decide_eq_false_2 by done.
  rewrite ParseUint_itoa by (unfold MaxUint32 in *; lia). cbn [time_unit]. rewrite Hu.
  assert (negb (n =? 0) && (MaxUint32 / n <? m) = false) as Eo.
  { destruct (Z.eqb_spec n 0); [done|]. cbn. apply Z.ltb_ge. apply Z.div_le_lower_bound; lia. }
  rewrite Eo. destruct (no_wrap_product n m ltac:(lia) ltac:(lia) Eo) as [-> Hvm].
  assert (forall z, 0 <= z <= MaxUint32 -> u32 z = z) as Hid
    by (intros z Hz; unfold wrap, MaxUint32 in *; apply Z.mod_small; lia).
  rewrite !Hid by lia. destruct (Z.ltb_spec (MaxUint32 - n * m) total); [lia|]. by eexists.
Qed.

Lemma format_loop_parses us : forall n total pos fuel,
  Forall (fun '(c, v) => unit_of c = Some v) us -> 0 <= n -> 0 <= total -> total + n <= MaxUint32 ->
  last us = Some (115, 1) -> (length (format_loop us n) < fuel)%nat ->
  time_loop fuel pos (format_loop us n) total = Some (Ok (total + n)).
Proof.
  induction us as [|[c v] us IH]; intros n total pos fuel Hus Hn Ht Hmax Hlast Hf; [done|].
  apply Forall_cons in Hus as [Hu Hus]. pose proof (unit_bounds _ _ Hu) as Hv.
  cbn [format_loop] in *.
  assert (us = [] /\ (c, v) = (115, 1) \/ last us = Some (115, 1)) as Hl.
  { destruct us as [|x us]; [left; split; [done|]; cbn in Hlast; congruence|right; exact Hlast]. }
  destruct (Z.leb_spec v n) as [Hle|Hgt].
  - destruct fuel as [|fuel]; [lia|]. rewrite !length_app in Hf. cbn [length] in Hf.
    assert (n = n / v * v + n mod v) as En by (rewrite Z.mul_comm; apply Z.div_mod; lia).
    assert (0 <= n mod v < v) by (apply Z.mod_pos_bound; lia). assert (0 <= n / v) by (apply Z.div_pos; lia).
    cbn [app]. destruct (time_loop_token fuel pos (n / v) c v (format_loop us (n mod v)) total) as [pos' ->];
      [lia|done|lia|lia|].
    destruct Hl as [[-> [= -> ->]]|Hl].
    + cbn [format_loop]. destruct fuel as [|fuel]; [lia|]. cbn. rewrite Z.div_1_r, Z.mul_1_r. done.
    + rewrite IH; [f_equal; f_equal; lia|done|lia|nia|lia|done|lia].
  - destruct Hl as [[-> [= -> ->]]|Hl].
    + assert (n = 0) as -> by lia. cbn. destruct fuel; [lia|]. cbn. by rewrite Z.add_0_r.
    + apply IH; done.
Qed.

(** [formatSshTime] prints every 32-bit number of seconds as a string that
    [convertSshTime] reads back as the same number. *)
Theorem sshTime_roundtrip n :
  0 <= n < 2 ^ 32 -> convertSshTime (formatSshTime n) = Some (Ok n).
Proof.
  intros Hn. unfold formatSshTime. destruct (Z.eqb_spec n 0) as [->|Hne]; [vm_compute; reflexivity|].
  assert (time_loop (S (length (format_loop time_units n))) 0 (format_loop time_units n) 0 = Some (Ok n)) as H.
  { rewrite format_loop_parses; [by rewrite Z.add_0_l|repeat constructor|unfold MaxUint32; lia..|done|lia]. }
  unfold convertSshTime. destruct (format_loop time_units n) as [|c s]; [|done].
  cbn in H. congruence.
Qed.

Lemma sshTime_roundtrip_witness : convertSshTime (formatSshTime 694861) = Some (Ok 694861).
Proof. apply (sshTime_roundtrip 694861). split; [discriminate|reflexivity]. Defined.
