(* ===== verification/Wildcard.v ===== *)
(** * Wildcard patterns of the ssh client

    src/tssh/comm.go: [wildcardToRegexp] turns the patterns of ssh_config into regular
    expressions, which the selection of algorithms, the environment and the expected outputs
    then match with.  The expressions are read back here with the meaning the regexp package
    gives their operators, and shown to match exactly what the wildcard means. *)

From S2P Require Import Prelude GoStrings.

Local Open Scope go_scope.

(** ** Encoded runes *)

Definition valid_rune (r : Z) : Prop := 0 <= r <= 1114111 /\ ~ (55296 <= r <= 57343).
#[export] Instance valid_rune_dec r : Decision (valid_rune r).
Proof. unfold valid_rune. apply _. Defined.
Definition encode (rs : list Z) : bytes := concat (map EncodeRune rs).

Lemma DecodeRune_Encode r rest : valid_rune r ->
  DecodeRune (EncodeRune r ++ rest) = (r, length (EncodeRune r)) /\ EncodeRune r <> [].
Proof.
  intros [Hr Hs]. unfold EncodeRune.
  destruct (Z.leb_spec 0 r); [|lia]. cbn [andb].
  destruct (Z.ltb_spec r 128); [cbn [app DecodeRune length]; by rewrite (proj2 (Z.ltb_lt r 128))|].
  destruct (Z.ltb_spec r 2048).
  { split; [|done]. cbn [app DecodeRune length]. unfold cont. rewrite (proj2 (Z.ltb_ge _ 128)) by zlia.
    rewrite (proj2 (andb_true_iff _ _)) by (rewrite !Z.leb_le; zlia).
    rewrite (proj2 (andb_true_iff _ _)) by (rewrite !Z.leb_le; zlia). f_equal. zlia. }
  rewrite (proj2 (Z.ltb_ge r 0)), (proj2 (Z.ltb_ge 1114111 r)) by lia. cbn [orb].
  destruct ((55296 <=? r) && (r <=? 57343)) eqn:E; [apply andb_true_iff in E as [?%Z.leb_le ?%Z.leb_le]; lia|]. clear E.
  destruct (Z.ltb_spec r 65536).
  { split; [|done]. cbn [app DecodeRune length]. unfold cont. rewrite (proj2 (Z.ltb_ge _ 128)) by zlia.
    rewrite (proj2 (andb_false_iff (194 <=? _) _)) by (right; apply Z.leb_gt; zlia).
    rewrite (proj2 (andb_true_iff (224 <=? _) _)) by (rewrite !Z.leb_le; zlia).
    rewrite (proj2 (andb_true_iff _ _)); [f_equal; zlia|].
    rewrite !andb_true_iff, !Z.leb_le. destruct (Z.eqb_spec (224 + r / 4096) 224), (Z.eqb_spec (224 + r / 4096) 237); zlia. }
  split; [|done]. cbn [app DecodeRune length]. unfold cont. rewrite (proj2 (Z.ltb_ge _ 128)) by zlia.
  rewrite (proj2 (andb_false_iff (194 <=? _) _)) by (right; apply Z.leb_gt; zlia).
  rewrite (proj2 (andb_false_iff (224 <=? _) _)) by (right; apply Z.leb_gt; zlia).
  rewrite (proj2 (andb_true_iff (240 <=? _) _)) by (rewrite !Z.leb_le; zlia).
  rewrite (proj2 (andb_true_iff _ _)); [f_equal; zlia|].
  rewrite !andb_true_iff, !Z.leb_le. destruct (Z.eqb_spec (240 + r / 262144) 240), (Z.eqb_spec (240 + r / 262144) 244); zlia.
Qed.

Lemma runes_fuel_encode rs : Forall valid_rune rs -> forall fuel, (length (encode rs) <= fuel)%nat -> runes_fuel fuel (encode rs) = rs.
Proof.
  induction 1 as [|r rs Hr Hrs IH]; intros fuel Hf; [by destruct fuel|].
  unfold encode in *. cbn [map concat] in *. destruct (DecodeRune_Encode r (concat (map EncodeRune rs)) Hr) as [E Hne].
  rewrite length_app in Hf. assert (0 < length (EncodeRune r))%nat by (destruct (EncodeRune r); [done|cbn; lia]).
  destruct fuel as [|fuel]; [lia|]. cbn [runes_fuel].
  destruct (EncodeRune r ++ concat (map EncodeRune rs)) as [|b l] eqn:El; [by destruct (EncodeRune r)|].
  rewrite E. rewrite <- El, drop_app_length. f_equal. apply IH. lia.
Qed.
Lemma runes_encode rs : Forall valid_rune rs -> runes (encode rs) = rs.
Proof. intros H. by apply runes_fuel_encode. Qed.

Lemma DecodeRune_valid s : wf_bytes s -> valid_rune (DecodeRune s).1.
Proof.
  assert (valid_rune RuneError) as Hbad by (unfold valid_rune, RuneError; lia).
  intros H. destruct s as [|b0 s1]; [done|]. apply Forall_cons in H as [H0 H1]. unfold is_byte in H0. unfold DecodeRune, cont.
  destruct (Z.ltb_spec b0 128); [cbn; unfold valid_rune; lia|].
  destruct ((194 <=? b0) && (b0 <=? 223)) eqn:E1.
  { destruct s1 as [|b1 s1]; [done|]. destruct (_ && _) eqn:E in |- *; [|done]. to_prop. cbn [fst]. unfold valid_rune. lia. }
  destruct ((224 <=? b0) && (b0 <=? 239)) eqn:E2.
  { destruct s1 as [|b1 [|b2 s1]]; [done..|]. destruct (_ && _) eqn:E in |- *; [|done]. to_prop. cbn [fst]. unfold valid_rune.
    destruct (Z.eqb_spec b0 224), (Z.eqb_spec b0 237); lia. }
  destruct ((240 <=? b0) && (b0 <=? 244)) eqn:E3; [|done].
  destruct s1 as [|b1 [|b2 [|b3 s1]]]; [done..|]. destruct (_ && _) eqn:E in |- *; [|done]. to_prop. cbn [fst]. unfold valid_rune.
  destruct (Z.eqb_spec b0 240), (Z.eqb_spec b0 244); lia.
Qed.

Lemma runes_valid s : wf_bytes s -> Forall valid_rune (runes s).
Proof.
  unfold runes. generalize (length s) as fuel. intros fuel. revert s. induction fuel as [|fuel IH]; intros s H; [constructor|].
  destruct s as [|b s]; [constructor|]. cbn [runes_fuel]. pose proof (DecodeRune_valid (b :: s) H) as Hv.
  destruct (DecodeRune (b :: s)) as [r w]. constructor; [done|]. apply IH. by apply Forall_drop.
Qed.

(** ** Regular expressions *)

Inductive re_item := ReLit (c : Z) | ReAny | ReStar.

Definition is_meta (c : Z) : bool := bool_decide (c ∈ lit "\.+*?()|[]{}^$").
Definition is_alnum (c : Z) : bool := is_digit c || (65 <=? c) && (c <=? 90) || (97 <=? c) && (c <=? 122).

(** The part of the syntax that is used: [.*], [.], escaped punctuation and plain runes. *)
Fixpoint re_parse (t : list Z) : option (list re_item) :=
  match t with
  | [] => Some []
  | c :: t' =>
      if c =? 92 then
        match t' with
        | d :: t'' => if (d <? 128) && negb (is_alnum d) then (ReLit d ::.) <$> re_parse t'' else None
        | [] => None
        end
      else if c =? 46 then
        match t' with
        | d :: t'' => if d =? 42 then (ReStar ::.) <$> re_parse t'' else (ReAny ::.) <$> re_parse t'
        | [] => Some [ReAny]
        end
      else if is_meta c then None
      else (ReLit c ::.) <$> re_parse t'
  end.

(** Whether a text begins with a match after which [fin] holds: nothing left for [$]. *)
Section Match.
Context (fin : list Z -> bool).
Fixpoint re_match (items : list re_item) (t : list Z) : bool :=
  match items with
  | [] => fin t
  | ReLit c :: items' => match t with x :: t' => (x =? c) && re_match items' t' | [] => false end
  | ReAny :: items' => match t with x :: t' => negb (x =? 10) && re_match items' t' | [] => false end
  | ReStar :: items' =>
      (fix star (t : list Z) : bool :=
         re_match items' t || match t with x :: t' => negb (x =? 10) && star t' | [] => false end) t
  end.
End Match.

Definition at_end (t : list Z) : bool := match t with [] => true | _ => false end.
Fixpoint re_search (items : list re_item) (t : list Z) : bool :=
  re_match (fun _ => true) items t || match t with [] => false | _ :: t' => re_search items t' end.

(** ** [wildcardToRegexp] *)

Definition wildcard_rune (c : Z) : bytes :=
  if c =? 42 then lit ".*"
  else if c =? 63 then lit "."
  else if bool_decide (c ∈ lit "()[]{}.+,-^$|\") then 92 :: EncodeRune c
  else EncodeRune c.
Definition wildcardToRegexp (pattern : bytes) : bytes := concat (map wildcard_rune (runes pattern)).

(** [regexp.Compile] of the pattern between [^] and [$], or alone, and [MatchString]. *)
Definition match_full (pattern s : bytes) : bool :=
  match re_parse (runes (wildcardToRegexp pattern)) with
  | Some items => re_match at_end items (runes s)
  | None => false
  end.
Definition match_within (pattern s : bytes) : bool :=
  match re_parse (runes (wildcardToRegexp pattern)) with
  | Some items => re_search items (runes s)
  | None => false
  end.

(** ** The meaning of a wildcard *)

Inductive wild : list Z -> list Z -> Prop :=
  | wild_nil : wild [] []
  | wild_star p t u : 10 ∉ t -> wild p u -> wild (42 :: p) (t ++ u)
  | wild_any x p t : x <> 10 -> wild p t -> wild (63 :: p) (x :: t)
  | wild_rune c p t : c <> 42 -> c <> 63 -> wild p t -> wild (c :: p) (c :: t).

Definition item_of (c : Z) : re_item := if c =? 42 then ReStar else if c =? 63 then ReAny else ReLit c.

(** What is written for a rune, as runes. *)
Definition written (c : Z) : list Z :=
  if c =? 42 then [46; 42] else if c =? 63 then [46] else if bool_decide (c ∈ lit "()[]{}.+,-^$|\") then [92; c] else [c].

Lemma wildcard_encode rs : concat (map wildcard_rune rs) = encode (concat (map written rs)).
Proof.
  unfold encode. induction rs as [|c rs IH]; [done|]. cbn [map concat]. rewrite IH, map_app, concat_app. f_equal.
  unfold wildcard_rune, written. repeat case_match; cbn; by rewrite ?app_nil_r.
Qed.

Lemma written_valid rs : Forall valid_rune rs -> Forall valid_rune (concat (map written rs)).
Proof.
  assert (forall c, 0 <= c < 128 -> valid_rune c) as Hv by (unfold valid_rune; lia).
  induction 1 as [|c rs Hc _ IH]; [constructor|]. cbn [map concat]. apply Forall_app. split; [|done].
  unfold written. repeat case_match; repeat (apply Forall_cons_2; [first [done|apply Hv; lia]|]); apply Forall_nil_2.
Qed.

(** No rune of a pattern is read as an operator it was not written as. *)
Lemma parse_written rs : re_parse (concat (map written rs)) = Some (map item_of rs).
Proof.
  induction rs as [|c rs IH]; [done|]. cbn [map concat]. unfold written at 1, item_of at 1.
  destruct (Z.eqb_spec c 42) as [->|H42]; [change (re_parse ([46; 42] ++ concat (map written rs))) with ((ReStar ::.) <$> re_parse (concat (map written rs))); by rewrite IH|].
  destruct (Z.eqb_spec c 63) as [->|H63].
  - cbn [app]. cbn [re_parse]. cbn [Z.eqb Pos.eqb]. destruct (concat (map written rs)) as [|d l] eqn:E; [by destruct rs|].
    assert (d <> 42) as Hd.
    { destruct rs as [|c' rs]; [done|]. cbn [map concat] in E. unfold written in E.
      repeat case_match; cbn [app] in E; injection E as <- _; to_prop; congruence || lia. }
    rewrite (proj2 (Z.eqb_neq d 42)) by done. by rewrite IH.
  - destruct (bool_decide _) eqn:Ein; cbn [app re_parse].
    + apply bool_decide_eq_true in Ein. rewrite Z.eqb_refl.
      assert ((c <? 128) && negb (is_alnum c) = true) as ->; [|by rewrite IH].
      apply list_elem_of_In in Ein. cbn in Ein. destruct_or! Ein; try done; by subst c.
    + apply bool_decide_eq_false in Ein.
      assert (is_meta c = false /\ c <> 92 /\ c <> 46) as (Hm & H92 & H46).
      { rewrite list_elem_of_In in Ein. cbn in Ein. split; [|split; intros ->; apply Ein; tauto].
        apply bool_decide_eq_false. rewrite list_elem_of_In. cbn. intros Hin. apply Ein. destruct_or! Hin; subst; tauto || done. }
      rewrite (proj2 (Z.eqb_neq c 92)), (proj2 (Z.eqb_neq c 46)), Hm by done. by rewrite IH.
Qed.

(** One step of [.*]. *)
Lemma re_match_star fin items t :
  re_match fin (ReStar :: items) t =
  re_match fin items t || match t with x :: t' => negb (x =? 10) && re_match fin (ReStar :: items) t' | [] => false end.
Proof. by destruct t. Qed.

Lemma star_spec fin items t :
  re_match fin (ReStar :: items) t = true <-> exists a b, t = a ++ b /\ 10 ∉ a /\ re_match fin items b = true.
Proof.
  induction t as [|x t IH]; rewrite re_match_star, orb_true_iff.
  - split; [intros [H|?]; [by exists [], []; split_and!; [|apply not_elem_of_nil|]|done]|].
    intros (a & b & E & _ & H). symmetry in E. apply app_eq_nil in E as [-> ->]. by left.
  - rewrite andb_true_iff, negb_true_iff, Z.eqb_neq, IH. split.
    + intros [H|[Hx (a & b & -> & Ha & H)]]; [by exists [], (x :: t); split_and!; [|apply not_elem_of_nil|]|].
      exists (x :: a), b. split_and!; [done| |done]. by apply not_elem_of_cons.
    + intros ([|y a] & b & E & Ha & H); [left; cbn in E; by rewrite E|right]. injection E as -> ->.
      apply not_elem_of_cons in Ha as [Hy Ha]. split; [done|by exists a, b].
Qed.

Lemma re_match_spec fin p : forall t,
  re_match fin (map item_of p) t = true <-> exists a b, t = a ++ b /\ wild p a /\ fin b = true.
Proof.
  induction p as [|c p IH]; intros t.
  - cbn [map re_match]. split; [intros H; exists [], t; split_and!; [done|constructor|done]|].
    intros (a & b & -> & Hw & H). by inversion Hw; subst.
  - cbn [map]. unfold item_of at 1. destruct (Z.eqb_spec c 42) as [->|H42]; [|destruct (Z.eqb_spec c 63) as [->|H63]].
    + rewrite star_spec. split.
      * intros (a & b & -> & Ha & (a' & b' & -> & Hw & Hf)%IH). exists (a ++ a'), b'. split_and!; [by rewrite app_assoc| |done].
        by constructor.
      * intros (a & b & -> & Hw & Hf). inversion Hw as [|p' u v Hu Hv E1 E2|x p' u Hx Hu|? ? ? ? ? ?]; subst; [|done].
        exists u, (v ++ b). split_and!; [by rewrite app_assoc|done|]. apply IH. by exists v, b.
    + cbn [re_match]. destruct t as [|x t].
      * split; [done|]. intros (a & b & E & Hw & _). symmetry in E. apply app_eq_nil in E as [-> ->]. inversion Hw.
      * rewrite andb_true_iff, negb_true_iff, Z.eqb_neq, IH. split.
        -- intros [Hx (a & b & -> & Hw & Hf)]. exists (x :: a), b. split_and!; [done|by constructor|done].
        -- intros (a & b & E & Hw & Hf). inversion Hw as [|? ? ? ? ?|y p' u Hx Hu|? ? ? ? ? ?]; subst; [|done].
           injection E as -> ->. split; [done|by exists u, b].
    + cbn [re_match]. destruct t as [|x t].
      * split; [done|]. intros (a & b & E & Hw & _). symmetry in E. apply app_eq_nil in E as [-> ->]. inversion Hw; done.
      * rewrite andb_true_iff, Z.eqb_eq, IH. split.
        -- intros [-> (a & b & -> & Hw & Hf)]. exists (c :: a), b. split_and!; [done|by constructor|done].
        -- intros (a & b & E & Hw & Hf). inversion Hw as [| | |y p' u Hy1 Hy2 Hu]; subst; [done..|].
           injection E as -> ->. split; [done|by exists u, b].
Qed.

Lemma re_search_spec p : forall t,
  re_search (map item_of p) t = true <-> exists a m b, t = a ++ m ++ b /\ wild p m.
Proof.
  induction t as [|x t IH]; cbn [re_search]; rewrite orb_true_iff, re_match_spec.
  - split.
    + intros [(m & b & E & Hw & _)|?]; [|done]. by exists [], m, b.
    + intros (a & m & b & E & Hw). left. symmetry in E. apply app_eq_nil in E as [-> E]. by exists m, b.
  - rewrite IH. split.
    + intros [(m & b & E & Hw & _)|(a & m & b & -> & Hw)]; [by exists [], m, b|by exists (x :: a), m, b].
    + intros ([|y a] & m & b & E & Hw); [left; by exists m, b|right]. injection E as -> ->. by exists a, m, b.
Qed.

Lemma wildcard_parses p : wf_bytes p -> re_parse (runes (wildcardToRegexp p)) = Some (map item_of (runes p)).
Proof.
  intros Hp. unfold wildcardToRegexp. rewrite wildcard_encode, runes_encode by (by apply written_valid, runes_valid). apply parse_written.
Qed.

(** C26: the regular expression written for a wildcard pattern always compiles and matches
    exactly the texts the wildcard stands for: [*] any runes and [?] one rune, a line break
    excepted, every other rune itself, whatever it means in regular expressions. *)
Theorem wildcard_exact pattern s :
  wf_bytes pattern ->
  (exists items, re_parse (runes (wildcardToRegexp pattern)) = Some items) /\
  (match_full pattern s = true <-> wild (runes pattern) (runes s)) /\
  (match_within pattern s = true <-> exists a m b, runes s = a ++ m ++ b /\ wild (runes pattern) m).
Proof.
  intros Hp. pose proof (wildcard_parses pattern Hp) as E. split; [by eexists|]. unfold match_full, match_within. rewrite E.
  split; [|apply re_search_spec]. rewrite re_match_spec. split.
  - intros (a & [|b l] & -> & Hw & Hf); [by rewrite app_nil_r|done].
  - intros Hw. exists (runes s), []. by rewrite app_nil_r.
Qed.

Lemma wildcard_exact_witness :
  wildcardToRegexp (lit "a.b*?") = lit "a\.b.*." /\ match_full (lit "a.b*?") (lit "a.bXY") = true /\
  match_full (lit "a.b*?") (lit "aXbXY") = false /\ wild (runes (lit "a.b*?")) (runes (lit "a.bXY")).
Proof.
  split; [by vm_compute|]. split; [by vm_compute|]. split; [by vm_compute|].
  apply (wildcard_exact (lit "a.b*?") (lit "a.bXY")); [apply (bool_decide_unpack _); by vm_compute|by vm_compute].
Defined.
