(* ===== verification/Tokens.v ===== *)
(** * Percent tokens of ssh_config (src/tssh/tokens.go)

    Validation of the values that are substituted and the expansion itself.  The
    host name of the machine, the configured host key alias and SHA-1 are parameters. *)

From S2P Require Import Prelude GoStrings.

Definition host_unsafe : bytes := [39; 96; 34; 36; 92; 59; 38; 60; 62; 124; 40; 41; 123; 125].
Definition user_unsafe : bytes := [39; 96; 34; 59; 38; 60; 62; 124; 40; 41; 123; 125].

Definition isHostValid (host : bytes) : bool :=
  if HasPrefix host (lit "-") then false
  else forallb (fun ch => negb (bool_decide (ch ∈ host_unsafe)) && negb (IsSpace ch || IsControl ch)) (runes host).

(** [`\s-`]: white space directly followed by a dash. *)
Fixpoint space_dash (s : bytes) : bool :=
  match s with
  | [] => false
  | c :: s' =>
      (bool_decide (c ∈ [9; 10; 12; 13; 32]) && HasPrefix s' (lit "-")) || space_dash s'
  end.

Definition isUserValid (user : bytes) : bool :=
  if HasPrefix user (lit "-") then false
  else if ContainsAny user user_unsafe then false
  else if space_dash user then false
  else if HasSuffix user [92] then false
  else true.

Definition isPortValid (port : bytes) : bool :=
  forallb (fun ch => negb ((ch <? 48) || (57 <? ch))) (runes port).

(** What the expansion reads of [sshParam] and of the environment. *)
Record sshParam := {
  pr_host : bytes;
  pr_port : bytes;
  pr_user : bytes;
  pr_proxies : list bytes;
  pr_Destination : bytes;
  pr_HostKeyAlias : bytes
}.

Inductive token_error :=
| TokUnsupported (c : Z)
| TokUnsupportedYet (c : Z)
| TokHostInvalid
| TokPortInvalid
| TokUserInvalid
| TokDestInvalid
| TokProxyInvalid
| TokAliasInvalid
| TokTrailing.

Definition char (s : string) : Z := match lit s with c :: _ => c | [] => 0 end.
Definition PERCENT : Z := 37.

Section Expand.
Context (hostname : bytes) (sha1hex : bytes -> bytes).

(** The text one token stands for. *)
Definition expandToken (param : sshParam) (tokens : bytes) (c : Z) : result token_error bytes :=
  if c =? PERCENT then Ok (EncodeRune PERCENT)
  else if c =? char "h" then
    if isHostValid (pr_host param) then Ok (pr_host param) else Err TokHostInvalid
  else if c =? char "p" then
    if isPortValid (pr_port param) then Ok (pr_port param) else Err TokPortInvalid
  else if c =? char "r" then
    if isUserValid (pr_user param) then Ok (pr_user param) else Err TokUserInvalid
  else if c =? char "n" then
    if isHostValid (pr_Destination param) then Ok (pr_Destination param) else Err TokDestInvalid
  else if c =? char "l" then Ok hostname
  else if c =? char "L" then
    Ok (match IndexByte hostname 46 with Some idx => take idx hostname | None => hostname end)
  else if c =? char "j" then
    match last (pr_proxies param) with
    | Some proxy => if isHostValid proxy then Ok proxy else Err TokProxyInvalid
    | None => Ok []
    end
  else if c =? char "C" then
    let hashStr := hostname ++ pr_host param ++ pr_port param ++ pr_user param in
    Ok (sha1hex (match last (pr_proxies param) with
                 | Some proxy => if bool_decide (char "j" ∈ runes tokens) then hashStr ++ proxy else hashStr
                 | None => hashStr end))
  else if c =? char "k" then
    if negb (bool_decide (pr_HostKeyAlias param = []))
    then if isHostValid (pr_HostKeyAlias param) then Ok (pr_HostKeyAlias param) else Err TokAliasInvalid
    else if isHostValid (pr_Destination param) then Ok (pr_Destination param) else Err TokDestInvalid
  else Err (TokUnsupportedYet c).

(** The loop over the runes; [pending] is the state after a percent sign. *)
Fixpoint expand_loop (param : sshParam) (tokens : bytes) (rs : list Z) (pending : bool) (buf : bytes)
    : result token_error bytes :=
  match rs with
  | [] => if pending then Err TokTrailing else Ok buf
  | c :: rs' =>
      if negb pending then
        if c =? PERCENT then expand_loop param tokens rs' true buf
        else expand_loop param tokens rs' false (buf ++ EncodeRune c)
      else if negb (bool_decide (c ∈ runes tokens)) then Err (TokUnsupported c)
      else (let! t := expandToken param tokens c in expand_loop param tokens rs' false (buf ++ t))%go
  end.

Definition expandTokens (str : bytes) (param : sshParam) (tokens : bytes) : result token_error bytes :=
  if negb (bool_decide (PERCENT ∈ runes str)) then Ok str
  else expand_loop param tokens (runes str) false [].

(** ** Properties *)

Lemma isHostValid_safe host b : isHostValid host = true -> 0 <= b < 128 -> b ∈ host -> b ∉ host_unsafe.
Proof.
  unfold isHostValid. destruct (HasPrefix host (lit "-")); [done|]. intros H Hb Hin.
  rewrite forallb_True, Forall_forall in H. specialize (H b (runes_ascii_byte _ _ Hin (proj2 Hb))).
  cbn in H. to_prop. done.
Qed.

Lemma isPortValid_safe port b : isPortValid port = true -> 0 <= b < 128 -> b ∈ port -> b ∉ host_unsafe.
Proof.
  unfold isPortValid. intros H Hb Hin. rewrite forallb_True, Forall_forall in H.
  specialize (H b (runes_ascii_byte _ _ Hin (proj2 Hb))). cbn in H. to_prop.
  unfold host_unsafe. rewrite list_elem_of_In. cbn. lia.
Qed.

Lemma isUserValid_safe user b : isUserValid user = true -> b ∈ user -> b ∉ user_unsafe.
Proof.
  unfold isUserValid. destruct (HasPrefix user (lit "-")); [done|].
  destruct (ContainsAny user user_unsafe) eqn:E; [done|]. intros _ Hin.
  unfold ContainsAny in E. rewrite existsb_False, Forall_forall in E. specialize (E b Hin). by to_prop.
Qed.

(** Where an unsafe byte of an expansion may come from: the template, the machine's
    own name, or a dollar or backslash in the user name. *)
Definition allowed_source (str : bytes) (param : sshParam) (b : Z) : Prop :=
  b ∈ str \/ b ∈ hostname \/ (b ∈ pr_user param /\ b ∈ [36; 92]).

Hypothesis sha1_hex : forall s b, b ∈ sha1hex s -> 48 <= b <= 57 \/ 97 <= b <= 102.

Lemma expandToken_safe str param tokens c t b :
  c <> PERCENT \/ PERCENT ∈ str -> expandToken param tokens c = Ok t ->
  b ∈ t -> b ∈ host_unsafe -> allowed_source str param b.
Proof.
  intros Hp He Hb Hu. assert (0 <= b < 128) as Hr by (unfold host_unsafe in Hu; rewrite list_elem_of_In in Hu; cbn in Hu; lia).
  unfold expandToken in He.
  repeat (case_match; simplify_eq); to_prop; try done;
    try (by exfalso; eapply isHostValid_safe); try (by exfalso; eapply isPortValid_safe); try (by right; left); try (by apply elem_of_nil in Hb);
    try (by exfalso; apply sha1_hex in Hb; unfold host_unsafe in Hu; rewrite list_elem_of_In in Hu; cbn in Hu; lia).
  - apply EncodeRune_ascii in Hb as ->; [|done]. left. by destruct Hp.
  - right; right. pose proof (isUserValid_safe _ b ltac:(done) Hb) as Hn. split; [done|].
    unfold host_unsafe, user_unsafe in *. rewrite !list_elem_of_In in *. cbn in *. tauto.
  - right; left. by apply elem_of_take in Hb as (i & Hi & _); apply list_elem_of_lookup_2 in Hi.
Qed.

Lemma expand_loop_safe str param tokens rs : forall pending buf out b,
  (forall r, r ∈ rs -> r ∈ runes str) -> PERCENT ∈ str ->
  expand_loop param tokens rs pending buf = Ok out -> b ∈ out -> b ∈ host_unsafe ->
  b ∈ buf \/ allowed_source str param b.
Proof.
  induction rs as [|c rs IH]; intros pending buf out b Hrs Hp; cbn [expand_loop].
  { destruct pending; [done|]. intros [= <-]. auto. }
  assert (c ∈ runes str) as Hc by (apply Hrs, elem_of_cons; by left).
  assert (forall r, r ∈ rs -> r ∈ runes str) as Hrs' by (intros r Hr; apply Hrs, elem_of_cons; by right).
  intros He Hb Hu.
  assert (0 <= b < 128) as Hr by (unfold host_unsafe in Hu; rewrite list_elem_of_In in Hu; cbn in Hu; lia).
  destruct pending; cbn [negb] in He.
  - destruct (bool_decide (c ∈ runes tokens)); [|done]. cbn [negb] in He.
    destruct (expandToken param tokens c) as [t|] eqn:Et; [|done]. cbn [rbind] in He.
    destruct (IH _ _ _ b Hrs' Hp He Hb Hu) as [Hin|]; [|by right].
    apply elem_of_app in Hin as [|Hin]; [by left|]. right. eapply expandToken_safe; eauto.
  - destruct (c =? PERCENT); [by eapply IH|].
    destruct (IH _ _ _ b Hrs' Hp He Hb Hu) as [Hin|]; [|by right].
    apply elem_of_app in Hin as [|Hin]; [by left|]. right. left.
    apply EncodeRune_ascii in Hin as ->; [|done]. by apply runes_ascii_rune.
Qed.

(** Token expansion lets no shell metacharacter in: a quote, backquote, dollar,
    backslash, separator, redirection or bracket in the expanded text comes from the
    template itself, from this machine's own name, or is a dollar or backslash of
    the login name; never from the host, port, destination, jump host or alias. *)
Theorem expandTokens_safe str param tokens out b :
  expandTokens str param tokens = Ok out -> b ∈ out -> b ∈ host_unsafe -> allowed_source str param b.
Proof.
  unfold expandTokens. case_bool_decide as E; cbn [negb].
  - intros He Hb Hu. destruct (expand_loop_safe str param tokens (runes str) false [] out b) as [H|H]; auto.
    + apply runes_ascii_rune; [done|]. unfold PERCENT. lia.
    + by apply elem_of_nil in H.
  - intros [= <-] Hb _. by left.
Qed.

(** Doubling every percent sign. *)
Fixpoint escape (s : bytes) : bytes :=
  match s with
  | [] => []
  | c :: s' => if c =? PERCENT then PERCENT :: PERCENT :: escape s' else c :: escape s'
  end.

Lemma escape_ascii s : is_ascii s = true -> is_ascii (escape s) = true.
Proof.
  unfold is_ascii. induction s as [|c s IH]; [done|]. cbn. intros H. to_prop.
  destruct (c =? PERCENT); cbn; rewrite IH by done; [done|]. by rewrite andb_true_r, Z.ltb_lt.
Qed.

Lemma expand_escape param tokens s : forall buf,
  Forall (fun c => 0 <= c < 128) s -> PERCENT ∈ runes tokens ->
  expand_loop param tokens (escape s) false buf = Ok (buf ++ s).
Proof.
  induction s as [|c s IH]; intros buf Ha Ht; [by cbn; rewrite app_nil_r|].
  apply Forall_cons in Ha as [Hc Ha]. cbn [escape].
  assert (EncodeRune c = [c]) as Ec.
  { unfold EncodeRune. destruct (Z.leb_spec 0 c), (Z.ltb_spec c 128); try lia. done. }
  destruct (Z.eqb_spec c PERCENT) as [->|Hne].
  - cbn [expand_loop negb]. rewrite Z.eqb_refl. cbn [negb]. rewrite bool_decide_eq_true_2 by done. cbn [negb].
    unfold expandToken. rewrite Z.eqb_refl. cbn [rbind]. rewrite IH by done. by rewrite Ec, <- app_assoc.
  - cbn [expand_loop negb]. destruct (Z.eqb_spec c PERCENT); [done|]. rewrite IH, Ec, <- app_assoc by done. done.
Qed.

(** Expansion is the identity on escaped text: an ASCII string with every percent
    sign doubled expands to itself, whatever the connection parameters. *)
Theorem expandTokens_escape param tokens s :
  Forall (fun c => 0 <= c < 128) s -> PERCENT ∈ runes tokens ->
  expandTokens (escape s) param tokens = Ok s.
Proof.
  intros Ha Ht. assert (is_ascii s = true) as Has.
  { apply forallb_True. eapply Forall_impl; [exact Ha|]. cbn. intros c Hc. apply Z.ltb_lt. lia. }
  unfold expandTokens. rewrite runes_of_ascii by (by apply escape_ascii). case_bool_decide as E; cbn [negb].
  - rewrite expand_escape by done. done.
  - f_equal. clear -E. induction s as [|c s IH]; [done|]. cbn in *. destruct (Z.eqb_spec c PERCENT).
    + exfalso. apply E. apply elem_of_cons. by left.
    + apply not_elem_of_cons in E as [_ E]. by rewrite IH.
Qed.
End Expand.

(** ** Witnesses *)

Definition sample_param : sshParam := {|
  pr_host := lit "10.0.0.7"; pr_port := lit "2222"; pr_user := lit "corp$dev"; pr_proxies := [lit "jump"];
  pr_Destination := lit "box"; pr_HostKeyAlias := [] |}.
Definition zero_sha (_ : bytes) : bytes := lit "00".

Lemma expandTokens_safe_witness :
  expandTokens (lit "me") zero_sha (lit "nc %h %p '%r'") sample_param (lit "%hpr") = Ok (lit "nc 10.0.0.7 2222 'corp$dev'") /\
  allowed_source (lit "me") (lit "nc %h %p '%r'") sample_param 36.
Proof.
  assert (expandTokens (lit "me") zero_sha (lit "nc %h %p '%r'") sample_param (lit "%hpr")
          = Ok (lit "nc 10.0.0.7 2222 'corp$dev'")) as H by (vm_compute; reflexivity).
  split; [exact H|].
  apply (expandTokens_safe (lit "me") zero_sha
    ltac:(intros s b Hb; left; unfold zero_sha in Hb; apply list_elem_of_In in Hb; cbn in Hb; lia)
    (lit "nc %h %p '%r'") sample_param (lit "%hpr") _ 36 H).
  - apply (bool_decide_eq_true_1 (36 ∈ lit "nc 10.0.0.7 2222 'corp$dev'")). vm_compute. reflexivity.
  - apply (bool_decide_eq_true_1 (36 ∈ host_unsafe)). vm_compute. reflexivity.
Defined.

Lemma expandTokens_escape_witness :
  expandTokens (lit "me") zero_sha (lit "100%% of %%h") sample_param (lit "%h") = Ok (lit "100% of %h").
Proof.
  apply (expandTokens_escape (lit "me") zero_sha sample_param (lit "%h") (lit "100% of %h")).
  - apply (bool_decide_eq_true_1 (Forall (fun c => 0 <= c < 128) (lit "100% of %h"))). vm_compute. reflexivity.
  - apply (bool_decide_eq_true_1 (PERCENT ∈ runes (lit "%h"))). vm_compute. reflexivity.
Defined.
