(* ===== verification/Forwarding.v ===== *)
(** * Port forwarding specifications (src/tssh/forward.go, args.go)

    The grammars of [-D], [-L] and [-R] and of the forwarding options, with the
    regular expressions of the source written out as recognisers, and the command
    line collections that hold them. *)

From S2P Require Import Prelude GoStrings Tokens.

Record bindCfg := { bc_argument : bytes; bc_addr : option bytes; bc_port : Z }.
Record forwardCfg := {
  fc_udp : bool;
  fc_argument : bytes;
  fc_bindAddr : option bytes;
  fc_bindPort : Z;
  fc_destHost : bytes;
  fc_destPort : Z
}.

Inductive forward_error := ErrBind (s : bytes) | ErrForward (s : bytes) | ErrExpand (e : token_error).

(** ** The regular expressions *)

Definition is_v6char (c : Z) : bool :=
  (c =? 58) || is_digit c || ((97 <=? c) && (c <=? 102)) || ((65 <=? c) && (c <=? 70)).

(** The longest prefix of characters of a class, and the rest. *)
Fixpoint span (f : Z -> bool) (s : bytes) : bytes * bytes :=
  match s with
  | [] => ([], [])
  | c :: s' => if f c then let '(a, b) := span f s' in (c :: a, b) else ([], s)
  end.

(** A non-empty run of a class; the character that follows is outside the class. *)
Definition run (f : Z -> bool) (s : bytes) : option (bytes * bytes) :=
  match span f s with ([], _) => None | (a, b) => Some (a, b) end.
Definition expect (c : Z) (s : bytes) : option bytes :=
  match s with x :: s' => if x =? c then Some s' else None | [] => None end.
Definition digits_end (s : bytes) : option bytes :=
  '(d, r) ← run is_digit s; match r with [] => Some d | _ => None end.
(** [\[([:\da-fA-F]+)\]] *)
Definition bracket (s : bytes) : option (bytes * bytes) :=
  s1 ← expect 91 s; '(a, s2) ← run is_v6char s1; s3 ← expect 93 s2; Some (a, s3).
(** [(\d+):] *)
Definition digits_colon (s : bytes) : option (bytes * bytes) :=
  '(d, s1) ← run is_digit s; s2 ← expect 58 s1; Some (d, s2).
(** [([^:]+):] *)
Definition field_colon (s : bytes) : option (bytes * bytes) :=
  '(d, s1) ← run (fun c => negb (c =? 58)) s; s2 ← expect 58 s1; Some (d, s2).

Definition portOnlyRegexp (s : bytes) : bool := bool_decide (is_Some (digits_end s)).
Definition ipv6AndPortRegexp (s : bytes) : option (bytes * bytes) :=
  '(a, s1) ← bracket s; s2 ← expect 58 s1; p ← digits_end s2; Some (a, p).
Definition doubleIPv6Regexp (s : bytes) : option (bytes * bytes * bytes * bytes) :=
  '(a, s1) ← bracket s; s2 ← expect 58 s1; '(p, s3) ← digits_colon s2;
  '(h, s4) ← bracket s3; s5 ← expect 58 s4; q ← digits_end s5; Some (a, p, h, q).
Definition firstIPv6Regexp (s : bytes) : option (bytes * bytes * bytes * bytes) :=
  '(a, s1) ← bracket s; s2 ← expect 58 s1; '(p, s3) ← digits_colon s2;
  '(h, s4) ← field_colon s3; q ← digits_end s4; Some (a, p, h, q).
(** The first group is optional: without it the match starts with the colon. *)
Definition secondIPv6Regexp (s : bytes) : option (bytes * bytes * bytes * bytes) :=
  let '(a, s1) := span (fun c => negb (c =? 58)) s in
  s2 ← expect 58 s1; '(p, s3) ← digits_colon s2;
  '(h, s4) ← bracket s3; s5 ← expect 58 s4; q ← digits_end s5; Some (a, p, h, q).
Definition middleIPv6Regexp (s : bytes) : option (bytes * bytes * bytes) :=
  '(p, s1) ← digits_colon s; '(h, s2) ← bracket s1; s3 ← expect 58 s2; q ← digits_end s3; Some (p, h, q).
(** [^\/.+$]: a dot does not match a line feed. *)
Definition unixSocketRegexp (s : bytes) : bool :=
  match s with c :: t => (c =? 47) && negb (bool_decide (t = [])) && negb (bool_decide (10 ∈ t)) | [] => false end.

(** ** Bind and forward specifications *)

Definition newBindArg (str : bytes) (addr : option bytes) (port : bytes) : result forward_error bindCfg :=
  match ParseUint port 10 16 with
  | Ok p => Ok {| bc_argument := str; bc_addr := addr; bc_port := p |}
  | Err _ => Err (ErrBind str)
  end.

(** A single colon or slash separated pair whose second part is a port. *)
Definition pair_with_port (sep : Z) (s : bytes) : option (bytes * bytes) :=
  match Split s sep with
  | [a; p] => if portOnlyRegexp p then Some (a, p) else None
  | _ => None
  end.

Definition parseBindCfg (str0 : bytes) : result forward_error bindCfg :=
  let str := TrimSpace str0 in
  if portOnlyRegexp str then newBindArg str None str
  else match pair_with_port 47 str with
  | Some (a, p) => newBindArg str (Some a) p
  | None =>
  match ipv6AndPortRegexp str with
  | Some (a, p) => newBindArg str (Some a) p
  | None =>
  match pair_with_port 58 str with
  | Some (a, p) => newBindArg str (Some a) p
  | None =>
  if unixSocketRegexp str then Ok {| bc_argument := str; bc_addr := Some str; bc_port := -1 |}
  else Err (ErrBind str)
  end end end.

Definition newForwardCfg (udp : bool) (str : bytes) (bindAddr bindPort : option bytes) (destHost : bytes)
    (destPort : option bytes) : result forward_error forwardCfg :=
  let port (p : option bytes) : result forward_error Z :=
    match p with
    | None => Ok (-1)
    | Some p => match ParseUint p 10 16 with Ok v => Ok v | Err _ => Err (ErrForward str) end
    end in
  (let! bPort := port bindPort in
   let! dPort := port destPort in
   Ok {| fc_udp := udp; fc_argument := str; fc_bindAddr := bindAddr; fc_bindPort := bPort;
         fc_destHost := destHost; fc_destPort := dPort |})%go.

Section ForwardCfg.
Context (hostname : bytes) (sha1hex : bytes -> bytes).

(** [parseForwardCfg]: the "bind destination" form of the configuration file. *)
Definition parseForwardCfg (param : sshParam) (udp : bool) (str : bytes) : result forward_error forwardCfg :=
  match expandTokens hostname sha1hex str param (lit "%CdhijkLlnpru") with
  | Err e => Err (ErrExpand e)
  | Ok expanded =>
  match Fields expanded with
  | [t0; dest] =>
      match parseBindCfg t0 with
      | Err _ => Err (ErrForward str)
      | Ok b =>
          let mk (host port : bytes) : result forward_error forwardCfg :=
            match ParseUint port 10 16 with
            | Ok p => Ok {| fc_udp := udp; fc_argument := str; fc_bindAddr := bc_addr b; fc_bindPort := bc_port b;
                            fc_destHost := host; fc_destPort := p |}
            | Err _ => Err (ErrForward str)
            end in
          match pair_with_port 47 dest with
          | Some (h, p) => mk h p
          | None =>
          match ipv6AndPortRegexp dest with
          | Some (h, p) => mk h p
          | None =>
          match pair_with_port 58 dest with
          | Some (h, p) => mk h p
          | None =>
          if unixSocketRegexp dest
          then Ok {| fc_udp := udp; fc_argument := str; fc_bindAddr := bc_addr b; fc_bindPort := bc_port b;
                     fc_destHost := dest; fc_destPort := -1 |}
          else Err (ErrForward str)
          end end end
      end
  | _ => Err (ErrForward str)
  end
  end.
End ForwardCfg.

Definition isUdpPrefix (str : bytes) : bool :=
  match str with
  | a :: b :: c :: d :: _ =>
      ((a =? 117) || (a =? 85)) && ((b =? 100) || (b =? 68)) && ((c =? 112) || (c =? 80))
      && ((d =? 47) || (d =? 58) || (d =? 45) || (d =? 95))
  | _ => false
  end.

(** The slash separated forms of [parseForwardArg]. *)
Definition slash_form (val : bytes) : option (option bytes * bytes * bytes * bytes) :=
  match Split val 47 with
  | [p; h; q] => if portOnlyRegexp p && portOnlyRegexp q then Some (None, p, h, q) else None
  | [a; p; h; q] => if portOnlyRegexp p && portOnlyRegexp q then Some (Some a, p, h, q) else None
  | _ => None
  end.

(** The colon separated forms, unix sockets on either side included: bind address,
    bind port, destination, destination port. *)
Definition colon_form (val : bytes) : option (option bytes * option bytes * bytes * option bytes) :=
  match Split val 58 with
  | [x; y; z] =>
      if portOnlyRegexp x && portOnlyRegexp z then Some (None, Some x, y, Some z)
      else if portOnlyRegexp y && unixSocketRegexp z then Some (Some x, Some y, z, None)
      else if portOnlyRegexp z && unixSocketRegexp x then Some (Some x, None, y, Some z)
      else None
  | [a; p; h; q] => if portOnlyRegexp p && portOnlyRegexp q then Some (Some a, Some p, h, Some q) else None
  | [x; y] =>
      if portOnlyRegexp x && unixSocketRegexp y then Some (None, Some x, y, None)
      else if unixSocketRegexp x && unixSocketRegexp y then Some (Some x, None, y, None)
      else None
  | _ => None
  end.

Definition parseForwardArg (str0 : bytes) : result forward_error forwardCfg :=
  let str := TrimSpace str0 in
  let udp := isUdpPrefix str in
  let val := if udp then drop 4 str else str in
  match slash_form val with
  | Some (a, p, h, q) => newForwardCfg udp str a (Some p) h (Some q)
  | None =>
  match doubleIPv6Regexp val with
  | Some (a, p, h, q) => newForwardCfg udp str (Some a) (Some p) h (Some q)
  | None =>
  match firstIPv6Regexp val with
  | Some (a, p, h, q) => newForwardCfg udp str (Some a) (Some p) h (Some q)
  | None =>
  match secondIPv6Regexp val with
  | Some (a, p, h, q) => newForwardCfg udp str (Some a) (Some p) h (Some q)
  | None =>
  match middleIPv6Regexp val with
  | Some (p, h, q) => newForwardCfg udp str None (Some p) h (Some q)
  | None =>
  match colon_form val with
  | Some (a, p, h, q) => newForwardCfg udp str a p h q
  | None => Err (ErrForward str)
  end end end end end end.

(** ** Command line collections (args.go) *)

(** [sshOption]: values by lower-cased key, in the order given. *)
Abbreviation sshOption := (gmap bytes (list bytes)).

Section Options.
Context `{U : UnicodeTables}.

Definition option_split (s : bytes) : option nat :=
  match IndexByte s 61 with
  | Some pos =>
      match IndexAny (TrimRight (take pos s) [32; 9]) [32; 9] with
      | Some (S p) => Some (S p)
      | _ => Some pos
      end
  | None => IndexAny s [32; 9]
  end.

(** [sshOption.UnmarshalText]; [None] is the error. *)
Definition option_Unmarshal (o : sshOption) (b : bytes) : option sshOption :=
  let s := TrimSpace b in
  pos ← option_split s;
  let key := TrimSpace (take pos s) in
  let value := TrimSpace (drop (S pos) s) in
  if bool_decide (key = []) || bool_decide (value = []) then None
  else Some (<[ToLower key := default [] (o !! ToLower key) ++ [value]]> o).

Definition option_getAll (o : sshOption) (name : bytes) : list bytes := default [] (o !! ToLower name).
Definition option_get (o : sshOption) (name : bytes) : bytes :=
  match option_getAll o name with v :: _ => v | [] => [] end.
End Options.

Definition multiStr_Unmarshal (v : list bytes) (b : bytes) : list bytes := v ++ [b].
Definition bindArgs_Unmarshal (a : list bindCfg) (b : bytes) : result forward_error (list bindCfg) :=
  (let! c := parseBindCfg b in Ok (a ++ [c]))%go.
Definition forwardArgs_Unmarshal (f : list forwardCfg) (b : bytes) : result forward_error (list forwardCfg) :=
  (let! c := parseForwardArg b in Ok (f ++ [c]))%go.

(** ** Ports and sockets *)

Lemma ParseUint16_range p v : ParseUint p 10 16 = Ok v -> 0 <= v <= 65535.
Proof.
  unfold ParseUint. destruct p as [|c p]; [done|].
  assert (forall s acc, 0 <= acc <= 65535 -> parse_uint_go 10 (2 ^ 16 - 1) s acc = Ok v -> 0 <= v <= 65535) as H.
  { induction s as [|d s IH]; intros acc Ha; cbn; [by intros [= <-]|].
    destruct (digit_val d) as [n|] eqn:E; [|done].
    assert (0 <= n) by (unfold digit_val in E; repeat case_match; to_prop; simplify_eq; lia).
    destruct (n <? 10); [|done]. destruct (Z.ltb_spec (2 ^ 16 - 1) (acc * 10 + n)); [done|]. apply IH. lia. }
  apply H. lia.
Qed.

Definition port_ok (p : Z) (unix : Prop) : Prop := 0 <= p <= 65535 \/ (p = -1 /\ unix).

Lemma newForwardCfg_ok udp str a p h q c :
  newForwardCfg udp str a p h q = Ok c ->
  fc_bindAddr c = a /\ fc_destHost c = h /\ fc_udp c = udp /\ fc_argument c = str /\
  port_ok (fc_bindPort c) (p = None) /\ port_ok (fc_destPort c) (q = None).
Proof.
  unfold newForwardCfg, port_ok. intros H.
  destruct p as [p|]; [destruct (ParseUint p 10 16) eqn:E1; [|done]|]; cbn [rbind] in H;
    (destruct q as [q|]; [destruct (ParseUint q 10 16) eqn:E2; [|done]|]); cbn [rbind] in H;
    injection H as <-; cbn; try apply ParseUint16_range in E1; try apply ParseUint16_range in E2; split_and!; auto.
Qed.

Lemma newBindArg_ok str a p c : newBindArg str a p = Ok c -> bc_addr c = a /\ 0 <= bc_port c <= 65535.
Proof.
  unfold newBindArg. destruct (ParseUint p 10 16) eqn:E; [|done]. intros [= <-].
  apply ParseUint16_range in E. done.
Qed.

Lemma colon_form_unix val a p h q :
  colon_form val = Some (a, p, h, q) ->
  (p = None -> exists x, a = Some x /\ unixSocketRegexp x = true) /\ (q = None -> unixSocketRegexp h = true).
Proof.
  unfold colon_form. intros H. repeat case_match; simplify_eq; to_prop; split; intros; try done; eauto.
Qed.

(** Every accepted forwarding has usable ends: each port is a 16-bit port number,
    or is -1 and the corresponding address is a unix socket path; the same holds
    for a bind specification. *)
Theorem forward_ports_valid s :
  (forall c, parseForwardArg s = Ok c ->
     port_ok (fc_bindPort c) (exists x, fc_bindAddr c = Some x /\ unixSocketRegexp x = true) /\
     port_ok (fc_destPort c) (unixSocketRegexp (fc_destHost c) = true)) /\
  (forall b, parseBindCfg s = Ok b ->
     port_ok (bc_port b) (exists x, bc_addr b = Some x /\ unixSocketRegexp x = true)).
Proof.
  assert (forall udp str a p h q c, newForwardCfg udp str a p h q = Ok c ->
    (p = None -> exists x, a = Some x /\ unixSocketRegexp x = true) -> (q = None -> unixSocketRegexp h = true) ->
    port_ok (fc_bindPort c) (exists x, fc_bindAddr c = Some x /\ unixSocketRegexp x = true) /\
    port_ok (fc_destPort c) (unixSocketRegexp (fc_destHost c) = true)) as G.
  { intros udp str a p h q c H Hp Hq. apply newForwardCfg_ok in H as (-> & -> & _ & _ & H1 & H2).
    unfold port_ok in *. destruct H1 as [|[? ?]], H2 as [|[? ?]]; auto. }
  split.
  - intros c. unfold parseForwardArg.
    destruct (slash_form _) as [[[[? ?] ?] ?]|]; [intros H; by eapply G|].
    destruct (doubleIPv6Regexp _) as [[[[? ?] ?] ?]|]; [intros H; by eapply G|].
    destruct (firstIPv6Regexp _) as [[[[? ?] ?] ?]|]; [intros H; by eapply G|].
    destruct (secondIPv6Regexp _) as [[[[? ?] ?] ?]|]; [intros H; by eapply G|].
    destruct (middleIPv6Regexp _) as [[[? ?] ?]|]; [intros H; by eapply G|].
    destruct (colon_form _) as [[[[? ?] ?] ?]|] eqn:E; [|done]. intros H.
    apply colon_form_unix in E as [E1 E2]. by eapply G.
  - intros b. unfold parseBindCfg. unfold port_ok.
    repeat case_match; try done;
      first [ intros [= <-]; cbn; right; by eauto | intros Hb; apply newBindArg_ok in Hb as [_ ?]; by left ].
Qed.

(** ** Writing a specification and reading it back *)

(** A host as it is written: IPv6 addresses in brackets. *)
Definition v6_host (h : bytes) : bool := bool_decide (58 ∈ h).
Definition show_host (h : bytes) : bytes := if v6_host h then [91] ++ h ++ [93] else h.
Definition show_forward (a : bytes) (p : Z) (h : bytes) (q : Z) : bytes :=
  show_host a ++ [58] ++ itoa_nonneg p ++ [58] ++ show_host h ++ [58] ++ itoa_nonneg q.

Definition host_ok (h : bytes) : Prop :=
  h <> [] /\ if v6_host h then forallb is_v6char h = true else 47 ∉ h /\ head h <> Some 91.

Lemma span_all f a r :
  forallb f a = true -> match r with c :: _ => f c = false | [] => True end -> span f (a ++ r) = (a, r).
Proof.
  induction a as [|c a IH]; cbn; intros Ha Hr.
  - destruct r as [|c r]; [done|]. cbn. by rewrite Hr.
  - to_prop. rewrite H. by rewrite IH.
Qed.

Lemma run_all f a r :
  a <> [] -> forallb f a = true -> match r with c :: _ => f c = false | [] => True end -> run f (a ++ r) = Some (a, r).
Proof. intros Hne Ha Hr. unfold run. rewrite span_all by done. by destruct a. Qed.

Lemma itoa_run n r :
  0 <= n -> match r with c :: _ => is_digit c = false | [] => True end ->
  run is_digit (itoa_nonneg n ++ r) = Some (itoa_nonneg n, r).
Proof.
  intros Hn Hr. apply run_all; [apply itoa_nonempty; left; lia| |done].
  apply forallb_True, itoa_digits; [done|constructor].
Qed.

Lemma digits_end_itoa n : 0 <= n -> digits_end (itoa_nonneg n) = Some (itoa_nonneg n).
Proof. intros Hn. unfold digits_end. rewrite <- (app_nil_r (itoa_nonneg n)) at 1. by rewrite itoa_run. Qed.

Lemma digits_colon_itoa n r : 0 <= n -> digits_colon (itoa_nonneg n ++ 58 :: r) = Some (itoa_nonneg n, r).
Proof. intros Hn. unfold digits_colon. by rewrite itoa_run. Qed.

Lemma bracket_host h r :
  h <> [] -> forallb is_v6char h = true -> bracket ([91] ++ h ++ [93] ++ r) = Some (h, r).
Proof.
  intros Hne Hh.
  change (bracket ([91] ++ h ++ [93] ++ r))
    with ('(a, s2) ← run is_v6char (h ++ 93 :: r); s3 ← expect 93 s2; Some (a, s3)).
  by rewrite run_all.
Qed.

Lemma bracket_other c r : c <> 91 -> bracket (c :: r) = None.
Proof. intros H. unfold bracket. cbn. by destruct (Z.eqb_spec c 91). Qed.

Lemma field_colon_host h r : h <> [] -> 58 ∉ h -> field_colon (h ++ 58 :: r) = Some (h, r).
Proof.
  intros Hne Hh. unfold field_colon. rewrite run_all; [done|done| |done].
  apply forallb_True, Forall_forall. intros c Hc. apply negb_true_iff, Z.eqb_neq. by intros ->.
Qed.

Lemma itoa_no c n : is_digit c = false -> 0 <= n -> c ∉ itoa_nonneg n.
Proof.
  intros Hc Hn Hin. assert (Forall (fun c => is_digit c = true) (itoa_nonneg n)) as H
    by (apply itoa_digits; [done|constructor]).
  rewrite Forall_forall in H. apply H in Hin. congruence.
Qed.

(** A plain host in front keeps the bracketed patterns from matching. *)
Lemma bracket_plain h r : host_ok h -> v6_host h = false -> bracket (h ++ r) = None.
Proof.
  intros [Hne Hh] Hv. rewrite Hv in Hh. destruct h as [|c h]; [done|]. apply bracket_other.
  intros ->. by apply Hh.
Qed.

Lemma bracket_digits n r : 0 <= n -> bracket (itoa_nonneg n ++ r) = None.
Proof.
  intros Hn. destruct (itoa_nonneg n) as [|c s] eqn:E; [by apply itoa_nonempty in E; [|left; lia]|].
  apply bracket_other. intros ->. apply (itoa_no 91 n); [done|done|]. rewrite E. apply elem_of_cons. by left.
Qed.

Lemma v6_host_colon h : v6_host h = false -> 58 ∉ h.
Proof. intros H. by apply bool_decide_eq_false in H. Qed.

Lemma v6_no_slash h : forallb is_v6char h = true -> 47 ∉ h.
Proof. intros H Hin. rewrite forallb_True, Forall_forall in H. by apply H in Hin. Qed.

Lemma show_host_no_slash h : host_ok h -> 47 ∉ show_host h.
Proof.
  intros [_ H]. unfold show_host. destruct (v6_host h); [|tauto]. apply v6_no_slash in H.
  rewrite !not_elem_of_app. split_and!; [|done|]; by intros ?%list_elem_of_singleton.
Qed.

Lemma slash_form_show a p h q :
  host_ok a -> host_ok h -> 0 <= p -> 0 <= q -> slash_form (show_forward a p h q) = None.
Proof.
  intros Ha Hh Hp Hq. unfold slash_form. rewrite Split_no_sep; [done|]. unfold show_forward.
  rewrite !not_elem_of_app. split_and!; try (by intros ?%list_elem_of_singleton);
    [by apply show_host_no_slash|by apply itoa_no|by apply show_host_no_slash|by apply itoa_no].
Qed.

Lemma newForwardCfg_itoa udp str a p h q :
  0 <= p < 65536 -> 0 <= q < 65536 ->
  newForwardCfg udp str a (Some (itoa_nonneg p)) h (Some (itoa_nonneg q)) =
  Ok {| fc_udp := udp; fc_argument := str; fc_bindAddr := a; fc_bindPort := p; fc_destHost := h; fc_destPort := q |}.
Proof. intros Hp Hq. unfold newForwardCfg. by rewrite !ParseUint_itoa by (change (2 ^ 16) with 65536; lia). Qed.

Lemma show_v6 h r : v6_host h = true -> show_host h ++ r = [91] ++ h ++ [93] ++ r.
Proof. intros H. unfold show_host. rewrite H. by rewrite <- !app_assoc. Qed.
Lemma show_plain h : v6_host h = false -> show_host h = h.
Proof. intros H. unfold show_host. by rewrite H. Qed.

(** One step of an option computation over a matched colon. *)
Ltac step_opt :=
  cbn [mbind option_bind app expect]; change (58 =? 58) with true; cbv iota; cbn [mbind option_bind].

(** Both hosts, or the first, in brackets. *)
Lemma double_show a p h q :
  host_ok a -> host_ok h -> v6_host a = true -> 0 <= p -> 0 <= q ->
  doubleIPv6Regexp (show_forward a p h q) =
    (if v6_host h then Some (a, itoa_nonneg p, h, itoa_nonneg q) else None) /\
  (v6_host h = false -> firstIPv6Regexp (show_forward a p h q) = Some (a, itoa_nonneg p, h, itoa_nonneg q)).
Proof.
  intros [Ha1 Ha2] Hh Va Hp Hq. rewrite Va in Ha2. unfold doubleIPv6Regexp, firstIPv6Regexp, show_forward.
  rewrite show_v6 by done. rewrite bracket_host by done. step_opt.
  rewrite digits_colon_itoa by done. cbn [mbind option_bind]. split.
  - destruct (v6_host h) eqn:Vh.
    + destruct Hh as [Hh1 Hh2]. rewrite Vh in Hh2. rewrite show_v6 by done. rewrite bracket_host by done.
      step_opt. by rewrite digits_end_itoa.
    + rewrite show_plain by done. by rewrite bracket_plain.
  - intros Vh. rewrite show_plain by done. destruct Hh as [Hh1 _].
    rewrite field_colon_host by (done || by apply v6_host_colon). cbn [mbind option_bind]. by rewrite digits_end_itoa.
Qed.

(** The first host plain. *)
Lemma plain_first a p h q :
  host_ok a -> host_ok h -> v6_host a = false -> 0 <= p -> 0 <= q ->
  doubleIPv6Regexp (show_forward a p h q) = None /\ firstIPv6Regexp (show_forward a p h q) = None /\
  secondIPv6Regexp (show_forward a p h q) = (if v6_host h then Some (a, itoa_nonneg p, h, itoa_nonneg q) else None).
Proof.
  intros Ha Hh Va Hp Hq. unfold doubleIPv6Regexp, firstIPv6Regexp, secondIPv6Regexp, show_forward.
  rewrite (show_plain a) by done. rewrite !bracket_plain by done. split_and!; [done..|].
  cbn [app]. rewrite span_all; [|apply forallb_True, Forall_forall; intros c Hc; apply negb_true_iff, Z.eqb_neq; intros ->; by apply v6_host_colon in Va|done].
  step_opt. rewrite digits_colon_itoa by done. cbn [mbind option_bind].
  destruct (v6_host h) eqn:Vh.
  - destruct Hh as [Hh1 Hh2]. rewrite Vh in Hh2. rewrite show_v6 by done. rewrite bracket_host by done.
    step_opt. by rewrite digits_end_itoa.
  - rewrite show_plain by done. by rewrite bracket_plain.
Qed.

Lemma span_stop f a r :
  forallb f a = false -> exists d c a', span f (a ++ r) = (d, c :: a' ++ r) /\ c ∈ a.
Proof.
  induction a as [|x a IH]; [done|]. cbn [forallb app span]. destruct (f x) eqn:E; cbn [andb]; intros H.
  - destruct (IH H) as (d & c & a' & -> & Hc). exists (x :: d), c, a'. split; [done|]. apply elem_of_cons. by right.
  - exists [], x, a. split; [done|]. apply elem_of_cons. by left.
Qed.

Lemma middle_plain a p h q :
  host_ok a -> v6_host a = false -> 0 <= p -> middleIPv6Regexp (show_forward a p h q) = None.
Proof.
  intros [Hne Ha] Va Hp. apply v6_host_colon in Va as Hc. unfold middleIPv6Regexp, show_forward.
  rewrite (show_plain a) by done. unfold digits_colon. cbn [app].
  destruct (forallb is_digit a) eqn:Ed.
  - rewrite run_all by done. step_opt. by rewrite bracket_digits.
  - unfold run. destruct (span_stop is_digit a (58 :: itoa_nonneg p ++ 58 :: show_host h ++ 58 :: itoa_nonneg q) Ed)
      as (d & c & a' & -> & Hin).
    destruct d as [|x d]; [done|]. cbn [mbind option_bind expect].
    destruct (Z.eqb_spec c 58) as [->|]; [done|]. done.
Qed.

Lemma portOnly_itoa n : 0 <= n -> portOnlyRegexp (itoa_nonneg n) = true.
Proof. intros Hn. apply bool_decide_eq_true_2. by rewrite digits_end_itoa. Qed.

Lemma colon_plain a p h q :
  v6_host a = false -> v6_host h = false -> 0 <= p -> 0 <= q ->
  colon_form (show_forward a p h q) = Some (Some a, Some (itoa_nonneg p), h, Some (itoa_nonneg q)).
Proof.
  intros Va Vh Hp Hq. apply v6_host_colon in Va as Ca, Vh as Ch. unfold colon_form, show_forward.
  rewrite !show_plain by done. cbn [app]. rewrite !Split_app by (done || by apply itoa_no).
  rewrite Split_no_sep by (by apply itoa_no). by rewrite !portOnly_itoa.
Qed.

(** A forwarding written as address:port:host:port, with every IPv6 address in
    brackets, is read back as exactly these four parts, for host names, IPv4 and
    IPv6 addresses on either side. *)
Theorem forward_arg_roundtrip a p h q :
  host_ok a -> host_ok h -> 0 <= p < 65536 -> 0 <= q < 65536 ->
  let str := show_forward a p h q in
  TrimSpace str = str -> isUdpPrefix str = false ->
  parseForwardArg str = Ok {| fc_udp := false; fc_argument := str; fc_bindAddr := Some a; fc_bindPort := p;
                              fc_destHost := h; fc_destPort := q |}.
Proof.
  intros Ha Hh Hp Hq str Ht Hu. unfold parseForwardArg. rewrite Ht, Hu. unfold str.
  rewrite slash_form_show by (done || lia). destruct (v6_host a) eqn:Va.
  - destruct (double_show a p h q Ha Hh Va ltac:(lia) ltac:(lia)) as [-> Hfirst].
    destruct (v6_host h) eqn:Vh; [by apply newForwardCfg_itoa|]. rewrite Hfirst by done.
    by apply newForwardCfg_itoa.
  - destruct (plain_first a p h q Ha Hh Va ltac:(lia) ltac:(lia)) as (-> & -> & ->).
    destruct (v6_host h) eqn:Vh; [by apply newForwardCfg_itoa|].
    rewrite middle_plain by (done || lia). rewrite colon_plain by (done || lia). by apply newForwardCfg_itoa.
Qed.

(** ** Options *)

Section OptionProofs.
Context `{U : UnicodeTables}.

(** Options accumulate per name: an accepted [-o] argument adds one value at the end
    of its own list and changes no other, so the first value given for a name stays
    the one that is used. *)
Theorem option_first_wins o b o' :
  option_Unmarshal o b = Some o' ->
  exists key value, key <> [] /\ value <> [] /\
    option_getAll o' key = option_getAll o key ++ [value] /\
    (forall name, ToLower name <> ToLower key -> option_getAll o' name = option_getAll o name) /\
    (forall name, option_get o name <> [] -> option_get o' name = option_get o name).
Proof.
  unfold option_Unmarshal. destruct (option_split (TrimSpace b)) as [pos|]; [|done]. cbn.
  set (key := TrimSpace (take pos _)). set (value := TrimSpace (drop (S pos) _)).
  destruct (bool_decide (key = [])) eqn:E1, (bool_decide (value = [])) eqn:E2; try done. cbn.
  intros [= <-]. apply bool_decide_eq_false in E1, E2. exists key, value.
  assert (forall name, ToLower name <> ToLower key -> option_getAll (<[ToLower key := default [] (o !! ToLower key) ++ [value]]> o) name
            = option_getAll o name) as Hother.
  { intros name Hn. unfold option_getAll. by rewrite lookup_insert_ne by congruence. }
  assert (option_getAll (<[ToLower key := default [] (o !! ToLower key) ++ [value]]> o) key = option_getAll o key ++ [value]) as Hkey.
  { unfold option_getAll. by rewrite lookup_insert, decide_True. }
  split_and!; [done..|]. intros name Hn. unfold option_get in *.
  destruct (decide (ToLower name = ToLower key)) as [E|E]; [|by rewrite Hother].
  assert (forall o' : sshOption, option_getAll o' name = option_getAll o' key) as Hsame
    by (intros o'; unfold option_getAll; by rewrite E).
  rewrite Hsame in Hn. rewrite !Hsame, Hkey. by destruct (option_getAll o key).
Qed.
End OptionProofs.

(** ** Witnesses *)
#[local] Existing Instance caseless_tables.

Lemma forward_arg_roundtrip_witness :
  parseForwardArg (lit "[::1]:8080:example.com:80") =
    Ok {| fc_udp := false; fc_argument := lit "[::1]:8080:example.com:80"; fc_bindAddr := Some (lit "::1");
          fc_bindPort := 8080; fc_destHost := lit "example.com"; fc_destPort := 80 |}.
Proof.
  apply (forward_arg_roundtrip (lit "::1") 8080 (lit "example.com") 80).
  - split; [discriminate|]. vm_compute. reflexivity.
  - split; [discriminate|]. cbn. split; [|discriminate].
    apply (bool_decide_eq_true_1 (47 ∉ lit "example.com")). vm_compute. reflexivity.
  - lia.
  - lia.
  - vm_compute. reflexivity.
  - vm_compute. reflexivity.
Defined.

Definition sample_options : sshOption := {[lit "user" := [lit "root"]]}.

Lemma option_first_wins_witness :
  exists key value, key <> [] /\ value <> [] /\
    option_getAll (<[lit "user" := [lit "root"; lit "me"]]> ∅) key = option_getAll sample_options key ++ [value] /\
    (forall name, ToLower name <> ToLower key ->
       option_getAll (<[lit "user" := [lit "root"; lit "me"]]> ∅) name = option_getAll sample_options name) /\
    (forall name, option_get sample_options name <> [] ->
       option_get (<[lit "user" := [lit "root"; lit "me"]]> ∅) name = option_get sample_options name).
Proof.
  apply (option_first_wins sample_options (lit "User = me")). vm_compute. reflexivity.
Defined.

Lemma forward_ports_valid_witness :
  port_ok 8080 (exists x, Some (lit "lo") = Some x /\ unixSocketRegexp x = true) /\
  port_ok (-1) (unixSocketRegexp (lit "/run/s") = true).
Proof.
  apply (proj1 (forward_ports_valid (lit " lo:8080:/run/s"))
           {| fc_udp := false; fc_argument := lit "lo:8080:/run/s"; fc_bindAddr := Some (lit "lo");
              fc_bindPort := 8080; fc_destHost := lit "/run/s"; fc_destPort := -1 |}).
  vm_compute. reflexivity.
Defined.
