(* ===== verification/KnownHosts.v ===== *)
(** * Host key checking of the ssh client

    src/tssh/known_hosts.go: which files are consulted, what happens to a key the database
    does not vouch for, and how an accepted key is written to the user's file.  The database
    (github.com/skeema/knownhosts) answers one of four verdicts; its rendering of a key as a
    line, its host normalisation and the key's fingerprint are arguments. *)

From S2P Require Import Prelude GoStrings Tokens.

Local Open Scope go_scope.

(** ** Paths *)

(** [filepath.Clean] and [filepath.Join] of two elements, with a slash. *)
Definition clean_step (rooted : bool) (acc : list bytes) (c : bytes) : list bytes :=
  if bool_decide (c = []) || bool_decide (c = lit ".") then acc
  else if bool_decide (c = lit "..") then
    match acc with
    | x :: acc' => if bool_decide (x = lit "..") then c :: acc else acc'
    | [] => if rooted then [] else [c]
    end
  else c :: acc.
Definition Clean (path : bytes) : bytes :=
  if bool_decide (path = []) then lit "."
  else
    let rooted := HasPrefix path (lit "/") in
    let out := Join (rev (fold_left (clean_step rooted) (Split path 47) [])) (lit "/") in
    if rooted then 47 :: out else if bool_decide (out = []) then lit "." else out.
Definition Join2 (a b : bytes) : bytes :=
  if bool_decide (a = []) then if bool_decide (b = []) then [] else Clean b
  else if bool_decide (b = []) then Clean a
  else Clean (a ++ 47 :: b).

Definition resolveHomeDir (userHomeDir path : bytes) : bytes :=
  if HasPrefix path (lit "~/") || HasPrefix path [126; 92] then Join2 userHomeDir (drop 2 path) else path.

Section HostKeys.
Context `{U : UnicodeTables}.
Context (Line : bytes -> bytes -> bytes) (Normalize : bytes -> bytes) (Fingerprint : bytes -> bytes).

(** ** Known hosts files *)

(** [addKnownHostsFiles]: the primary path and the readable files so far. *)
Section Files.
Context (hostname : bytes) (sha1hex : bytes -> bytes) (userHomeDir : bytes) (param : sshParam)
        (isFileExist canReadFile : bytes -> bool).

Fixpoint add_files (user : bool) (paths : list bytes) (st : bytes * list bytes) : result token_error (bytes * list bytes) :=
  match paths with
  | [] => Ok st
  | path :: paths' =>
      let '(primaryPath, files) := st in
      let keep resolvedPath := if isFileExist resolvedPath && canReadFile resolvedPath then files ++ [resolvedPath] else files in
      if user then
        let! expandedPath := expandTokens hostname sha1hex path param (lit "%CdhijkLlnpru") in
        let resolvedPath := resolveHomeDir userHomeDir expandedPath in
        add_files user paths' (if bool_decide (primaryPath = []) then resolvedPath else primaryPath, keep resolvedPath)
      else add_files user paths' (primaryPath, keep path)
  end.
Definition addKnownHostsFiles (user : bool) (knownHostsFiles : list bytes) (st : bytes * list bytes)
  : result token_error (bytes * list bytes) :=
  match knownHostsFiles with
  | [] => Ok st
  | [f] => if bool_decide (ToLower f = lit "none") then Ok st else add_files user [f] st
  | _ => add_files user knownHostsFiles st
  end.
(** The files of [getHostKeyCallback], and where new keys are written. *)
Definition known_hosts_files (userFiles globalFiles : list bytes) : result token_error (bytes * list bytes) :=
  let! st := addKnownHostsFiles true userFiles ([], []) in
  addKnownHostsFiles false globalFiles st.
End Files.

(** ** Writing a key *)

(** The file's content after [ensureNewline]; an empty file has no last byte to look at. *)
Definition ensureNewline (content : bytes) : bytes :=
  match last content with
  | None => content
  | Some c => if c =? 10 then content else content ++ [10]
  end.

(** What can go wrong with the file: it cannot be opened, or a write stops after some bytes. *)
Inductive file_fault := NoFault | OpenFails | WriteFails (n : nat).

(** [writeKnownHost]: the new content, and whether it succeeded. *)
Definition writeKnownHost (content host key : bytes) (fault : file_fault) : bytes * bool :=
  match fault with
  | OpenFails => (content, false)
  | _ =>
      let content := ensureNewline content in
      let hostNormalized := Normalize host in
      if ContainsAny hostNormalized [9; 32] then (content, false)
      else
        let line := Line hostNormalized key ++ [10] in
        match fault with
        | WriteFails n => (content ++ take n line, false)
        | _ => (content ++ line, true)
        end
  end.

(** ** Asking the user *)

Inductive key_error := HostKeyChanged | NotTrusted | InputFailed | Refused.

(** The lines typed until a decision; running out of them is a failed read. *)
Fixpoint ask_user (fingerprint : bytes) (inputs : list bytes) : result key_error unit :=
  match inputs with
  | [] => Err InputFailed
  | input :: inputs' =>
      let input := TrimSpace input in
      if bool_decide (input = fingerprint) then Ok tt
      else
        let input := ToLower input in
        if bool_decide (input = lit "yes") then Ok tt
        else if bool_decide (input = lit "no") then Err NotTrusted
        else ask_user fingerprint inputs'
  end.

(** ** The callback *)

(** The process: the keys accepted, whether a login has succeeded, and the primary file. *)
Record key_state := mkKS { acceptHostKeys : list bytes; sshLoginSuccess : bool; primaryFile : bytes }.

(** [addHostKey]; [kb] is what the keyboard gives, [None] when it cannot be opened. *)
Definition addHostKey (host key : bytes) (ask : bool) (kb : option (list bytes)) (fault : file_fault) (s : key_state)
  : result key_error unit * key_state :=
  let keyNormalizedLine := Line host key in
  if bool_decide (keyNormalizedLine ∈ acceptHostKeys s) then (Ok tt, s)
  else if sshLoginSuccess s then (Err HostKeyChanged, s)
  else
    match (if ask then match kb with None => Err InputFailed | Some inputs => ask_user (Fingerprint key) inputs end else Ok tt) with
    | Err e => (Err e, s)
    | Ok _ =>
        let '(content, _) := writeKnownHost (primaryFile s) host key fault in
        (Ok tt, mkKS (acceptHostKeys s ++ [keyNormalizedLine]) (sshLoginSuccess s) content)
    end.

(** What the database says of a host and a key. *)
Inductive verdict := Known | Changed | Unknown | OtherError.

Definition strict_off (strict : bytes) : bool :=
  bool_decide (strict = lit "no") || bool_decide (strict = lit "off") || bool_decide (strict = lit "false").

Definition hostKeyCallback (primaryPath : bytes) (v : verdict) (setting : bytes) (host key : bytes)
    (kb : option (list bytes)) (fault : file_fault) (s : key_state) : result key_error unit * key_state :=
  let strict := ToLower setting in
  let fallback := if strict_off strict then Ok tt else Err Refused in
  match v with
  | Known => (Ok tt, s)
  | Unknown =>
      if bool_decide (primaryPath = []) then (fallback, s)
      else if bool_decide (strict = lit "yes") || bool_decide (strict = lit "true") then (Err Refused, s)
      else
        let ask := negb (bool_decide (strict = lit "accept-new") || strict_off strict) in
        addHostKey host key ask kb fault s
  | Changed | OtherError => (fallback, s)
  end.

(** ** A process: checks, and the moment the login succeeds *)

Inductive key_event :=
| Check (v : verdict) (setting : bytes) (host key : bytes) (kb : option (list bytes)) (fault : file_fault)
| LoginSuccess.
Definition key_step (primaryPath : bytes) (ev : key_event) (s : key_state) : result key_error unit * key_state :=
  match ev with
  | Check v setting host key kb fault => hostKeyCallback primaryPath v setting host key kb fault s
  | LoginSuccess => (Ok tt, mkKS (acceptHostKeys s) true (primaryFile s))
  end.
Definition key_run (primaryPath : bytes) (evs : list key_event) (s : key_state) : key_state :=
  fold_left (fun s ev => (key_step primaryPath ev s).2) evs s.

(** The user typed [yes] or the fingerprint, and nothing decisive before. *)
Definition undecided (fingerprint input : bytes) : Prop :=
  TrimSpace input <> fingerprint /\ ToLower (TrimSpace input) <> lit "yes" /\ ToLower (TrimSpace input) <> lit "no".
Definition agreed (fingerprint : bytes) (inputs : list bytes) : Prop :=
  exists before input after, inputs = before ++ input :: after /\ Forall (undecided fingerprint) before /\
    (TrimSpace input = fingerprint \/ ToLower (TrimSpace input) = lit "yes").

Lemma ask_user_agreed fp inputs : ask_user fp inputs = Ok tt -> agreed fp inputs.
Proof.
  induction inputs as [|x inputs IH]; [done|]. cbn [ask_user]. cbv zeta.
  destruct (bool_decide (TrimSpace x = fp)) eqn:E1; to_prop; [intros _; exists [], x, inputs; auto|].
  destruct (bool_decide (ToLower (TrimSpace x) = lit "yes")) eqn:E2; to_prop; [intros _; exists [], x, inputs; auto|].
  destruct (bool_decide (ToLower (TrimSpace x) = lit "no")) eqn:E3; to_prop; [done|]. intros H.
  destruct (IH H) as (b & y & a & -> & Hb & Hy). exists (x :: b), y, a. split; [done|]. split; [|done]. by constructor.
Qed.

(** A check before the login succeeded at which an unknown key was let in: by the setting, or by
    the user. *)
Definition admits (primaryPath line : bytes) (ev : key_event) : Prop :=
  match ev with
  | Check Unknown setting host key kb _ =>
      primaryPath <> [] /\ Line host key = line /\
      ToLower setting <> lit "yes" /\ ToLower setting <> lit "true" /\
      (ToLower setting = lit "accept-new" \/ strict_off (ToLower setting) = true \/
       exists inputs, kb = Some inputs /\ agreed (Fingerprint key) inputs)
  | _ => False
  end.
Definition admitted (primaryPath line : bytes) (evs : list key_event) : Prop :=
  exists before ev after, evs = before ++ ev :: after /\ LoginSuccess ∉ before /\ admits primaryPath line ev.

Lemma admitted_app p line evs evs' : admitted p line evs -> admitted p line (evs ++ evs').
Proof.
  intros (b & ev & a & -> & Hb & He). exists b, ev, (a ++ evs'). split; [by rewrite <- app_assoc|done].
Qed.

(** What the process knows after some events. *)
Definition key_inv (p : bytes) (evs : list key_event) (s : key_state) : Prop :=
  (forall line, line ∈ acceptHostKeys s -> admitted p line evs) /\ (sshLoginSuccess s = false -> LoginSuccess ∉ evs).

Lemma addHostKey_spec host key ask kb fault s r s' :
  addHostKey host key ask kb fault s = (r, s') ->
  sshLoginSuccess s' = sshLoginSuccess s /\
  ((acceptHostKeys s' = acceptHostKeys s /\ (r = Ok tt -> Line host key ∈ acceptHostKeys s)) \/
   (r = Ok tt /\ acceptHostKeys s' = acceptHostKeys s ++ [Line host key] /\ sshLoginSuccess s = false /\
    (ask = true -> exists inputs, kb = Some inputs /\ agreed (Fingerprint key) inputs))).
Proof.
  unfold addHostKey. cbv zeta. destruct (bool_decide (Line host key ∈ acceptHostKeys s)) eqn:E; to_prop.
  { intros [= <- <-]. split; [done|]. by left. }
  destruct (sshLoginSuccess s) eqn:El. { intros [= <- <-]. split; [done|]. by left. }
  destruct (if ask then _ else _) as [u|e] eqn:Ea; [|intros [= <- <-]; split; [done|]; by left].
  destruct (writeKnownHost _ _ _ _) as [c w]. intros [= <- <-]. split; [done|]. right. repeat split; auto.
  intros ->. destruct kb as [inputs|]; [|done]. exists inputs. split; [done|]. destruct u. by apply ask_user_agreed.
Qed.

Lemma key_step_inv p evs ev s : key_inv p evs s -> key_inv p (evs ++ [ev]) (key_step p ev s).2.
Proof.
  intros [Ha Hl].
  assert (forall s', acceptHostKeys s' = acceptHostKeys s -> sshLoginSuccess s' = sshLoginSuccess s -> ev <> LoginSuccess ->
            key_inv p (evs ++ [ev]) s') as Hsame.
  { intros s' E1 E2 Hne. split; [intros line Hli; rewrite E1 in Hli; by apply admitted_app, Ha|].
    rewrite E2. intros Hs. rewrite not_elem_of_app. split; [auto|]. rewrite list_elem_of_singleton. done. }
  destruct ev as [v setting host key kb fault|]; cbn [key_step].
  2:{ split; [intros line Hli; by apply admitted_app, Ha|done]. }
  unfold hostKeyCallback. cbv zeta. destruct v; try (by apply Hsame).
  destruct (bool_decide (p = [])) eqn:Ep; [by apply Hsame|]. to_prop.
  destruct (_ || _) eqn:Ey; [by apply Hsame|]. to_prop.
  destruct (addHostKey _ _ _ _ _ _) as [r s'] eqn:E. apply addHostKey_spec in E as [Es [[E1 _]|(-> & E1 & Eln & Hag)]]; [by apply Hsame|].
  specialize (Hl Eln). split; cbn [snd].
  - rewrite E1. intros line [Hli|Hli]%elem_of_app; [by apply admitted_app, Ha|]. apply list_elem_of_singleton in Hli as ->.
    exists evs, (Check Unknown setting host key kb fault), []. split; [done|]. split; [done|]. cbn. repeat split; auto.
    destruct (bool_decide (ToLower setting = lit "accept-new")) eqn:En; to_prop; [by left|].
    destruct (strict_off (ToLower setting)) eqn:Eo; [by right; left|]. right; right. by apply Hag.
  - intros _. rewrite not_elem_of_app. split; [done|]. by rewrite list_elem_of_singleton.
Qed.

Lemma key_run_inv p evs' : forall evs s, key_inv p evs s -> key_inv p (evs ++ evs') (key_run p evs' s).
Proof.
  induction evs' as [|ev evs' IH]; intros evs s H; cbn; [by rewrite app_nil_r|].
  change (ev :: evs') with ([ev] ++ evs'). rewrite app_assoc. apply IH. by apply key_step_inv.
Qed.

Definition fresh_process (file : bytes) : key_state := mkKS [] false file.

(** The same without the line: a check of this host, up to normalisation, and exactly this key,
    before the login succeeded, at which the key was let in. *)
Definition let_in (primaryPath host key : bytes) (ev : key_event) : Prop :=
  match ev with
  | Check Unknown setting host' key' kb _ =>
      primaryPath <> [] /\ Normalize host' = Normalize host /\ key' = key /\
      ToLower setting <> lit "yes" /\ ToLower setting <> lit "true" /\
      (ToLower setting = lit "accept-new" \/ strict_off (ToLower setting) = true \/
       exists inputs, kb = Some inputs /\ agreed (Fingerprint key) inputs)
  | _ => False
  end.

Lemma accepted_reason p file evs v setting host key kb fault :
  (hostKeyCallback p v setting host key kb fault (key_run p evs (fresh_process file))).1 = Ok tt ->
  v = Known \/
  (v <> Known /\ (v = Unknown -> p = []) /\ strict_off (ToLower setting) = true) \/
  (v = Unknown /\ ToLower setting <> lit "yes" /\ ToLower setting <> lit "true" /\
   admitted p (Line host key) (evs ++ [Check v setting host key kb fault])).
Proof.
  intros H. set (s := key_run p evs (fresh_process file)) in *.
  assert (key_inv p evs s) as I.
  { apply (key_run_inv p evs [] (fresh_process file)). split; [by intros line ?%elem_of_nil|]. intros _. apply not_elem_of_nil. }
  pose proof (key_step_inv p evs (Check v setting host key kb fault) s I) as [Ha _].
  clearbody s. cbn [key_step] in Ha. revert H Ha. unfold hostKeyCallback. cbv zeta.
  assert (forall A, (if strict_off (ToLower setting) then Ok tt else Err Refused) = Ok tt ->
            (A -> strict_off (ToLower setting) = true)) as Hoff by (intros A; by destruct (strict_off _)).
  destruct v; [by left| | |]; intros H Ha.
  - right; left. split; [done|]. split; [done|]. by apply (Hoff True).
  - destruct (bool_decide (p = [])) eqn:Ep; to_prop; [right; left; split; [done|]; split; [done|]; by apply (Hoff True)|].
    destruct (_ || _) eqn:Ey; [done|]. to_prop. right; right. repeat split; auto. apply Ha.
    destruct (addHostKey _ _ _ _ _ _) as [r s'] eqn:E. cbn in *. apply addHostKey_spec in E as [_ [[E1 E2]|(_ & E1 & _)]]; rewrite E1.
    + auto.
    + apply elem_of_app. right. by apply list_elem_of_singleton.
  - right; left. split; [done|]. split; [done|]. by apply (Hoff True).
Qed.

(** C3: No host key is accepted without a reason.  [knownhosts.Line] writes the normalised host
    and the key, so equal lines mean the same host up to normalisation and the same key.  Then,
    in any sequence of checks, a key that the database does not vouch for is accepted only if
    checking is switched off and the database found it changed or cannot say (or there is no
    file to add it to), or it is unknown, StrictHostKeyChecking is neither yes nor true, and
    exactly this key of this host was let in at this or an earlier check before the login
    succeeded, because the setting at that check was accept-new or off, or the user typed yes or
    the key's fingerprint there before any no.  A changed key is accepted only with checking
    switched off, and after a successful login no new key is let in. *)
Theorem host_keys_vouched p file evs v setting host key kb fault :
  (forall h k h' k', Line h k = Line h' k' -> Normalize h = Normalize h' /\ k = k') ->
  (hostKeyCallback p v setting host key kb fault (key_run p evs (fresh_process file))).1 = Ok tt ->
  v = Known \/
  (v <> Known /\ (v = Unknown -> p = []) /\ strict_off (ToLower setting) = true) \/
  (v = Unknown /\ ToLower setting <> lit "yes" /\ ToLower setting <> lit "true" /\
   exists before ev after, evs ++ [Check v setting host key kb fault] = before ++ ev :: after /\
     LoginSuccess ∉ before /\ let_in p host key ev).
Proof.
  intros Hinj [H|[H|(H1 & H2 & H3 & b & ev & a & He & Hb & Hin)]]%accepted_reason; [auto|auto|].
  right. right. split_and!; try done. exists b, ev, a. split_and!; try done.
  destruct ev as [[] set' h' k' kb' f'|]; try done. destruct Hin as (A1 & A2 & A3 & A4 & A5).
  destruct (Hinj _ _ _ _ A2) as [Hn <-]. done.
Qed.

(** ** The file *)

(** The entries of a known hosts file: its lines that are not blank. *)
Definition entries (content : bytes) : list bytes := filter (fun l => l <> []) (Split content 10).

Lemma Split_nonempty s : Split s 10 <> [].
Proof. induction s as [|c s IH]; cbn; [done|]. destruct (c =? 10); [done|]. by destruct (Split s 10). Qed.

Lemma Split_newline a b : Split (a ++ 10 :: b) 10 = Split a 10 ++ Split b 10.
Proof.
  induction a as [|c a IH]; [done|]. cbn. destruct (c =? 10); [by rewrite IH|]. rewrite IH.
  pose proof (Split_nonempty a). by destruct (Split a 10).
Qed.

Lemma entries_newline a b : entries (a ++ 10 :: b) = entries a ++ entries b.
Proof. unfold entries. by rewrite Split_newline, filter_app. Qed.

Lemma entries_ended a : entries (a ++ [10]) = entries a.
Proof. rewrite entries_newline. change (entries []) with (@nil bytes). by rewrite app_nil_r. Qed.

Lemma entries_ensure content rest : entries (ensureNewline content ++ rest) = entries content ++ entries rest.
Proof.
  unfold ensureNewline. destruct (last content) as [c|] eqn:E.
  - destruct (c =? 10) eqn:Ec; to_prop.
    + subst c. apply last_Some in E as [l ->]. rewrite entries_ended, <- app_assoc. apply entries_newline.
    + rewrite <- app_assoc. apply entries_newline.
  - apply last_None in E as ->. done.
Qed.

Lemma entries_line l : 10 ∉ l -> entries l = if bool_decide (l = []) then [] else [l].
Proof.
  intros H. unfold entries. rewrite (Split_no_sep _ _ H).
  destruct (bool_decide (l = [])) eqn:E; to_prop; [subst; done|]. by rewrite filter_cons_True.
Qed.

(** Adding a host key never damages the known hosts file, whatever its last byte is and
    whatever fails: the entries it had stay as they are and in front; a successful write adds
    exactly one entry, the line of the key; and after a write that failed half way the next
    key still gets a line of its own. *)
Theorem known_hosts_append content host key fault content' ok :
  10 ∉ Line (Normalize host) key -> Line (Normalize host) key <> [] ->
  writeKnownHost content host key fault = (content', ok) ->
  (if ok then entries content' = entries content ++ [Line (Normalize host) key]
   else entries content' = entries content \/
        exists part, part `prefix_of` Line (Normalize host) key /\ entries content' = entries content ++ [part]) /\
  (forall host' key', 10 ∉ Line (Normalize host') key' -> Line (Normalize host') key' <> [] ->
     ContainsAny (Normalize host') [9; 32] = false ->
     entries (writeKnownHost content' host' key' NoFault).1 = entries content' ++ [Line (Normalize host') key']).
Proof.
  assert (forall l, 10 ∉ l -> l <> [] -> forall c, entries (ensureNewline c ++ l ++ [10]) = entries c ++ [l]) as Hadd.
  { intros l Hl Hne c. rewrite entries_ensure, entries_ended, (entries_line l Hl). by rewrite bool_decide_false. }
  intros Hnl Hne H. split.
  2:{ intros h' k' Hl' Hne' Hc. unfold writeKnownHost. rewrite Hc. cbn [fst]. by apply Hadd. }
  unfold writeKnownHost in H.
  assert (forall c, entries (ensureNewline c) = entries c) as Hens.
  { intros c. rewrite <- (app_nil_r (ensureNewline c)), entries_ensure. change (entries []) with (@nil bytes). by rewrite app_nil_r. }
  destruct fault as [| |n]; [| by injection H as <- <-; left|]; destruct (ContainsAny _ _); injection H as <- <-; try (left; apply Hens).
  - by apply Hadd.
  - destruct (decide (length (Line (Normalize host) key) < n)%nat) as [Hn|Hn].
    + rewrite take_ge by (rewrite length_app; cbn; lia). right. eexists. split; [reflexivity|]. by apply Hadd.
    + rewrite take_app_le by lia. set (part := take n _). assert (10 ∉ part) as Hp.
      { intros Hi. apply Hnl. apply (subseteq_take n). exact Hi. }
      rewrite entries_ensure, (entries_line part Hp). destruct (bool_decide (part = [])); [left; by rewrite app_nil_r|].
      right. exists part. split; [apply prefix_take|done].
Qed.
End HostKeys.

(** *** Examples *)

Definition plain_line (host key : bytes) : bytes := host ++ 32 :: key.
(** A line that shows where the host ends, as the real one does. *)
Definition sized_line (host key : bytes) : bytes := Z.of_nat (length host) :: host ++ key.
Lemma sized_line_inj h k h' k' : sized_line h k = sized_line h' k' -> h = h' /\ k = k'.
Proof. unfold sized_line. intros [= Hl H]. apply app_inj_1 in H; [done|lia]. Qed.
Lemma host_keys_vouched_witness :
  let U := caseless_tables in
  let ask := Check Unknown (lit "ask") (lit "h") (lit "K") (Some [lit "what"; lit " Yes "]) NoFault in
  (hostKeyCallback sized_line (fun h => h) (fun k => k) (lit "/kh") Unknown (lit "ask") (lit "h") (lit "K") None NoFault
     (key_run sized_line (fun h => h) (fun k => k) (lit "/kh") [ask; LoginSuccess] (fresh_process []))).1 = Ok tt /\
  exists before ev after, [ask; LoginSuccess] ++ [Check Unknown (lit "ask") (lit "h") (lit "K") None NoFault] = before ++ ev :: after /\
    LoginSuccess ∉ before /\ let_in (fun h => h) (fun k => k) (lit "/kh") (lit "h") (lit "K") ev.
Proof.
  cbv zeta. split; [reflexivity|].
  destruct (@host_keys_vouched caseless_tables sized_line (fun h => h) (fun k => k) (lit "/kh") []
    [Check Unknown (lit "ask") (lit "h") (lit "K") (Some [lit "what"; lit " Yes "]) NoFault; LoginSuccess]
    Unknown (lit "ask") (lit "h") (lit "K") None NoFault sized_line_inj eq_refl) as [H|[(_ & _ & H)|(_ & _ & _ & H)]].
  - discriminate H.
  - vm_compute in H. discriminate H.
  - exact H.
Defined.

Lemma known_hosts_append_witness :
  entries (writeKnownHost plain_line (fun h => h) (lit "a K1") (lit "b") (lit "K2") NoFault).1 = [lit "a K1"; lit "b K2"].
Proof.
  destruct (writeKnownHost plain_line (fun h => h) (lit "a K1") (lit "b") (lit "K2") NoFault) as [c ok] eqn:E.
  pose proof (known_hosts_append plain_line (fun h => h) (lit "a K1") (lit "b") (lit "K2") NoFault c ok
    ltac:(vm_compute; intros H; repeat (apply elem_of_cons in H as [H|H]; [discriminate H|]); by apply elem_of_nil in H)
    ltac:(discriminate) E) as [H _].
  vm_compute in E. injection E as <- <-. exact H.
Defined.
