(* ===== verification/X11.v ===== *)
(** * X11 forwarding of the ssh client

    src/tssh/forward_x11.go and xauth.go: whether to forward, where the display is, the
    authorization cookies, and the check of the first packet of every X11 connection, in
    which the cookie made up for the server is replaced by the real one. *)

From S2P Require Import Prelude GoStrings SshTime.

Local Open Scope go_scope.

(** ** Settings *)

Section Settings.
Context `{U : UnicodeTables}.

Record x11_args := { NoX11Forward : bool; X11Forward : bool; X11Trusted : bool }.

(** The first guard of [sshX11Forward]; [opt] is ForwardX11. *)
Definition x11_requested (a : x11_args) (opt : bytes) : bool :=
  negb (NoX11Forward a || negb (X11Forward a) && negb (X11Trusted a) && negb (bool_decide (ToLower opt = lit "yes"))).

(** Trusted forwarding; [opt] is ForwardX11Trusted. *)
Definition x11_trusted (a : x11_args) (opt : bytes) (inRemoteSsh : bool) : bool :=
  if X11Trusted a then true
  else if bool_decide (ToLower opt = lit "yes") then true
  else if bool_decide (ToLower opt = lit "no") then false
  else inRemoteSsh.

(** The timeout in seconds; [opt] is ForwardX11Timeout. *)
Definition x11_timeout (opt : bytes) : option Z :=
  if bool_decide (opt = []) || bool_decide (ToLower opt = lit "none") then Some 1200
  else match convertSshTime opt with
       | None => None
       | Some (Err _) => Some 1200
       | Some (Ok seconds) => Some seconds
       end.
End Settings.

(** Whether a connection that arrives [elapsed] seconds after the request is turned away. *)
Definition x11_expired (trusted : bool) (timeout elapsed : Z) : bool :=
  negb trusted && (0 <? timeout) && (timeout <? elapsed).

(** ** The display *)

Definition display_char (b : Z) : bool :=
  (48 <=? b) && (b <=? 57) || (65 <=? b) && (b <=? 90) || (97 <=? b) && (b <=? 122) ||
  (b =? 58) || (b =? 47) || (b =? 46) || (b =? 45) || (b =? 95).

Definition resolveDisplayEnv (display : bytes) : option (bytes * Z * Z) :=
  if negb (forallb display_char display) then None
  else match LastIndexByte display 58 with
       | None => None
       | Some colon =>
           let hostname := take colon display in
           let finish displayNumber screenNumber :=
             match ParseUint displayNumber 10 32 with
             | Err _ => None
             | Ok dn =>
                 if bool_decide (screenNumber = []) then Some (hostname, dn, 0)
                 else match ParseUint screenNumber 10 32 with
                      | Err _ => None
                      | Ok sn => Some (hostname, dn, sn)
                      end
             end in
           match Split (drop (S colon) display) 46 with
           | [d] => finish d []
           | [d; s] => finish d s
           | _ => None
           end
       end.

(** Where [serveX11] connects. *)
Inductive x11_target := UnixSocket (path : bytes) | TcpHost (host : bytes) (port : Z).
Definition x11_address (display hostname : bytes) (displayNumber : Z) : x11_target :=
  if HasPrefix display (lit "/") then UnixSocket display
  else if negb (bool_decide (hostname = [])) then TcpHost hostname (6000 + displayNumber)
  else UnixSocket (lit "/tmp/.X11-unix/X" ++ Itoa displayNumber).

(** ** Cookies *)

Record xauthInfo := { xauthProto : bytes; realCookie : bytes; fakeCookie : bytes }.
Definition kSshX11Proto : bytes := lit "MIT-MAGIC-COOKIE-1".

Definition getX11Timeout (timeout : Z) : Z := if timeout <? MaxUint32 - 60 then u32 (timeout + 60) else MaxUint32.

(** The display name given to xauth. *)
Definition xauth_display (display : bytes) : bytes :=
  if HasPrefix display (lit "/") then
    match LastIndexByte display 58 with
    | Some (S _ as pos) => lit "unix" ++ drop pos display
    | _ => display
    end
  else if HasPrefix display (lit "localhost:") then lit "unix" ++ drop 9 display
  else display.

(** [hex.DecodeString]. *)
Definition hex_val (c : Z) : option Z :=
  if (48 <=? c) && (c <=? 57) then Some (c - 48)
  else if (97 <=? c) && (c <=? 102) then Some (c - 87)
  else if (65 <=? c) && (c <=? 70) then Some (c - 55)
  else None.
Fixpoint hexDecode (s : bytes) : option bytes :=
  match s with
  | [] => Some []
  | [_] => None
  | a :: b :: s' =>
      match hex_val a, hex_val b with
      | Some x, Some y => (fun l => 16 * x + y :: l) <$> hexDecode s'
      | _, _ => None
      end
  end.

Section Xauth.
(** [rand.Read] into a slice of the given length. *)
Context (random : nat -> option bytes).

Definition fillFakeCookie (proto real : bytes) : option xauthInfo :=
  let n := if (length real =? 0)%nat then 16%nat else length real in
  match random n with
  | None => None
  | Some cookie =>
      Some {| xauthProto := proto; fakeCookie := cookie;
              realCookie := if (length real =? 0)%nat then cookie else real |}
  end.

(** The lines of [xauth list]: the first with three fields counts. *)
Fixpoint xauth_lines (lines : list bytes) : option xauthInfo :=
  match lines with
  | [] => None
  | line :: lines' =>
      match Fields line with
      | _ :: proto :: cookie :: _ =>
          match hexDecode cookie with
          | None => None
          | Some real => fillFakeCookie proto real
          end
      | _ => xauth_lines lines'
      end
  end.

(** [genListXauthInfo]: [run] executes xauth with its arguments and returns the trimmed output;
    [tmp] is the file of [os.CreateTemp]. *)
Definition genListXauthInfo (xauthPath : bytes) (tmp : option bytes) (run : list bytes -> option bytes)
    (display : bytes) (trusted : bool) (timeout : Z) : option xauthInfo :=
  if bool_decide (xauthPath = []) then None
  else
    let display := xauth_display display in
    let list_with genArgs :=
      match run ([lit "-q"; lit "-n"] ++ genArgs ++ [lit "list"; display]) with
      | None => None
      | Some out => xauth_lines (Split out 10)
      end in
    if trusted then list_with []
    else match tmp with
         | None => None
         | Some genPath =>
             let genArgs := [lit "-f"; genPath; lit "generate"; display; kSshX11Proto; lit "untrusted"] ++
               (if 0 <? timeout then [lit "timeout"; Itoa (getX11Timeout timeout)] else []) in
             match run genArgs with
             | None => None
             | Some _ => list_with [lit "-f"; genPath]
             end
         end.

(** [getXauthInfo]: a cookie of its own only where that is safe. *)
Definition getXauthInfo xauthPath tmp run display (trusted timeoutOS : bool) (timeout : Z) : option xauthInfo :=
  match genListXauthInfo xauthPath tmp run display trusted timeout with
  | Some x => Some x
  | None => if trusted || timeoutOS then fillFakeCookie kSshX11Proto [] else None
  end.
End Xauth.

(** ** The first packet *)

(** [io.ReadAtLeast] into a buffer of [cap] bytes that already holds [got]; the channel is
    the list of what its reads return. *)
Fixpoint ReadAtLeast (cap min : nat) (chunks : list bytes) (got : bytes) : option (bytes * list bytes) :=
  if (min <=? length got)%nat then Some (got, chunks)
  else match chunks with
       | [] => None
       | c :: cs =>
           let room := (cap - length got)%nat in
           if (length c <=? room)%nat then ReadAtLeast cap min cs (got ++ c)
           else Some (got ++ take room c, drop room c :: cs)
       end.

Inductive x11_error :=
| ReadHeader | BadByteOrder (b : Z) | ProtoLength | CookieLength | TooLarge | ReadPacket | ProtoMismatch | CookieMismatch.

Definition pad4 (n : Z) : Z := Z.land (n + 3) (Z.lnot 3).

Definition substituteX11Packet (chunks : list bytes) (x : xauthInfo) : result x11_error (bytes * list bytes) :=
  match ReadAtLeast 4096 12 chunks [] with
  | None => Err ReadHeader
  | Some (packet, rest) =>
      let b i := at_ packet i in
      let! lens :=
        (if b 0%nat =? 66 then Ok (Z.shiftl (b 6%nat) 8 + b 7%nat, Z.shiftl (b 8%nat) 8 + b 9%nat)
         else if b 0%nat =? 108 then Ok (b 6%nat + Z.shiftl (b 7%nat) 8, b 8%nat + Z.shiftl (b 9%nat) 8)
         else Err (BadByteOrder (b 0%nat))) in
      let protoLen := lens.1 in
      let cookieLen := lens.2 in
      if negb (protoLen =? len (xauthProto x)) then Err ProtoLength
      else if negb (cookieLen =? len (fakeCookie x)) || negb (cookieLen =? len (realCookie x)) then Err CookieLength
      else
        let fullHeaderLen := 12 + pad4 protoLen + pad4 cookieLen in
        if 4096 <? fullHeaderLen then Err TooLarge
        else
          let need := Z.to_nat fullHeaderLen in
          let! more :=
            (if (length packet <? need)%nat
             then match ReadAtLeast (need - length packet) (need - length packet) rest [] with
                  | None => Err ReadPacket
                  | Some (more, rest') => Ok (packet ++ more, rest')
                  end
             else Ok (packet, rest)) in
          let packet := more.1 in
          let rest := more.2 in
          if negb (bool_decide (slice 12 (12 + Z.to_nat protoLen) packet = xauthProto x)) then Err ProtoMismatch
          else
            let off := Z.to_nat (12 + pad4 protoLen) in
            let n := Z.to_nat cookieLen in
            if negb (bool_decide (slice off (off + n) packet = fakeCookie x)) then Err CookieMismatch
            else Ok (take off packet ++ realCookie x ++ drop (off + n) packet, rest)
  end.

(** ** Reading *)

Lemma ReadAtLeast_spec cap min chunks : forall got got' rest, (min <= cap)%nat -> (length got <= cap)%nat ->
  ReadAtLeast cap min chunks got = Some (got', rest) ->
  got' ++ concat rest = got ++ concat chunks /\ (min <= length got' <= cap)%nat /\ exists more, got' = got ++ more.
Proof.
  induction chunks as [|c cs IH]; intros got got' rest Hc Hg; cbn [ReadAtLeast].
  - destruct (min <=? length got)%nat eqn:E; [|done]. intros [= <- <-]. to_prop. split; [done|]. split; [lia|]. exists []. by rewrite app_nil_r.
  - destruct (min <=? length got)%nat eqn:E; to_prop.
    { intros [= <- <-]. split; [done|]. split; [lia|]. exists []. by rewrite app_nil_r. }
    destruct (length c <=? cap - length got)%nat eqn:El; to_prop.
    + intros H. apply IH in H as (H1 & H2 & (more & ->)); [|done|rewrite length_app; lia].
      split; [rewrite H1; cbn; by rewrite app_assoc|]. split; [done|]. exists (c ++ more). by rewrite app_assoc.
    + intros [= <- <-]. cbn. rewrite length_app, length_take. split; [|split; [lia|by eexists]].
      rewrite <- !app_assoc. f_equal. by rewrite app_assoc, take_drop.
Qed.

Lemma ReadAtLeast_total cap min chunks : forall got,
  (min <= length got + length (concat chunks))%nat -> is_Some (ReadAtLeast cap min chunks got).
Proof.
  induction chunks as [|c cs IH]; intros got H; cbn [ReadAtLeast].
  - cbn in H. replace (min <=? length got)%nat with true by (symmetry; apply Nat.leb_le; lia). eauto.
  - destruct (min <=? length got)%nat; [eauto|]. destruct (_ <=? _)%nat; [|eauto]. apply IH.
    cbn in H. rewrite length_app in *. lia.
Qed.

Lemma pad4_spec n : 0 <= n -> n <= pad4 n < n + 4.
Proof.
  intros H. assert (pad4 n = (n + 3) / 4 * 4) as ->; [|zlia].
  unfold pad4. rewrite <- Z.ldiff_land. change 3 with (Z.ones 2) at 2. rewrite Z.ldiff_ones_r by lia.
  by rewrite Z.shiftl_mul_pow2, Z.shiftr_div_pow2 by lia.
Qed.

(** ** What the check promises *)

(** The setup packet of an X11 client: byte order, versions, the lengths of the protocol name
    and the cookie, the two padded fields. *)
Definition len16 (msb : bool) (n : Z) : bytes := if msb then [n / 256; n mod 256] else [n mod 256; n / 256].
Definition x11_setup (msb : bool) (version unused proto pad cookie pad' : bytes) : bytes :=
  [if msb then 66 else 108] ++ version ++ len16 msb (len proto) ++ len16 msb (len cookie) ++ unused ++ proto ++ pad ++ cookie ++ pad'.

Lemma substitute_sound chunks x packet rest :
  substituteX11Packet chunks x = Ok (packet, rest) ->
  exists pre post,
    len pre = 12 + pad4 (len (xauthProto x)) /\ slice 12 (12 + length (xauthProto x)) pre = xauthProto x /\
    concat chunks = (pre ++ fakeCookie x ++ post) ++ concat rest /\ packet = pre ++ realCookie x ++ post /\
    len (realCookie x) = len (fakeCookie x).
Proof.
  unfold substituteX11Packet. destruct (ReadAtLeast 4096 12 chunks []) as [[p0 r0]|] eqn:E0; [|done].
  apply ReadAtLeast_spec in E0 as (E0 & Hl0 & _); [|lia|cbn; lia]. cbn [app] in E0.
  cbv zeta. destruct (if at_ p0 0 =? 66 then _ else _) as [[pl cl]|e]; [|done]. cbn [rbind fst snd].
  destruct (pl =? len (xauthProto x)) eqn:Ep; [|done]. to_prop. subst pl. cbn [negb].
  destruct (_ || _) eqn:Ec; [done|]. to_prop. subst cl.
  assert (len (realCookie x) = len (fakeCookie x)) as Hlen by lia.
  pose proof (pad4_spec _ (len_nonneg (xauthProto x))) as Hpp. pose proof (pad4_spec _ (len_nonneg (fakeCookie x))) as Hpc.
  pose proof (len_nonneg (xauthProto x)). pose proof (len_nonneg (fakeCookie x)).
  destruct (4096 <? _) eqn:Eb; [done|]. to_prop.
  set (need := Z.to_nat _). destruct (if (length p0 <? need)%nat then _ else _) as [[p1 r1]|e] eqn:E1; [|done]. cbn [rbind fst snd].
  assert (p1 ++ concat r1 = concat chunks /\ (need <= length p1)%nat) as [Hp1 Hn1].
  { destruct (length p0 <? need)%nat eqn:En; to_prop; [|injection E1 as <- <-; done].
    destruct (ReadAtLeast _ _ r0 []) as [[more r']|] eqn:Er; [|done]. injection E1 as <- <-.
    apply ReadAtLeast_spec in Er as (Er & Hm & _); [|lia|cbn; lia]. cbn [app] in Er.
    split; [by rewrite <- app_assoc, Er|]. rewrite length_app. lia. }
  destruct (bool_decide (slice 12 _ p1 = _)) eqn:Es; [|done]. cbn [negb].
  destruct (bool_decide (slice _ _ p1 = fakeCookie x)) eqn:Ef; [|done]. cbn [negb]. to_prop. intros [= <- <-].
  unfold slice in *. set (off := Z.to_nat (12 + pad4 (len (xauthProto x)))) in *. set (n := Z.to_nat (len (fakeCookie x))) in *.
  assert (off + n <= length p1)%nat as Hon by (unfold off, n, need in *; lia).
  replace (off + n - off)%nat with n in Ef by lia.
  exists (take off p1), (drop (off + n) p1). split; [|split; [|split; [|split; [done|done]]]].
  - unfold len at 1. rewrite length_take, Nat.min_l by lia. unfold off. lia.
  - replace (12 + length (xauthProto x) - 12)%nat with (Z.to_nat (len (xauthProto x))) by (unfold len; lia).
    replace (12 + Z.to_nat (len (xauthProto x)) - 12)%nat with (Z.to_nat (len (xauthProto x))) in Es by lia.
    etransitivity; [|exact Es]. rewrite skipn_firstn_comm, take_take. f_equal. unfold off. lia.
  - rewrite <- Hp1. f_equal. rewrite <- Ef at 1. rewrite <- drop_drop, take_drop. by rewrite take_drop.
Qed.

Lemma at_prefix (p q : bytes) i : (i < length p)%nat -> at_ p i = at_ (p ++ q) i.
Proof. intros H. unfold at_. by rewrite lookup_app_l. Qed.

Lemma slice_prefix (p q : bytes) i j : (j <= length p)%nat -> slice i j p = slice i j (p ++ q).
Proof. intros H. by rewrite slice_app_l. Qed.

Lemma packet_slice_mid (a b c : bytes) : slice (length a) (length a + length b) (a ++ b ++ c) = b.
Proof. unfold slice. rewrite drop_app_length. replace (_ - _)%nat with (length b) by lia. apply take_app_length. Qed.

(** A packet with the right protocol and cookie, cut into reads in any way. *)
Record setup_ok (x : xauthInfo) (version unused pad pad' : bytes) : Prop := {
  so_version : length version = 5%nat; so_unused : length unused = 2%nat;
  so_pad : len pad = pad4 (len (xauthProto x)) - len (xauthProto x);
  so_pad' : len pad' = pad4 (len (fakeCookie x)) - len (fakeCookie x);
  so_fits : 12 + pad4 (len (xauthProto x)) + pad4 (len (fakeCookie x)) <= 4096;
  so_real : len (realCookie x) = len (fakeCookie x) }.

Lemma substitute_total msb x version unused pad pad' data chunks :
  setup_ok x version unused pad pad' ->
  concat chunks = x11_setup msb version unused (xauthProto x) pad (fakeCookie x) pad' ++ data ->
  exists packet rest, substituteX11Packet chunks x = Ok (packet, rest).
Proof.
  intros [Hv Hu Hp Hp' Hf Hr] HS. set (S := concat chunks) in *.
  pose proof (pad4_spec _ (len_nonneg (xauthProto x))) as Hpp. pose proof (pad4_spec _ (len_nonneg (fakeCookie x))) as Hpc.
  pose proof (len_nonneg (xauthProto x)) as Hn1. pose proof (len_nonneg (fakeCookie x)) as Hn2.
  set (lp := len (xauthProto x)) in *. set (lc := len (fakeCookie x)) in *.
  assert (Z.to_nat (12 + pad4 lp + pad4 lc) <= length S)%nat as HlenS.
  { rewrite HS. unfold x11_setup. rewrite !length_app. unfold lp, lc, len in *. destruct msb; cbn [length len16]; lia. }
  unfold substituteX11Packet.
  destruct (ReadAtLeast_total 4096 12 chunks []) as [[p0 r0] E0]; [fold S; cbn [length]; lia|]. rewrite E0.
  apply ReadAtLeast_spec in E0 as (E0 & Hl0 & _); [|lia|cbn; lia]. cbn [app] in E0. fold S in E0.
  cbv zeta.
  assert (forall i, (i < 12)%nat -> at_ p0 i = at_ S i) as Hat by (intros i Hi; rewrite <- E0; apply at_prefix; lia).
  destruct version as [|v1 [|v2 [|v3 [|v4 [|v5 [|]]]]]]; try discriminate Hv.
  destruct unused as [|u1 [|u2 [|]]]; try discriminate Hu.
  rewrite !Hat by lia.
  assert ((if at_ S 0 =? 66 then Ok (Z.shiftl (at_ S 6) 8 + at_ S 7, Z.shiftl (at_ S 8) 8 + at_ S 9)
           else if at_ S 0 =? 108 then Ok (at_ S 6 + Z.shiftl (at_ S 7) 8, at_ S 8 + Z.shiftl (at_ S 9) 8)
           else Err (BadByteOrder (at_ S 0))) = @Ok x11_error _ (lp, lc)) as ->.
  { rewrite HS. unfold x11_setup. fold lp lc. destruct msb; cbn -[Z.shiftl Z.div Z.modulo Z.add Z.mul].
    all: rewrite !Z.shiftl_mul_pow2 by lia; change (2 ^ 8) with 256; f_equal; f_equal; zlia. }
  cbn [rbind fst snd]. rewrite Z.eqb_refl. cbn [negb]. fold lc. rewrite Hr, Z.eqb_refl. cbn [negb orb].
  replace (4096 <? 12 + pad4 lp + pad4 lc) with false by lia.
  set (need := Z.to_nat (12 + pad4 lp + pad4 lc)) in *.
  assert (exists p1 r1, (if (length p0 <? need)%nat
             then match ReadAtLeast (need - length p0) (need - length p0) r0 [] with
                  | None => Err ReadPacket
                  | Some (more, rest') => Ok (p0 ++ more, rest')
                  end
             else Ok (p0, r0)) = @Ok x11_error _ (p1, r1) /\ p1 ++ concat r1 = S /\ (need <= length p1)%nat) as (p1 & r1 & -> & HE & Hneed).
  { destruct (length p0 <? need)%nat eqn:En; to_prop; [|eauto].
    destruct (ReadAtLeast_total (need - length p0) (need - length p0) r0 []) as [[more r'] Er].
    { apply (f_equal length) in E0. rewrite length_app in E0. cbn. lia. }
    rewrite Er. apply ReadAtLeast_spec in Er as (Er & Hm & _); [|lia|cbn; lia]. cbn [app] in Er.
    exists (p0 ++ more), r'. split; [done|]. rewrite <- app_assoc, Er. split; [done|]. rewrite length_app. lia. }
  cbn [rbind fst snd].
  assert (slice 12 (12 + Z.to_nat lp) p1 = xauthProto x) as ->.
  { rewrite (slice_prefix p1 (concat r1)) by lia. rewrite HE, HS. unfold x11_setup.
    set (hd := [if msb then 66 else 108] ++ [v1; v2; v3; v4; v5] ++ len16 msb (len (xauthProto x)) ++ len16 msb (len (fakeCookie x)) ++ [u1; u2]).
    transitivity (slice (length hd) (length hd + length (xauthProto x)) (hd ++ xauthProto x ++ (pad ++ fakeCookie x ++ pad' ++ data))).
    - replace (Z.to_nat lp) with (length (xauthProto x)) by (unfold lp, len; lia).
      assert (length hd = 12%nat) as -> by (by destruct msb). f_equal. unfold hd. rewrite <- !app_assoc. done.
    - apply packet_slice_mid. }
  rewrite bool_decide_true by done. cbn [negb].
  assert (slice (Z.to_nat (12 + pad4 lp)) (Z.to_nat (12 + pad4 lp) + Z.to_nat lc) p1 = fakeCookie x) as ->.
  { rewrite (slice_prefix p1 (concat r1)) by lia. rewrite HE, HS. unfold x11_setup.
    set (hd := [if msb then 66 else 108] ++ [v1; v2; v3; v4; v5] ++ len16 msb (len (xauthProto x)) ++ len16 msb (len (fakeCookie x)) ++ [u1; u2] ++ xauthProto x ++ pad).
    transitivity (slice (length hd) (length hd + length (fakeCookie x)) (hd ++ fakeCookie x ++ (pad' ++ data))).
    - replace (Z.to_nat lc) with (length (fakeCookie x)) by (unfold lc, len; lia).
      assert (length hd = Z.to_nat (12 + pad4 lp)) as ->.
      { unfold hd. rewrite !length_app. unfold lp, len in *. destruct msb; cbn [length len16]; lia. }
      f_equal. unfold hd. rewrite <- !app_assoc. done.
    - apply packet_slice_mid. }
  rewrite bool_decide_true by done. cbn [negb]. eauto.
Qed.

(** C17: The X11 gate.  A connection gets through to the local X server only if its first bytes name
    the expected protocol and carry the made-up cookie; what the X server then receives is what the
    client sent, with that cookie, and nothing else, replaced by the real one.  And a client that
    presents the cookie gets through, in either byte order and however its packet is cut into reads. *)
Theorem x11_cookie_gate chunks x :
  (forall packet rest, substituteX11Packet chunks x = Ok (packet, rest) ->
     exists pre post,
       len pre = 12 + pad4 (len (xauthProto x)) /\ slice 12 (12 + length (xauthProto x)) pre = xauthProto x /\
       concat chunks = pre ++ fakeCookie x ++ post ++ concat rest /\
       packet ++ concat rest = pre ++ realCookie x ++ post ++ concat rest) /\
  (forall msb version unused pad pad' data,
     setup_ok x version unused pad pad' ->
     concat chunks = x11_setup msb version unused (xauthProto x) pad (fakeCookie x) pad' ++ data ->
     exists packet rest, substituteX11Packet chunks x = Ok (packet, rest)).
Proof.
  split; [|intros; by eapply substitute_total].
  intros packet rest H. destruct (substitute_sound _ _ _ _ H) as (pre & post & H1 & H2 & H3 & -> & _).
  exists pre, post. rewrite <- !app_assoc in *. done.
Qed.

(** Both cookies have the same length and are not empty, as the check needs. *)
Lemma cookies_match random proto real x :
  (forall n c, random n = Some c -> length c = n) -> fillFakeCookie random proto real = Some x ->
  length (fakeCookie x) = length (realCookie x) /\ fakeCookie x <> [].
Proof.
  intros Hr. unfold fillFakeCookie. cbv zeta. destruct (length real =? 0)%nat eqn:E; to_prop.
  - destruct (random 16%nat) as [c|] eqn:Ec; [|done]. intros [= <-]. apply Hr in Ec. cbn. split; [done|]. by destruct c.
  - destruct (random (length real)) as [c|] eqn:Ec; [|done]. intros [= <-]. apply Hr in Ec. cbn. split; [done|]. intros ->. cbn in Ec. lia.
Qed.

(** The timeout given to xauth is the configured one plus a minute, without wrapping around. *)
Lemma getX11Timeout_bounds t : 0 <= t <= MaxUint32 -> getX11Timeout t = Z.min (t + 60) MaxUint32.
Proof.
  unfold getX11Timeout, MaxUint32, wrap. intros H. destruct (t <? _) eqn:E; to_prop; [|lia].
  rewrite Z.mod_small by lia. lia.
Qed.

Definition sample_xauth : xauthInfo := {| xauthProto := lit "MIT"; realCookie := [1; 2]; fakeCookie := [7; 8] |}.
Definition sample_chunks : list bytes := [[108; 0; 11; 0; 0; 0; 3; 0; 2; 0]; [0; 0; 77; 73; 84; 0; 7]; [8; 0; 0; 99]].
Lemma x11_cookie_gate_witness : exists packet rest,
  substituteX11Packet sample_chunks sample_xauth = Ok (packet, rest) /\
  packet ++ concat rest = [108; 0; 11; 0; 0; 0; 3; 0; 2; 0; 0; 0; 77; 73; 84; 0; 1; 2; 0; 0; 99].
Proof.
  destruct (x11_cookie_gate sample_chunks sample_xauth) as [H1 H2].
  destruct (H2 false [0; 11; 0; 0; 0] [0; 0] [0] [0; 0] [99]) as (packet & rest & H);
    [constructor; vm_compute; congruence|reflexivity|].
  exists packet, rest. split; [exact H|]. vm_compute in H. injection H as <- <-. reflexivity.
Defined.

(** A display name is taken apart as it was put together. *)
Lemma display_roundtrip host d s :
  forallb display_char host = true -> 0 <= d <= MaxUint32 -> 0 <= s <= MaxUint32 ->
  resolveDisplayEnv (host ++ 58 :: Itoa d ++ 46 :: Itoa s) = Some (host, d, s).
Proof.
  intros Hh Hd Hs. unfold resolveDisplayEnv.
  assert (forall n, 0 <= n -> forallb display_char (Itoa n) = true) as Hi.
  { intros n Hn. apply forallb_True. eapply Forall_impl; [by apply Itoa_digits|]. intros c Hc. unfold is_digit, display_char in *. by rewrite Hc. }
  rewrite forallb_app. cbn [forallb]. rewrite forallb_app. cbn [forallb].
  rewrite Hh, !Hi by lia. change (display_char 58) with true. change (display_char 46) with true. cbn [andb negb].
  rewrite LastIndexByte_app.
  2:{ rewrite not_elem_of_app, not_elem_of_cons. repeat split; [apply Itoa_plain; [lia|done]|done|apply Itoa_plain; [lia|done]]. }
  cbv zeta. rewrite take_app_length.
  assert (drop (S (length host)) (host ++ 58 :: Itoa d ++ 46 :: Itoa s) = Itoa d ++ 46 :: Itoa s) as ->.
  { change (58 :: Itoa d ++ 46 :: Itoa s) with ([58] ++ Itoa d ++ 46 :: Itoa s). rewrite app_assoc.
    replace (S (length host)) with (length (host ++ [58])) by (rewrite length_app; cbn; lia). apply drop_app_length. }
  rewrite Split_app by (apply Itoa_plain; [lia|done]). rewrite Split_no_sep by (apply Itoa_plain; [lia|done]).
  rewrite !ParseUint_Itoa by done. by rewrite bool_decide_false by (apply Itoa_nonempty; lia).
Qed.
