(* ===== verification/SshConfig.v ===== *)
(** * Configuration of the ssh client

    src/tssh/config.go and effective_config.go: the client's own tssh.conf, the dump of
    [ssh -G], and the lookup of a setting through the command line, the extended
    configuration, OpenSSH's answer, the user's and the system's ssh_config and the
    defaults.  The ssh_config parser is a library: a loaded file is what it answers. *)

From S2P Require Import Prelude GoStrings Forwarding KnownHosts.

(** ** Lines of a file *)

(** [bufio.Scanner] with [ScanLines]: lines without their end, up to the first line that does
    not fit the buffer of 64 KiB. *)
Definition dropCR (line : bytes) : bytes := TrimSuffix line [13].
Fixpoint take_short (lines : list bytes) : list bytes :=
  match lines with
  | [] => []
  | l :: lines' => if 65535 <? len l then [] else l :: take_short lines'
  end.
Definition scan_lines (s : bytes) : list bytes :=
  let lines := Split s 10 in
  let lines := if bool_decide (last lines = Some []) then removelast lines else lines in
  map dropCR (take_short lines).

Section Config.
Context `{U : UnicodeTables}.

(** ** tssh.conf *)

(** The settings that are strings, in the order of the source; [resolve] says which are paths. *)
Inductive field :=
| Language | ConfigPath | ExConfigPath | DefaultUploadPath | DefaultDownloadPath | DragFileUploadCommand
| ProgressColorPair | PromptThemeLayout | PromptDefaultMode | PromptDetailItems | PromptCursorIcon | PromptSelectedIcon
| SetTerminalTitle.
#[local] Instance field_eq_dec : EqDecision field.
Proof. solve_decision. Defined.

Definition field_name (f : field) : bytes :=
  match f with
  | Language => lit "language" | ConfigPath => lit "configpath" | ExConfigPath => lit "exconfigpath"
  | DefaultUploadPath => lit "defaultuploadpath" | DefaultDownloadPath => lit "defaultdownloadpath"
  | DragFileUploadCommand => lit "dragfileuploadcommand" | ProgressColorPair => lit "progresscolorpair"
  | PromptThemeLayout => lit "promptthemelayout" | PromptDefaultMode => lit "promptdefaultmode"
  | PromptDetailItems => lit "promptdetailitems" | PromptCursorIcon => lit "promptcursoricon"
  | PromptSelectedIcon => lit "promptselectedicon" | SetTerminalTitle => lit "setterminaltitle"
  end.
Definition fields : list field :=
  [Language; ConfigPath; ExConfigPath; DefaultUploadPath; DefaultDownloadPath; DragFileUploadCommand; ProgressColorPair;
   PromptThemeLayout; PromptDefaultMode; PromptDetailItems; PromptCursorIcon; PromptSelectedIcon; SetTerminalTitle].
Definition is_path (f : field) : bool :=
  match f with ConfigPath | ExConfigPath | DefaultUploadPath | DefaultDownloadPath => true | _ => false end.

Record tsshConfig := mkConf {
  tc_str : field -> bytes; tc_useOpenSSH : bool; tc_pageSize : Z; tc_colors : list (bytes * bytes) }.
Definition empty_config : tsshConfig := mkConf (fun _ => []) false 0 [].

Context (userHomeDir : bytes) (parseColors : bytes -> option (list (bytes * bytes))).

(** A line as a lower-case name and a value; comments, lines without [=] and empty parts do
    not count. *)
Definition conf_line (line : bytes) : option (bytes * bytes) :=
  let line := match IndexByte line 35 with Some i => take i line | None => line end in
  match IndexByte line 61 with
  | None => None
  | Some i =>
      let name := ToLower (TrimSpace (take i line)) in
      let value := TrimSpace (drop (S i) line) in
      if bool_decide (name = []) || bool_decide (value = []) then None else Some (name, value)
  end.

Definition conf_value (f : field) (value : bytes) : bytes := if is_path f then resolveHomeDir userHomeDir value else value.
Definition set_field (f : field) (v : bytes) (c : tsshConfig) : tsshConfig :=
  mkConf (fun g => if bool_decide (g = f) then v else tc_str c g) (tc_useOpenSSH c) (tc_pageSize c) (tc_colors c).

(** The [switch] of [parseTsshConfig]: a setting that already has a value is kept. *)
Definition conf_step (c : tsshConfig) (kv : bytes * bytes) : tsshConfig :=
  let '(name, value) := kv in
  match find (fun f => bool_decide (name = field_name f)) fields with
  | Some f => if bool_decide (tc_str c f = []) then set_field f (conf_value f value) c else c
  | None =>
      if bool_decide (name = lit "useopensshconfig") && negb (tc_useOpenSSH c) then
        let on := existsb (fun y => bool_decide (ToLower value = y)) [lit "1"; lit "true"; lit "yes"; lit "on"] in
        mkConf (tc_str c) on (tc_pageSize c) (tc_colors c)
      else if bool_decide (name = lit "promptthemecolors") && (length (tc_colors c) =? 0)%nat then
        match parseColors value with
        | Some m => mkConf (tc_str c) (tc_useOpenSSH c) (tc_pageSize c) m
        | None => c
        end
      else if bool_decide (name = lit "promptpagesize") && (tc_pageSize c =? 0) then
        match ParseUint value 10 8 with
        | Ok n => mkConf (tc_str c) (tc_useOpenSSH c) n (tc_colors c)
        | Err _ => c
        end
      else c
  end.
Definition parseTsshConfig (content : bytes) (c : tsshConfig) : tsshConfig :=
  fold_left conf_step (omap conf_line (scan_lines content)) c.

(** [initUserConfig]: the configuration and the path of the system's ssh_config. *)
Definition initUserConfig (configFile : bytes) (tsshConf : option bytes) (windows : bool) : tsshConfig * bytes :=
  let c := if bool_decide (configFile = []) then empty_config
           else set_field ConfigPath (resolveHomeDir userHomeDir configFile) empty_config in
  let c := match tsshConf with Some content => parseTsshConfig content c | None => c end in
  let '(c, sys) :=
    if bool_decide (tc_str c ConfigPath = [])
    then (set_field ConfigPath (Join2 (Join2 userHomeDir (lit ".ssh")) (lit "config")) c,
          if windows then [] else lit "/etc/ssh/ssh_config")
    else if bool_decide (ToLower (tc_str c ConfigPath) = lit "none") then (set_field ConfigPath [] c, [])
    else (c, []) in
  (if bool_decide (tc_str c ExConfigPath = [])
   then set_field ExConfigPath (Join2 (Join2 userHomeDir (lit ".ssh")) (lit "password")) c else c, sys).

(** ** The dump of ssh -G *)

Abbreviation effectiveConfig := (gmap bytes (list bytes)).

Definition dump_line (line : bytes) : option (bytes * bytes) :=
  let line := TrimSpace line in
  match IndexAny line [32; 9] with
  | Some (S _ as idx) =>
      let key := ToLower (TrimSpace (take idx line)) in
      let val := TrimSpace (drop (S idx) line) in
      if bool_decide (key = []) || bool_decide (val = []) then None else Some (key, val)
  | _ => None
  end.
Definition dump_add (m : effectiveConfig) (kv : bytes * bytes) : effectiveConfig :=
  <[kv.1 := default [] (m !! kv.1) ++ [kv.2]]> m.
Definition parseOpenSSHConfigDump (out : bytes) : effectiveConfig :=
  fold_left dump_add (omap dump_line (scan_lines out)) ∅.

(** [effectiveSshConfig.getAll] and [get]. *)
Definition eff_getAll (c : option effectiveConfig) (key : bytes) : list bytes :=
  match c with None => [] | Some m => default [] (m !! ToLower key) end.
Definition eff_get (c : option effectiveConfig) (key : bytes) : bytes :=
  match eff_getAll c key with v :: _ => v | [] => [] end.

(** [getOpenSSHEffectiveConfig]: the cache by destination, marked before [ssh -G] is run. *)
Record ssh_args := { ar_ConfigFile : bytes; ar_LoginName : bytes; ar_Port : Z }.
Definition openssh_args (dest : bytes) (args : option ssh_args) (user port : bytes) : list bytes :=
  [lit "-G"] ++
  match args with Some a => if bool_decide (ar_ConfigFile a = []) then [] else [lit "-F"; ar_ConfigFile a] | None => [] end ++
  (let other := if bool_decide (user = []) then [] else [lit "-l"; user] in
   match args with Some a => if bool_decide (ar_LoginName a = []) then other else [lit "-l"; ar_LoginName a] | None => other end) ++
  (let other := if bool_decide (port = []) then [] else [lit "-p"; port] in
   match args with Some a => if 0 <? ar_Port a then [lit "-p"; Itoa (ar_Port a)] else other | None => other end) ++
  [dest].
Abbreviation eff_cache := (gmap bytes (option effectiveConfig)).
Definition getOpenSSHEffectiveConfig (useOpenSSH : bool) (run : list bytes -> option bytes)
    (dest : bytes) (args : option ssh_args) (user port : bytes) (cache : eff_cache)
  : option effectiveConfig * eff_cache :=
  if negb useOpenSSH then (None, cache)
  else match cache !! dest with
       | Some cfg => (cfg, cache)
       | None =>
           match run (openssh_args dest args user port) with
           | None => (None, <[dest := None]> cache)
           | Some out => (Some (parseOpenSSHConfigDump out), <[dest := Some (parseOpenSSHConfigDump out)]> cache)
           end
       end.

(** ** Looking up a setting *)

(** A loaded ssh_config file: [None] answers are errors of the library. *)
Record sshFile := {
  file_Get : bytes -> bytes -> option bytes; file_GetAll : bytes -> bytes -> option (list bytes);
  file_GetSplits : bytes -> bytes -> option (list bytes); file_GetAllSplits : bytes -> bytes -> option (list bytes) }.

Context (Default : bytes -> bytes) (shlex : bytes -> option (list bytes)).

(** What the process has loaded; [effective] is [getOpenSSHEffectiveConfig] with the cache filled. *)
Record settings := { effective : bytes -> option effectiveConfig; config : option sshFile; sysConfig : option sshFile; exConfig : option sshFile }.

Definition file_get (f : option sshFile) (alias key : bytes) : bytes :=
  match f with Some f => default [] (file_Get f alias key) | None => [] end.
Definition file_all (f : option sshFile) (alias key : bytes) : list bytes :=
  match f with Some f => default [] (file_GetAll f alias key) | None => [] end.
Definition file_splits (f : option sshFile) (alias key : bytes) : list bytes :=
  match f with Some f => default [] (file_GetSplits f alias key) | None => [] end.
Definition file_all_splits (f : option sshFile) (alias key : bytes) : list bytes :=
  match f with Some f => default [] (file_GetAllSplits f alias key) | None => [] end.
Definition split_words (value : bytes) : list bytes := default [] (shlex value).

Definition getConfig (s : settings) (alias key : bytes) : bytes :=
  let value := eff_get (effective s alias) key in
  if negb (bool_decide (value = [])) then value
  else
    let value := file_get (config s) alias key in
    if negb (bool_decide (value = [])) then value
    else
      let value := file_get (sysConfig s) alias key in
      if negb (bool_decide (value = [])) then value else Default key.

Definition getConfigSplits (s : settings) (alias key : bytes) : list bytes :=
  let value := eff_get (effective s alias) key in
  let values := if bool_decide (value = []) then [] else split_words value in
  if negb (bool_decide (values = [])) then values
  else
    let values := file_splits (config s) alias key in
    if negb (bool_decide (values = [])) then values
    else
      let values := file_splits (sysConfig s) alias key in
      if negb (bool_decide (values = [])) then values
      else if bool_decide (Default key = []) then [] else split_words (Default key).

Definition getAllConfig (s : settings) (alias key : bytes) : list bytes :=
  let values := eff_getAll (effective s alias) key in
  if negb (bool_decide (values = [])) then values
  else
    let values := file_all (config s) alias key ++ file_all (sysConfig s) alias key in
    if negb (bool_decide (values = [])) then values
    else if bool_decide (Default key = []) then [] else [Default key].

Definition getAllConfigSplits (s : settings) (alias key : bytes) : list bytes :=
  let values := concat (map split_words (eff_getAll (effective s alias) key)) in
  if negb (bool_decide (values = [])) then values
  else
    let values := file_all_splits (config s) alias key ++ file_all_splits (sysConfig s) alias key in
    if negb (bool_decide (values = [])) then values
    else if bool_decide (Default key = []) then [] else split_words (Default key).

Definition getExConfig (s : settings) (alias key : bytes) : bytes :=
  let value := file_get (exConfig s) alias key in
  if negb (bool_decide (value = [])) then value else getConfig s alias key.
Definition getAllExConfig (s : settings) (alias key : bytes) : list bytes :=
  file_all (exConfig s) alias key ++ getAllConfig s alias key.

(** With the [-o] options of the command line. *)
Definition getOptionConfig (s : settings) (o : sshOption) (dest key : bytes) : bytes :=
  if negb (bool_decide (option_get o key = [])) then option_get o key else getConfig s dest key.
Definition getOptionConfigSplits (s : settings) (o : sshOption) (dest key : bytes) : list bytes :=
  if negb (bool_decide (option_get o key = [])) then split_words (option_get o key) else getConfigSplits s dest key.
Definition getAllOptionConfig (s : settings) (o : sshOption) (dest key : bytes) : list bytes :=
  option_getAll o key ++ getAllConfig s dest key.
Definition getAllOptionConfigSplits (s : settings) (o : sshOption) (dest key : bytes) : list bytes :=
  concat (map split_words (option_getAll o key)) ++ getAllConfigSplits s dest key.
Definition getExOptionConfig (s : settings) (o : sshOption) (dest key : bytes) : bytes :=
  if negb (bool_decide (option_get o key = [])) then option_get o key else getExConfig s dest key.
Definition getAllExOptionConfig (s : settings) (o : sshOption) (dest key : bytes) : list bytes :=
  option_getAll o key ++ getAllExConfig s dest key.

(** [getGroupLabels]: every label once, in the order of the values. *)
Definition add_label (labels : list bytes) (label : bytes) : list bytes :=
  if bool_decide (label ∈ labels) then labels else labels ++ [label].
Definition getGroupLabels (s : settings) (alias : bytes) : bytes :=
  Join (fold_left add_label (concat (map Fields (getAllExConfig s alias (lit "GroupLabels")))) []) (lit " ").

(** [getSecretConfig]: [decode] is [decodeSecret], [exec] is [execSecretCommand]. *)
Definition getSecretConfig (decode : bytes -> option bytes) (exec : bytes -> bytes) (s : settings) (alias key : bytes) : bytes :=
  let encoded := getExConfig s alias (lit "enc" ++ key) in
  let secret := if bool_decide (encoded = []) then [] else default [] (decode encoded) in
  if negb (bool_decide (secret = [])) then secret
  else
    let command := getExConfig s alias (key ++ lit "Command") in
    let secret := if bool_decide (command = []) then [] else exec command in
    if negb (bool_decide (secret = [])) then secret else getExConfig s alias key.

(** ** Precedence *)

Definition first_nonempty (vs : list bytes) : bytes := default [] (find (fun v => negb (bool_decide (v = []))) vs).

Lemma first_nonempty_cons v vs :
  first_nonempty (v :: vs) = if bool_decide (v = []) then first_nonempty vs else v.
Proof. unfold first_nonempty. cbn [find]. by destruct (bool_decide (v = [])). Qed.
Lemma first_nonempty_one v : first_nonempty [v] = v.
Proof. rewrite first_nonempty_cons. destruct (bool_decide (v = [])) eqn:E; to_prop; by subst. Qed.

(** A setting is taken from the first place that has it: the command line, the extended file,
    OpenSSH's own evaluation, the user's file, the system's file, the default. *)
Lemma setting_precedence s o dest key :
  getExOptionConfig s o dest key =
  first_nonempty [option_get o key; file_get (exConfig s) dest key; eff_get (effective s dest) key;
                  file_get (config s) dest key; file_get (sysConfig s) dest key; Default key].
Proof.
  unfold getExOptionConfig, getExConfig, getConfig. cbv zeta. do 5 rewrite first_nonempty_cons. rewrite first_nonempty_one.
  do 5 (destruct (bool_decide _); cbn [negb]; [|done]). done.
Qed.

(** ** The first line wins *)

Lemma find_field name f : find (fun f => bool_decide (name = field_name f)) fields = Some f <-> name = field_name f.
Proof.
  split; [intros H; apply find_some in H as [_ H]; by to_prop|]. intros ->. by destruct f.
Qed.

Definition named (f : field) (kv : bytes * bytes) : Prop := kv.1 = field_name f.
#[local] Instance named_dec f kv : Decision (named f kv).
Proof. unfold named. apply _. Defined.

Lemma conf_step_str c kv f :
  tc_str (conf_step c kv) f =
  if bool_decide (tc_str c f = []) then (if bool_decide (named f kv) then conf_value f kv.2 else []) else tc_str c f.
Proof.
  destruct kv as [name value]. unfold conf_step, named. cbn [fst snd].
  destruct (find _ fields) as [g|] eqn:E.
  - apply find_field in E. subst name. destruct (bool_decide (tc_str c g = [])) eqn:Eg; to_prop.
    + cbn. destruct (bool_decide (f = g)) eqn:Ef; to_prop.
      * subst g. rewrite !bool_decide_true; done.
      * rewrite (bool_decide_false (field_name g = field_name f)).
        -- destruct (bool_decide (tc_str c f = [])) eqn:E; to_prop; done.
        -- intros Hn. apply Ef. pose proof (proj2 (find_field (field_name f) f) eq_refl) as H1.
           pose proof (proj2 (find_field (field_name g) g) eq_refl) as H2. rewrite Hn in H2. congruence.
    + destruct (bool_decide (tc_str c f = [])) eqn:Ef; to_prop; [|done]. rewrite bool_decide_false; [done|].
      intros Hn. apply Eg. pose proof (proj2 (find_field (field_name f) f) eq_refl) as H1.
      pose proof (proj2 (find_field (field_name g) g) eq_refl) as H2. rewrite Hn in H2. congruence.
  - rewrite (bool_decide_false (name = field_name f)).
    2:{ intros Hn. apply find_field in Hn. congruence. }
    assert (forall c', tc_str c' = tc_str c -> tc_str c' f = if bool_decide (tc_str c f = []) then [] else tc_str c f) as Hsame.
    { intros c' ->. destruct (bool_decide _) eqn:E'; to_prop; done. }
    destruct (_ && _); [by apply Hsame|]. destruct (_ && _); [destruct (parseColors value); by apply Hsame|].
    destruct (_ && _); [destruct (ParseUint value 10 8); by apply Hsame|by apply Hsame].
Qed.

(** Whatever else tssh.conf holds, in whatever order and spelling, a string setting gets the value
    of its first line (that does not resolve to nothing), unless it was set before. *)
Lemma tssh_conf_first_wins content c f :
  tc_str (parseTsshConfig content c) f =
  first_nonempty (tc_str c f :: map (fun kv => conf_value f kv.2) (filter (named f) (omap conf_line (scan_lines content)))).
Proof.
  unfold parseTsshConfig. generalize (omap conf_line (scan_lines content)) as kvs. intros kvs. revert c.
  induction kvs as [|kv kvs IH]; intros c; cbn [fold_left]; [by rewrite first_nonempty_one|].
  rewrite IH, !first_nonempty_cons, conf_step_str.
  destruct (bool_decide (tc_str c f = [])) eqn:E; [|by rewrite E].
  rewrite filter_cons. destruct (decide (named f kv)) as [Hn|Hn].
  - rewrite (bool_decide_true _ Hn). cbn [map]. by rewrite first_nonempty_cons.
  - rewrite (bool_decide_false _ Hn). rewrite bool_decide_true by done. done.
Qed.

(** ** What ssh -G printed *)

Definition dump_text (kvs : list (bytes * bytes)) : bytes := concat (map (fun kv => kv.1 ++ 32 :: kv.2 ++ [10]) kvs).
Record dump_ok (kv : bytes * bytes) : Prop := {
  do_key : kv.1 <> []; do_val : kv.2 <> []; do_space : 32 ∉ kv.1; do_tab : 9 ∉ kv.1; do_lower : ToLower kv.1 = kv.1;
  do_nl : 10 ∉ kv.1 ++ 32 :: kv.2; do_short : len (kv.1 ++ 32 :: kv.2) <= 65535; do_cr : last kv.2 <> Some 13;
  do_trim : TrimSpace kv.1 = kv.1 /\ TrimSpace kv.2 = kv.2 /\ TrimSpace (kv.1 ++ 32 :: kv.2) = kv.1 ++ 32 :: kv.2 }.

Lemma index_from_app f a c b : Forall (fun x => f x = false) a -> f c = true -> index_from f (a ++ c :: b) = Some (length a).
Proof. induction 1 as [|x a Hx Ha IH]; intros Hc; cbn; [by rewrite Hc|]. by rewrite Hx, IH. Qed.

Lemma dump_line_print kv : dump_ok kv -> dump_line (kv.1 ++ 32 :: kv.2) = Some kv.
Proof.
  intros [Hk Hv Hs Ht Hlow _ _ _ (T1 & T2 & T3)]. unfold dump_line. cbv zeta. rewrite T3.
  assert (IndexAny (kv.1 ++ 32 :: kv.2) [32; 9] = Some (length kv.1)) as ->.
  { unfold IndexAny. apply index_from_app; [|done]. apply Forall_forall. intros x Hx. apply bool_decide_eq_false. set_solver. }
  rewrite take_app_length, T1, Hlow.
  assert (drop (S (length kv.1)) (kv.1 ++ 32 :: kv.2) = kv.2) as ->.
  { change (32 :: kv.2) with ([32] ++ kv.2). rewrite app_assoc.
    replace (S (length kv.1)) with (length (kv.1 ++ [32])) by (rewrite length_app; cbn; lia). apply drop_app_length. }
  rewrite T2, !bool_decide_false by done. destruct kv as [[|c k] v]; done.
Qed.

Lemma scan_dump kvs : Forall dump_ok kvs -> scan_lines (dump_text kvs) = map (fun kv => kv.1 ++ 32 :: kv.2) kvs.
Proof.
  intros H. unfold scan_lines.
  assert (Split (dump_text kvs) 10 = map (fun kv => kv.1 ++ 32 :: kv.2) kvs ++ [[]]) as ->.
  { induction H as [|kv kvs Hkv _ IH]; [done|]. unfold dump_text in *. cbn [map concat app].
    replace ((kv.1 ++ 32 :: kv.2 ++ [10]) ++ concat (map (fun kv => kv.1 ++ 32 :: kv.2 ++ [10]) kvs))
      with ((kv.1 ++ 32 :: kv.2) ++ 10 :: concat (map (fun kv => kv.1 ++ 32 :: kv.2 ++ [10]) kvs))
      by (rewrite <- !app_assoc; cbn; by rewrite <- !app_assoc).
    rewrite Split_app by apply Hkv. by rewrite IH. }
  cbv zeta. rewrite last_snoc, bool_decide_true, removelast_last by done.
  induction H as [|kv kvs Hkv _ IH]; [done|]. cbn [map take_short].
  assert ((65535 <? len (kv.1 ++ 32 :: kv.2)) = false) as -> by (pose proof (do_short _ Hkv); lia).
  cbn [map]. rewrite IH. f_equal. unfold dropCR. apply TrimSuffix_id. unfold HasSuffix. apply bool_decide_eq_false.
  intros [l Hl]. apply (do_cr _ Hkv). change (32 :: kv.2) with ([32] ++ kv.2) in Hl. rewrite app_assoc in Hl.
  apply (f_equal last) in Hl. rewrite last_snoc, last_app in Hl. destruct (last kv.2) eqn:E; [by injection Hl as ->|].
  apply last_None in E. by apply (do_val _ Hkv) in E.
Qed.

(** What [ssh -G] prints is what the lookups answer: all values of a key, in order, whatever the
    case in which the key is asked for. *)
Lemma openssh_dump_lookup kvs key :
  Forall dump_ok kvs ->
  eff_getAll (Some (parseOpenSSHConfigDump (dump_text kvs))) key = map snd (filter (fun kv => kv.1 = ToLower key) kvs).
Proof.
  intros H. unfold parseOpenSSHConfigDump. rewrite scan_dump by done.
  assert (omap dump_line (map (fun kv => kv.1 ++ 32 :: kv.2) kvs) = kvs) as ->.
  { induction H as [|kv kvs Hkv _ IH]; [done|]. cbn. rewrite dump_line_print by done. by f_equal. }
  unfold eff_getAll. clear H.
  assert (forall m : effectiveConfig, default [] (fold_left dump_add kvs m !! ToLower key) =
            default [] (m !! ToLower key) ++ map snd (filter (fun kv => kv.1 = ToLower key) kvs)) as Hgen; [|by rewrite Hgen].
  induction kvs as [|kv kvs IH]; intros m; cbn [fold_left]; [by rewrite app_nil_r|].
  rewrite IH, filter_cons. unfold dump_add. destruct (decide (kv.1 = ToLower key)) as [E|E].
  - rewrite E, lookup_insert_eq. cbn. by rewrite <- app_assoc.
  - by rewrite lookup_insert_ne.
Qed.

(** [ssh -G] runs at most once for a destination. *)
Lemma effective_cached use run run' dest a a' u u' p p' cache :
  let r := getOpenSSHEffectiveConfig use run dest a u p cache in
  getOpenSSHEffectiveConfig use run' dest a' u' p' r.2 = (r.1, r.2).
Proof.
  cbv zeta. unfold getOpenSSHEffectiveConfig. destruct use; [|done]. cbn [negb].
  destruct (cache !! dest) eqn:E; [cbn [fst snd]; by rewrite E|]. destruct (run _); cbn [fst snd]; by rewrite lookup_insert_eq.
Qed.
End Config.
