(* ===== verification/Login.v ===== *)
(** * Logging in

    src/tssh/login.go (with [getUdpMode] of udp.go): the destination, the parameters of a
    login from arguments and configuration, the command and terminal to ask for, and the chain of
    jump hosts, each of which is logged in over TCP and then, where asked, over UDP. *)

From S2P Require Import Prelude GoStrings Tokens Forwarding SshConfig.

Local Open Scope go_scope.

(** ** Destinations *)

Definition joinHostPort (host port : bytes) : bytes :=
  if negb (HasPrefix host [91]) && ContainsByte host 58 then [91] ++ host ++ [93; 58] ++ port else host ++ [58] ++ port.

Definition parseDestination (dest : bytes) : bytes * bytes * bytes :=
  let '(user, dest) :=
    match IndexByte dest 64 with
    | Some i => (TrimSpace (take i dest), drop (S i) dest)
    | None => ([], dest)
    end in
  let plain :=
    match Split dest 58 with
    | [h; p] => (user, TrimSpace h, TrimSpace p)
    | _ => (user, TrimSpace dest, [])
    end in
  match Index dest [93; 58] with
  | Some (S _ as i) =>
      if HasPrefix dest [91] then (user, TrimSpace (slice 1 i dest), TrimSpace (drop (i + 2) dest)) else plain
  | _ => plain
  end.

(** ** Arguments *)

Record sshArgs := {
  a_Destination : bytes; a_LoginName : bytes; a_Port : Z; a_ProxyJump : bytes; a_Option : sshOption;
  a_UDP : bool; a_KCP : bool; a_Attach : bool;
  a_Command : bytes; a_Argument : list bytes; a_DisableTTY : bool; a_ForceTTY : bool;
  a_IPv4Only : bool; a_IPv6Only : bool; a_Debug : bool; a_TsshdPath : bytes; a_TsshdPort : bytes }.
(** [&sshArgs{Destination: dest}]. *)
Definition dest_args (dest : bytes) : sshArgs := {|
  a_Destination := dest; a_LoginName := []; a_Port := 0; a_ProxyJump := []; a_Option := ∅; a_UDP := false; a_KCP := false;
  a_Attach := false; a_Command := []; a_Argument := []; a_DisableTTY := false; a_ForceTTY := false;
  a_IPv4Only := false; a_IPv6Only := false; a_Debug := false; a_TsshdPath := []; a_TsshdPort := [] |}.
Definition with_Destination (dest : bytes) (a : sshArgs) : sshArgs := {|
  a_Destination := dest; a_LoginName := a_LoginName a; a_Port := a_Port a; a_ProxyJump := a_ProxyJump a; a_Option := a_Option a;
  a_UDP := a_UDP a; a_KCP := a_KCP a; a_Attach := a_Attach a; a_Command := a_Command a; a_Argument := a_Argument a;
  a_DisableTTY := a_DisableTTY a; a_ForceTTY := a_ForceTTY a; a_IPv4Only := a_IPv4Only a; a_IPv6Only := a_IPv6Only a; a_Debug := a_Debug a;
  a_TsshdPath := a_TsshdPath a; a_TsshdPort := a_TsshdPort a |}.

Inductive udpMode := UdpNo | UdpYes | UdpKcp | UdpQuic.
#[export] Instance udpMode_eq_dec : EqDecision udpMode.
Proof. solve_decision. Defined.

Section Login.
Context `{U : UnicodeTables}.
Context (Default : bytes -> bytes) (shlex : bytes -> option (list bytes)) (hostname : bytes) (sha1hex : bytes -> bytes)
        (s : settings).

Definition is_lower (v : bytes) (w : string) : bool := bool_decide (ToLower v = lit w).

(** ** Small settings *)

Definition parse_mode (v : bytes) : option udpMode :=
  if is_lower v "no" then Some UdpNo else if is_lower v "yes" then Some UdpYes
  else if is_lower v "kcp" then Some UdpKcp else if is_lower v "quic" then Some UdpQuic else None.

Definition getUdpMode (a : sshArgs) : udpMode :=
  let option := option_get (a_Option a) (lit "UdpMode") in
  match (if bool_decide (option = []) then None else parse_mode option) with
  | Some m => m
  | None =>
      if a_KCP a then UdpKcp
      else
        let fallback := if a_UDP a || a_Attach a then UdpYes else UdpNo in
        match parse_mode (getExConfig Default s (a_Destination a) (lit "UdpMode")) with
        | Some UdpNo | None => fallback
        | Some m => m
        end
  end.

Inductive network := TCP | TCP4 | TCP6.
Definition getNetworkAddressFamily (a : sshArgs) : network * bool * bool :=
  if a_IPv4Only a then if a_IPv6Only a then (TCP, false, false) else (TCP4, true, false)
  else if a_IPv6Only a then (TCP6, false, true)
  else
    let family := getOptionConfig Default s (a_Option a) (a_Destination a) (lit "AddressFamily") in
    if is_lower family "inet" then (TCP4, true, false)
    else if is_lower family "inet6" then (TCP6, false, true)
    else (TCP, false, false).

(** In seconds; a timeout of zero is a thousand hours. *)
Definition kDefaultConnectTimeout : Z := 10.
Definition getConnectTimeout (a : sshArgs) : Z :=
  let connectTimeout := getOptionConfig Default s (a_Option a) (a_Destination a) (lit "ConnectTimeout") in
  if bool_decide (connectTimeout = []) then kDefaultConnectTimeout
  else match ParseUint connectTimeout 10 32 with
       | Err _ => kDefaultConnectTimeout
       | Ok value => if value <=? 0 then 1000 * 3600 else value
       end.

(** [setupLogLevel]: the debug and warning switches. *)
Definition setupLogLevel (a : sshArgs) (previous : bool * bool) : bool * bool :=
  if a_Debug a then (true, true)
  else
    let level := getOptionConfig Default s (a_Option a) (a_Destination a) (lit "LogLevel") in
    if is_lower level "quiet" || is_lower level "fatal" then (false, false)
    else if is_lower level "error" || is_lower level "info" then (false, true)
    else if is_lower level "verbose" || is_lower level "debug" || is_lower level "debug1" || is_lower level "debug2" ||
            is_lower level "debug3" then (true, true)
    else previous.

(** ** The parameters of a login *)

Inductive login_error :=
| EmptyHost | ExpandFailed (e : token_error) | NoCanonicalName | NoCurrentUser
| TwoCommands | TtyConflict | UnknownTTY | ConnectFailed | NotUdpClient.

Record loginParam := { lp_args : sshArgs; lp_host : bytes; lp_port : bytes; lp_user : bytes; lp_addr : bytes;
                       lp_proxies : list bytes; lp_command : bytes; lp_udpMode : udpMode }.

(** What [expandTokens] looks at. *)
Definition token_param (a : sshArgs) (host port user : bytes) (proxies : list bytes) : sshParam := {|
  pr_host := host; pr_port := port; pr_user := user; pr_proxies := proxies; pr_Destination := a_Destination a;
  pr_HostKeyAlias := getOptionConfig Default s (a_Option a) (a_Destination a) (lit "HostKeyAlias") |}.
Definition expand (str : bytes) (p : sshParam) (tokens : string) : result login_error bytes :=
  match expandTokens hostname sha1hex str p (lit tokens) with Ok r => Ok r | Err e => Err (ExpandFailed e) end.

(** The name service: whether a host resolves, the answer of an SRV query, the current user. *)
Context (resolves : bytes -> bool) (lookupSrv : bytes -> option (bytes * Z)) (currentUser : option bytes).

Definition canonicalizeHost (host : bytes) : result login_error bytes :=
  let maxDots :=
    match ParseUint (getConfig Default s host (lit "CanonicalizeMaxDots")) 10 16 with Ok v => v | Err _ => 1 end in
  if maxDots <? Z.of_nat (CountByte host 46) then Ok host
  else match getConfigSplits Default shlex s host (lit "CanonicalDomains") with
       | [] => Ok host
       | domains =>
           match find (fun domain => resolves (host ++ [46] ++ domain)) domains with
           | Some domain => Ok (host ++ [46] ++ domain)
           | None => if is_lower (getConfig Default s host (lit "CanonicalizeFallbackLocal")) "no" then Err NoCanonicalName else Ok host
           end
       end.

(** [getProxyParam]: the jump hosts or the proxy command. *)
Definition getProxyParam (a : sshArgs) : list bytes * bytes :=
  let proxyJump := if bool_decide (a_ProxyJump a = []) then option_get (a_Option a) (lit "ProxyJump") else a_ProxyJump a in
  if is_lower proxyJump "none" then ([], [])
  else if negb (bool_decide (proxyJump = [])) then (Split proxyJump 44, [])
  else
    let proxyCommand := option_get (a_Option a) (lit "ProxyCommand") in
    if is_lower proxyCommand "none" then ([], [])
    else if negb (bool_decide (proxyCommand = [])) then ([], proxyCommand)
    else
      let proxyJump := getConfig Default s (a_Destination a) (lit "ProxyJump") in
      if negb (bool_decide (proxyJump = [])) && negb (is_lower proxyJump "none") then (Split proxyJump 44, [])
      else
        let proxyCommand := getConfig Default s (a_Destination a) (lit "ProxyCommand") in
        if negb (bool_decide (proxyCommand = [])) && negb (is_lower proxyCommand "none") then ([], proxyCommand)
        else ([], []).

Fixpoint expand_proxies (p : list bytes -> sshParam) (done todo : list bytes) : result login_error (list bytes) :=
  match todo with
  | [] => Ok done
  | proxy :: todo' =>
      let! e := expand (TrimSpace proxy) (p (done ++ todo)) "%hnpr" in
      expand_proxies p (done ++ [e]) todo'
  end.

(** The host to connect to, with the destination it leaves behind. *)
Definition login_host (destHost : bytes) (a : sshArgs) (proxy : bool) : result login_error (bytes * bytes) :=
  let hostName := getConfig Default s destHost (lit "HostName") in
  if negb (bool_decide (hostName = [])) then
    let! e := expand hostName (token_param a destHost [] [] []) "%h" in Ok (e, destHost)
  else
    let canonicalize := getConfig Default s destHost (lit "CanonicalizeHostname") in
    if is_lower canonicalize "always" || negb proxy && is_lower canonicalize "yes"
    then let! h := canonicalizeHost destHost in Ok (h, h)
    else Ok (destHost, destHost).

Definition login_user (a : sshArgs) (destUser destHost : bytes) : result login_error bytes :=
  if negb (bool_decide (a_LoginName a = [])) then Ok (a_LoginName a)
  else if negb (bool_decide (destUser = [])) then Ok destUser
  else
    let userName := getConfig Default s destHost (lit "User") in
    if negb (bool_decide (userName = [])) then Ok userName
    else match currentUser with
         | None => Err NoCurrentUser
         | Some name => Ok (match LastIndexByte name 92 with Some i => drop (S i) name | None => name end)
         end.

Definition login_port (a : sshArgs) (destPort destHost : bytes) : bytes :=
  if 0 <? a_Port a then Itoa (a_Port a)
  else if negb (bool_decide (destPort = [])) then destPort
  else
    let port := getConfig Default s destHost (lit "Port") in
    if negb (bool_decide (port = [])) then port else lit "22".

Definition getSshParam (args : sshArgs) (proxy : bool) : result login_error loginParam :=
  let '(destUser, destHost, destPort) := parseDestination (a_Destination args) in
  if bool_decide (destHost = []) then Err EmptyHost
  else
    let args := with_Destination destHost args in
    let! hd := login_host destHost args proxy in
    let host := hd.1 in
    let destHost := hd.2 in
    let args := with_Destination destHost args in
    let! user := login_user args destUser destHost in
    let port := login_port args destPort destHost in
    let srv := getExOptionConfig Default s (a_Option args) destHost (lit "DnsSrvName") in
    let hp := match (if bool_decide (srv = []) then None else lookupSrv srv) with
              | Some (h, p) => (TrimRight h [46], Itoa p)
              | None => (host, port)
              end in
    let pc := getProxyParam args in
    let tp := token_param args hp.1 hp.2 user in
    let! command := (if bool_decide (pc.2 = []) then Ok [] else expand pc.2 (tp pc.1) "%hnpr") in
    let! proxies := expand_proxies tp [] pc.1 in
    Ok {| lp_args := args; lp_host := hp.1; lp_port := hp.2; lp_user := user; lp_addr := joinHostPort hp.1 hp.2;
          lp_proxies := proxies; lp_command := command; lp_udpMode := getUdpMode args |}.

(** ** The command and the terminal *)

Definition parseRemoteCommand (QuoteCommand : list bytes -> bytes) (p : loginParam) : result login_error bytes :=
  let a := lp_args p in
  let command := option_get (a_Option a) (lit "RemoteCommand") in
  if negb (bool_decide (a_Command a = [])) && negb (bool_decide (command = [])) && negb (is_lower command "none") then Err TwoCommands
  else if negb (bool_decide (a_Command a = [])) then
    Ok (match a_Argument a with [] => a_Command a | args => QuoteCommand (a_Command a :: args) end)
  else if is_lower command "none" then Ok []
  else
    let command := if bool_decide (command = []) then getConfig Default s (a_Destination a) (lit "RemoteCommand") else command in
    expand command (token_param a (lp_host p) (lp_port p) (lp_user p) (lp_proxies p)) "%CdhijkLlnpru".

Definition parseCmdAndTTY (QuoteCommand : list bytes -> bytes) (isTerminal : bool) (p : loginParam) : result login_error (bytes * bool) :=
  let! cmd := parseRemoteCommand QuoteCommand p in
  let a := lp_args p in
  if a_DisableTTY a && a_ForceTTY a then Err TtyConflict
  else if a_DisableTTY a then Ok (cmd, false)
  else if a_ForceTTY a then Ok (cmd, true)
  else
    let requestTTY := getConfig Default s (a_Destination a) (lit "RequestTTY") in
    if is_lower requestTTY "" || is_lower requestTTY "auto" then Ok (cmd, isTerminal && bool_decide (cmd = []))
    else if is_lower requestTTY "no" || is_lower requestTTY "false" then Ok (cmd, false)
    else if is_lower requestTTY "force" then Ok (cmd, true)
    else if is_lower requestTTY "yes" || is_lower requestTTY "true" then Ok (cmd, isTerminal)
    else Err UnknownTTY.

(** ** The chain of jump hosts *)

Inductive client := TcpClient | UdpClient.

(** Whether a control socket answers for a login, whether its TCP connection and its UDP
    server come up. *)
Context (control connects udp_starts : loginParam -> bool).

Definition no_udp (m : udpMode) : bool := bool_decide (m = UdpNo).

(** The first loop of [tcpLogin], from the last jump host to the first. *)
Fixpoint assign_modes (requireUDP : udpMode) (proxies : list bytes) : list udpMode * udpMode :=
  match proxies with
  | [] => ([], requireUDP)
  | name :: proxies' =>
      let '(modes, requireUDP) := assign_modes requireUDP proxies' in
      let udpMode := getUdpMode (dest_args name) in
      let udpMode := if negb (no_udp requireUDP) && no_udp udpMode then requireUDP else udpMode in
      (udpMode :: modes, if no_udp requireUDP && negb (no_udp udpMode) then udpMode else requireUDP)
  end.

(** The second loop: log in to each jump host through the one before. *)
Fixpoint jump_login (login : loginParam -> option client -> udpMode -> option (result login_error client))
    (hops : list (bytes * udpMode)) (proxy : option client) : option (result login_error (option client)) :=
  match hops with
  | [] => Some (Ok proxy)
  | (name, mode) :: hops' =>
      match getSshParam (dest_args name) true with
      | Err e => Some (Err e)
      | Ok p =>
          match login p proxy mode with
          | None => None
          | Some (Err e) => Some (Err e)
          | Some (Ok c) => jump_login login hops' (Some c)
          end
      end
  end.

(** [sshLogin] with [tcpLogin] and [udpLogin]: the kind of client it ends with.  [None] is a
    chain of jump hosts deeper than the fuel. *)
Fixpoint sshLogin (fuel : nat) (p : loginParam) (proxy : option client) (requireUDP : udpMode) : option (result login_error client) :=
  match fuel with
  | O => None
  | S fuel' =>
      let mode := if negb (no_udp requireUDP) && no_udp (lp_udpMode p) then requireUDP else lp_udpMode p in
      let requireUDP := if no_udp requireUDP && negb (no_udp mode) then mode else requireUDP in
      let connect via := Some (if connects p then Ok via else Err ConnectFailed) in
      let tcp :=
        if control p then Some (Ok None)
        else match proxy with
             | Some _ => connect proxy
             | None =>
                 if negb (bool_decide (lp_command p = [])) then connect None
                 else match lp_proxies p with
                      | [] => connect None
                      | proxies =>
                          match jump_login (sshLogin fuel') (zip proxies (assign_modes requireUDP proxies).1) None with
                          | Some (Ok via) => connect via
                          | r => r
                          end
                      end
             end in
      match tcp with
      | None => None
      | Some (Err e) => Some (Err e)
      | Some (Ok via) =>
          if no_udp mode then Some (Ok TcpClient)
          else match via with
               | Some TcpClient => Some (Err NotUdpClient)
               | _ => Some (if udp_starts p then Ok UdpClient else Err ConnectFailed)
               end
      end
  end.

(** *** Modes along the chain *)

Lemma no_udp_true m : no_udp m = true <-> m = UdpNo.
Proof. unfold no_udp. by rewrite bool_decide_eq_true. Qed.
Lemma no_udp_false m : no_udp m = false <-> m <> UdpNo.
Proof. unfold no_udp. by rewrite bool_decide_eq_false. Qed.

(** The jump hosts that use UDP are the first ones: a hop without it is followed by hops
    without it, none of which asks for it. *)
Lemma assign_modes_spec require proxies ms r :
  assign_modes require proxies = (ms, r) ->
  length ms = length proxies /\
  (require <> UdpNo -> r <> UdpNo /\ Forall (fun m => m <> UdpNo) ms) /\
  (r = UdpNo -> Forall (fun m => m = UdpNo) ms) /\
  Forall2 (fun name m => m = UdpNo -> getUdpMode (dest_args name) = UdpNo) proxies ms /\
  (forall i j m m', ms !! i = Some m -> ms !! j = Some m' -> (i <= j)%nat -> m = UdpNo -> m' = UdpNo).
Proof.
  revert ms r. induction proxies as [|name proxies IH]; intros ms r; cbn [assign_modes].
  - intros [= <- <-]. split; [done|]. split; [by split|]. split; [by constructor|]. split; [constructor|]. intros i j m m' Hi. by rewrite lookup_nil in Hi.
  - destruct (assign_modes require proxies) as [ms0 r0]. destruct (IH ms0 r0 eq_refl) as (H1 & H2 & H3 & H4 & H5).
    intros [= <- <-]. set (g := getUdpMode (dest_args name)).
    set (m := if negb (no_udp r0) && no_udp g then r0 else g).
    assert (m = UdpNo <-> g = UdpNo /\ r0 = UdpNo) as Hm.
    { unfold m. destruct (no_udp r0) eqn:E0, (no_udp g) eqn:Eg; cbn [negb andb];
        rewrite ?no_udp_true, ?no_udp_false in *; intuition congruence. }
    assert ((if no_udp r0 && negb (no_udp m) then m else r0) = UdpNo <-> m = UdpNo /\ r0 = UdpNo) as Hr.
    { destruct (no_udp r0) eqn:E0, (no_udp m) eqn:Em; cbn [negb andb]; rewrite ?no_udp_true, ?no_udp_false in *; intuition congruence. }
    split; [cbn; congruence|]. split; [|split; [|split]].
    + intros Hq. destruct (H2 Hq) as [Hr0 Hms]. split; [rewrite Hr; tauto|]. constructor; [rewrite Hm; tauto|done].
    + intros Hq. apply Hr in Hq as [Hm' Hr']. constructor; [done|by apply H3].
    + constructor; [|done]. intros Hq. by apply Hm in Hq as [? _].
    + intros i j x y Hi Hj Hij Hx. destruct i as [|i].
      * cbn in Hi. injection Hi as <-. pose proof (proj1 Hm Hx) as [_ Hr0]. destruct j as [|j]; cbn in Hj.
        -- injection Hj as <-. exact Hx.
        -- specialize (H3 Hr0). by apply (Forall_lookup_1 _ _ _ _ H3) in Hj.
      * destruct j as [|j]; [lia|]. cbn in Hi, Hj. eapply (H5 i j); eauto. lia.
Qed.

(** The jump hosts a login can meet. *)
Inductive jumps : loginParam -> bytes -> Prop :=
| jumps_here p name : name ∈ lp_proxies p -> jumps p name
| jumps_there p name q name' :
    name ∈ lp_proxies p -> getSshParam (dest_args name) true = Ok q -> jumps q name' -> jumps p name'.

(** Their destinations are bare names of the configuration. *)
Definition bare_jumps (p : loginParam) : Prop := forall name q,
  jumps p name -> getSshParam (dest_args name) true = Ok q -> a_Destination (lp_args q) = name.

Lemma getSshParam_mode name proxy q :
  getSshParam (dest_args name) proxy = Ok q -> lp_udpMode q = getUdpMode (dest_args (a_Destination (lp_args q))).
Proof.
  unfold getSshParam. destruct (parseDestination _) as [[u h] po]. destruct (bool_decide (h = [])); [done|].
  destruct (login_host _ _ _) as [[h1 h2]|]; [|done]. cbn [rbind fst snd].
  destruct (login_user _ _ _) as [usr|]; [|done]. cbn [rbind].
  destruct (if bool_decide (_ = []) then Ok [] else _) as [c|]; [|done]. cbn [rbind].
  destruct (expand_proxies _ _ _) as [ps|]; [|done]. cbn [rbind]. intros [= <-]. done.
Qed.

(** Finding the parameters fails for reasons of its own. *)
Definition not_chain {A} (r : result login_error A) : Prop := r <> Err NotUdpClient.
Lemma rbind_not_chain {A B} (m : result login_error A) (f : A -> result login_error B) :
  not_chain m -> (forall a, not_chain (f a)) -> not_chain (rbind m f).
Proof. intros H1 H2. destruct m as [a|e]; cbn; [apply H2|]. intros [= ->]. by apply H1. Qed.
Lemma expand_not_chain str p t : not_chain (expand str p t).
Proof. unfold expand. by destruct (expandTokens _ _ _ _ _). Qed.
Lemma expand_proxies_not_chain p todo : forall done, not_chain (expand_proxies p done todo).
Proof.
  induction todo as [|x todo IH]; intros d; [done|]. cbn [expand_proxies].
  apply rbind_not_chain; [apply expand_not_chain|]. intros a. apply IH.
Qed.
Lemma getSshParam_not_chain a proxy : not_chain (getSshParam a proxy).
Proof.
  unfold getSshParam. destruct (parseDestination _) as [[u h] po]. destruct (bool_decide (h = [])); [done|]. cbv zeta.
  apply rbind_not_chain.
  { unfold login_host. cbv zeta. destruct (negb _); [apply rbind_not_chain; [apply expand_not_chain|done]|].
    destruct (_ || _); [|done]. apply rbind_not_chain; [|done]. unfold canonicalizeHost. cbv zeta. destruct (_ <? _); [done|].
    destruct (getConfigSplits _ _ _ _ _); [done|]. destruct (find _ _); [done|]. by destruct (is_lower _ _). }
  intros [h1 h2]. apply rbind_not_chain.
  { unfold login_user. cbv zeta. destruct (negb _); [done|]. destruct (negb _); [done|]. destruct (negb _); [done|]. by destruct currentUser. }
  intros usr. apply rbind_not_chain; [destruct (bool_decide _); [done|apply expand_not_chain]|].
  intros c. apply rbind_not_chain; [apply expand_proxies_not_chain|done].
Qed.

Definition uses_udp (p : loginParam) (require : udpMode) : bool := negb (no_udp require) || negb (no_udp (lp_udpMode p)).

Lemma effective_mode p require :
  no_udp (if negb (no_udp require) && no_udp (lp_udpMode p) then require else lp_udpMode p) = negb (uses_udp p require).
Proof. unfold uses_udp. by destruct (no_udp require) eqn:E, (no_udp (lp_udpMode p)) eqn:E'; cbn; rewrite ?E, ?E'. Qed.

(** The clients along the chain: each is of the kind its hop asked for. *)
Lemma jump_login_kinds login proxies modes :
  (forall q proxy mode, (exists name, name ∈ proxies /\ getSshParam (dest_args name) true = Ok q) ->
     (proxy = Some TcpClient -> uses_udp q mode = false) ->
     login q proxy mode <> Some (Err NotUdpClient) /\
     forall c, login q proxy mode = Some (Ok c) -> c = if uses_udp q mode then UdpClient else TcpClient) ->
  (forall name q, name ∈ proxies -> getSshParam (dest_args name) true = Ok q -> a_Destination (lp_args q) = name) ->
  Forall2 (fun name m => m = UdpNo -> getUdpMode (dest_args name) = UdpNo) proxies modes ->
  (forall i j m m', modes !! i = Some m -> modes !! j = Some m' -> (i <= j)%nat -> m = UdpNo -> m' = UdpNo) ->
  forall proxy, (proxy = Some TcpClient -> Forall (fun m => m = UdpNo) modes) ->
  jump_login login (zip proxies modes) proxy <> Some (Err NotUdpClient) /\
  forall via, jump_login login (zip proxies modes) proxy = Some (Ok via) ->
    via = Some TcpClient -> proxy = Some TcpClient \/ exists m, m ∈ modes /\ m = UdpNo.
Proof.
  intros Hlogin Hbare H. revert Hlogin Hbare. induction H as [|name m proxies modes Hm Hf IH]; intros Hlogin Hbare Hmono proxy Hp.
  - cbn. split; [done|]. intros via [= <-] E. by left.
  - cbn [zip zip_with jump_login]. destruct (getSshParam (dest_args name) true) as [q|e] eqn:Eq.
    2:{ split; [|done]. intros [= ->]. by apply getSshParam_not_chain in Eq. }
    assert (lp_udpMode q = getUdpMode (dest_args name)) as Emode.
    { rewrite (getSshParam_mode _ _ _ Eq). by rewrite (Hbare name q ltac:(set_solver) Eq). }
    assert (uses_udp q m = negb (no_udp m)) as Euse.
    { unfold uses_udp. destruct (no_udp m) eqn:E; [|done]. apply no_udp_true in E. by rewrite Emode, (Hm E). }
    destruct (Hlogin q proxy m) as [Hno Hkind]; [exists name; set_solver| |].
    { intros ->. specialize (Hp eq_refl). apply Forall_cons in Hp as [-> _]. by rewrite Euse. }
    destruct (login q proxy m) as [[c|e]|] eqn:El; [|split; [congruence|done]|done].
    rewrite (Hkind c eq_refl), Euse. clear El.
    destruct (IH ltac:(intros q' pr mo (n & Hn & Hq); apply Hlogin; exists n; set_solver)
                 ltac:(intros n q' Hn; apply Hbare; set_solver)
                 ltac:(intros i j x y Hi Hj Hij; apply (Hmono (S i) (S j) x y Hi Hj); lia)
                 (Some (if negb (no_udp m) then UdpClient else TcpClient))) as [IH1 IH2].
    { destruct (no_udp m) eqn:E; [|done]. intros _. apply no_udp_true in E. apply Forall_lookup_2. intros i x Hx.
      eapply (Hmono 0%nat (S i) m x); [done|done|lia|done]. }
    split; [done|]. intros via Hv Ht. destruct (IH2 via Hv Ht) as [Ht'|(m' & Hin & Hm')]; [|right; exists m'; set_solver].
    right. exists m. split; [set_solver|]. destruct (no_udp m) eqn:E; [by apply no_udp_true|done].
Qed.

Lemma sshLogin_kinds fuel : forall p proxy require, bare_jumps p ->
  (proxy = Some TcpClient -> uses_udp p require = false) ->
  sshLogin fuel p proxy require <> Some (Err NotUdpClient) /\
  forall c, sshLogin fuel p proxy require = Some (Ok c) -> c = if uses_udp p require then UdpClient else TcpClient.
Proof.
  induction fuel as [|fuel IH]; intros p proxy require Hb Hp; [done|]. cbn [sshLogin]. cbv zeta.
  pose proof (effective_mode p require) as Em.
  set (mode := if negb (no_udp require) && no_udp (lp_udpMode p) then require else lp_udpMode p) in *.
  set (require' := if no_udp require && negb (no_udp mode) then mode else require).
  assert (uses_udp p require = true -> require' <> UdpNo) as Hreq.
  { intros Hu. rewrite Hu in Em. cbn in Em. unfold require'. rewrite Em. destruct (no_udp require) eqn:E; cbn [negb andb]; by apply no_udp_false. }
  rewrite Em. clearbody mode require'.
  assert (forall via : option client, (uses_udp p require = true -> via <> Some TcpClient) ->
    forall r : result login_error client,
    (if negb (uses_udp p require) then Some (Ok TcpClient)
     else match via with
          | Some TcpClient => Some (Err NotUdpClient)
          | _ => Some (if udp_starts p then Ok UdpClient else Err ConnectFailed)
          end) = Some r ->
    r <> Err NotUdpClient /\ forall c, r = Ok c -> c = if uses_udp p require then UdpClient else TcpClient) as Hend.
  { intros via Hvia r. destruct (uses_udp p require); cbn [negb].
    - specialize (Hvia eq_refl). destruct via as [[]|]; [done|..]; intros [= <-]; destruct (udp_starts p); (split; [done|]); intros c Hc; congruence.
    - intros [= <-]. split; [done|]. intros c Hc. congruence. }
  assert (forall tcp : option (result login_error (option client)),
    tcp <> Some (Err NotUdpClient) -> (forall via, tcp = Some (Ok via) -> uses_udp p require = true -> via <> Some TcpClient) ->
    forall o, match tcp with
     | None => None
     | Some (Err e) => Some (Err e)
     | Some (Ok via) =>
         if negb (uses_udp p require) then Some (Ok TcpClient)
         else match via with
              | Some TcpClient => Some (Err NotUdpClient)
              | _ => Some (if udp_starts p then Ok UdpClient else Err ConnectFailed)
              end
     end = o ->
    o <> Some (Err NotUdpClient) /\ forall c, o = Some (Ok c) -> c = if uses_udp p require then UdpClient else TcpClient) as Hfin.
  { intros tcp Hn Hv o <-. destruct tcp as [[via|e]|]; [|split; [congruence|done]|done].
    specialize (Hend via (Hv via eq_refl)).
    destruct (if negb (uses_udp p require) then Some (Ok TcpClient) else _) as [r|]; [|done].
    destruct (Hend r eq_refl) as [H1 H2]. split; [congruence|]. intros c [= ->]. by apply H2. }
  assert (jump_login (sshLogin fuel) (zip (lp_proxies p) (assign_modes require' (lp_proxies p)).1) None <> Some (Err NotUdpClient) /\
    forall via, jump_login (sshLogin fuel) (zip (lp_proxies p) (assign_modes require' (lp_proxies p)).1) None = Some (Ok via) ->
      uses_udp p require = true -> via <> Some TcpClient) as [Hj1 Hj2].
  { destruct (assign_modes require' (lp_proxies p)) as [ms r] eqn:Ea.
    destruct (assign_modes_spec _ _ _ _ Ea) as (_ & Hreq2 & _ & Hf2 & Hmono). cbn [fst].
    destruct (jump_login_kinds (sshLogin fuel) (lp_proxies p) ms) with (proxy := @None client) as [H1 H2]; try done.
    - intros q pr mo (name & Hin & Hq). apply IH. intros name' q' Hj' Hq'. eapply Hb; [|exact Hq']. by eapply jumps_there.
    - intros name q Hin Hq. eapply Hb; [|exact Hq]. by apply jumps_here.
    - split; [done|]. intros via Hv Hu Ht. destruct (H2 via Hv Ht) as [?|(m & Hm & ->)]; [done|].
      destruct (Hreq2 (Hreq Hu)) as [_ Hall]. rewrite Forall_forall in Hall. by apply (Hall UdpNo Hm). }
  eapply Hfin; [| |reflexivity]; clear Hend Hfin.
  - destruct (control p); [done|]. destruct proxy; [by destruct (connects p)|]. destruct (bool_decide (lp_command p = [])); cbn [negb]; [|by destruct (connects p)].
    destruct (lp_proxies p) as [|n ps]; [by destruct (connects p)|].
    destruct (jump_login _ _ _) as [[via|e]|]; [by destruct (connects p)|done|done].
  - intros via. destruct (control p); [by intros [= <-]|]. destruct proxy as [c|].
    { destruct (connects p); [|done]. intros [= <-] Hu Ht. rewrite (Hp Ht) in Hu. done. }
    destruct (bool_decide (lp_command p = [])); cbn [negb]; [|destruct (connects p); [by intros [= <-]|done]].
    destruct (lp_proxies p) as [|n ps]; [destruct (connects p); [by intros [= <-]|done]|].
    destruct (jump_login _ _ _) as [[v|e]|]; [|done|done]. destruct (connects p); [|done]. intros [= <-]. by apply Hj2.
Qed.

(** C13: A chain of jump hosts never fails on itself: when the jump hosts are named by bare names of the
    configuration, a login whose parameters were found never ends in the error that a jump host's
    client is not a UDP client, however UDP is asked for along the chain and in the
    configuration of the jump hosts and of theirs; and the client it ends with is a UDP client
    exactly when the destination asks for UDP. *)
Theorem jump_chain_consistent fuel p :
  bare_jumps p ->
  sshLogin fuel p None UdpNo <> Some (Err NotUdpClient) /\
  forall c, sshLogin fuel p None UdpNo = Some (Ok c) -> c = UdpClient <-> lp_udpMode p <> UdpNo.
Proof.
  intros Hb. destruct (sshLogin_kinds fuel p None UdpNo Hb) as [H1 H2]; [done|]. split; [done|]. intros c Hc.
  rewrite (H2 c Hc). unfold uses_udp. change (no_udp UdpNo) with true. cbn [negb orb].
  destruct (no_udp (lp_udpMode p)) eqn:E; rewrite ?no_udp_true, ?no_udp_false in E; cbn; split; congruence.
Qed.
End Login.

(** *** Examples *)

(** Two jump hosts, the second of which uses UDP. *)
Definition example_get (jump : bytes) (alias key : bytes) : option bytes :=
  Some (if bool_decide (alias = lit "d") && bool_decide (key = lit "ProxyJump") then jump
        else if bool_decide (alias = lit "b") && bool_decide (key = lit "UdpMode") then lit "yes" else []).
Definition example_settings (jump : bytes) : settings := {|
  effective := fun _ => None; sysConfig := None; exConfig := None;
  config := Some {| file_Get := example_get jump; file_GetAll := fun _ _ => Some []; file_GetSplits := fun _ _ => Some [];
                    file_GetAllSplits := fun _ _ => Some [] |} |}.
Definition example_param (jump dest : bytes) (proxy : bool) : result login_error loginParam :=
  @getSshParam caseless_tables (fun _ => []) (fun _ => None) [] (fun x => x) (example_settings jump) (fun _ => true)
    (fun _ => None) (Some (lit "me")) (dest_args dest) proxy.
Definition example_login (jump dest : bytes) : option (result login_error client) :=
  match example_param jump dest false with
  | Err e => Some (Err e)
  | Ok p => @sshLogin caseless_tables (fun _ => []) (fun _ => None) [] (fun x => x) (example_settings jump) (fun _ => true)
              (fun _ => None) (Some (lit "me")) (fun _ => false) (fun _ => true) (fun _ => true) 5 p None UdpNo
  end.

Lemma jump_chain_consistent_witness :
  example_login (lit "a,b") (lit "d") = Some (Ok TcpClient) /\
  (forall p, example_param (lit "a,b") (lit "d") false = Ok p ->
     forall fuel, @sshLogin caseless_tables (fun _ => []) (fun _ => None) [] (fun x => x) (example_settings (lit "a,b")) (fun _ => true)
       (fun _ => None) (Some (lit "me")) (fun _ => false) (fun _ => true) (fun _ => true) fuel p None UdpNo <> Some (Err NotUdpClient)).
Proof.
  split; [vm_compute; reflexivity|]. intros p Hp fuel.
  apply (@jump_chain_consistent caseless_tables (fun _ => []) (fun _ => None) [] (fun x => x) (example_settings (lit "a,b"))
           (fun _ => true) (fun _ => None) (Some (lit "me")) (fun _ => false) (fun _ => true) (fun _ => true) fuel p).
  vm_compute in Hp. injection Hp as <-.
  assert (forall name q, name ∈ [lit "a"; lit "b"] -> example_param (lit "a,b") name true = Ok q ->
            a_Destination (lp_args q) = name /\ lp_proxies q = []) as Hq.
  { intros name q Hin. apply elem_of_cons in Hin as [->|Hin]; [|apply list_elem_of_singleton in Hin as ->];
      intros E; vm_compute in E; injection E as <-; split; reflexivity. }
  assert (forall q name, lp_proxies q = [] -> ~ @jumps caseless_tables (fun _ => []) (fun _ => None) [] (fun x => x)
            (example_settings (lit "a,b")) (fun _ => true) (fun _ => None) (Some (lit "me")) q name) as Hnone.
  { intros q name Hq0 Hj. destruct Hj as [q' n Hin|q' n r n' Hin _ _]; rewrite Hq0 in Hin; by apply elem_of_nil in Hin. }
  intros name q Hj Eq. inversion Hj as [p' n Hin|p' n r n' Hin Hr Hj']; subst.
  - apply (Hq name q Hin Eq).
  - exfalso. eapply Hnone; [|exact Hj']. apply (Hq n r Hin Hr).
Defined.

(** The first pass over the jump hosts looks a host up under the whole text of its entry, the login
    under its host name: written as user@host, a jump host that is configured for UDP is not
    noticed in time and its login fails. *)
Lemma jump_with_user_fails : example_login (lit "a,u@b") (lit "d") = Some (Err NotUdpClient).
Proof. vm_compute. reflexivity. Qed.
