(* ===== verification/UdpCommand.v ===== *)
(** * Starting the UDP server from the ssh client

    src/tssh/udp.go: the ports the user allows, the command line of [tsshd] on the remote
    host, what is read from its output, and the timeouts of the connection that follows. *)

From S2P Require Import Prelude GoStrings SshTime Forwarding SshConfig Login.

Local Open Scope go_scope.

(** ** Port ranges *)

Definition port_value (s : bytes) : option Z :=
  match ParseUint s 10 16 with
  | Ok v => if v =? 0 then None else Some v
  | Err _ => None
  end.

Definition addPortRange (lowPort : bytes) (highPort : option bytes) (ranges : list (Z * Z)) : list (Z * Z) :=
  match port_value lowPort with
  | None => ranges
  | Some low =>
      match (match highPort with None => Some low | Some h => port_value h end) with
      | None => ranges
      | Some high => if high <? low then ranges else ranges ++ [(low, high)]
      end
  end.

(** The loop over the tokens of one segment, with the index [i] and the last token [k] that
    was the end of a range; [None] is out of fuel. *)
Fixpoint segment_loop (fuel : nat) (tokens : list bytes) (i : nat) (k : Z) (ranges : list (Z * Z)) : option (list (Z * Z)) :=
  match fuel with
  | O => None
  | S fuel' =>
      match tokens !! i with
      | None => Some ranges
      | Some token =>
          if Contains token (lit "-") && negb (bool_decide (token = lit "-")) then
            match Split token 45 with
            | [low; high] =>
                if bool_decide (low = []) || bool_decide (high = []) then segment_loop fuel' tokens (S i) k ranges
                else segment_loop fuel' tokens (S i) k (addPortRange low (Some high) ranges)
            | _ => segment_loop fuel' tokens (S i) k ranges
            end
          else if bool_decide (token = lit "-") then
            match tokens !! (i - 1)%nat, tokens !! S i with
            | Some low, Some high =>
                if (i =? 0)%nat || (Z.of_nat i - 1 <=? k) then segment_loop fuel' tokens (S (S i)) k ranges
                else segment_loop fuel' tokens (S (S i)) (Z.of_nat i + 1) (addPortRange low (Some high) ranges)
            | _, _ => segment_loop fuel' tokens (S (S i)) k ranges
            end
          else if bool_decide (tokens !! S i = Some (lit "-")) then segment_loop fuel' tokens (S i) k ranges
          else if (0 <? i)%nat && bool_decide (tokens !! (i - 1)%nat = Some (lit "-")) then segment_loop fuel' tokens (S i) k ranges
          else segment_loop fuel' tokens (S i) k (addPortRange token None ranges)
      end
  end.

Definition parse_segment (ranges : option (list (Z * Z))) (seg : bytes) : option (list (Z * Z)) :=
  match ranges with
  | None => None
  | Some rs => let tokens := Fields seg in segment_loop (S (length tokens)) tokens 0 (-1) rs
  end.
Definition parseTsshdPortRanges (tsshdPort : bytes) : option (list (Z * Z)) :=
  fold_left parse_segment (Split tsshdPort 44) (Some []).

(** The [--port] argument. *)
Definition print_range (r : Z * Z) : bytes :=
  if r.1 =? r.2 then Itoa r.1 else Itoa r.1 ++ lit "-" ++ Itoa r.2.
Definition print_ranges (ranges : list (Z * Z)) : bytes := Join (map print_range ranges) (lit ",").

(** ** The command *)

Section Command.
Context `{U : UnicodeTables}.
Context (Default : bytes -> bytes) (s : settings).

Definition ex_option (a : sshArgs) (key : string) : bytes := getExOptionConfig Default s (a_Option a) (a_Destination a) (lit key).

Definition getTsshdPath (a : sshArgs) : bytes :=
  if negb (bool_decide (a_TsshdPath a = [])) then a_TsshdPath a
  else let tsshdPath := ex_option a "TsshdPath" in
       if negb (bool_decide (tsshdPath = [])) then tsshdPath else lit "tsshd".

(** [--port] with the port setting, the old name of which is UdpPort. *)
Definition tsshd_port (a : sshArgs) : bytes :=
  let tsshdPort := a_TsshdPort a in
  let tsshdPort := if bool_decide (tsshdPort = []) then ex_option a "TsshdPort" else tsshdPort in
  if bool_decide (tsshdPort = []) then ex_option a "UdpPort" else tsshdPort.
Definition port_flag (tsshdPort : bytes) : bytes :=
  if bool_decide (tsshdPort = []) then []
  else match parseTsshdPortRanges tsshdPort with
       | Some (r :: rs) => lit " --port " ++ print_ranges (r :: rs)
       | _ => []
       end.

Definition flag (b : bool) (text : bytes) : bytes := if b then text else [].
Definition getTsshdCommand (a : sshArgs) (mode : udpMode) (tsshdPath : bytes) (mtu connectTimeout : Z) (enableDebugLogging : bool) : bytes :=
  tsshdPath ++
  flag (bool_decide (mode = UdpKcp)) (lit " --kcp") ++
  flag (is_lower (ex_option a "UdpProxyMode") "tcp") (lit " --tcp") ++
  flag enableDebugLogging (lit " --debug") ++
  (let '(_, ipv4, ipv6) := getNetworkAddressFamily Default s a in
   flag ipv4 (lit " --ipv4") ++ flag ipv6 (lit " --ipv6")) ++
  flag (0 <? mtu) (lit " --mtu " ++ Itoa mtu) ++
  port_flag (tsshd_port a) ++
  flag (negb (connectTimeout =? kDefaultConnectTimeout)) (lit " --connect-timeout " ++ Itoa connectTimeout).

(** ** Timeouts, in nanoseconds of a signed 64-bit duration *)

Definition second : Z := 1000000000.
Definition kDefaultUdpAliveTimeout : Z := 10 * 24 * 3600 * second.
Definition kDefaultUdpHeartbeatTimeout : Z := 3 * second.
Definition kDefaultUdpReconnectTimeout : Z := 15 * second.
Definition int64 (n : Z) : Z := (n + 2 ^ 63) mod 2 ^ 64 - 2 ^ 63.

Definition getUdpTimeoutConfig (a : sshArgs) (timeoutOption : string) (defaultTimeout : Z) : Z :=
  let timeoutConfig := ex_option a timeoutOption in
  if bool_decide (timeoutConfig = []) then defaultTimeout
  else match convertSshTime timeoutConfig with
       | Some (Ok timeoutSeconds) => if timeoutSeconds <=? 0 then defaultTimeout else int64 (timeoutSeconds * second)
       | _ => defaultTimeout
       end.

Definition udp_interval (aliveTimeout heartbeatTimeout reconnectTimeout : Z) : Z :=
  Z.min (aliveTimeout ÷ 10) (Z.min heartbeatTimeout reconnectTimeout ÷ 3).

(** The packet size: UdpMTU, or what the jump host's client announces. *)
Definition udp_mtu (a : sshArgs) (proxy : option Z) : Z :=
  let udpMTU := ex_option a "UdpMTU" in
  let mtu := if bool_decide (udpMTU = []) then 0 else match ParseUint udpMTU 10 16 with Ok v => v | Err _ => 0 end in
  match proxy with
  | Some size => if mtu =? 0 then size else mtu
  | None => mtu
  end.
End Command.

(** ** The output of the server *)

Inductive start_error := WaitFailed (out err : bytes) | OnlyStderr (err : bytes) | ReadFailed | NoOutput | Unexpected (out : bytes) | BadJson (out : bytes).

(** What is between the braces after the last bell. *)
Definition remove_byte (c : Z) (text : bytes) : bytes := filter (fun b => b <> c) text.
Definition server_info_text (output : bytes) : bytes :=
  let output := match LastIndexByte output 7 with Some pos => drop (S pos) output | None => output end in
  let output := match IndexByte output 123 with Some pos => drop pos output | None => output end in
  let output := match LastIndexByte output 125 with Some pos => take (S pos) output | None => output end in
  remove_byte 10 (remove_byte 13 output).

(** [startTsshdServer] once the command is running; [strip] removes the terminal's escape
    sequences, [unmarshal] is the JSON decoder. *)
Definition startTsshdServer {info} (strip : bytes -> bytes) (unmarshal : bytes -> option info) (wait_ok read_ok : bool)
    (stdout stderr : bytes) : result start_error info :=
  let readConsoleOutput stream := TrimSpace (strip stream) in
  if negb wait_ok then Err (WaitFailed (readConsoleOutput stdout) (readConsoleOutput stderr))
  else
    let output := readConsoleOutput stdout in
    if bool_decide (output = []) then
      if negb (bool_decide (readConsoleOutput stderr = [])) then Err (OnlyStderr (readConsoleOutput stderr))
      else if negb read_ok then Err ReadFailed
      else Err NoOutput
    else
      let output := server_info_text output in
      if negb (HasPrefix output (lit "{")) || negb (HasSuffix output (lit "}")) then Err (Unexpected output)
      else match unmarshal output with
           | None => Err (BadJson output)
           | Some i => Ok i
           end.

(** ** What the port setting means *)

Definition range_ok (r : Z * Z) : Prop := 1 <= r.1 <= r.2 /\ r.2 <= 65535.
Definition ranges_ok (rs : list (Z * Z)) : Prop := Forall range_ok rs.

Lemma port_value_spec text v : port_value text = Some v -> 1 <= v <= 65535.
Proof.
  unfold port_value. destruct (ParseUint text 10 16) as [w|] eqn:E; [|done]. destruct (Z.eqb_spec w 0); [done|].
  intros [= <-]. apply ParseUint16_range in E. lia.
Qed.

Lemma addPortRange_ok low high rs : ranges_ok rs -> ranges_ok (addPortRange low high rs).
Proof.
  intros H. unfold addPortRange. destruct (port_value low) as [l|] eqn:El; [|done].
  destruct (match high with None => Some l | Some h => port_value h end) as [h|] eqn:Eh; [|done].
  destruct (Z.ltb_spec h l); [done|]. apply Forall_app. split; [done|]. constructor; [|done].
  apply port_value_spec in El. assert (1 <= h <= 65535) by (destruct high; [by apply port_value_spec in Eh|by injection Eh as <-]).
  split; cbn; lia.
Qed.
#[local] Hint Resolve addPortRange_ok : core.

Lemma segment_loop_ok fuel tokens : forall i k rs, (0 < fuel)%nat -> (length tokens < i + fuel)%nat -> ranges_ok rs ->
  exists rs', segment_loop fuel tokens i k rs = Some rs' /\ ranges_ok rs'.
Proof.
  induction fuel as [|fuel IH]; intros i k rs Hpos Hf Hrs; [lia|]. cbn [segment_loop].
  destruct (tokens !! i) as [token|] eqn:E; [|eauto]. apply lookup_lt_Some in E.
  assert (forall i' k' rs', (i < i')%nat -> ranges_ok rs' ->
    exists rs'', segment_loop fuel tokens i' k' rs' = Some rs'' /\ ranges_ok rs'') as Hstep
    by (intros; apply IH; [lia|lia|done]).
  repeat case_match; apply Hstep; first [lia|by auto].
Qed.

Lemma parse_segments_ok segs : forall rs, ranges_ok rs ->
  exists rs', fold_left parse_segment segs (Some rs) = Some rs' /\ ranges_ok rs'.
Proof.
  induction segs as [|seg segs IH]; intros rs Hrs; [by exists rs|]. cbn [fold_left parse_segment].
  destruct (segment_loop_ok (S (length (Fields seg))) (Fields seg) 0 (-1) rs) as (rs1 & -> & H1); [lia|lia|done|]. by apply IH.
Qed.

(** A port, a range in one word, and a range with the dash apart. *)
Inductive port_item := One (p : Z) | Tight (l h : Z) | Loose (l h : Z).
Definition item_range (it : port_item) : Z * Z :=
  match it with One p => (p, p) | Tight l h | Loose l h => (l, h) end.
Definition item_tokens (it : port_item) : list bytes :=
  match it with
  | One p => [Itoa p]
  | Tight l h => [Itoa l ++ 45 :: Itoa h]
  | Loose l h => [Itoa l; lit "-"; Itoa h]
  end.

Lemma Contains_byte text c : Contains text [c] = bool_decide (c ∈ text).
Proof.
  unfold Contains. apply bool_decide_ext. induction text as [|b text IH].
  - cbn. split; [by intros [? [=]]|by intros ?%elem_of_nil].
  - cbn [Index]. unfold HasPrefix at 1. destruct (decide ([c] `prefix_of` b :: text)) as [Hp|Hp].
    + rewrite bool_decide_true by done. destruct Hp as [t [= -> ->]]. split; [|by eauto]. intros _. set_solver.
    + rewrite bool_decide_false by done. rewrite fmap_is_Some, IH, elem_of_cons. split; [by right|].
      intros [->|]; [|done]. destruct Hp. by exists text.
Qed.

Lemma Itoa_no_dash n : 0 <= n -> 45 ∉ Itoa n.
Proof. intros. by apply Itoa_plain. Qed.
Lemma Itoa_not_dash n : 0 <= n -> Itoa n <> lit "-".
Proof. intros Hn E. apply (Itoa_no_dash n Hn). rewrite E. by left. Qed.

Lemma addPortRange_One p rs : range_ok (p, p) -> addPortRange (Itoa p) None rs = rs ++ [(p, p)].
Proof.
  intros [H1 H2]. cbn in H1, H2. unfold addPortRange, port_value. rewrite ParseUint_Itoa_bits by lia.
  rewrite (proj2 (Z.eqb_neq p 0)) by lia. by rewrite Z.ltb_irrefl.
Qed.
Lemma addPortRange_pair l h rs : range_ok (l, h) -> addPortRange (Itoa l) (Some (Itoa h)) rs = rs ++ [(l, h)].
Proof.
  intros [H1 H2]. cbn in H1, H2. unfold addPortRange, port_value. rewrite !ParseUint_Itoa_bits by lia.
  rewrite (proj2 (Z.eqb_neq l 0)), (proj2 (Z.eqb_neq h 0)), (proj2 (Z.ltb_ge h l)) by lia. done.
Qed.

(** One token that stands for a number. *)
Lemma number_token fuel pre rest k rs p :
  range_ok (p, p) -> last pre <> Some (lit "-") -> head rest <> Some (lit "-") ->
  segment_loop (S fuel) (pre ++ Itoa p :: rest) (length pre) k rs =
  segment_loop fuel (pre ++ Itoa p :: rest) (S (length pre)) k (rs ++ [(p, p)]).
Proof.
  intros Hp Hpre Hrest. assert (0 <= p) as H0 by (destruct Hp; cbn in *; lia). cbn [segment_loop].
  rewrite list_lookup_middle by done. rewrite (Contains_byte _ 45), (bool_decide_false _ (Itoa_no_dash p H0)). cbn [andb].
  rewrite (bool_decide_false _ (Itoa_not_dash p H0)).
  rewrite bool_decide_false; [|rewrite lookup_app_r by lia; replace (S (length pre) - length pre)%nat with 1%nat by lia;
    by destruct rest].
  replace ((0 <? length pre)%nat && bool_decide ((pre ++ Itoa p :: rest) !! (length pre - 1)%nat = Some (lit "-"))) with false;
    [by rewrite addPortRange_One|].
  symmetry. apply andb_false_iff. destruct pre as [|x pre _] using rev_ind; [by left|right]. apply bool_decide_eq_false.
  rewrite length_app. cbn [length]. replace (length pre + 1 - 1)%nat with (length pre) by lia.
  rewrite <- app_assoc. cbn [app]. rewrite list_lookup_middle by done. by rewrite last_snoc in Hpre.
Qed.

(** The two tokens of a range with the dash apart, read from the lower port on. *)
Lemma loose_tokens fuel pre rest k rs l h :
  range_ok (l, h) -> k < Z.of_nat (length pre) ->
  segment_loop (S (S fuel)) (pre ++ Itoa l :: lit "-" :: Itoa h :: rest) (length pre) k rs =
  segment_loop fuel (pre ++ Itoa l :: lit "-" :: Itoa h :: rest) (length pre + 3) (Z.of_nat (length pre) + 2) (rs ++ [(l, h)]).
Proof.
  intros Hr Hk. assert (0 <= l) as H0 by (destruct Hr; cbn in *; lia). set (tokens := pre ++ _).
  assert (tokens !! length pre = Some (Itoa l)) as E0 by (apply list_lookup_middle; done).
  assert (tokens !! S (length pre) = Some (lit "-")) as E1
    by (unfold tokens; rewrite lookup_app_r by lia; by replace (S (length pre) - length pre)%nat with 1%nat by lia).
  assert (tokens !! S (S (length pre)) = Some (Itoa h)) as E2
    by (unfold tokens; rewrite lookup_app_r by lia; by replace (S (S (length pre)) - length pre)%nat with 2%nat by lia).
  clearbody tokens. cbn [segment_loop]. rewrite E0, E1.
  rewrite (Contains_byte _ 45), (bool_decide_false _ (Itoa_no_dash l H0)). cbn [andb].
  rewrite (bool_decide_false _ (Itoa_not_dash l H0)). rewrite bool_decide_true by done.
  replace (Contains (lit "-") (lit "-") && negb (bool_decide (lit "-" = lit "-"))) with false by done.
  rewrite bool_decide_true by done. replace (S (length pre) - 1)%nat with (length pre) by lia. rewrite E0, E2.
  cbn [Nat.eqb orb]. rewrite (proj2 (Z.leb_gt _ _)) by lia. rewrite addPortRange_pair by done.
  f_equal; lia.
Qed.

Lemma tight_token fuel pre rest k rs l h :
  range_ok (l, h) ->
  segment_loop (S fuel) (pre ++ (Itoa l ++ 45 :: Itoa h) :: rest) (length pre) k rs =
  segment_loop fuel (pre ++ (Itoa l ++ 45 :: Itoa h) :: rest) (S (length pre)) k (rs ++ [(l, h)]).
Proof.
  intros Hr. assert (0 <= l /\ 0 <= h) as [Hl Hh] by (destruct Hr; cbn in *; lia). cbn [segment_loop].
  rewrite list_lookup_middle by done. rewrite (Contains_byte _ 45), bool_decide_true by set_solver. cbn [andb].
  rewrite bool_decide_false; cbn [negb].
  - rewrite Split_app, Split_no_sep by (by apply Itoa_no_dash).
    rewrite !bool_decide_false by (by apply Itoa_nonempty). cbn [orb]. by rewrite addPortRange_pair.
  - intros E. apply (f_equal length) in E. rewrite length_app in E. cbn in E.
    pose proof (Itoa_nonempty l Hl). destruct (Itoa l); [done|]. cbn in E. lia.
Qed.

Definition item_ok (it : port_item) : Prop := range_ok (item_range it).

Lemma items_head items : Forall item_ok items -> head (concat (map item_tokens items)) <> Some (lit "-").
Proof.
  intros H. destruct H as [|it items Hi _]; [done|]. destruct Hi as [H1 _].
  destruct it as [p|l h|l h]; cbn in *; intros [= E].
  - revert E. apply Itoa_not_dash. lia.
  - apply (f_equal length) in E. rewrite length_app in E. cbn in E. pose proof (Itoa_nonempty l ltac:(lia)).
    destruct (Itoa l); [done|]. cbn in E. lia.
  - revert E. apply Itoa_not_dash. lia.
Qed.

Lemma items_last pre it : item_ok it -> last (pre ++ item_tokens it) <> Some (lit "-").
Proof.
  intros [H1 _]. destruct it as [p|l h|l h]; cbn [item_tokens item_range fst snd] in *.
  1, 2: rewrite last_snoc. 3: rewrite (app_assoc pre [Itoa l; lit "-"] [Itoa h] : pre ++ [Itoa l; lit "-"; Itoa h] = _), last_snoc.
  - intros [= E]. revert E. apply Itoa_not_dash. lia.
  - intros [= E]. apply (f_equal length) in E. rewrite length_app in E. cbn in E. pose proof (Itoa_nonempty l ltac:(lia)).
    destruct (Itoa l); [done|]. cbn in E. lia.
  - intros [= E]. revert E. apply Itoa_not_dash. lia.
Qed.

(** The loop reads every item of a segment once, in order. *)
Lemma segment_items items : forall fuel pre k rs, Forall item_ok items -> k < Z.of_nat (length pre) -> last pre <> Some (lit "-") ->
  (length (concat (map item_tokens items)) < fuel)%nat ->
  segment_loop fuel (pre ++ concat (map item_tokens items)) (length pre) k rs = Some (rs ++ map item_range items).
Proof.
  induction items as [|it items IH]; intros fuel pre k rs Hok Hk Hpre Hf.
  - cbn [map concat]. rewrite !app_nil_r. destruct fuel as [|fuel]; [lia|]. cbn [segment_loop]. by rewrite lookup_ge_None_2.
  - apply Forall_cons in Hok as [Hit Hok]. cbn [map concat] in *. rewrite length_app in Hf.
    assert (rs ++ item_range it :: map item_range items = (rs ++ [item_range it]) ++ map item_range items) as -> by (by rewrite <- app_assoc).
    assert (forall f k', (length (concat (map item_tokens items)) < f)%nat -> k' < Z.of_nat (length pre + length (item_tokens it)) ->
      segment_loop f (pre ++ item_tokens it ++ concat (map item_tokens items)) (length pre + length (item_tokens it)) k' (rs ++ [item_range it])
      = Some ((rs ++ [item_range it]) ++ map item_range items)) as Hnext.
    { intros f k' Hf' Hk'. rewrite app_assoc, <- length_app.
      apply IH; [done|rewrite length_app; lia|by apply items_last|done]. }
    destruct it as [p|l h|l h]; cbn [item_tokens item_range app length] in *.
    + destruct fuel as [|fuel]; [lia|]. rewrite number_token; [|done|done|by apply items_head].
      rewrite <- Nat.add_1_r. apply Hnext; lia.
    + destruct fuel as [|fuel]; [lia|]. rewrite tight_token by done. rewrite <- Nat.add_1_r. apply Hnext; lia.
    + destruct fuel as [|[|fuel]]; [lia|lia|]. rewrite loose_tokens by done. apply Hnext; lia.
Qed.

(** A segment between commas: the words of its items, however spaced. *)
Definition segment_means (sg : bytes * list port_item) : Prop :=
  44 ∉ sg.1 /\ Fields sg.1 = concat (map item_tokens sg.2) /\ Forall item_ok sg.2.

Lemma parse_segments_mean segs : forall rs, Forall segment_means segs ->
  fold_left parse_segment (map fst segs) (Some rs) = Some (rs ++ concat (map (fun sg => map item_range sg.2) segs)).
Proof.
  induction segs as [|sg segs IH]; intros rs H; [cbn; by rewrite app_nil_r|].
  apply Forall_cons in H as [(_ & Hfields & Hok) H]. cbn [map concat fold_left parse_segment].
  rewrite Hfields. pose proof (segment_items sg.2 (S (length (concat (map item_tokens sg.2)))) [] (-1) rs Hok) as E.
  cbn [app length] in E. rewrite E by (done || lia). rewrite IH by done. by rewrite <- app_assoc.
Qed.

(** C32: the port setting of the UDP server is read exactly: every text gives ranges of valid
    ports, low to high, and a list of ports and ranges, separated by commas or spaces and with
    the dashes of the ranges apart or not, gives those ranges in order. *)
Theorem tsshd_ports_exact :
  (forall text, exists rs, parseTsshdPortRanges text = Some rs /\ ranges_ok rs) /\
  forall segs, segs <> [] -> Forall segment_means segs ->
  parseTsshdPortRanges (Join (map fst segs) (lit ",")) = Some (concat (map (fun sg => map item_range sg.2) segs)).
Proof.
  split; [intros text; apply parse_segments_ok; constructor|]. intros segs Hne H. unfold parseTsshdPortRanges.
  change (lit ",") with [44]. rewrite Split_Join; [by rewrite parse_segments_mean|by destruct segs|].
  apply Forall_map. eapply Forall_impl; [exact H|]. by intros sg [? _].
Qed.

(** ** The command line *)

Definition flag_char (c : Z) : bool :=
  (97 <=? c) && (c <=? 122) || is_digit c || (c =? 32) || (c =? 45) || (c =? 44).
Definition flag_text (text : bytes) : Prop := Forall (fun c => flag_char c = true) text.

Lemma flag_text_app a b : flag_text a -> flag_text b -> flag_text (a ++ b).
Proof. intros. by apply Forall_app. Qed.
Lemma flag_text_Itoa n : 0 <= n -> flag_text (Itoa n).
Proof.
  intros H. eapply Forall_impl; [by apply Itoa_digits|]. intros c Hc. unfold flag_char. cbn beta in Hc. rewrite Hc.
  by rewrite orb_true_r.
Qed.
Lemma flag_text_lit text : forallb flag_char text = true -> flag_text text.
Proof. intros H. apply List.Forall_forall. by apply forallb_forall. Qed.
Lemma flag_text_flag b text : flag_text text -> flag_text (flag b text).
Proof. intros. by destruct b; [|constructor]. Qed.
Lemma flag_text_Join fs sep : Forall flag_text fs -> flag_text sep -> flag_text (Join fs sep).
Proof.
  intros H Hsep. induction H as [|f fs Hf Hfs IH]; [constructor|]. destruct fs as [|g fs]; [done|].
  change (flag_text (f ++ sep ++ Join (g :: fs) sep)). by repeat apply flag_text_app.
Qed.
Create HintDb flags discriminated.
#[local] Hint Resolve flag_text_app flag_text_Itoa flag_text_flag : flags.
#[local] Hint Extern 1 (flag_text (lit _)) => by apply flag_text_lit : flags.
#[local] Hint Extern 2 (0 <= _) => lia : flags.

Lemma flag_text_range r : range_ok r -> flag_text (print_range r).
Proof. intros [H1 H2]. unfold print_range. destruct (_ =? _); repeat apply flag_text_app; auto with flags. Qed.
Lemma flag_text_ranges rs : ranges_ok rs -> flag_text (print_ranges rs).
Proof.
  intros H. apply flag_text_Join; [|by apply flag_text_lit]. apply Forall_map. eapply Forall_impl; [exact H|]. apply flag_text_range.
Qed.

Definition range_item (r : Z * Z) : port_item := if r.1 =? r.2 then One r.1 else Tight r.1 r.2.

Lemma digits_word text : Forall (fun c => is_digit c = true \/ c = 45) text ->
  is_ascii text = true /\ forallb (fun c => negb (IsSpace c)) text = true /\ 44 ∉ text.
Proof.
  intros H. unfold is_ascii. rewrite !forallb_forall, <- !List.Forall_forall.
  repeat split; [eapply Forall_impl; [exact H|]..|].
  1, 2: intros c [Hc| ->]; [|done]; unfold is_digit in Hc; to_prop;
    assert (c = 48 \/ c = 49 \/ c = 50 \/ c = 51 \/ c = 52 \/ c = 53 \/ c = 54 \/ c = 55 \/ c = 56 \/ c = 57)
      as Hcs by lia; by destruct_or! Hcs; subst c.
  intros Hin. rewrite Forall_forall in H. destruct (H _ Hin) as [?|?]; done.
Qed.

Lemma print_range_word r : range_ok r -> segment_means (print_range r, [range_item r]).
Proof.
  intros Hr. pose proof Hr as [H1 H2].
  assert (Forall (fun c => is_digit c = true \/ c = 45) (print_range r)) as Hc.
  { assert (forall n, 0 <= n -> Forall (fun c => is_digit c = true \/ c = 45) (Itoa n)) as Hn
      by (intros n Hn; eapply Forall_impl; [by apply Itoa_digits|]; cbn; auto).
    unfold print_range. destruct (_ =? _); [apply Hn; lia|].
    repeat apply Forall_app_2; [apply Hn; lia| |apply Hn; lia]. constructor; [by right|constructor]. }
  destruct (digits_word _ Hc) as (Ha & Hs & H44). split; [done|]. cbn [fst snd].
  assert (print_range r <> []) as Hne.
  { pose proof (Itoa_nonempty r.1 ltac:(lia)). unfold print_range. destruct (_ =? _); [done|]. by destruct (Itoa r.1). }
  rewrite Fields_plain by done. unfold print_range, range_item in *.
  destruct (Z.eqb_spec r.1 r.2) as [E|E]; (split; [done|]); constructor; [|done| |done]; unfold item_ok; cbn [item_range];
    [rewrite <- E in H2; split; cbn; lia|by destruct r].
Qed.

Lemma range_item_range r : item_range (range_item r) = r.
Proof. unfold range_item. destruct (Z.eqb_spec r.1 r.2) as [E|E]; cbn; [rewrite E at 2|]; by destruct r. Qed.

(** What is printed is read back. *)
Lemma ranges_roundtrip rs : rs <> [] -> ranges_ok rs -> parseTsshdPortRanges (print_ranges rs) = Some rs.
Proof.
  intros Hne H. pose proof (parse_segments_mean (map (fun r => (print_range r, [range_item r])) rs) []) as E.
  unfold parseTsshdPortRanges, print_ranges. rewrite map_map in E. cbn [fst] in E.
  change (map (fun r => print_range r) rs) with (map print_range rs) in E.
  change (lit ",") with [44]. rewrite Split_Join; [rewrite E|by destruct rs|].
  - cbn [app]. rewrite map_map. cbn [snd map]. f_equal. clear. induction rs as [|r rs IH]; [done|]. cbn [map concat app].
    by rewrite range_item_range, IH.
  - apply Forall_map. eapply Forall_impl; [exact H|]. apply print_range_word.
  - apply Forall_map. eapply Forall_impl; [exact H|]. intros r Hr. by apply print_range_word.
Qed.

Lemma parse_ranges_ok text rs : parseTsshdPortRanges text = Some rs -> ranges_ok rs.
Proof.
  intros E. destruct (parse_segments_ok (Split text 44) []) as (rs' & E' & H); [constructor|].
  unfold parseTsshdPortRanges in E. by simplify_eq.
Qed.

Lemma port_flag_text text : flag_text (port_flag text).
Proof.
  unfold port_flag. destruct (bool_decide _); [constructor|]. destruct (parseTsshdPortRanges text) as [[|r rs]|] eqn:E; [constructor| |constructor].
  apply flag_text_app; [by apply flag_text_lit|]. apply flag_text_ranges. by eapply parse_ranges_ok.
Qed.
#[local] Hint Resolve port_flag_text : flags.

(** C33: the command that starts the UDP server is the configured path followed only by words
    of lower case letters, digits, dashes and commas, so nothing of the other settings reaches
    the remote shell; and its port argument reads back as the ranges of the port setting. *)
Theorem tsshd_command_safe `{U : UnicodeTables} Default s a mode path mtu connectTimeout debug :
  0 <= mtu -> 0 <= connectTimeout ->
  exists flags, getTsshdCommand Default s a mode path mtu connectTimeout debug = path ++ flags /\ flag_text flags /\
  (tsshd_port Default s a <> [] -> forall r rs, parseTsshdPortRanges (tsshd_port Default s a) = Some (r :: rs) ->
    exists before after, flags = before ++ lit " --port " ++ print_ranges (r :: rs) ++ after /\
      (after = [] \/ head after = Some 32) /\ parseTsshdPortRanges (print_ranges (r :: rs)) = Some (r :: rs)).
Proof.
  intros Hm Ht. unfold getTsshdCommand. destruct (getNetworkAddressFamily Default s a) as [[net ipv4] ipv6].
  eexists. split; [reflexivity|]. split; [auto 20 with flags|]. intros Hne r rs E.
  exists (flag (bool_decide (mode = UdpKcp)) (lit " --kcp") ++ flag (is_lower (ex_option Default s a "UdpProxyMode") "tcp") (lit " --tcp") ++
          flag debug (lit " --debug") ++ (flag ipv4 (lit " --ipv4") ++ flag ipv6 (lit " --ipv6")) ++ flag (0 <? mtu) (lit " --mtu " ++ Itoa mtu)),
    (flag (negb (connectTimeout =? kDefaultConnectTimeout)) (lit " --connect-timeout " ++ Itoa connectTimeout)).
  split; [|split].
  - unfold port_flag. rewrite (bool_decide_false _ Hne), E. by rewrite <- !app_assoc.
  - destruct (negb _); [by right|by left].
  - apply ranges_roundtrip; [done|]. by eapply parse_ranges_ok.
Qed.

(** ** The answer of the server *)

Lemma LastIndexByte_none text c : c ∉ text -> LastIndexByte text c = None.
Proof. intros H. apply last_index_from_None, Forall_forall. intros x Hx. apply Z.eqb_neq. by intros ->. Qed.

Lemma after_bell noise rest : noise = [] \/ last noise = Some 7 -> 7 ∉ rest ->
  match LastIndexByte (noise ++ rest) 7 with Some pos => drop (S pos) (noise ++ rest) | None => noise ++ rest end = rest.
Proof.
  intros [->|Hl] H7; [by rewrite LastIndexByte_none|].
  apply last_Some in Hl as [n ->]. rewrite <- app_assoc. cbn [app]. rewrite LastIndexByte_app by done. apply drop_through.
Qed.

(** The server's answer is found in the output of a login shell: after whatever ends in a
    bell, after text without an opening brace, before text without a closing one, and with the
    line breaks the terminal put into it. *)
Lemma server_info_found {info} strip (unmarshal : bytes -> option info) read_ok stdout stderr noise mid body post :
  TrimSpace (strip stdout) = noise ++ mid ++ (123 :: body ++ [125]) ++ post ->
  noise = [] \/ last noise = Some 7 ->
  7 ∉ mid ++ (123 :: body ++ [125]) ++ post -> 123 ∉ mid -> 125 ∉ post ->
  let json := 123 :: remove_byte 10 (remove_byte 13 body) ++ [125] in
  startTsshdServer strip unmarshal true read_ok stdout stderr =
  match unmarshal json with Some i => Ok i | None => Err (BadJson json) end.
Proof.
  intros Hout Hnoise H7 H123 H125 json.
  assert (server_info_text (TrimSpace (strip stdout)) = json) as E.
  { rewrite Hout. unfold server_info_text. rewrite after_bell by done. cbn [app]. rewrite IndexByte_app by done.
    rewrite drop_app_length. rewrite <- app_assoc. cbn [app].
    change (123 :: body ++ 125 :: post) with ((123 :: body) ++ 125 :: post). rewrite LastIndexByte_app by done.
    rewrite take_through. unfold remove_byte. rewrite !filter_app. by rewrite <- (app_nil_l (filter _ (filter _ _) ++ _)). }
  unfold startTsshdServer. cbn [negb]. rewrite E, bool_decide_false.
  - replace (negb (HasPrefix json (lit "{")) || negb (HasSuffix json (lit "}"))) with false; [by destruct (unmarshal json)|].
    symmetry. apply orb_false_iff. rewrite !negb_false_iff, HasPrefix_true, HasSuffix_true. split; [by eexists|].
    by exists (123 :: remove_byte 10 (remove_byte 13 body)).
  - rewrite Hout. by destruct noise, mid.
Qed.

(** ** Timeouts *)

Definition duration_ok (d : Z) : Prop := second <= d < 2 ^ 63.

(** A configured timeout is at least a second and does not overflow the duration. *)
Lemma udp_timeout_ok `{U : UnicodeTables} Default s a key d : duration_ok d -> duration_ok (getUdpTimeoutConfig Default s a key d).
Proof.
  intros Hd. unfold getUdpTimeoutConfig. destruct (bool_decide _); [done|].
  destruct (convertSshTime _) as [[n|]|] eqn:E; [|done|done]. destruct (Z.leb_spec n 0); [done|].
  apply (proj2 (convertSshTime_exact _)) in E as [_ E]. unfold duration_ok, int64, second in *. rewrite Z.mod_small by lia. lia.
Qed.

(** The comment of the source: ten keep-alives before the session gives up, three before it
    reconnects or reports the connection lost; and the interval is not zero. *)
Lemma udp_interval_attempts alive heartbeat reconnect :
  duration_ok alive -> duration_ok heartbeat -> duration_ok reconnect ->
  let interval := udp_interval alive heartbeat reconnect in
  0 < interval /\ 10 * interval <= alive /\ 3 * interval <= heartbeat /\ 3 * interval <= reconnect.
Proof.
  unfold duration_ok, second. intros H1 H2 H3. cbn zeta. unfold udp_interval.
  rewrite !Z.quot_div_nonneg by lia. pose proof (Z.div_mod alive 10). pose proof (Z.div_mod (Z.min heartbeat reconnect) 3).
  pose proof (Z.mod_pos_bound alive 10). pose proof (Z.mod_pos_bound (Z.min heartbeat reconnect) 3). lia.
Qed.

(** ** Examples *)

Definition sample_ports : bytes := lit "8000 - 8010,9000-9005 7000,1".
Lemma tsshd_ports_exact_witness :
  (exists rs, parseTsshdPortRanges sample_ports = Some rs /\ ranges_ok rs) /\
  parseTsshdPortRanges sample_ports = Some [(8000, 8010); (9000, 9005); (7000, 7000); (1, 1)].
Proof.
  destruct tsshd_ports_exact as [Hok Hmean]. split; [apply Hok|].
  apply (Hmean [(lit "8000 - 8010", [Loose 8000 8010]); (lit "9000-9005 7000", [Tight 9000 9005; One 7000]); (lit "1", [One 1])]);
    [done|].
  repeat apply Forall_cons_2; try apply Forall_nil_2;
    (split; [by apply (bool_decide_unpack _)|split; [by vm_compute|]]);
    repeat apply Forall_cons_2; try apply Forall_nil_2; split; cbn; lia.
Defined.

Definition plain_settings : settings := example_settings (lit "a").
Definition port_args : sshArgs := {|
  a_Destination := lit "d"; a_LoginName := []; a_Port := 0; a_ProxyJump := []; a_Option := ∅; a_UDP := true; a_KCP := false;
  a_Attach := false; a_Command := []; a_Argument := []; a_DisableTTY := false; a_ForceTTY := false;
  a_IPv4Only := true; a_IPv6Only := false; a_Debug := false; a_TsshdPath := []; a_TsshdPort := lit "7 - 9; rm" |}.
Definition sample_command : bytes :=
  @getTsshdCommand caseless_tables (fun _ => []) plain_settings port_args UdpYes (lit "tsshd") 1200 10 false.
Lemma tsshd_command_safe_witness :
  sample_command = lit "tsshd --ipv4 --mtu 1200" /\ exists flags, sample_command = lit "tsshd" ++ flags /\ flag_text flags.
Proof.
  split; [by vm_compute|].
  destruct (@tsshd_command_safe caseless_tables (fun _ => []) plain_settings port_args UdpYes (lit "tsshd") 1200 10 false)
    as (flags & E & H & _); [lia|lia|]. by exists flags.
Defined.
