(* ===== verification/SshSession.v ===== *)
(** * Session settings of the ssh client

    src/tssh/algos.go (the ciphers and key exchanges to offer), env.go (the environment given
    to the session) and stdio.go (the escape character and the forwarding of the input). *)

From S2P Require Import Prelude GoStrings Wildcard SshConfig Login.

Local Open Scope go_scope.

(** ** Algorithms *)

Definition algorithm_items (listStr : bytes) : list bytes :=
  List.filter (fun item => negb (bool_decide (item = []))) (map TrimSpace (Split listStr 44)).

(** [uniqueAlgorithms] with the names seen so far. *)
Fixpoint unique_from (keys : list bytes) (l : list bytes) : list bytes :=
  match l with
  | [] => []
  | entry :: l' => if bool_decide (entry ∈ keys) then unique_from keys l' else entry :: unique_from (entry :: keys) l'
  end.
Definition uniqueAlgorithms (l : list bytes) : list bytes := unique_from [] l.

(** The expression of a removal is one alternative, anchored at both ends, for each pattern;
    [None] is an expression that does not compile. *)
Definition remove_expr (elements : list bytes) : option (list (list re_item)) :=
  mapM (fun item => re_parse (runes (wildcardToRegexp item))) elements.
Definition expr_matches (alternatives : list (list re_item)) (s : bytes) : bool :=
  existsb (fun items => re_match at_end items (runes s)) alternatives.

Definition modifyAlgorithmList (baseList : list bytes) (spec : bytes) : option (list bytes) :=
  match spec with
  | [] => Some baseList
  | operator :: rest =>
      let elements := algorithm_items (if (operator =? 43) || (operator =? 45) || (operator =? 94) then rest else spec) in
      if operator =? 43 then Some (uniqueAlgorithms (baseList ++ elements))
      else if operator =? 94 then Some (uniqueAlgorithms (elements ++ baseList))
      else if operator =? 45 then
        if bool_decide (elements = []) then Some baseList
        else match remove_expr elements with
             | None => None
             | Some re => Some (List.filter (fun item => negb (expr_matches re item)) baseList)
             end
      else Some elements
  end.

(** [setupAlgorithmsConfig] on the lists of the library's configuration, where an empty list is
    one that was not set; [SetDefaults] is the library's function that fills these. *)
Record clientConfig := { Ciphers : list bytes; KeyExchanges : list bytes }.
Section Setup.
Context (SetDefaults : clientConfig -> clientConfig).

Definition setupAlgorithmsConfig (cipherSpec kexSpec : bytes) (debug : bool) (config : clientConfig) : option clientConfig :=
  let show config := if debug then SetDefaults config else config in
  if bool_decide (cipherSpec = []) && bool_decide (kexSpec = []) then Some config
  else
    let config := SetDefaults config in
    match (if bool_decide (cipherSpec = []) then Some config
           else match modifyAlgorithmList (Ciphers config) cipherSpec with
                | None => None
                | Some l => Some (show {| Ciphers := l; KeyExchanges := KeyExchanges config |})
                end) with
    | None => None
    | Some config =>
        if bool_decide (kexSpec = []) then Some config
        else match modifyAlgorithmList (KeyExchanges config) kexSpec with
             | None => None
             | Some l => Some (show {| Ciphers := Ciphers config; KeyExchanges := l |})
             end
    end.
End Setup.

(** ** Environment *)

Record sendEnvRule := { re_negate : bool; re_pattern : bytes }.

Definition env_rule (env : bytes) : option sendEnvRule :=
  if bool_decide (env = []) then None
  else
    let negate := HasPrefix env (lit "-") in
    let pattern := if negate then drop 1 env else env in
    if bool_decide (pattern = []) then None else Some {| re_negate := negate; re_pattern := pattern |}.

(** The name and value of an entry of [os.Environ]. *)
Definition env_entry (env : bytes) : bytes * bytes :=
  match IndexByte env 61 with
  | None => (TrimSpace env, [])
  | Some pos => (TrimSpace (take pos env), TrimSpace (drop (S pos) env))
  end.

Definition send_entry (rules : list sendEnvRule) (env : bytes) : option (bytes * bytes) :=
  let '(name, value) := env_entry env in
  match List.find (fun r => match_full (re_pattern r) name) rules with
  | Some r => if re_negate r then None else Some (name, value)
  | None => None
  end.
Definition getSendEnvs (settings environ : list bytes) : list (bytes * bytes) :=
  omap (send_entry (omap env_rule settings)) environ.

Fixpoint getSetEnvs (setEnvs : list bytes) : option (list (bytes * bytes)) :=
  match setEnvs with
  | [] => Some []
  | token :: setEnvs' =>
      match IndexByte token 61 with
      | None => None
      | Some pos =>
          let name := TrimSpace (take pos token) in
          if bool_decide (name = []) then None
          else ((name, TrimSpace (drop (S pos) token)) ::.) <$> getSetEnvs setEnvs'
      end
  end.

(** [sendAndSetEnv]: the variables offered to the session, and the terminal type; [None] is an
    invalid setting, found after the first variables were sent. *)
Definition sendAndSetEnv (sendSettings setSettings environ : list bytes) (TERM : bytes) : list (bytes * bytes) * option bytes :=
  let sendEnvs := getSendEnvs sendSettings environ in
  match getSetEnvs setSettings with
  | None => (sendEnvs, None)
  | Some setEnvs =>
      let term := fold_left (fun term env => if bool_decide (env.1 = lit "TERM") then env.2 else term) setEnvs [] in
      let term := if bool_decide (term = []) then if bool_decide (TERM = []) then lit "xterm-256color" else TERM else term in
      (sendEnvs ++ setEnvs, Some term)
  end.

(** ** The escape character *)

Section Escape.
Context `{U : UnicodeTables}.

Definition kShortcuts : bytes := lit "jkq.BCRVv#&?d".
(** The escape character and the time in seconds within which it must follow Enter. *)
Definition getEscapeConfig (escapeTime escCh : bytes) : Z * Z :=
  let time := if bool_decide (escapeTime = []) then 1 else match ParseUint escapeTime 10 32 with Ok v => v | Err _ => 1 end in
  if bool_decide (escCh = []) then (126, time)
  else if is_lower escCh "none" then (126, 0)
  else match escCh with
       | [c; b] =>
           if c =? 94 then
             if bool_decide (b ∈ lit "zZcC") then (126, time)
             else if (97 <=? b) && (b <=? 122) then (b - 97 + 1, time)
             else if (65 <=? b) && (b <=? 90) then (b - 65 + 1, time)
             else (126, time)
           else (126, time)
       | [b] =>
           if bool_decide (b ∈ kShortcuts) then (126, time)
           else if (b <=? 32) || (126 <? b) then (126, time)
           else (b, time)
       | _ => (126, time)
       end.
End Escape.

(** [forwardInput] on a terminal: [enter] is the time of the last Enter, [now] in nanoseconds. *)
Inductive input_act := Forwarded (buf : bytes) | Console.
Definition input_step (escapeChar escapeTime : Z) (enter : option Z) (buf : bytes) (now : Z) : input_act * option Z :=
  if 0 <? escapeTime then
    if bool_decide (buf = [13]) then (Forwarded buf, Some now)
    else match enter with
         | Some t => if bool_decide (buf = [escapeChar]) && (now - t <=? escapeTime) then (Console, enter) else (Forwarded buf, None)
         | None => (Forwarded buf, None)
         end
  else (Forwarded buf, enter).
Fixpoint forwardInput (escapeChar escapeTime : Z) (enter : option Z) (reads : list (bytes * Z)) : list input_act :=
  match reads with
  | [] => []
  | (buf, now) :: reads' =>
      let '(act, enter') := input_step escapeChar escapeTime enter buf now in
      act :: forwardInput escapeChar escapeTime enter' reads'
  end.

(** ** What is offered *)

Lemma unique_from_spec l : forall keys,
  NoDup (unique_from keys l) /\ (forall x, x ∈ unique_from keys l <-> x ∈ l /\ x ∉ keys).
Proof.
  induction l as [|a l IH]; intros keys; cbn [unique_from].
  - split; [constructor|]. intros x. rewrite elem_of_nil. tauto.
  - destruct (decide (a ∈ keys)) as [Hin|Hin].
    + rewrite bool_decide_true by done. destruct (IH keys) as [H1 H2]. split; [done|]. intros x. rewrite H2, elem_of_cons.
      split; [tauto|]. intros [[->|?] ?]; done.
    + rewrite bool_decide_false by done. destruct (IH (a :: keys)) as [H1 H2]. split.
      * constructor; [|done]. rewrite H2, elem_of_cons. tauto.
      * intros x. rewrite !elem_of_cons, H2, not_elem_of_cons. destruct (decide (x = a)) as [->|]; tauto.
Qed.

(** A list without duplicates keeps its place in front. *)
Lemma unique_from_prefix l : forall keys rest, NoDup l -> (forall x, x ∈ l -> x ∉ keys) ->
  exists rest', unique_from keys (l ++ rest) = l ++ rest'.
Proof.
  induction l as [|a l IH]; intros keys rest Hnd Hk; [by eexists|]. apply NoDup_cons in Hnd as [Ha Hnd].
  cbn [app unique_from]. rewrite bool_decide_false by (apply Hk; by left).
  destruct (IH (a :: keys) rest Hnd) as [rest' ->]; [|by eexists].
  intros x Hx. apply not_elem_of_cons. split; [by intros ->|apply Hk; by right].
Qed.

Lemma trim_seqs_subset fuel seqs : forall s, trim_seqs fuel seqs s ⊆ s.
Proof.
  induction fuel as [|fuel IH]; intros s; cbn [trim_seqs]; [done|]. case_match eqn:E; [|done].
  etrans; [apply IH|]. apply subseteq_drop.
Qed.
Lemma TrimSpace_wf s : wf_bytes s -> wf_bytes (TrimSpace s).
Proof.
  unfold wf_bytes. rewrite !Forall_forall. intros H x Hx. apply H. unfold TrimSpace, trim_space_right, trim_space_left in Hx.
  apply elem_of_reverse, trim_seqs_subset, elem_of_reverse, trim_seqs_subset in Hx. done.
Qed.
Lemma Split_wf s sep : wf_bytes s -> Forall wf_bytes (Split s sep).
Proof.
  induction 1 as [|c s Hc Hs IH]; cbn [Split]; [repeat constructor|]. destruct (c =? sep); [by constructor; [constructor|]|].
  destruct (Split s sep) as [|f fs]; [by apply Forall_singleton, Forall_singleton|]. apply Forall_cons in IH as [Hf Hfs]. constructor; [by constructor|done].
Qed.

Lemma algorithm_items_wf l : wf_bytes l -> Forall wf_bytes (algorithm_items l).
Proof.
  intros H. unfold algorithm_items. apply Forall_forall. intros x Hx. apply list_elem_of_In, List.filter_In in Hx as [Hx _].
  apply in_map_iff in Hx as (y & <- & Hy%list_elem_of_In). apply TrimSpace_wf. pose proof (Split_wf l 44 H) as Hs.
  rewrite Forall_forall in Hs. by apply Hs.
Qed.

Lemma remove_expr_spec elements : Forall wf_bytes elements -> exists re, remove_expr elements = Some re /\
  forall s, expr_matches re s = true <-> exists p, p ∈ elements /\ wild (runes p) (runes s).
Proof.
  induction 1 as [|p elements Hp _ (re & E & IH)].
  - exists []. split; [done|]. intros s. split; [done|]. by intros (p & ?%elem_of_nil & _).
  - exists (map item_of (runes p) :: re). split; [unfold remove_expr in *; cbn; by rewrite wildcard_parses, E|].
    intros s. unfold expr_matches in *. cbn [existsb]. rewrite orb_true_iff, IH, re_match_spec. split.
    + intros [(a & b & Ea & Hw & Hf)|(q & Hq & Hw)]; [|exists q; split; [by right|done]].
      exists p. split; [by left|]. destruct b; [|done]. by rewrite Ea, app_nil_r.
    + intros (q & [->|Hq]%elem_of_cons & Hw); [left|right; by exists q].
      exists (runes s), []. split_and!; [by rewrite app_nil_r|done|done].
Qed.

(** An algorithm setting changes the list as its first character says: [+] adds behind
    and [^] in front, without duplicates and keeping the order, [-] removes exactly what one of
    its patterns matches, and anything else replaces the list. *)
Theorem algorithm_list_exact base rest :
  wf_bytes rest -> NoDup base ->
  let items := algorithm_items rest in
  (exists l, modifyAlgorithmList base (43 :: rest) = Some (base ++ l) /\ NoDup (base ++ l) /\
    forall x, x ∈ l <-> x ∈ items /\ x ∉ base) /\
  (exists l, modifyAlgorithmList base (94 :: rest) = Some l /\ NoDup l /\ (forall x, x ∈ l <-> x ∈ items \/ x ∈ base) /\
    (NoDup items -> items `prefix_of` l)) /\
  (exists l, modifyAlgorithmList base (45 :: rest) = Some l /\ l `sublist_of` base /\
    forall x, x ∈ l <-> x ∈ base /\ forall p, p ∈ items -> ~ wild (runes p) (runes x)) /\
  (forall c, c <> 43 -> c <> 45 -> c <> 94 -> modifyAlgorithmList base (c :: rest) = Some (algorithm_items (c :: rest))).
Proof.
  intros Hwf Hnd items. split_and!.
  - destruct (unique_from_prefix base [] items Hnd) as [l El]; [by intros x _ ?%elem_of_nil|].
    destruct (unique_from_spec (base ++ items) []) as [H1 H2]. rewrite El in H1, H2. exists l. split_and!; [by rewrite <- El|done|].
    apply NoDup_app in H1 as (_ & Hd & _). intros x. specialize (H2 x). specialize (Hd x). rewrite !elem_of_app, elem_of_nil in H2. tauto.
  - destruct (unique_from_spec (items ++ base) []) as [H1 H2]. exists (uniqueAlgorithms (items ++ base)). split_and!; [done|done| |].
    + intros x. unfold uniqueAlgorithms. rewrite H2, elem_of_app, elem_of_nil. tauto.
    + intros Hi. destruct (unique_from_prefix items [] base Hi) as [l El]; [by intros x _ ?%elem_of_nil|].
      unfold uniqueAlgorithms. rewrite El. by exists l.
  - destruct (decide (items = [])) as [E|E].
    + exists base. split_and!; [cbn; by rewrite bool_decide_true|done|]. intros x. rewrite E. split; [|tauto].
      intros Hx. split; [done|]. by intros p ?%elem_of_nil.
    + destruct (remove_expr_spec items (algorithm_items_wf rest Hwf)) as (re & Ere & Hre).
      exists (List.filter (fun item => negb (expr_matches re item)) base). split_and!.
      * change ((if bool_decide (items = []) then Some base else match remove_expr items with None => None
          | Some re => Some (List.filter (fun item => negb (expr_matches re item)) base) end) = 
          Some (List.filter (fun item => negb (expr_matches re item)) base)). by rewrite bool_decide_false, Ere.
      * generalize base. intros l. induction l as [|a l IH]; [constructor|]. cbn. destruct (negb _); by constructor.
      * intros x. rewrite list_elem_of_In, List.filter_In, <- list_elem_of_In, negb_true_iff, <- not_true_iff_false, Hre.
        split; [intros [? H]; split; [done|]; intros p Hp Hw; apply H; by exists p|].
        intros [? H]. split; [done|]. intros (p & Hp & Hw). by apply (H p).
  - intros c H1 H2 H3. unfold modifyAlgorithmList. rewrite (proj2 (Z.eqb_neq c 43)), (proj2 (Z.eqb_neq c 45)), (proj2 (Z.eqb_neq c 94)) by done. done.
Qed.

Lemma algorithm_list_exact_witness :
  modifyAlgorithmList [lit "aes128-ctr"; lit "aes128-gcm"; lit "3des-cbc"] (lit "-*-cbc, aes128-g?m") = Some [lit "aes128-ctr"] /\
  exists l, modifyAlgorithmList [lit "aes128-ctr"] (lit "+x,aes128-ctr") = Some ([lit "aes128-ctr"] ++ l) /\ NoDup ([lit "aes128-ctr"] ++ l).
Proof.
  split; [by vm_compute|].
  destruct (algorithm_list_exact [lit "aes128-ctr"] (lit "x,aes128-ctr")) as ((l & H1 & H2 & _) & _);
    [by apply (bool_decide_unpack _)|by apply NoDup_singleton|]. by exists l.
Defined.

(** Removing every cipher leaves the list unset, and the library then offers its defaults. *)
Lemma remove_all_restores SetDefaults config :
  (forall c, Ciphers c = [] -> Ciphers (SetDefaults c) = [lit "aes128-ctr"; lit "aes256-ctr"]) -> Ciphers config = [] ->
  exists config', setupAlgorithmsConfig SetDefaults (lit "-*") [] false config = Some config' /\
    Ciphers (SetDefaults config') = [lit "aes128-ctr"; lit "aes256-ctr"].
Proof.
  intros Hd Hc. unfold setupAlgorithmsConfig. cbn [andb]. rewrite !(bool_decide_true ([] = [])) by done.
  rewrite bool_decide_false by done. cbn [andb]. rewrite (Hd config Hc).
  replace (modifyAlgorithmList _ _) with (Some ([] : list bytes)) by (by vm_compute). eexists. split; [done|]. by apply Hd.
Qed.

(** ** The environment that is sent *)

(** A variable is sent exactly when the first rule that matches its name asks for it. *)
Lemma send_env_first_rule settings environ name value :
  (name, value) ∈ getSendEnvs settings environ <->
  exists env before r after, env ∈ environ /\ env_entry env = (name, value) /\ omap env_rule settings = before ++ r :: after /\
    Forall (fun q => match_full (re_pattern q) name = false) before /\ match_full (re_pattern r) name = true /\ re_negate r = false.
Proof.
  unfold getSendEnvs. rewrite list_elem_of_omap. generalize (omap env_rule settings) as rules. intros rules. split.
  - intros (env & Hin & E). unfold send_entry in E. destruct (env_entry env) as [n v] eqn:En.
    destruct (List.find _ rules) as [r|] eqn:Ef; [|done]. destruct (re_negate r) eqn:Er; [done|]. simplify_eq.
    exists env. revert Ef. clear -Hin En Er. induction rules as [|q rules IH]; [done|]. cbn.
    destruct (match_full (re_pattern q) name) eqn:Eq; [intros [= ->]; by exists [], r, rules|].
    intros Ef. destruct (IH Ef) as (before & r' & after & H1 & H2 & -> & H4 & H5). exists (q :: before), r', after.
    split_and!; try done; [by constructor|tauto|tauto].
  - intros (env & before & r & after & Hin & En & -> & Hb & Hr & Hn). exists env. split; [done|]. unfold send_entry. rewrite En.
    assert (List.find (fun r => match_full (re_pattern r) name) (before ++ r :: after) = Some r) as ->; [|by rewrite Hn].
    induction Hb as [|q before Hq _ IH]; cbn; [by rewrite Hr|]. by rewrite Hq.
Qed.

(** ** Escape *)

(** The escape character is Control and a letter or a visible character, and none that the
    console uses. *)
Lemma escape_char_ok `{U : UnicodeTables} escapeTime escCh :
  let c := (getEscapeConfig escapeTime escCh).1 in
  (1 <= c <= 26 /\ c <> 26 /\ c <> 3 \/ 32 < c <= 126) /\ c ∉ kShortcuts.
Proof.
  assert (126 ∉ kShortcuts) as H126 by (by apply (bool_decide_unpack _)).
  assert (forall c, 1 <= c <= 26 -> c ∉ kShortcuts) as Hc.
  { intros c Hc. unfold kShortcuts. rewrite list_elem_of_In. cbn. lia. }
  unfold getEscapeConfig. destruct (bool_decide (escCh = [])); [cbn; split; [lia|done]|].
  destruct (is_lower escCh "none"); [cbn; split; [lia|done]|].
  destruct escCh as [|c [|b [|]]]; [cbn; split; [lia|done]| | |cbn; split; [lia|done]].
  - destruct (bool_decide (c ∈ kShortcuts)) eqn:Es; [cbn; split; [lia|done]|]. apply bool_decide_eq_false in Es.
    destruct (Z.leb_spec c 32), (Z.ltb_spec 126 c); cbn [orb fst]; split; done || lia.
  - destruct (c =? 94); [|cbn; split; [lia|done]]. destruct (bool_decide (b ∈ lit "zZcC")) eqn:Es; [cbn; split; [lia|done]|].
    apply bool_decide_eq_false in Es. rewrite list_elem_of_In in Es. cbn in Es.
    destruct ((97 <=? b) && (b <=? 122)) eqn:E1; [to_prop; cbn [fst]; split; [lia|apply Hc; lia]|].
    destruct ((65 <=? b) && (b <=? 90)) eqn:E2; [to_prop; cbn [fst]; split; [lia|apply Hc; lia]|]. cbn [fst]. split; [lia|done].
Qed.

(** Every byte read is forwarded, but the escape character that opens the console. *)
Lemma input_transparent escapeChar escapeTime reads : forall enter,
  Forall2 (fun read act => act = Forwarded read.1 \/ act = Console /\ read.1 = [escapeChar] /\ 0 < escapeTime)
    reads (forwardInput escapeChar escapeTime enter reads).
Proof.
  induction reads as [|[buf now] reads IH]; intros enter; cbn [forwardInput]; [constructor|].
  destruct (input_step escapeChar escapeTime enter buf now) as [act enter'] eqn:E. constructor; [|apply IH].
  unfold input_step in E. destruct (Z.ltb_spec 0 escapeTime); [|injection E as <- _; by left].
  destruct (bool_decide (buf = [13])); [injection E as <- _; by left|]. destruct enter as [t|]; [|injection E as <- _; by left].
  destruct (bool_decide (buf = [escapeChar])) eqn:Eb; cbn [andb] in E; [|injection E as <- _; by left].
  destruct (now - t <=? escapeTime); injection E as <- _; [|by left]. right. by apply bool_decide_eq_true in Eb.
Qed.
