(* ===== verification/Expect.v ===== *)
(** * Automatic answers of the ssh client

    src/tssh/expect.go: the client waits for patterns in the output of the server and answers
    them with texts, passwords and one-time codes from its configuration. *)

From S2P Require Import Prelude GoStrings Wildcard Tokens.

Local Open Scope go_scope.

(** ** Quoted output *)

Definition hex_digit (d : Z) : Z := if d <? 10 then 48 + d else 87 + d.
Fixpoint hex_digits (n : nat) (r : Z) : bytes :=
  match n with O => [] | S n' => hex_digits n' (r / 16) ++ [hex_digit (r mod 16)] end.

(** One rune of [strconv.QuoteToASCII]; [bad] is a byte that is not part of a rune. *)
Definition quote_rune (r : Z) : bytes :=
  if (r =? 34) || (r =? 92) then [92; r]
  else if (32 <=? r) && (r <? 127) then [r]
  else if r =? 7 then lit "\a" else if r =? 8 then lit "\b" else if r =? 12 then lit "\f"
  else if r =? 10 then lit "\n" else if r =? 13 then lit "\r" else if r =? 9 then lit "\t" else if r =? 11 then lit "\v"
  else if (r <? 32) || (r =? 127) then lit "\x" ++ hex_digits 2 r
  else if r <? 65536 then lit "\u" ++ hex_digits 4 r
  else lit "\U" ++ hex_digits 8 r.
Fixpoint quote_fuel (fuel : nat) (s : bytes) : bytes :=
  match fuel, s with
  | S fuel', b :: _ =>
      let '(r, w) := DecodeRune s in
      (if (w =? 1)%nat && (r =? RuneError) then lit "\x" ++ hex_digits 2 b else quote_rune r) ++ quote_fuel fuel' (drop w s)
  | _, _ => []
  end.
(** [QuoteToASCII] without the quotes around it. *)
Definition quoted (s : bytes) : bytes := quote_fuel (length s) s.

(** ** Answers *)

Inductive expectSender := PassSender (input : bytes) | TextSender (input : bytes).

(** The loop of [decodeText]: the state is whether a backslash was just read. *)
Fixpoint decode_loop (rs : list Z) (escaped : bool) (buf : bytes) : list bytes :=
  match rs with
  | [] => [if escaped then buf ++ [92] else buf]
  | c :: rs' =>
      if negb escaped then
        if c =? 92 then decode_loop rs' true buf else decode_loop rs' false (buf ++ EncodeRune c)
      else if c =? 92 then decode_loop rs' false (buf ++ [92])
      else if c =? 114 then decode_loop rs' false (buf ++ [13])
      else if c =? 110 then decode_loop rs' false (buf ++ [10])
      else if c =? 116 then decode_loop rs' false (buf ++ [9])
      else if c =? 124 then buf :: decode_loop rs' false []
      else decode_loop rs' false (buf ++ 92 :: EncodeRune c)
  end.
Definition decode_pieces (text : bytes) : list bytes := decode_loop (runes text) false [].

Section Sender.
Context (hostname : bytes) (sha1hex : bytes -> bytes) (param : sshParam).

(** [newSendText]: a text with an unknown token is sent as it is. *)
Definition newSendText (text : bytes) : bytes :=
  match expandTokens hostname sha1hex text param (lit "%hprnLlj") with Ok r => r | Err _ => text end.
Definition decodeText (text : bytes) : list bytes := map newSendText (decode_pieces text).

(** What [sendInput] writes, one element for each call of [writeAll]; [None] sends nothing. *)
Definition sendInput (s : option expectSender) : list bytes :=
  match s with
  | None => []
  | Some (PassSender input) => map (fun b => [b]) input ++ [[13]]
  | Some (TextSender input) => List.filter (fun t => negb (bool_decide (t = []))) (decodeText input)
  end.
End Sender.

Definition newPassSender (input : bytes) : option expectSender := if bool_decide (input = []) then None else Some (PassSender input).
Definition newTextSender (input : bytes) : option expectSender := if bool_decide (input = []) then None else Some (TextSender input).

(** ** Cases *)

(** [strings.IndexFunc(config, unicode.IsSpace)]. *)
Fixpoint index_space (fuel : nat) (s : bytes) (at_ : nat) : option nat :=
  match fuel, s with
  | S fuel', _ :: _ =>
      let '(r, w) := DecodeRune s in
      if IsSpace r then Some at_ else index_space fuel' (drop w s) (at_ + w)
  | _, _ => None
  end.
Definition splitConfig (config : bytes) : option (bytes * bytes) :=
  match index_space (length config) config 0 with
  | None | Some O => None
  | Some index =>
      let pattern := TrimSpace (take index config) in
      let send := TrimSpace (drop (S index) config) in
      if bool_decide (pattern = []) || bool_decide (send = []) then None else Some (pattern, send)
  end.

Record caseSend := mkCase { cs_pattern : bytes; cs_sender : option expectSender; cs_buffer : bytes }.
Definition addCase (pattern : bytes) (sender : option expectSender) (l : list caseSend) : list caseSend :=
  l ++ [mkCase pattern sender []].
Definition addCaseSendPass (decodeSecret : bytes -> option bytes) (config : bytes) (l : list caseSend) : list caseSend :=
  match splitConfig config with
  | None => l
  | Some (pattern, secret) => match decodeSecret secret with None => l | Some pass => addCase pattern (newPassSender pass) l end
  end.
Definition addCaseSendText (config : bytes) (l : list caseSend) : list caseSend :=
  match splitConfig config with None => l | Some (pattern, text) => addCase pattern (newTextSender text) l end.

(** An answer, with the output it answers. *)
Record answer := mkAnswer { an_pattern : bytes; an_sender : option expectSender; an_output : bytes }.

Definition handle_case (output : bytes) (cs : caseSend) : caseSend * list answer :=
  let buffer := cs_buffer cs ++ output in
  if match_within (cs_pattern cs) buffer
  then (mkCase (cs_pattern cs) (cs_sender cs) [], [mkAnswer (cs_pattern cs) (cs_sender cs) buffer])
  else (mkCase (cs_pattern cs) (cs_sender cs) buffer, []).
Definition handleOutput (output : bytes) (l : list caseSend) : list caseSend * list answer :=
  (map (fun cs => (handle_case output cs).1) l, concat (map (fun cs => (handle_case output cs).2) l)).

(** ** Waiting *)

(** What the [select] of [waitForPattern] yields: a chunk of output, empty when the channel is
    closed, or the end of the context. *)
Inductive select_event := Chunk (buf : bytes) | Done.
Inductive wait_outcome := Matched (text : bytes) | TimedOut | StillWaiting.

Fixpoint waitForPattern (pattern : bytes) (cases : list caseSend) (builder : bytes) (evs : list select_event)
    : wait_outcome * list answer :=
  match evs with
  | [] => (StillWaiting, [])
  | Done :: _ => (TimedOut, [])
  | Chunk buf :: evs' =>
      if bool_decide (buf = []) then waitForPattern pattern cases builder evs'
      else
        let output := quoted buf in
        let '(cases', sent) := handleOutput output cases in
        let builder' := builder ++ output in
        if negb (bool_decide (pattern = [])) && match_within pattern builder' then (Matched builder', sent)
        else let '(r, sent') := waitForPattern pattern cases' builder' evs' in (r, sent ++ sent')
  end.

(** ** Interactions *)

Section Interactions.
Context (get : string -> nat -> bytes) (get_all : string -> nat -> list bytes).
Context (decodeSecret : bytes -> option bytes) (getTotpCode : bytes -> bytes) (getOtpCommandOutput : bytes -> bytes -> bytes).

(** The settings are looked up in the order of the source; a secret that cannot be decoded
    sends nothing. *)
Definition getExpectSender (idx : nat) (question : bytes) : option expectSender :=
  let secret_of key (k : bytes -> option expectSender) : option expectSender :=
    match decodeSecret (get key idx) with None => None | Some secret => k secret end in
  if negb (bool_decide (get "ExpectSendPass" idx = [])) then secret_of "ExpectSendPass"%string newPassSender
  else if negb (bool_decide (get "ExpectSendText" idx = [])) then newTextSender (get "ExpectSendText" idx)
  else if negb (bool_decide (get "ExpectSendEncTotp" idx = [])) then secret_of "ExpectSendEncTotp"%string (fun s => newPassSender (getTotpCode s))
  else if negb (bool_decide (get "ExpectSendEncOtp" idx = [])) then secret_of "ExpectSendEncOtp"%string (fun c => newPassSender (getOtpCommandOutput c question))
  else if negb (bool_decide (get "ExpectSendTotp" idx = [])) then newPassSender (getTotpCode (get "ExpectSendTotp" idx))
  else if negb (bool_decide (get "ExpectSendOtp" idx = [])) then newPassSender (getOtpCommandOutput (get "ExpectSendOtp" idx) question)
  else None.

Definition case_list (idx : nat) : list caseSend :=
  fold_left (fun l c => addCaseSendText c l) (get_all "ExpectCaseSendText" idx)
    (fold_left (fun l c => addCaseSendPass decodeSecret c l) (get_all "ExpectCaseSendPass" idx) []).

(** [execInteractions]: for each interaction, what its wait receives, whether the time is up
    then, and whether its answer can be written. *)
Fixpoint execInteractions (idx : nat) (runs : list (list select_event * bool * bool)) : list answer :=
  match runs with
  | [] => []
  | (evs, expired, write_ok) :: runs' =>
      let pattern := get "ExpectPattern" idx in
      match waitForPattern pattern (case_list idx) [] evs with
      | (Matched question, sent) =>
          if expired then sent
          else sent ++ mkAnswer pattern (getExpectSender idx question) question ::
          (if write_ok then execInteractions (S idx) runs' else [])
      | (_, sent) => sent
      end
  end.
End Interactions.

(** ** Decoded texts *)

(** How a text is written in the configuration: the pieces sent one after the other are
    separated by a backslash and a bar. *)
Definition escape_rune (c : Z) : list Z :=
  if c =? 92 then [92; 92] else if c =? 13 then [92; 114] else if c =? 10 then [92; 110] else if c =? 9 then [92; 116] else [c].
Definition escape_piece (rs : list Z) : list Z := concat (map escape_rune rs).
Definition escape_text (pieces : list (list Z)) : list Z := Join (map escape_piece pieces) [92; 124].

Lemma decode_escaped rs : Forall valid_rune rs -> forall rest buf,
  decode_loop (escape_piece rs ++ rest) false buf = decode_loop rest false (buf ++ encode rs).
Proof.
  unfold escape_piece, encode. induction 1 as [|c rs _ _ IH]; intros rest buf; [cbn; by rewrite app_nil_r|].
  cbn [map concat]. rewrite <- !app_assoc. unfold escape_rune at 1.
  destruct (Z.eqb_spec c 92) as [->|H1]; [|destruct (Z.eqb_spec c 13) as [->|H2];
    [|destruct (Z.eqb_spec c 10) as [->|H3]; [|destruct (Z.eqb_spec c 9) as [->|H4]]]].
  1: etransitivity; [exact (IH rest (buf ++ [92]))|by rewrite <- app_assoc].
  1: etransitivity; [exact (IH rest (buf ++ [13]))|by rewrite <- app_assoc].
  1: etransitivity; [exact (IH rest (buf ++ [10]))|by rewrite <- app_assoc].
  1: etransitivity; [exact (IH rest (buf ++ [9]))|by rewrite <- app_assoc].
  cbn [app decode_loop negb]. rewrite (proj2 (Z.eqb_neq c 92)) by done. rewrite IH. by rewrite <- app_assoc.
Qed.

Lemma decode_pieces_escaped pieces : Forall (Forall valid_rune) pieces -> pieces <> [] ->
  decode_loop (escape_text pieces) false [] = map encode pieces.
Proof.
  induction 1 as [|rs pieces Hrs Hp IH]; [done|]. intros _. destruct pieces as [|rs' pieces].
  - cbn [escape_text map Join]. rewrite <- (app_nil_r (escape_piece rs)). by rewrite decode_escaped.
  - change (escape_text (rs :: rs' :: pieces)) with (escape_piece rs ++ 92 :: 124 :: escape_text (rs' :: pieces)).
    rewrite decode_escaped by done.
    change (encode rs :: decode_loop (escape_text (rs' :: pieces)) false [] = map encode (rs :: rs' :: pieces)). by rewrite IH.
Qed.

Lemma Join_valid fs sep : Forall (Forall valid_rune) fs -> Forall valid_rune sep -> Forall valid_rune (Join fs sep).
Proof.
  intros H Hs. induction H as [|f fs Hf Hfs IH]; [constructor|]. destruct fs as [|g fs]; [done|].
  change (Forall valid_rune (f ++ sep ++ Join (g :: fs) sep)). apply Forall_app. split; [done|]. by apply Forall_app.
Qed.

Lemma escape_valid rs : Forall valid_rune rs -> Forall valid_rune (escape_piece rs).
Proof.
  assert (forall c, 0 <= c < 128 -> valid_rune c) as Hv by (unfold valid_rune; lia).
  unfold escape_piece. induction 1 as [|c rs Hc _ IH]; [constructor|]. cbn [map concat]. apply Forall_app. split; [|done].
  unfold escape_rune. repeat case_match; repeat (apply Forall_cons_2; [first [done|apply Hv; lia]|]); apply Forall_nil_2.
Qed.

(** The texts to send are read back exactly as they were meant: any pieces of text, with
    backslashes, carriage returns, line feeds and tabs escaped and the pieces separated by a
    backslash and a bar, decode to these pieces. *)
Theorem send_text_roundtrip pieces :
  pieces <> [] -> Forall (Forall valid_rune) pieces ->
  decode_pieces (encode (escape_text pieces)) = map encode pieces.
Proof.
  intros Hne H. unfold decode_pieces. rewrite runes_encode; [by apply decode_pieces_escaped|].
  unfold escape_text. apply Join_valid.
  - apply Forall_map. eapply Forall_impl; [exact H|]. apply escape_valid.
  - repeat (apply Forall_cons_2; [unfold valid_rune; lia|]); apply Forall_nil_2.
Qed.

Lemma send_text_roundtrip_witness :
  encode (escape_text [lit "a\b"; [13; 233]]) = lit "a\\b\|\r" ++ [195; 169] /\
  decode_pieces (lit "a\\b\|\r" ++ [195; 169]) = [lit "a\b"; [13; 195; 169]].
Proof.
  split; [by vm_compute|]. apply (send_text_roundtrip [lit "a\b"; [13; 233]]); [done|].
  apply (bool_decide_unpack _). by vm_compute.
Defined.

(** ** Quoted output is one line of printable characters *)

Definition printable (b : Z) : Prop := 32 <= b < 127.
#[local] Instance printable_dec b : Decision (printable b).
Proof. unfold printable. apply _. Defined.
Lemma hex_printable n r : 0 <= r -> Forall printable (hex_digits n r).
Proof.
  revert r. induction n as [|n IH]; intros r Hr; [constructor|]. cbn [hex_digits]. apply Forall_app. split; [apply IH; zlia|].
  apply Forall_singleton. unfold printable, hex_digit. destruct (Z.ltb_spec (r mod 16) 10); zlia.
Qed.
Lemma quote_rune_printable r : 0 <= r -> Forall printable (quote_rune r).
Proof.
  intros Hr. unfold quote_rune.
  destruct ((r =? 34) || (r =? 92)) eqn:E0;
    [by apply orb_true_iff in E0 as [->%Z.eqb_eq| ->%Z.eqb_eq]; apply (bool_decide_unpack _)|].
  destruct ((32 <=? r) && (r <? 127)) eqn:E1.
  { apply andb_true_iff in E1 as [?%Z.leb_le ?%Z.ltb_lt]. apply Forall_singleton. unfold printable. lia. }
  destruct (r =? 7); [by apply (bool_decide_unpack _)|].
  destruct (r =? 8); [by apply (bool_decide_unpack _)|].
  destruct (r =? 12); [by apply (bool_decide_unpack _)|].
  destruct (r =? 10); [by apply (bool_decide_unpack _)|].
  destruct (r =? 13); [by apply (bool_decide_unpack _)|].
  destruct (r =? 9); [by apply (bool_decide_unpack _)|].
  destruct (r =? 11); [by apply (bool_decide_unpack _)|].
  clear E0 E1. destruct ((r <? 32) || (r =? 127)); [|destruct (r <? 65536)];
    (apply Forall_app; split; [by apply (bool_decide_unpack _)|by apply hex_printable]).
Qed.
Lemma quoted_printable s : wf_bytes s -> Forall printable (quoted s).
Proof.
  unfold quoted. generalize (length s) as fuel. intros fuel. revert s. induction fuel as [|fuel IH]; intros s H; [constructor|].
  destruct s as [|b s]; [constructor|]. cbn [quote_fuel]. pose proof (DecodeRune_valid (b :: s) H) as [Hv _].
  destruct (DecodeRune (b :: s)) as [r w]. apply Forall_app. split; [|apply IH; by apply Forall_drop].
  destruct (_ && _).
  - apply Forall_app. split; [by apply (bool_decide_unpack _)|]. apply hex_printable. apply Forall_cons in H as [H _]. unfold is_byte in H. lia.
  - apply quote_rune_printable. cbn in Hv. lia.
Qed.

(** ** Nothing is answered that was not asked *)

Definition chunk_text (ev : select_event) : bytes := match ev with Chunk buf => quoted buf | Done => [] end.
Definition text_of (evs : list select_event) : bytes := concat (map chunk_text evs).
(** Text that was received in one piece of the output, or at its end. *)
Definition received (evs : list select_event) (text : bytes) : Prop := exists a m b, evs = a ++ m ++ b /\ text = text_of m.
Definition received_last (evs : list select_event) (text : bytes) : Prop := exists a m, evs = a ++ m /\ text = text_of m.

Lemma received_last_snoc evs ev text : received_last evs text -> received_last (evs ++ [ev]) (text ++ chunk_text ev).
Proof.
  intros (a & m & -> & ->). exists a, (m ++ [ev]). split; [by rewrite app_assoc|]. unfold text_of. rewrite map_app, concat_app.
  cbn. by rewrite app_nil_r.
Qed.
Lemma received_last_nil evs : received_last evs [].
Proof. exists evs, []. by rewrite app_nil_r. Qed.
Lemma received_last_received evs more text : received_last evs text -> received (evs ++ more) text.
Proof. intros (a & m & -> & ->). exists a, m, more. by rewrite app_assoc. Qed.

Definition same_case (an : answer) (cs : caseSend) : Prop := an_pattern an = cs_pattern cs /\ an_sender an = cs_sender cs.
(** An answer of one of the cases, to output that matches its pattern. *)
Definition case_answer (cases : list caseSend) (evs : list select_event) (an : answer) : Prop :=
  match_within (an_pattern an) (an_output an) = true /\ received evs (an_output an) /\ exists cs, cs ∈ cases /\ same_case an cs.

Lemma handle_case_keeps output cs : cs_pattern (handle_case output cs).1 = cs_pattern cs /\ cs_sender (handle_case output cs).1 = cs_sender cs.
Proof. unfold handle_case. by destruct (match_within _ _). Qed.

Lemma handleOutput_sound past buf cases more :
  Forall (fun cs => received_last past (cs_buffer cs)) cases ->
  Forall (fun cs => received_last (past ++ [Chunk buf]) (cs_buffer cs)) (handleOutput (quoted buf) cases).1 /\
  Forall (case_answer cases (past ++ Chunk buf :: more)) (handleOutput (quoted buf) cases).2.
Proof.
  intros H. unfold handleOutput. cbn [fst snd]. split.
  - apply Forall_map. eapply Forall_impl; [exact H|]. intros cs Hcs. unfold handle_case. destruct (match_within _ _); cbn.
    + apply received_last_nil.
    + by apply (received_last_snoc past (Chunk buf)).
  - apply Forall_forall. intros an Han. apply list_elem_of_In, in_concat in Han as (l & Hl & Hin).
    apply in_map_iff in Hl as (cs & <- & Hcs%list_elem_of_In). rewrite Forall_forall in H. specialize (H cs Hcs).
    unfold handle_case in Hin. destruct (match_within _ _) eqn:Em; [|done]. destruct Hin as [<-|[]]. split; [done|]. split.
    + rewrite (app_assoc past [Chunk buf] more : past ++ Chunk buf :: more = _). apply received_last_received.
      by apply (received_last_snoc past (Chunk buf)).
    + by exists cs.
Qed.

Lemma wait_sound pattern evs : forall past cases builder,
  received_last past builder -> Forall (fun cs => received_last past (cs_buffer cs)) cases ->
  Forall (case_answer cases (past ++ evs)) (waitForPattern pattern cases builder evs).2 /\
  (forall text, (waitForPattern pattern cases builder evs).1 = Matched text ->
    pattern <> [] /\ match_within pattern text = true /\ received (past ++ evs) text).
Proof.
  induction evs as [|[buf|] evs IH]; intros past cases builder Hb Hc; cbn [waitForPattern]; [by split| |by split].
  rewrite (app_assoc past [Chunk buf] evs : past ++ Chunk buf :: evs = _).
  destruct (decide (buf = [])) as [->|Hne].
  { rewrite bool_decide_true by done. apply IH.
    - pose proof (received_last_snoc past (Chunk []) builder Hb) as H. cbn in H. by rewrite app_nil_r in H.
    - eapply Forall_impl; [exact Hc|]. intros cs Hcs. pose proof (received_last_snoc past (Chunk []) _ Hcs) as H. cbn in H.
      by rewrite app_nil_r in H. }
  rewrite bool_decide_false by done. destruct (handleOutput_sound past buf cases evs Hc) as [Hc' Hs].
  assert (forall an cs', cs' ∈ (handleOutput (quoted buf) cases).1 -> same_case an cs' -> exists cs, cs ∈ cases /\ same_case an cs) as Hsame.
  { intros an cs' Hin [H1 H2]. apply list_elem_of_In, in_map_iff in Hin as (cs & <- & Hin%list_elem_of_In).
    destruct (handle_case_keeps (quoted buf) cs) as [E1 E2]. exists cs. split; [done|]. split; congruence. }
  destruct (handleOutput (quoted buf) cases) as [cases' sent]. cbn [fst snd] in *.
  pose proof (received_last_snoc past (Chunk buf) builder Hb) as Hb'. cbn [chunk_text] in Hb'.
  rewrite (app_assoc past [Chunk buf] evs : past ++ Chunk buf :: evs = _) in Hs.
  destruct (negb (bool_decide (pattern = [])) && match_within pattern (builder ++ quoted buf)) eqn:Em.
  - cbn [fst snd]. split; [done|]. intros text [= <-]. apply andb_true_iff in Em as [Hp Hm].
    apply negb_true_iff, bool_decide_eq_false in Hp. split_and!; [done|done|]. by apply received_last_received.
  - destruct (IH (past ++ [Chunk buf]) cases' (builder ++ quoted buf) Hb' Hc') as [IH1 IH2].
    destruct (waitForPattern pattern cases' (builder ++ quoted buf) evs) as [r sent']. cbn [fst snd] in *. split; [|done].
    apply Forall_app. split; [done|]. eapply Forall_impl; [exact IH1|]. intros an (H1 & H2 & cs' & Hin & Hk). split_and!; [done|done|].
    by eapply Hsame.
Qed.

Lemma case_list_buffers get_all decodeSecret idx : Forall (fun cs => cs_buffer cs = []) (case_list get_all decodeSecret idx).
Proof.
  unfold case_list. assert (forall strs (f : bytes -> list caseSend -> list caseSend) l,
    (forall c l, Forall (fun cs => cs_buffer cs = []) l -> Forall (fun cs => cs_buffer cs = []) (f c l)) ->
    Forall (fun cs => cs_buffer cs = []) l -> Forall (fun cs => cs_buffer cs = []) (fold_left (fun l c => f c l) strs l)) as Hfold.
  { intros strs f. induction strs as [|c strs IH]; intros l Hf Hl; [done|]. cbn. apply IH; [done|]. by apply Hf. }
  apply Hfold; [|apply Hfold; [|constructor]]; intros c l Hl; unfold addCaseSendText, addCaseSendPass;
    repeat (case_match; try done); apply Forall_app; (split; [done|]); by apply Forall_singleton.
Qed.

(** C10: an answer, and so every password and one-time code, is only given to output that
    matches its pattern: the answer of an interaction to the output received while waiting for
    it, with the sender configured for that interaction and never for an empty pattern, and the
    answer of a case to a part of that output. *)
Theorem answers_gated get get_all decodeSecret totp otp idx runs an :
  an ∈ execInteractions get get_all decodeSecret totp otp idx runs ->
  match_within (an_pattern an) (an_output an) = true /\
  exists i evs expired write_ok, runs !! i = Some (evs, expired, write_ok) /\ received evs (an_output an) /\
    (an_pattern an = get "ExpectPattern"%string (idx + i)%nat /\ an_pattern an <> [] /\
       an_sender an = getExpectSender get decodeSecret totp otp (idx + i) (an_output an) \/
     exists cs, cs ∈ case_list get_all decodeSecret (idx + i) /\ same_case an cs).
Proof.
  revert idx. induction runs as [|[[evs expired] write_ok] runs IH]; intros idx Hin; cbn [execInteractions] in Hin; [by apply elem_of_nil in Hin|].
  destruct (wait_sound (get "ExpectPattern"%string idx) evs [] (case_list get_all decodeSecret idx) []) as [Hs Hm].
  { apply received_last_nil. }
  { eapply Forall_impl; [apply case_list_buffers|]. intros cs E. cbn beta in E. rewrite E. apply received_last_nil. }
  cbn [app] in *.
  assert (forall an, case_answer (case_list get_all decodeSecret idx) evs an -> match_within (an_pattern an) (an_output an) = true /\
    exists i evs' expired' write_ok', ((evs, expired, write_ok) :: runs) !! i = Some (evs', expired', write_ok') /\
      received evs' (an_output an) /\
    (an_pattern an = get "ExpectPattern"%string (idx + i)%nat /\ an_pattern an <> [] /\
       an_sender an = getExpectSender get decodeSecret totp otp (idx + i) (an_output an) \/
     exists cs, cs ∈ case_list get_all decodeSecret (idx + i) /\ same_case an cs)) as Hcase.
  { intros an' (H1 & H2 & H3). split; [done|]. exists 0%nat, evs, expired, write_ok. rewrite Nat.add_0_r. by split_and!; [|done|right]. }
  destruct (waitForPattern _ _ _ _) as [r sent]. cbn [fst snd] in *. rewrite Forall_forall in Hs.
  destruct r as [text| |]; [|by apply Hcase, Hs..]. destruct expired; [by apply Hcase, Hs|].
  apply elem_of_app in Hin as [Hin|[->|Hin]%elem_of_cons]; [by apply Hcase, Hs| |].
  - destruct (Hm text eq_refl) as (Hne & Hmatch & Hrec). split; [done|]. exists 0%nat, evs, false, write_ok. rewrite Nat.add_0_r.
    split_and!; [done|done|]. by left.
  - destruct write_ok; [|by apply elem_of_nil in Hin]. destruct (IH (S idx) Hin) as (H1 & i & evs' & e' & w' & H2 & H3 & H4).
    split; [done|]. exists (S i), evs', e', w'. replace (idx + S i)%nat with (S idx + i)%nat by lia. done.
Qed.

Definition sample_get (key : string) (idx : nat) : bytes :=
  if bool_decide (key = "ExpectPattern"%string) then lit "password:" else if bool_decide (key = "ExpectSendPass"%string) then lit "pw" else [].
Definition sample_answers : list answer :=
  execInteractions sample_get (fun _ _ => []) Some (fun _ => []) (fun _ _ => []) 1
    [([Chunk (lit "Your pass"); Chunk (lit "word: ")], false, true); ([Chunk (lit "Bye"); Done], false, true)].
Lemma answers_gated_witness :
  sample_answers = [mkAnswer (lit "password:") (Some (PassSender (lit "pw"))) (lit "Your password: ")] /\
  forall an, an ∈ sample_answers -> match_within (an_pattern an) (an_output an) = true.
Proof.
  split; [by vm_compute|]. intros an Hin.
  apply (answers_gated sample_get (fun _ _ => []) Some (fun _ => []) (fun _ _ => []) 1 _ an) in Hin. apply Hin.
Defined.

(** ** Defects *)

(** Once both output channels are closed the [select] yields empty chunks for ever, and without
    a timeout the wait never ends. *)
Lemma closed_output_spins pattern cases builder n :
  waitForPattern pattern cases builder (replicate n (Chunk [])) = (StillWaiting, []).
Proof. induction n as [|n IH]; [done|]. cbn [replicate waitForPattern]. by rewrite bool_decide_true. Qed.

(** A pattern and a text separated by a space of several bytes: all but its first byte stay in
    front of the text. *)
Lemma wide_space_kept : splitConfig (lit "p" ++ [227; 128; 128] ++ lit "x") = Some (lit "p", [128; 128] ++ lit "x").
Proof. by vm_compute. Qed.
