(* ===== verification/TmuxControl.v ===== *)
(** * Input and output under tmux control mode

    src/tssh/tmuxcc.go and the input handling of notif.go: while the UDP connection is lost the
    client takes tmux's side of the control protocol that the terminal speaks, so that the
    terminal stays usable: it acknowledges the commands it discards, decodes the keys of the
    user from them, and shows its notification as output of a pane. *)

From S2P Require Import Prelude GoStrings.

Local Open Scope go_scope.

(** ** Output *)

Definition octal3 (b : Z) : bytes := [48 + b / 64; 48 + b / 8 mod 8; 48 + b mod 8].
Definition tmux_escape (b : Z) : bytes := if (b <? 32) || (b =? 92) || (126 <? b) then 92 :: octal3 b else [b].
(** The message [writeTmuxOutput] writes. *)
Definition writeTmuxOutput (output paneId : bytes) : bytes :=
  lit "%output %" ++ paneId ++ lit " " ++ concat (map tmux_escape output) ++ [13; 10].

(** ** Commands *)

Record tmux_input := mkTmux { ti_input : bytes; ti_paneId : bytes; ti_detach : bool; ti_acks : nat }.

Definition hex_key (tok : bytes) : bytes :=
  if HasPrefix tok (lit "0x") then match ParseUint (drop 2 tok) 16 8 with Ok char => [char] | Err _ => [] end else [].

Definition is_word (w : string) (tok : bytes) : bool := bool_decide (tok = lit w).
(** The body of the loop over the commands. *)
Definition tmux_command (st : tmux_input) (cmd : bytes) : tmux_input :=
  let tokens := Fields (TrimSpace cmd) in
  let detach := match tokens with t :: _ => is_word "detach" t | [] => false end in
  let st := mkTmux (ti_input st) (ti_paneId st) (ti_detach st || detach) (S (ti_acks st)) in
  match tokens with
  | t0 :: t1 :: t2 :: more =>
      if is_word "send" t0 then
        if is_word "-lt" t1 then
          mkTmux (ti_input st ++ match more with t3 :: _ => t3 | [] => [] end) t2 (ti_detach st) (ti_acks st)
        else if is_word "-t" t1 then mkTmux (ti_input st ++ concat (map hex_key more)) t2 (ti_detach st) (ti_acks st)
        else st
      else if (is_word "select-pane" t0 || is_word "display-message" t0) && is_word "-t" t1 then
        mkTmux (ti_input st) t2 (ti_detach st) (ti_acks st)
      else st
  | _ => st
  end.

(** The number of a pane such as ["%12"], with or without quotes. *)
Definition pane_number (paneId : bytes) : bytes :=
  match Trim paneId [34; 39] with
  | 37 :: n => match ParseUint n 10 32 with Ok _ => n | Err _ => [] end
  | _ => []
  end.

(** The commands of the complete lines, and the rest. *)
Definition complete_commands (buf : bytes) : list bytes := concat (map (fun line => Split line 59) (removelast (Split buf 13))).
Definition rest_line (buf : bytes) : bytes := List.last (Split buf 13) [].

Definition run_commands (buf : bytes) : tmux_input := fold_left tmux_command (complete_commands buf) (mkTmux [] [] false 0).
(** Keys, rest, pane and whether the terminal detaches; [ti_acks] blocks are written meanwhile. *)
Definition handleAndDecodeTmuxInput (buf : bytes) : bytes * bytes * bytes * bool * nat :=
  let st := run_commands buf in
  (ti_input st, rest_line buf, pane_number (ti_paneId st), ti_detach st, ti_acks st).

(** The blocks [handleTmuxDiscardedInput] writes for input the server never saw. *)
Definition handleTmuxDiscardedInput (discarded : bytes) : nat := length (List.filter (fun b => (b =? 59) || (b =? 13)) discarded).

(** ** User input while the connection is lost *)

Record notifInterceptor := mkNotif {
  ni_tmux : bool; ni_pane : option bytes; ni_left : bytes; ni_chan : option Z; ni_cursor : option bytes; ni_exited : bool; ni_acks : nat }.

(** A key is offered on the channel if it is free; a cursor position report is noted. *)
Definition offer_keys (ni : notifInterceptor) (buf : bytes) : notifInterceptor :=
  match buf with
  | [b] => mkNotif (ni_tmux ni) (ni_pane ni) (ni_left ni) (match ni_chan ni with None => Some b | c => c end) (ni_cursor ni) (ni_exited ni) (ni_acks ni)
  | _ =>
      let n := length buf in
      if (5 <? n)%nat && (at_ buf 0 =? 27) && (at_ buf 1 =? 91) && (at_ buf (n - 1) =? 82) then
        mkNotif (ni_tmux ni) (ni_pane ni) (ni_left ni) (ni_chan ni) (Some (slice 2 (n - 1) buf)) (ni_exited ni) (ni_acks ni)
      else ni
  end.
Definition handleUserInput (ni : notifInterceptor) (input : bytes) : notifInterceptor :=
  if ni_tmux ni then
    let '(keys, rest, paneId, detach, acks) := handleAndDecodeTmuxInput (ni_left ni ++ input) in
    let ni := mkNotif true (ni_pane ni) rest (ni_chan ni) (ni_cursor ni) (ni_exited ni || detach) (ni_acks ni + acks) in
    if detach then ni
    else if bool_decide (paneId = []) then ni
    else match ni_pane ni with
         | None => offer_keys (mkNotif true (Some paneId) rest (ni_chan ni) (ni_cursor ni) (ni_exited ni) (ni_acks ni)) keys
         | Some p => if bool_decide (p = paneId) then offer_keys ni keys else ni
         end
  else offer_keys (mkNotif false (ni_pane ni) [] (ni_chan ni) (ni_cursor ni) (ni_exited ni) (ni_acks ni)) input.

(** ** The exit key *)

Section ExitKey.
Context `{U : UnicodeTables}.

Definition defaultUdpReconnectExitKey : Z := 4.
Definition parseUdpReconnectControlKey (b : Z) : Z :=
  let b := if (65 <=? b) && (b <=? 90) then b + 32 else b in
  if (b <? 97) || (122 <? b) then defaultUdpReconnectExitKey
  else let key := b - 97 + 1 in if key =? 1 then defaultUdpReconnectExitKey else key.
(** Zero is no exit key. *)
Definition parseUdpReconnectExitKey (value : bytes) : Z :=
  let v := TrimSpace value in
  let lower := ToLower v in
  if bool_decide (v = []) then defaultUdpReconnectExitKey
  else if bool_decide (lower = lit "none") then 0
  else if HasPrefix lower (lit "ctrl+") && (length lower =? 6)%nat then parseUdpReconnectControlKey (at_ lower 5)
  else match v with
       | [c; b] => if c =? 94 then parseUdpReconnectControlKey b else defaultUdpReconnectExitKey
       | _ => defaultUdpReconnectExitKey
       end.
Definition udpReconnectExitKeyName (key : Z) : bytes :=
  if (1 <=? key) && (key <=? 26) then lit "Ctrl+" ++ [65 + key - 1] else [key].
End ExitKey.

(** ** The output reads back *)

(** What the terminal reads: a backslash and three octal digits are a byte. *)
Fixpoint tmux_unescape (s : bytes) : bytes :=
  match s with
  | [] => []
  | c :: s' =>
      if c =? 92 then
        match s' with
        | a :: b :: d :: s'' => ((a - 48) * 64 + (b - 48) * 8 + (d - 48)) :: tmux_unescape s''
        | _ => []
        end
      else c :: tmux_unescape s'
  end.

Lemma unescape_byte b rest : is_byte b -> tmux_unescape (tmux_escape b ++ rest) = b :: tmux_unescape rest.
Proof.
  unfold is_byte. intros Hb. unfold tmux_escape. destruct ((b <? 32) || (b =? 92) || (126 <? b)) eqn:E.
  - cbn [app octal3 tmux_unescape]. f_equal. zlia.
  - apply orb_false_iff in E as [E _]. apply orb_false_iff in E as [_ E]. cbn [app tmux_unescape]. by rewrite E.
Qed.

Lemma escape_line b : is_byte b -> Forall (fun c => 32 <= c <= 126) (tmux_escape b).
Proof.
  unfold is_byte. intros Hb. unfold tmux_escape. destruct ((b <? 32) || (b =? 92) || (126 <? b)) eqn:E.
  - unfold octal3. repeat (apply Forall_cons_2; [zlia|]). apply Forall_nil_2.
  - apply Forall_singleton. to_prop. lia.
Qed.

(** The notification reaches the pane byte for byte, on a line of its own. *)
Lemma tmux_output_roundtrip output paneId : wf_bytes output ->
  exists text, writeTmuxOutput output paneId = lit "%output %" ++ paneId ++ lit " " ++ text ++ [13; 10] /\
    tmux_unescape text = output /\ Forall (fun c => 32 <= c <= 126) text.
Proof.
  intros H. exists (concat (map tmux_escape output)). split; [done|]. induction H as [|b output Hb _ [IH1 IH2]]; [done|].
  cbn [map concat]. split; [rewrite unescape_byte by done; by rewrite IH1|]. apply Forall_app. split; [by apply escape_line|done].
Qed.

(** ** Commands cut anywhere *)

Lemma Split_app_general a b sep : Split (a ++ b) sep = removelast (Split a sep) ++ Split (List.last (Split a sep) [] ++ b) sep.
Proof.
  induction a as [|c a IH]; [done|]. cbn [app Split]. destruct (Z.eqb_spec c sep) as [->|Hc].
  - destruct (Split a sep) as [|f fs] eqn:E; [by destruct a; cbn in E; repeat case_match|]. rewrite IH.
    by change (removelast ([] :: f :: fs)) with ([] :: removelast (f :: fs)).
  - destruct (Split a sep) as [|f [|g fs]] eqn:E.
    + destruct a; cbn in E; repeat case_match; done.
    + rewrite IH. cbn [removelast List.last app Split]. rewrite (proj2 (Z.eqb_neq c sep)) by done. done.
    + rewrite IH. cbn [removelast List.last app]. done.
Qed.

Lemma Split_not_nil a sep : Split a sep <> [].
Proof. destruct a as [|c a]; [done|]. cbn. destruct (c =? sep); [done|]. by destruct (Split a sep). Qed.

Lemma last_removelast_app {A} (l l' : list A) d : l' <> [] -> removelast (l ++ l') = l ++ removelast l' /\ List.last (l ++ l') d = List.last l' d.
Proof.
  intros Hne. split; [by apply removelast_app|]. induction l as [|x l IH]; [done|]. cbn [app]. rewrite <- IH.
  destruct (l ++ l') eqn:E; [|done]. by apply app_eq_nil in E as [_ ->].
Qed.

Lemma complete_app a b :
  complete_commands (a ++ b) = complete_commands a ++ complete_commands (rest_line a ++ b) /\
  rest_line (a ++ b) = rest_line (rest_line a ++ b).
Proof.
  unfold complete_commands, rest_line. rewrite Split_app_general.
  destruct (last_removelast_app (removelast (Split a 13)) (Split (List.last (Split a 13) [] ++ b) 13) [] (Split_not_nil _ _)) as [-> ->].
  by rewrite map_app, concat_app.
Qed.

(** Running commands from a state is running them afresh and adding up. *)
Definition add_input (st st' : tmux_input) : tmux_input :=
  mkTmux (ti_input st ++ ti_input st') (if bool_decide (ti_paneId st' = []) then ti_paneId st else ti_paneId st')
    (ti_detach st || ti_detach st') (ti_acks st + ti_acks st').

Lemma flush_word (cur : bytes) : [] ∉ (if bool_decide (cur = []) then [] else [cur]).
Proof. case_bool_decide as E; [apply not_elem_of_nil|]. intros H%list_elem_of_singleton. by apply E. Qed.
Lemma Fields_nonempty_words s : [] ∉ Fields s.
Proof.
  unfold Fields. generalize (length s) as fuel. intros fuel. enough (forall s cur, [] ∉ fields_loop fuel s cur) by done. clear s.
  induction fuel as [|fuel IH]; intros s cur; cbn [fields_loop]; [apply flush_word|]. destruct s as [|b s]; [apply flush_word|].
  destruct (DecodeRune (b :: s)) as [r w]. destruct (IsSpace r); [|apply IH]. apply not_elem_of_app. split; [apply flush_word|apply IH].
Qed.

Lemma tmux_command_add st cmd : tmux_command st cmd = add_input st (tmux_command (mkTmux [] [] false 0) cmd).
Proof.
  unfold tmux_command. pose proof (Fields_nonempty_words (TrimSpace cmd)) as Hne. generalize dependent (Fields (TrimSpace cmd)).
  intros tokens Hne. unfold add_input. destruct st as [inp pane det acks]. cbn [ti_input ti_paneId ti_detach ti_acks orb].
  assert (forall d, mkTmux inp pane (det || d) (S acks) =
    mkTmux (inp ++ []) (if bool_decide (([] : bytes) = []) then pane else []) (det || d) (acks + 1)) as Hst
    by (intros d; rewrite app_nil_r, bool_decide_true by done; f_equal; lia).
  destruct tokens as [|t0 [|t1 [|t2 more]]]; cbn [ti_input ti_paneId ti_detach ti_acks orb]; try apply (Hst _).
  assert (t2 <> []) as Ht2 by (intros ->; apply Hne; right; right; by left).
  assert (forall x d, mkTmux (inp ++ x) t2 (det || d) (S acks) =
    mkTmux (inp ++ x) (if bool_decide (t2 = []) then pane else t2) (det || d) (acks + 1)) as Hset
    by (intros x d; rewrite bool_decide_false by done; f_equal; lia).
  destruct (is_word "send" t0); [destruct (is_word "-lt" t1); [apply Hset|destruct (is_word "-t" t1); [apply Hset|apply Hst]]|].
  destruct ((is_word "select-pane" t0 || is_word "display-message" t0) && is_word "-t" t1); [|apply Hst].
  cbn [ti_input ti_paneId ti_detach ti_acks]. specialize (Hset [] (is_word "detach" t0)). by rewrite app_nil_r in *.
Qed.

Lemma add_input_nil st : add_input st (mkTmux [] [] false 0) = st.
Proof. destruct st. unfold add_input. cbn. by rewrite app_nil_r, orb_false_r, Nat.add_0_r. Qed.
Lemma add_input_assoc a b c : add_input (add_input a b) c = add_input a (add_input b c).
Proof.
  unfold add_input. cbn. rewrite app_assoc, orb_assoc, Nat.add_assoc. f_equal.
  by repeat (case_bool_decide; try done).
Qed.
Lemma fold_commands cmds : forall st, fold_left tmux_command cmds st = add_input st (fold_left tmux_command cmds (mkTmux [] [] false 0)).
Proof.
  induction cmds as [|c cmds IH]; intros st; cbn [fold_left]; [by rewrite add_input_nil|].
  rewrite IH, (IH (tmux_command (mkTmux [] [] false 0) c)), tmux_command_add. apply add_input_assoc.
Qed.

Lemma acks_length cmds : ti_acks (fold_left tmux_command cmds (mkTmux [] [] false 0)) = length cmds.
Proof.
  induction cmds as [|c cmds IH]; [done|]. cbn [fold_left length]. rewrite fold_commands. cbn [add_input ti_acks]. rewrite IH.
  enough (ti_acks (tmux_command (mkTmux [] [] false 0) c) = 1%nat) as -> by done. unfold tmux_command. by repeat case_match.
Qed.

(** The commands of a text: one more than its separators in every complete line. *)
Lemma Split_length s sep : length (Split s sep) = S (length (List.filter (Z.eqb sep) s)).
Proof.
  induction s as [|c s IH]; [done|]. cbn [Split List.filter]. rewrite (Z.eqb_sym sep c). destruct (c =? sep); cbn [length]; [by rewrite IH|].
  rewrite <- IH. pose proof (Split_not_nil s sep). by destruct (Split s sep).
Qed.
Lemma discarded_app a b : handleTmuxDiscardedInput (a ++ b) = (handleTmuxDiscardedInput a + handleTmuxDiscardedInput b)%nat.
Proof. unfold handleTmuxDiscardedInput. by rewrite List.filter_app, length_app. Qed.

Lemma complete_count lines : (forall l, l ∈ lines -> 13 ∉ l) ->
  length (concat (map (fun line => Split line 59) lines)) = handleTmuxDiscardedInput (concat (map (fun l => l ++ [13]) lines)).
Proof.
  induction lines as [|l lines IH]; intros H; [done|]. cbn [map concat]. rewrite length_app, !discarded_app, IH by set_solver.
  rewrite Split_length. assert (13 ∉ l) as Hl by (apply H; by left). change (handleTmuxDiscardedInput [13]) with 1%nat.
  enough (length (List.filter (Z.eqb 59) l) = handleTmuxDiscardedInput l) as -> by lia.
  clear -Hl. unfold handleTmuxDiscardedInput. induction l as [|c l IH]; [done|]. apply not_elem_of_cons in Hl as [Hc Hl].
  cbn [List.filter]. rewrite (Z.eqb_sym 59 c), (proj2 (Z.eqb_neq c 13)), orb_false_r by congruence. destruct (c =? 59); cbn [length]; by rewrite IH.
Qed.

Lemma Split_lines s : (forall l, l ∈ Split s 13 -> 13 ∉ l) /\ s = concat (map (fun l => l ++ [13]) (removelast (Split s 13))) ++ List.last (Split s 13) [].
Proof.
  induction s as [|c s [IH1 IH2]]; [split; [|done]; cbn; intros l ->%list_elem_of_singleton; apply not_elem_of_nil|].
  cbn [Split]. destruct (Z.eqb_spec c 13) as [->|Hc].
  - split; [intros l [->|Hl]%elem_of_cons; [apply not_elem_of_nil|by apply IH1]|].
    destruct (Split s 13) as [|f fs] eqn:E; [by apply Split_not_nil in E|].
    change (removelast ([] :: f :: fs)) with ([] :: removelast (f :: fs)). cbn [map concat app]. f_equal. exact IH2.
  - destruct (Split s 13) as [|f fs] eqn:E; [by apply Split_not_nil in E|]. split.
    + intros l [->|Hl]%elem_of_cons; [|apply IH1; by right]. apply not_elem_of_cons. split; [congruence|apply IH1; by left].
    + destruct fs as [|g fs]; [cbn in *; by rewrite IH2|].
      change (removelast ((c :: f) :: g :: fs)) with ((c :: f) :: removelast (g :: fs)).
      change (removelast (f :: g :: fs)) with (f :: removelast (g :: fs)) in IH2. cbn [map concat app]. f_equal. exact IH2.
Qed.

(** Tmux input may be cut anywhere: handling a first part and then what it left over with
    the second part decodes the keys, finds the detachment and the pane and acknowledges the
    commands as handling both at once does; and a complete input is acknowledged once for
    every command, as input the server never saw is. *)
Theorem tmux_input_chunking a b :
  let st := run_commands a in
  let st' := run_commands (rest_line a ++ b) in
  run_commands (a ++ b) = add_input st st' /\ rest_line (a ++ b) = rest_line (rest_line a ++ b) /\
  exists complete, a = complete ++ rest_line a /\ ti_acks st = handleTmuxDiscardedInput complete.
Proof.
  cbn zeta. destruct (complete_app a b) as [E1 E2]. split_and!; [|done|].
  - unfold run_commands. rewrite E1, fold_left_app. apply fold_commands.
  - destruct (Split_lines a) as [H1 H2]. eexists. split; [exact H2|]. unfold run_commands, complete_commands. rewrite acks_length.
    apply complete_count. intros l Hl. apply H1. rewrite (app_removelast_last []) by apply Split_not_nil. apply elem_of_app. by left.
Qed.

(** The user's keys for the pane in question: typed text and keys sent as numbers. *)
Example decode_sample :
  handleAndDecodeTmuxInput (lit "send -lt %3 ab; send -t %3 0x1b 0x4" ++ [13] ++ lit "send -l") =
  (lit "ab" ++ [27; 4], lit "send -l", lit "3", false, 2%nat).
Proof. by vm_compute. Qed.

(** ** The exit key *)

(** The exit key is none, or Control and a letter other than the A that toggles the view. *)
Lemma exit_key_range `{U : UnicodeTables} value :
  parseUdpReconnectExitKey value = 0 \/ 2 <= parseUdpReconnectExitKey value <= 26.
Proof.
  assert (forall b, 2 <= parseUdpReconnectControlKey b <= 26) as Hk.
  { intros b. unfold parseUdpReconnectControlKey, defaultUdpReconnectExitKey. cbn zeta. set (b' := if (65 <=? b) && (b <=? 90) then b + 32 else b). clearbody b'.
    destruct ((b' <? 97) || (122 <? b')) eqn:E; [lia|]. to_prop. destruct (Z.eqb_spec (b' - 97 + 1) 1); lia. }
  unfold parseUdpReconnectExitKey, defaultUdpReconnectExitKey. cbn zeta.
  destruct (bool_decide (TrimSpace value = [])); [right; lia|]. destruct (bool_decide (ToLower (TrimSpace value) = lit "none")); [by left|]. right.
  destruct (HasPrefix _ _ && _); [apply Hk|]. destruct (TrimSpace value) as [|c [|b [|]]]; try lia. destruct (c =? 94); [apply Hk|lia].
Qed.

(** The name shown for a key is one the setting accepts for it. *)
Lemma exit_key_roundtrip `{U : UnicodeTables} key : 2 <= key <= 26 -> parseUdpReconnectExitKey (udpReconnectExitKeyName key) = key.
Proof.
  intros H.
  assert (key ∈ map Z.of_nat (seq 2 25)) as Hin
    by (apply list_elem_of_In, in_map_iff; exists (Z.to_nat key); split; [lia|]; apply in_seq; lia).
  revert key H Hin. enough (Forall (fun key => parseUdpReconnectExitKey (udpReconnectExitKeyName key) = key) (map Z.of_nat (seq 2 25))) as HF
    by (intros key _ Hin; rewrite Forall_forall in HF; by apply HF).
  cbn [seq map]. repeat (apply Forall_cons_2; [by vm_compute|]). apply Forall_nil_2.
Qed.
