(* ===== verification/SshForward.v ===== *)
(** * Setting up the forwardings of the ssh client

    src/tssh/forward.go, forward_tcp.go and forward_udp.go: which forwardings are set up from
    the command line and the configuration, on which local addresses they listen, and how unix
    sockets are replaced and protected. *)

From S2P Require Import Prelude GoStrings Tokens Forwarding SshConfig Login.

Local Open Scope go_scope.

(** ** Addresses *)

(** [listenOnLocalTCP], [listenOnRemoteTCP] and their UDP counterparts: networks and addresses
    to listen on, in order. *)
Definition listen_on (udp gateway : bool) (addr : option bytes) (port : bytes) : list (bytes * bytes) :=
  let '(any, v4, v6, unix) :=
    if udp then (lit "udp", lit "udp4", lit "udp6", lit "unixgram") else (lit "tcp", lit "tcp4", lit "tcp6", lit "unix") in
  let wildcard := [(v4, joinHostPort (lit "0.0.0.0") port); (v6, joinHostPort (lit "::") port)] in
  match addr with
  | None =>
      if gateway then wildcard
      else [(v4, joinHostPort (lit "127.0.0.1") port); (v6, joinHostPort (lit "::1") port)]
  | Some a =>
      if bool_decide (a = []) || bool_decide (a = lit "*") then wildcard
      else if HasPrefix a (lit "/") && bool_decide (port = lit "-1") then [(unix, a)]
      else [(any, joinHostPort a port)]
  end.

(** Where a forwarding leads: the first lines of [localForwardTCP], [remoteForwardUDP] and the
    others. *)
Definition forward_dest (f : forwardCfg) : bytes * bytes :=
  if bool_decide (fc_destPort f = -1) && HasPrefix (fc_destHost f) (lit "/") then
    (if fc_udp f then lit "unixgram" else lit "unix", fc_destHost f)
  else (if fc_udp f then lit "udp" else lit "tcp", joinHostPort (fc_destHost f) (Itoa (fc_destPort f))).

(** ** Unix sockets *)

Definition defaultStreamLocalBindMask : Z := 127.
Definition streamLocalBindMask (v : bytes) : Z :=
  if bool_decide (v = []) then defaultStreamLocalBindMask
  else match ParseInt v 8 32 with
       | Ok mask => if (mask <? 0) || (511 <? mask) then defaultStreamLocalBindMask else mask
       | Err _ => defaultStreamLocalBindMask
       end.

(** What [os.Lstat] finds. *)
Inductive path_state := Absent | Socket | OtherFile | StatFails.
#[export] Instance path_state_eq_dec : EqDecision path_state.
Proof. solve_decision. Defined.

Definition unlinkStaleUnixSocket (p : path_state) (remove_ok : bool) : option path_state :=
  match p with
  | Absent => Some Absent
  | StatFails | OtherFile => None
  | Socket => if remove_ok then Some Absent else None
  end.

(** The [listen] function of [listenOnLocalTCP] and [listenOnLocalUDP] for a unix socket: what
    is at the path afterwards, and the mode of the socket if it is listening. *)
Definition listen_unix (unlinkUnix : bool) (bindMask : Z) (p : path_state) (remove_ok chmod_ok : bool) : path_state * option Z :=
  match (if unlinkUnix then unlinkStaleUnixSocket p remove_ok else Some p) with
  | None => (p, None)
  | Some p' =>
      if bool_decide (p' = Absent) then
        if chmod_ok then (Socket, Some (Z.land 438 (Z.lnot bindMask))) else (Absent, None)
      else (p', None)
  end.

(** ** The forwardings *)

Inductive forward_act :=
  | Dynamic (b : bindCfg) | Local (f : forwardCfg) | Remote (f : forwardCfg) | RequireUDP | ParseFailed.

Record forward_args := { fa_Gateway : bool; fa_Dynamic : list bindCfg; fa_Local : list forwardCfg; fa_Remote : list forwardCfg }.

Section Forward.
Context `{U : UnicodeTables}.
Context (Default : bytes -> bytes) (s : settings) (hostname : bytes) (sha1hex : bytes -> bytes) (udp : bool) (param : sshParam).

(** The forwardings of the command line; [warned] is [warnedUDP]. *)
Fixpoint from_args (mk : forwardCfg -> forward_act) (cfgs : list forwardCfg) (warned : bool) : list forward_act * bool :=
  match cfgs with
  | [] => ([], warned)
  | f :: cfgs' =>
      if fc_udp f && negb udp then
        let '(acts, w) := from_args mk cfgs' true in (if warned then acts else RequireUDP :: acts, w)
      else let '(acts, w) := from_args mk cfgs' warned in (mk f :: acts, w)
  end.

(** The forwardings of the configuration. *)
Definition from_config {A} (mk : A -> forward_act) (parse : bytes -> result forward_error A) (strs : list bytes) : list forward_act :=
  map (fun str => match parse str with Ok f => mk f | Err _ => ParseFailed end) strs.
Definition from_udp_config (mk : forwardCfg -> forward_act) (strs : list bytes) (warned : bool) : list forward_act * bool :=
  match strs with
  | [] => ([], warned)
  | _ => if negb udp then (if warned then [] else [RequireUDP], true)
         else (from_config mk (parseForwardCfg hostname sha1hex param true) strs, warned)
  end.

Definition isGatewayPorts (a : forward_args) (dest : bytes) : bool :=
  fa_Gateway a || is_lower (getConfig Default s dest (lit "GatewayPorts")) "yes".

Definition sshPortForward (a : forward_args) (o : sshOption) (dest : bytes) : list forward_act :=
  let all key := getAllExOptionConfig Default s o dest (lit key) in
  if is_lower (getOptionConfig Default s o dest (lit "ClearAllForwardings")) "yes" then []
  else
    let dyn := map Dynamic (fa_Dynamic a) ++ from_config Dynamic parseBindCfg (all "DynamicForward") in
    let '(l1, warned) := from_args Local (fa_Local a) false in
    let l2 := from_config Local (parseForwardCfg hostname sha1hex param false) (all "LocalForward") in
    let '(l3, warned) := from_udp_config Local (all "UdpLocalForward") warned in
    let '(r1, warned) := from_args Remote (fa_Remote a) warned in
    let r2 := from_config Remote (parseForwardCfg hostname sha1hex param false) (all "RemoteForward") in
    let '(r3, warned) := from_udp_config Remote (all "UdpRemoteForward") warned in
    dyn ++ l1 ++ l2 ++ l3 ++ r1 ++ r2 ++ r3.
End Forward.

(** The addresses an action listens on: the user's machine for dynamic and local forwardings,
    the server for remote ones. *)
Definition listens (gateway : bool) (act : forward_act) : list (bytes * bytes) :=
  match act with
  | Dynamic b => listen_on false gateway (bc_addr b) (Itoa (bc_port b))
  | Local f | Remote f => listen_on (fc_udp f) gateway (fc_bindAddr f) (Itoa (fc_bindPort f))
  | RequireUDP | ParseFailed => []
  end.

(** ** What is set up *)

Definition is_forward (act : forward_act) : bool := match act with RequireUDP | ParseFailed => false | _ => true end.
Definition is_warning (act : forward_act) : bool := match act with RequireUDP => true | _ => false end.
Definition forwards (acts : list forward_act) : list forward_act := List.filter is_forward acts.
Definition warnings (acts : list forward_act) : nat := length (List.filter is_warning acts).
Definition parsed {A} (parse : bytes -> result forward_error A) (strs : list bytes) : list A :=
  omap (fun str => match parse str with Ok f => Some f | Err _ => None end) strs.
Definition permitted (udp : bool) (f : forwardCfg) : bool := negb (fc_udp f) || udp.
Definition act_udp (act : forward_act) : bool := match act with Local f | Remote f => fc_udp f | _ => false end.
Definition bind_addr (act : forward_act) : option bytes :=
  match act with Dynamic b => bc_addr b | Local f | Remote f => fc_bindAddr f | _ => None end.

(** Constructors of forwardings. *)
Definition forwarding {A} (mk : A -> forward_act) : Prop := forall f, is_forward (mk f) = true.

Lemma set_up_app a b : forwards (a ++ b) = forwards a ++ forwards b.
Proof. apply List.filter_app. Qed.
Lemma warnings_app a b : warnings (a ++ b) = (warnings a + warnings b)%nat.
Proof. unfold warnings. by rewrite List.filter_app, length_app. Qed.
Lemma forwarding_warning {A} (mk : A -> forward_act) f : forwarding mk -> is_warning (mk f) = false.
Proof. intros H. specialize (H f). by destruct (mk f). Qed.
Lemma forwards_map {A} (mk : A -> forward_act) fs : forwarding mk -> forwards (map mk fs) = map mk fs /\ warnings (map mk fs) = 0%nat.
Proof.
  intros H. unfold forwards, warnings. induction fs as [|f fs [IH1 IH2]]; [done|]. cbn.
  by rewrite H, IH1, forwarding_warning by done.
Qed.

Lemma from_config_spec {A} (mk : A -> forward_act) parse strs : forwarding mk ->
  forwards (from_config mk parse strs) = map mk (parsed parse strs) /\ warnings (from_config mk parse strs) = 0%nat.
Proof.
  intros H. unfold forwards, warnings, from_config, parsed. induction strs as [|str strs [IH1 IH2]]; [done|]. cbn.
  destruct (parse str); cbn; [|done]. by rewrite H, IH1, forwarding_warning by done.
Qed.

(** The warning about UDP mode is given at most once: [w] says whether it has been given. *)
Definition warned_by (before : bool) (acts : list forward_act) (after : bool) : Prop :=
  (warnings acts + Nat.b2n before = Nat.b2n after)%nat.

Lemma from_args_spec udp mk cfgs : forwarding mk -> forall warned,
  forwards (from_args udp mk cfgs warned).1 = map mk (List.filter (permitted udp) cfgs) /\
  warned_by warned (from_args udp mk cfgs warned).1 (from_args udp mk cfgs warned).2.
Proof.
  intros H. induction cfgs as [|f cfgs IH]; intros warned; [done|]. cbn [from_args List.filter].
  assert (permitted udp f = negb (fc_udp f && negb udp)) as -> by (unfold permitted; by destruct (fc_udp f), udp).
  destruct (fc_udp f && negb udp); cbn [negb].
  - specialize (IH true) as [IH1 IH2]. destruct (from_args udp mk cfgs true) as [acts w]. cbn [fst snd] in *.
    unfold warned_by in *. destruct warned; cbn in *; split; [done|done|done|]. unfold warnings in *. cbn. lia.
  - specialize (IH warned) as [IH1 IH2]. destruct (from_args udp mk cfgs warned) as [acts w]. cbn [fst snd map] in *.
    unfold warned_by, warnings, forwards in *. cbn. rewrite H, forwarding_warning by done. by rewrite IH1.
Qed.

Lemma from_udp_config_spec hostname sha1hex udp param mk strs warned : forwarding mk ->
  let r := from_udp_config hostname sha1hex udp param mk strs warned in
  forwards r.1 = map mk (if udp then parsed (parseForwardCfg hostname sha1hex param true) strs else []) /\ warned_by warned r.1 r.2.
Proof.
  intros H. unfold from_udp_config. destruct strs as [|str strs]; [by destruct udp|]. destruct udp; cbn [negb].
  - cbn zeta. cbn [fst snd]. destruct (from_config_spec mk (parseForwardCfg hostname sha1hex param true) (str :: strs) H) as [-> Hw].
    split; [done|]. unfold warned_by. rewrite Hw. lia.
  - by destruct warned.
Qed.

Lemma parseForwardCfg_udp hostname sha1hex param udp str f :
  parseForwardCfg hostname sha1hex param udp str = Ok f -> fc_udp f = udp.
Proof.
  unfold parseForwardCfg. intros E. repeat (case_match; simplify_eq/=; try done).
Qed.

Lemma parsed_elem {A} (parse : bytes -> result forward_error A) strs f : f ∈ parsed parse strs -> exists str, parse str = Ok f.
Proof.
  unfold parsed. intros (str & _ & E)%list_elem_of_omap. exists str. by destruct (parse str); simplify_eq.
Qed.

(** Without a bind address and without GatewayPorts only the loopback addresses are bound. *)
Definition loopback (address : bytes) : Prop :=
  exists port, address = joinHostPort (lit "127.0.0.1") port \/ address = joinHostPort (lit "::1") port.
Lemma listen_on_loopback udp port n address : (n, address) ∈ listen_on udp false None port -> loopback address.
Proof.
  intros H. exists port. unfold listen_on in H. destruct udp;
    apply elem_of_cons in H as [[= _ ->]|[[= _ ->]|?%elem_of_nil]%elem_of_cons]; by auto.
Qed.
Lemma listens_loopback act n address : bind_addr act = None -> (n, address) ∈ listens false act -> loopback address.
Proof.
  intros Hb H. destruct act as [b|f|f| |]; cbn [listens bind_addr] in *; [| | |by apply elem_of_nil in H..];
    rewrite Hb in H; by eapply listen_on_loopback.
Qed.

Section Plan.
Context `{U : UnicodeTables}.
Context (Default : bytes -> bytes) (s : settings) (hostname : bytes) (sha1hex : bytes -> bytes) (udp : bool) (param : sshParam).

(** The forwardings the settings ask for. *)
Definition requested (a : forward_args) (o : sshOption) (dest : bytes) : list forward_act :=
  let all key := getAllExOptionConfig Default s o dest (lit key) in
  let side cfgs plain only_udp :=
    List.filter (permitted udp) cfgs ++ parsed (parseForwardCfg hostname sha1hex param false) (all plain) ++
    (if udp then parsed (parseForwardCfg hostname sha1hex param true) (all only_udp) else []) in
  map Dynamic (fa_Dynamic a ++ parsed parseBindCfg (all "DynamicForward")) ++
  map Local (side (fa_Local a) "LocalForward"%string "UdpLocalForward"%string) ++
  map Remote (side (fa_Remote a) "RemoteForward"%string "UdpRemoteForward"%string).

Lemma requested_udp a o dest act : act ∈ requested a o dest -> act_udp act = true -> udp = true.
Proof.
  unfold requested. cbn zeta. intros H Hu.
  assert (forall cfgs plain only_udp f, f ∈ List.filter (permitted udp) cfgs ++
    parsed (parseForwardCfg hostname sha1hex param false) plain ++
    (if udp then parsed (parseForwardCfg hostname sha1hex param true) only_udp else []) -> fc_udp f = true -> udp = true) as Hside.
  { intros cfgs plain only f [Hf|[Hf|Hf]%elem_of_app]%elem_of_app Hfu.
    - apply list_elem_of_In, List.filter_In in Hf as [_ Hf]. unfold permitted in Hf. by rewrite Hfu in Hf.
    - apply parsed_elem in Hf as [str Hf]. apply parseForwardCfg_udp in Hf. congruence.
    - by destruct udp; [|apply elem_of_nil in Hf]. }
  apply elem_of_app in H as [H|[H|H]%elem_of_app]; apply list_elem_of_In, in_map_iff in H as (f & <- & Hf%list_elem_of_In); [done| |].
  all: by eapply Hside.
Qed.

Lemma sshPortForward_spec a o dest :
  is_lower (getOptionConfig Default s o dest (lit "ClearAllForwardings")) "yes" = false ->
  forwards (sshPortForward Default s hostname sha1hex udp param a o dest) = requested a o dest /\
  (warnings (sshPortForward Default s hostname sha1hex udp param a o dest) <= 1)%nat.
Proof.
  intros Hc. unfold sshPortForward, requested. rewrite Hc. cbn zeta.
  destruct (from_args_spec udp Local (fa_Local a) (fun _ => eq_refl) false) as [F1 W1].
  destruct (from_args udp Local (fa_Local a) false) as [l1 w1]. cbn [fst snd] in *.
  match goal with |- context [from_udp_config ?h ?x udp param Local ?l w1] =>
    destruct (from_udp_config_spec h x udp param Local l w1 (fun _ => eq_refl)) as [F3 W3];
    destruct (from_udp_config h x udp param Local l w1) as [l3 w3] end. cbn [fst snd] in *.
  destruct (from_args_spec udp Remote (fa_Remote a) (fun _ => eq_refl) w3) as [F4 W4].
  destruct (from_args udp Remote (fa_Remote a) w3) as [r1 w4]. cbn [fst snd] in *.
  match goal with |- context [from_udp_config ?h ?x udp param Remote ?l w4] =>
    destruct (from_udp_config_spec h x udp param Remote l w4 (fun _ => eq_refl)) as [F6 W6];
    destruct (from_udp_config h x udp param Remote l w4) as [r3 w6] end. cbn [fst snd] in *.
  repeat match goal with |- context [from_config ?mk ?p ?l] =>
    let acts := fresh "acts" in
    destruct (from_config_spec mk p l (fun _ => eq_refl)); set (acts := from_config mk p l) in *; clearbody acts end.
  pose proof (forwards_map Dynamic (fa_Dynamic a) (fun _ => eq_refl)) as [F0 W0].
  rewrite !set_up_app, !warnings_app, !map_app. split.
  - rewrite F0, F1, F3, F4, F6. repeat match goal with H : forwards ?x = _ |- context [forwards ?x] => rewrite H end.
    by rewrite <- !app_assoc.
  - unfold warned_by in *. cbn [Nat.b2n] in *. destruct w6; cbn [Nat.b2n] in *; lia.
Qed.
End Plan.

(** C29: exactly the requested forwardings are set up, in order: nothing when they are cleared,
    those over UDP only in UDP mode (with one warning otherwise), and without GatewayPorts one
    that names no bind address listens on the loopback addresses only. *)
Theorem port_forward_plan `{U : UnicodeTables} Default s hostname sha1hex udp param a o dest :
  let plan := sshPortForward Default s hostname sha1hex udp param a o dest in
  let cleared := is_lower (getOptionConfig Default s o dest (lit "ClearAllForwardings")) "yes" in
  forwards plan = (if cleared then [] else requested Default s hostname sha1hex udp param a o dest) /\
  (warnings plan <= 1)%nat /\
  (forall act, act ∈ plan -> act_udp act = true -> udp = true) /\
  (forall act n address, act ∈ plan -> (n, address) ∈ listens (isGatewayPorts Default s a dest) act ->
    isGatewayPorts Default s a dest = true \/ bind_addr act <> None \/ loopback address).
Proof.
  intros plan cleared.
  assert (forwards plan = (if cleared then [] else requested Default s hostname sha1hex udp param a o dest) /\ (warnings plan <= 1)%nat)
    as [Hplan Hwarn].
  { subst plan cleared. destruct (is_lower _ "yes") eqn:E; [|by apply sshPortForward_spec].
    unfold sshPortForward. rewrite E. cbn. split; [done|lia]. }
  split; [done|]. split; [done|]. split.
  - intros act Hin Hu. assert (act ∈ forwards plan) as Hf
      by (apply list_elem_of_In, List.filter_In; split; [by apply list_elem_of_In|by destruct act]).
    rewrite Hplan in Hf. destruct cleared; [by apply elem_of_nil in Hf|]. by eapply requested_udp.
  - intros act n address _ H. destruct (isGatewayPorts Default s a dest); [by left|right].
    destruct (bind_addr act) eqn:E; [by left|right]. by eapply listens_loopback.
Qed.

(** A unix socket is only ever replaced when it is a socket, and listens with the access the
    mask leaves; with the default mask that is its owner's only. *)
Lemma unix_socket_protected unlinkUnix mask p remove_ok chmod_ok p' mode :
  listen_unix unlinkUnix mask p remove_ok chmod_ok = (p', mode) ->
  (p = OtherFile -> p' = OtherFile /\ mode = None) /\
  (forall m, mode = Some m -> p' = Socket /\ Z.land m mask = 0 /\ Z.land m 511 = m) /\
  (mask = defaultStreamLocalBindMask -> forall m, mode = Some m -> m = 384).
Proof.
  assert (Z.land (Z.land 438 (Z.lnot mask)) mask = 0) as H1.
  { rewrite <- Z.land_assoc, (Z.land_comm (Z.lnot mask)), Z.land_lnot_diag. apply Z.land_0_r. }
  assert (Z.land (Z.land 438 (Z.lnot mask)) 511 = Z.land 438 (Z.lnot mask)) as H2.
  { rewrite <- Z.land_assoc, (Z.land_comm _ 511), Z.land_assoc. done. }
  unfold listen_unix. destruct unlinkUnix, p, remove_ok, chmod_ok; cbn; intros [= <- <-];
    (split; [done|]); split; try done; intros; simplify_eq; done.
Qed.

Lemma streamLocalBindMask_range v : 0 <= streamLocalBindMask v <= 511.
Proof.
  unfold streamLocalBindMask, defaultStreamLocalBindMask. destruct (bool_decide _); [lia|].
  destruct (ParseInt v 8 32) as [mask|]; [|lia]. destruct (mask <? 0) eqn:E1, (511 <? mask) eqn:E2; cbn; lia.
Qed.

(** GatewayPorts is the one setting of forwarding that the command line's [-o] cannot change. *)
Lemma gateway_option_ignored `{U : UnicodeTables} (Default : bytes -> bytes) (s : settings) (a : forward_args) (dest : bytes) (o : sshOption) :
  getConfig Default s dest (lit "GatewayPorts") = [] -> fa_Gateway a = false ->
  option_get o (lit "GatewayPorts") = lit "yes" ->
  getOptionConfig Default s o dest (lit "GatewayPorts") = lit "yes" /\ isGatewayPorts Default s a dest = false.
Proof.
  intros H Ha Ho. unfold getOptionConfig, isGatewayPorts. rewrite Ho, H, Ha. split; [done|]. cbn. unfold is_lower.
  by apply bool_decide_eq_false.
Qed.

(** ** Example *)

Definition local_udp : forwardCfg := {|
  fc_udp := true; fc_argument := lit "udp/5353:h:53"; fc_bindAddr := None; fc_bindPort := 5353; fc_destHost := lit "h"; fc_destPort := 53 |}.
Definition local_tcp : forwardCfg := {|
  fc_udp := false; fc_argument := lit "8080:h:80"; fc_bindAddr := None; fc_bindPort := 8080; fc_destHost := lit "h"; fc_destPort := 80 |}.
Definition sample_forward_args : forward_args := {| fa_Gateway := false; fa_Dynamic := []; fa_Local := [local_udp; local_tcp; local_udp]; fa_Remote := [] |}.
Definition sample_param : sshParam := {|
  pr_host := []; pr_port := []; pr_user := []; pr_proxies := []; pr_Destination := lit "d"; pr_HostKeyAlias := [] |}.
Definition sample_plan (udp : bool) : list forward_act :=
  @sshPortForward caseless_tables (fun _ => []) (example_settings (lit "a")) [] (fun x => x) udp
    sample_param sample_forward_args ∅ (lit "d").
Lemma port_forward_plan_witness :
  sample_plan false = [RequireUDP; Local local_tcp] /\ sample_plan true = [Local local_udp; Local local_tcp; Local local_udp] /\
  (warnings (sample_plan false) <= 1)%nat /\
  (forall n address, (n, address) ∈ listens false (Local local_tcp) -> loopback address).
Proof.
  destruct (@port_forward_plan caseless_tables (fun _ => []) (example_settings (lit "a")) [] (fun x => x) false
    sample_param sample_forward_args ∅ (lit "d")) as (_ & Hw & _ & Hl).
  assert (sample_plan false = [RequireUDP; Local local_tcp]) as E by (by vm_compute).
  split; [done|]. split; [by vm_compute|]. split; [exact Hw|]. intros n address Hin.
  destruct (Hl (Local local_tcp) n address) as [?|[?|?]]; [| |done|done|done].
  - change (Local local_tcp ∈ sample_plan false). rewrite E. by right; left.
  - exact Hin.
Defined.
