(* ===== verification/SshUdpForward.v ===== *)
(** * UDP forwarding of the ssh client

    src/tssh/forward_udp.go: a local UDP forwarding keeps one connection through the server for
    each client that sends to it.  Packets, replies, the goroutine of each connection and the
    periodic cleanup run concurrently; the steps below are the pieces each of them does under
    the forwarder's lock. *)

From S2P Require Import Prelude GoStrings SshTime.

Local Open Scope go_scope.

(** ** Sessions *)

(** The goroutine that consumes a connection: reading, past the deferred close and waiting for
    the lock, ended. *)
Inductive consumer := Consuming | Deleting | Ended.
#[export] Instance consumer_eq_dec : EqDecision consumer.
Proof. solve_decision. Defined.

(** A session with its client, whether its connection is open, when it was last active. *)
Record udpForwardSession := mkSession { us_key : bytes; us_open : bool; us_lastActive : Z; us_consumer : consumer }.

(** What goes out: to the server on the connection of a session, or back to a client. *)
Inductive datagram := ToServer (sid : nat) (data : bytes) | ToClient (key : bytes) (sid : nat) (data : bytes).

(** Sessions are named by their position in [us_all]; [us_from] is what the clients sent. *)
Record udpLocalForwarder := mkForwarder {
  fwdSessions : gmap bytes nat; us_all : list udpForwardSession; us_sent : list datagram }.
Definition new_forwarder : udpLocalForwarder := mkForwarder ∅ [] [].

Definition set_active (now : Z) (s : udpForwardSession) := mkSession (us_key s) (us_open s) now (us_consumer s).
Definition close_session (s : udpForwardSession) := mkSession (us_key s) false (us_lastActive s) (us_consumer s).
Definition set_consumer (c : consumer) (s : udpForwardSession) := mkSession (us_key s) (us_open s) (us_lastActive s) c.

(** The end of [handlePacket], for a session found or just made. *)
Definition send_packet (f : udpLocalForwarder) (clientKey : bytes) (sid : nat) (data : bytes) (now : Z) (write_ok : bool) : udpLocalForwarder :=
  let sessions := alter (set_active now) sid (us_all f) in
  if write_ok && default false (us_open <$> sessions !! sid) then
    mkForwarder (fwdSessions f) sessions (us_sent f ++ [ToServer sid data])
  else mkForwarder (delete clientKey (fwdSessions f)) (alter close_session sid sessions) (us_sent f).

Definition handlePacket (f : udpLocalForwarder) (clientKey data : bytes) (now : Z) (dial_ok write_ok : bool) : udpLocalForwarder :=
  match fwdSessions f !! clientKey with
  | Some sid => send_packet f clientKey sid data now write_ok
  | None =>
      if negb dial_ok then f
      else
        let sid := length (us_all f) in
        send_packet (mkForwarder (<[clientKey := sid]> (fwdSessions f))
                                 (us_all f ++ [mkSession clientKey true now Consuming]) (us_sent f))
                    clientKey sid data now write_ok
  end.

(** [cleanupTimeout] for the sessions. *)
Definition expired (before : Z) (f : udpLocalForwarder) (sid : nat) : bool :=
  match us_all f !! sid with Some s => us_lastActive s <? before | None => false end.
Definition cleanupTimeout (f : udpLocalForwarder) (fwdExpireBefore : Z) : udpLocalForwarder :=
  mkForwarder (filter (fun kv => expired fwdExpireBefore f kv.2 = false) (fwdSessions f))
    (imap (fun sid s => if bool_decide (fwdSessions f !! us_key s = Some sid) && (us_lastActive s <? fwdExpireBefore)
                        then close_session s else s) (us_all f))
    (us_sent f).

(** ** Steps *)

Inductive udp_event :=
  | Packet (key data : bytes) (now : Z) (dial_ok write_ok : bool)
  | Reply (sid : nat) (data : bytes) (now : Z)
  | ConsumeEnds (sid : nat)
  | DeleteEntry (sid : nat)
  | Cleanup (before : Z).

Definition udp_step (f : udpLocalForwarder) (ev : udp_event) : option udpLocalForwarder :=
  match ev with
  | Packet key data now dial_ok write_ok => Some (handlePacket f key data now dial_ok write_ok)
  | Reply sid data now =>
      match us_all f !! sid with
      | Some s => if bool_decide (us_consumer s = Consuming)
                  then Some (mkForwarder (fwdSessions f) (alter (set_active now) sid (us_all f))
                                         (us_sent f ++ [ToClient (us_key s) sid data]))
                  else None
      | None => None
      end
  | ConsumeEnds sid =>
      match us_all f !! sid with
      | Some s => if bool_decide (us_consumer s = Consuming)
                  then Some (mkForwarder (fwdSessions f) (alter (fun s => set_consumer Deleting (close_session s)) sid (us_all f)) (us_sent f))
                  else None
      | None => None
      end
  | DeleteEntry sid =>
      match us_all f !! sid with
      | Some s => if bool_decide (us_consumer s = Deleting)
                  then Some (mkForwarder (delete (us_key s) (fwdSessions f)) (alter (set_consumer Ended) sid (us_all f)) (us_sent f))
                  else None
      | None => None
      end
  | Cleanup before => Some (cleanupTimeout f before)
  end.

Fixpoint udp_run (f : udpLocalForwarder) (evs : list udp_event) : option udpLocalForwarder :=
  match evs with
  | [] => Some f
  | ev :: evs' => match udp_step f ev with Some f' => udp_run f' evs' | None => None end
  end.

(** ** Timeouts and warnings *)

Definition kDefaultForwardUdpTimeout : Z := 300.
(** In seconds; [opt] is ForwardUdpTimeout. *)
Definition forward_udp_timeout (opt : bytes) : Z :=
  let timeout := if bool_decide (opt = []) then 0 else match convertSshTime opt with Some (Ok n) => n | _ => 0 end in
  if timeout <=? 0 then kDefaultForwardUdpTimeout else timeout.

Definition kWarnIntervalSeconds : Z := 60.
(** [udpLocalForwarder.warning]: whether it is shown, and the time noted. *)
Definition warn (lastWarn : gmap bytes Z) (key : bytes) (now : Z) : bool * gmap bytes Z :=
  match lastWarn !! key with
  | Some l => if now - l <? kWarnIntervalSeconds then (false, lastWarn) else (true, <[key := now]> lastWarn)
  | None => (true, <[key := now]> lastWarn)
  end.
Definition cleanup_warnings (lastWarn : gmap bytes Z) (warnExpireBefore : Z) : gmap bytes Z :=
  filter (fun kv => warnExpireBefore <= kv.2) lastWarn.

(** The loop at the end of [run] that takes a forwarder off the list. *)
Fixpoint index_of {A} `{EqDecision A} (x : A) (l : list A) : option nat :=
  match l with
  | [] => None
  | y :: l' => if decide (y = x) then Some 0%nat else S <$> index_of x l'
  end.
Definition remove_forwarder {A} `{EqDecision A} (f : A) (fwds : list A) : list A :=
  match index_of f fwds, last fwds with
  | Some i, Some z => removelast (<[i := z]> fwds)
  | _, _ => fwds
  end.

(** ** Every datagram goes where it belongs *)

Definition keys (f : udpLocalForwarder) : list bytes := us_key <$> us_all f.
Definition keeps_key (g : udpForwardSession -> udpForwardSession) : Prop := forall s, us_key (g s) = us_key s.

Lemma keys_alter g (i : nat) (l : list udpForwardSession) : keeps_key g -> us_key <$> alter g i l = us_key <$> l.
Proof.
  intros Hg. apply list_eq. intros j. rewrite !list_lookup_fmap. destruct (decide (i = j)) as [->|Hne].
  - rewrite list_lookup_alter_eq. by destruct (l !! j); cbn; rewrite ?Hg.
  - by rewrite list_lookup_alter_ne.
Qed.
Lemma keys_imap g (l : list udpForwardSession) : (forall i, keeps_key (g i)) -> us_key <$> imap g l = us_key <$> l.
Proof. intros Hg. apply list_eq. intros j. rewrite !list_lookup_fmap, list_lookup_imap. destruct (l !! j); cbn; by rewrite ?Hg. Qed.

(** A datagram on its way was sent by the client of the session, or answers it. *)
Definition justified (evs : list udp_event) (ks : list bytes) (d : datagram) : Prop :=
  match d with
  | ToServer sid data => exists key now dial_ok write_ok, ks !! sid = Some key /\ Packet key data now dial_ok write_ok ∈ evs
  | ToClient key sid data => exists now, ks !! sid = Some key /\ Reply sid data now ∈ evs
  end.

Record udp_inv (evs : list udp_event) (f : udpLocalForwarder) : Prop := {
  ui_table : forall k i, fwdSessions f !! k = Some i -> keys f !! i = Some k;
  ui_open : forall i s, us_all f !! i = Some s -> us_open s = true -> us_consumer s = Consuming;
  ui_sent : Forall (justified evs (keys f)) (us_sent f) }.

Lemma justified_mono evs evs' ks ks' d : evs ⊆ evs' -> ks `prefix_of` ks' -> justified evs ks d -> justified evs' ks' d.
Proof.
  intros He Hk. destruct d as [i data|k i data]; cbn.
  - intros (key & now & dial & w & H1 & H2). exists key, now, dial, w. split; [by eapply prefix_lookup_Some|by apply He].
  - intros (now & H1 & H2). exists now. split; [by eapply prefix_lookup_Some|by apply He].
Qed.
Lemma justified_all evs evs' ks ks' l :
  evs ⊆ evs' -> ks `prefix_of` ks' -> Forall (justified evs ks) l -> Forall (justified evs' ks') l.
Proof. intros He Hk Hl. eapply Forall_impl; [exact Hl|]. intros d. by apply justified_mono. Qed.

(** Sessions that only lose their connection or move their consumer on. *)
Definition fades (g : udpForwardSession -> udpForwardSession) : Prop :=
  keeps_key g /\ forall s, us_open (g s) = true -> us_open s = true /\ us_consumer (g s) = us_consumer s.

Lemma open_alter g (i : nat) (l : list udpForwardSession) : fades g ->
  (forall j s, l !! j = Some s -> us_open s = true -> us_consumer s = Consuming) ->
  forall j s, alter g i l !! j = Some s -> us_open s = true -> us_consumer s = Consuming.
Proof.
  intros [_ Hg] H j s. destruct (decide (i = j)) as [->|Hne].
  - rewrite list_lookup_alter_eq. intros (s0 & Hs & ->)%fmap_Some Ho. destruct (Hg s0 Ho) as [? ->]. eauto.
  - rewrite list_lookup_alter_ne by done. apply H.
Qed.

Lemma fades_set_active now : fades (set_active now).
Proof. done. Qed.
Lemma fades_close : fades close_session.
Proof. done. Qed.
Lemma fades_end : fades (fun s => set_consumer Deleting (close_session s)).
Proof. done. Qed.
#[local] Hint Resolve fades_set_active fades_close fades_end : core.

Lemma send_packet_inv evs f key sid data now dial_ok write_ok w :
  udp_inv evs f -> keys f !! sid = Some key -> Packet key data now dial_ok w ∈ evs ->
  udp_inv evs (send_packet f key sid data now write_ok).
Proof.
  intros [Ht Ho Hs] Hk Hev. unfold send_packet.
  assert (forall g, fades g -> us_key <$> alter g sid (alter (set_active now) sid (us_all f)) = keys f) as Hkeys
    by (intros g [Hg _]; rewrite !keys_alter by done; done).
  assert (us_key <$> alter (set_active now) sid (us_all f) = keys f) as Hkeys' by (by rewrite keys_alter).
  destruct (write_ok && _); split; unfold keys; cbn [us_all fwdSessions us_sent].
  - by rewrite Hkeys'.
  - by apply open_alter.
  - rewrite Hkeys'. apply Forall_app. split; [done|]. constructor; [|done]. exists key, now, dial_ok, w. done.
  - rewrite Hkeys by done. intros k i [_ H]%lookup_delete_Some. by apply Ht.
  - by apply open_alter; [|apply open_alter].
  - by rewrite Hkeys.
Qed.

Lemma udp_step_inv evs f ev f' : udp_inv evs f -> udp_step f ev = Some f' -> udp_inv (evs ++ [ev]) f'.
Proof.
  intros Hinv Hstep.
  assert (udp_inv (evs ++ [ev]) f) as Hinv'.
  { destruct Hinv as [Ht Ho Hs]. split; [done|done|]. eapply justified_all; [| |done]; [set_solver|done]. }
  assert (ev ∈ evs ++ [ev]) as Hev by set_solver. clear Hinv. generalize dependent (evs ++ [ev]). clear evs. intros evs Hinv Hev.
  pose proof Hinv as [Ht Ho Hs].
  destruct ev as [key data now dial_ok write_ok|sid data now|sid|sid|before]; cbn [udp_step] in Hstep.
  - injection Hstep as <-. unfold handlePacket. destruct (fwdSessions f !! key) as [sid|] eqn:E.
    + by eapply send_packet_inv; [done|apply Ht|].
    + destruct dial_ok; cbn [negb]; [|done]. eapply send_packet_inv; [| |exact Hev].
      * assert (keys f `prefix_of` keys f ++ [key]) as Hp by (by exists [key]).
        split; unfold keys; cbn [us_all fwdSessions us_sent]; rewrite ?fmap_app.
        -- intros k i [[<- <-]|[_ H]]%lookup_insert_Some; [|by eapply prefix_lookup_Some; [apply Ht|]].
           cbn. rewrite <- (length_fmap us_key). by apply list_lookup_middle.
        -- intros i s [H|[_ H]]%lookup_app_Some; [by eapply Ho|]. apply list_lookup_singleton_Some in H as [_ <-]. done.
        -- eapply justified_all; [done| |done]. exact Hp.
      * unfold keys. cbn [us_all]. rewrite fmap_app, <- (length_fmap us_key). by apply list_lookup_middle.
  - destruct (us_all f !! sid) as [s|] eqn:E; [|done]. destruct (bool_decide _) eqn:Ec; [|done]. injection Hstep as <-.
    split; unfold keys; cbn [us_all fwdSessions us_sent]; rewrite ?keys_alter by done; [done|by apply open_alter|].
    apply Forall_app. split; [done|]. constructor; [|done]. exists now. split; [|done]. by rewrite list_lookup_fmap, E.
  - destruct (us_all f !! sid) as [s|] eqn:E; [|done]. destruct (bool_decide _) eqn:Ec; [|done]. injection Hstep as <-.
    split; unfold keys; cbn [us_all fwdSessions us_sent]; rewrite ?keys_alter by done; [done|by apply open_alter|done].
  - destruct (us_all f !! sid) as [s|] eqn:E; [|done]. destruct (bool_decide _) eqn:Ec; [|done]. injection Hstep as <-.
    apply bool_decide_eq_true in Ec.
    split; unfold keys; cbn [us_all fwdSessions us_sent]; rewrite ?keys_alter by done; [| |done].
    + intros k i [_ H]%lookup_delete_Some. by apply Ht.
    + intros i s'. destruct (decide (sid = i)) as [->|Hne]; [|rewrite list_lookup_alter_ne by done; apply Ho].
      rewrite list_lookup_alter_eq, E. intros [= <-] Hop. specialize (Ho i s E Hop). congruence.
  - injection Hstep as <-.
    split; unfold keys; cbn [cleanupTimeout us_all fwdSessions us_sent].
    + intros k i [H _]%map_lookup_filter_Some. rewrite keys_imap by (intros ? ?; by case_match). by apply Ht.
    + intros i s. rewrite list_lookup_imap. intros (s0 & E & ->)%fmap_Some. case_match; [done|]. by eapply Ho.
    + rewrite keys_imap by (intros ? ?; by case_match). done.
Qed.

Lemma udp_run_inv evs : forall past f f', udp_inv past f -> udp_run f evs = Some f' -> udp_inv (past ++ evs) f'.
Proof.
  induction evs as [|ev evs IH]; intros past f f' Hinv; cbn [udp_run].
  - intros [= <-]. by rewrite app_nil_r.
  - destruct (udp_step f ev) as [f1|] eqn:E; [|done]. intros Hrun. rewrite (app_assoc past [ev] evs : past ++ ev :: evs = _).
    eapply IH; [|done]. by eapply udp_step_inv.
Qed.

(** ** Idle connections are closed *)

(** The goroutine of a session deletes the entry of its client, which a later session may have
    taken over. *)
Definition overtaken (f : udpLocalForwarder) (ev : udp_event) : bool :=
  match ev with
  | DeleteEntry sid =>
      match us_all f !! sid with
      | Some s => match fwdSessions f !! us_key s with Some j => negb (bool_decide (j = sid)) | None => false end
      | None => false
      end
  | _ => false
  end.
Fixpoint none_overtaken (f : udpLocalForwarder) (evs : list udp_event) : bool :=
  match evs with
  | [] => true
  | ev :: evs' => negb (overtaken f ev) && match udp_step f ev with Some f' => none_overtaken f' evs' | None => true end
  end.

(** Every open connection is in the table. *)
Definition held (f : udpLocalForwarder) : Prop :=
  forall i s, us_all f !! i = Some s -> us_open s = true -> fwdSessions f !! us_key s = Some i.

Lemma send_packet_held f key sid data now write_ok :
  held f -> fwdSessions f !! key = Some sid -> held (send_packet f key sid data now write_ok).
Proof.
  intros Hh Hk i s. unfold send_packet.
  destruct (write_ok && _); cbn [us_all fwdSessions]; destruct (decide (sid = i)) as [->|Hne].
  - rewrite list_lookup_alter_eq. intros (s0 & Hs & ->)%fmap_Some Ho. by apply (Hh i s0).
  - rewrite list_lookup_alter_ne by done. by apply Hh.
  - rewrite list_lookup_alter_eq. by intros (s0 & _ & ->)%fmap_Some.
  - rewrite !list_lookup_alter_ne by done. intros Hs Ho. specialize (Hh i s Hs Ho).
    rewrite lookup_delete_ne; [done|]. intros ->. congruence.
Qed.

Lemma cleanup_idle f before i s : held f ->
  us_all (cleanupTimeout f before) !! i = Some s -> us_open s = true ->
  before <= us_lastActive s /\ us_all f !! i = Some s.
Proof.
  intros Hh. cbn [cleanupTimeout us_all]. rewrite list_lookup_imap. intros (s0 & E & ->)%fmap_Some.
  destruct (bool_decide (fwdSessions f !! us_key s0 = Some i)) eqn:Et; cbn [andb];
    [destruct (us_lastActive s0 <? before) eqn:El; [done|]|]; intros Ho.
  - apply Z.ltb_ge in El. done.
  - apply bool_decide_eq_false in Et. by specialize (Hh i s0 E Ho).
Qed.

Lemma udp_step_held evs f ev f' :
  udp_inv evs f -> held f -> overtaken f ev = false -> udp_step f ev = Some f' -> held f'.
Proof.
  intros [_ Hopen _] Hh Hov Hstep. destruct ev as [key data now dial_ok write_ok|sid data now|sid|sid|before]; cbn [udp_step] in Hstep.
  - injection Hstep as <-. unfold handlePacket. destruct (fwdSessions f !! key) as [sid|] eqn:E; [by apply send_packet_held|].
    destruct dial_ok; cbn [negb]; [|done]. apply send_packet_held; [|by apply lookup_insert_eq].
    intros i s. cbn [us_all fwdSessions]. intros [Hs|[Hl Hs]]%lookup_app_Some Ho.
    + rewrite lookup_insert_ne; [by apply (Hh i s)|]. intros ->. specialize (Hh i s Hs Ho). congruence.
    + apply list_lookup_singleton_Some in Hs as [Hi <-]. cbn. rewrite lookup_insert_eq. f_equal. lia.
  - destruct (us_all f !! sid) as [s|] eqn:E; [|done]. destruct (bool_decide _); [|done]. injection Hstep as <-.
    intros i s'. cbn [us_all fwdSessions]. destruct (decide (sid = i)) as [->|Hne]; [|rewrite list_lookup_alter_ne by done; apply Hh].
    rewrite list_lookup_alter_eq, E. intros [= <-] Ho. by apply (Hh i s).
  - destruct (us_all f !! sid) as [s|] eqn:E; [|done]. destruct (bool_decide _); [|done]. injection Hstep as <-.
    intros i s'. cbn [us_all fwdSessions]. destruct (decide (sid = i)) as [->|Hne]; [|rewrite list_lookup_alter_ne by done; apply Hh].
    rewrite list_lookup_alter_eq, E. by intros [= <-].
  - cbn [overtaken] in Hov. destruct (us_all f !! sid) as [s|] eqn:E; [|done].
    destruct (bool_decide (us_consumer s = Deleting)) eqn:Ec; [|done]. injection Hstep as <-. apply bool_decide_eq_true in Ec.
    assert (us_open s = false) as Hcl by (destruct (us_open s) eqn:Ho; [|done]; specialize (Hopen sid s E Ho); congruence).
    intros i s'. cbn [us_all fwdSessions]. destruct (decide (sid = i)) as [->|Hne].
    + rewrite list_lookup_alter_eq, E. intros [= <-] Ho. cbn in Ho. congruence.
    + rewrite list_lookup_alter_ne by done. intros Hs Ho. pose proof (Hh i s' Hs Ho) as Ht.
      rewrite lookup_delete_ne; [done|]. intros Ek. rewrite Ek, Ht in Hov.
      apply negb_false_iff, bool_decide_eq_true in Hov. by subst.
  - injection Hstep as <-. intros i s Hs Ho. destruct (cleanup_idle f before i s Hh Hs Ho) as [Hl E].
    cbn [cleanupTimeout fwdSessions]. apply map_lookup_filter_Some. split; [by apply (Hh i s)|]. cbn. unfold expired. rewrite E.
    by apply Z.ltb_ge.
Qed.

Lemma udp_run_held evs : forall past f f', udp_inv past f -> held f -> none_overtaken f evs = true ->
  udp_run f evs = Some f' -> held f'.
Proof.
  induction evs as [|ev evs IH]; intros past f f' Hinv Hh; cbn [udp_run none_overtaken]; [by intros _ [= <-]|].
  intros [Ho Hn]%andb_true_iff. apply negb_true_iff in Ho. destruct (udp_step f ev) as [f1|] eqn:E; [|done].
  eapply (IH (past ++ [ev])); [by eapply udp_step_inv|by eapply udp_step_held|done].
Qed.

Lemma udp_inv_new : udp_inv [] new_forwarder.
Proof. split; [intros k i H; cbn in H; by rewrite lookup_empty in H|by intros i s|constructor]. Qed.
Lemma held_new : held new_forwarder.
Proof. by intros i s. Qed.

(** C18: in every interleaving, what the server gets on a connection was sent by the client the
    connection belongs to, and what comes back on it goes to that client; every open connection
    is being read; and as long as no connection's goroutine finishes after its client has been
    given a new one, a cleanup leaves open only connections active since its deadline. *)
Theorem udp_forward_sessions evs f :
  udp_run new_forwarder evs = Some f ->
  Forall (justified evs (keys f)) (us_sent f) /\
  (forall i s, us_all f !! i = Some s -> us_open s = true -> us_consumer s = Consuming) /\
  (none_overtaken new_forwarder evs = true -> forall before i s,
    us_all (cleanupTimeout f before) !! i = Some s -> us_open s = true -> before <= us_lastActive s).
Proof.
  intros Hrun. destruct (udp_run_inv evs [] new_forwarder f udp_inv_new Hrun) as [_ Ho Hs].
  split; [done|]. split; [done|]. intros Hn before i s E Hop.
  assert (held f) as Hh by (eapply udp_run_held; [apply udp_inv_new|apply held_new|done|done]).
  by apply (cleanup_idle f before i s Hh).
Qed.

Definition sample_events : list udp_event := [
  Packet (lit "c1") [1] 10 true true; Packet (lit "c2") [2] 11 true true; Reply 0 [3] 12;
  Packet (lit "c1") [4] 13 true false; ConsumeEnds 0; DeleteEntry 0].
Definition sample_forwarder : udpLocalForwarder := default new_forwarder (udp_run new_forwarder sample_events).
Lemma udp_forward_sessions_witness :
  us_sent sample_forwarder = [ToServer 0 [1]; ToServer 1 [2]; ToClient (lit "c1") 0 [3]] /\
  Forall (justified sample_events (keys sample_forwarder)) (us_sent sample_forwarder) /\
  forall s, us_all (cleanupTimeout sample_forwarder 12) !! 1%nat = Some s -> us_open s = true -> 12 <= us_lastActive s.
Proof.
  destruct (udp_forward_sessions sample_events sample_forwarder) as (H1 & _ & H3); [by vm_compute|].
  split; [by vm_compute|]. split; [exact H1|]. intros s. apply H3. by vm_compute.
Defined.

(** The connection that a late goroutine leaves behind: client [c1] has a connection with no
    entry, which no cleanup closes however long it is idle. *)
Lemma late_delete_orphans : exists f,
  udp_run new_forwarder [Packet (lit "c1") [1] 10 true true; Packet (lit "c1") [2] 11 true false; ConsumeEnds 0;
                         Packet (lit "c1") [3] 12 true true; DeleteEntry 0; Cleanup 1000000] = Some f /\
  us_all f !! 1%nat = Some (mkSession (lit "c1") true 12 Consuming) /\ fwdSessions f = ∅.
Proof. eexists. split; [by vm_compute|]. split; by vm_compute. Qed.

(** ** Warnings are not repeated within a minute *)

Inductive warn_event := Warn (key : bytes) (now : Z) | CleanWarnings (now : Z).
Definition warn_time (ev : warn_event) : Z := match ev with Warn _ now | CleanWarnings now => now end.

(** The times at which [key] is shown. *)
Fixpoint shown (key : bytes) (m : gmap bytes Z) (evs : list warn_event) : list Z :=
  match evs with
  | [] => []
  | Warn k now :: evs' =>
      let '(show, m') := warn m k now in
      (if show && bool_decide (k = key) then [now] else []) ++ shown key m' evs'
  | CleanWarnings now :: evs' => shown key (cleanup_warnings m (now - kWarnIntervalSeconds)) evs'
  end.
Fixpoint clock_ok (t : Z) (evs : list warn_event) : Prop :=
  match evs with [] => True | ev :: evs' => t <= warn_time ev /\ clock_ok (warn_time ev) evs' end.
Fixpoint spaced (d : Z) (l : list Z) : Prop :=
  match l with
  | [] => True
  | t :: l' => match l' with [] => True | t' :: _ => t + d <= t' end /\ spaced d l'
  end.

(** A time [l] at which the key was last shown is noted, or a minute ago. *)
Definition noted (key : bytes) (m : gmap bytes Z) (t l : Z) : Prop := m !! key = Some l \/ l + kWarnIntervalSeconds <= t.

Lemma shown_after key evs : forall m t l, noted key m t l -> clock_ok t evs ->
  match shown key m evs with [] => True | t' :: _ => l + kWarnIntervalSeconds <= t' end.
Proof.
  induction evs as [|[k now|now] evs IH]; intros m t l Hn; cbn [shown clock_ok warn_time]; [done| |]; intros [Ht Hc].
  - unfold warn. destruct (m !! k) as [l0|] eqn:El; [destruct (Z.ltb_spec (now - l0) kWarnIntervalSeconds)|]; cbn [andb app].
    + eapply IH; [|done]. destruct Hn as [?|?]; [by left|right; lia].
    + destruct (decide (k = key)) as [->|Hne].
      * rewrite bool_decide_true by done. cbn [app]. destruct Hn as [E|?]; [|lia]. rewrite El in E. injection E as ->. lia.
      * rewrite bool_decide_false by done. cbn [app]. eapply IH; [|done].
        destruct Hn as [?|?]; [left; by rewrite lookup_insert_ne|right; lia].
    + destruct (decide (k = key)) as [->|Hne].
      * rewrite bool_decide_true by done. cbn [app]. destruct Hn as [E|?]; [congruence|lia].
      * rewrite bool_decide_false by done. cbn [app]. eapply IH; [|done].
        destruct Hn as [?|?]; [left; by rewrite lookup_insert_ne|right; lia].
  - eapply IH; [|done]. destruct Hn as [E|?]; [|right; lia]. destruct (Z.le_gt_cases (now - kWarnIntervalSeconds) l).
    + left. by apply map_lookup_filter_Some.
    + right. lia.
Qed.

(** Two warnings of the same kind are at least a minute apart, the cleanup included. *)
Lemma warnings_throttled key evs : forall m t, clock_ok t evs -> spaced kWarnIntervalSeconds (shown key m evs).
Proof.
  induction evs as [|[k now|now] evs IH]; intros m t; cbn [shown clock_ok warn_time]; [done| |]; intros [Ht Hc].
  - destruct (warn m k now) as [b m'] eqn:E. destruct (b && bool_decide (k = key)) eqn:Eb; cbn [app]; [|by eapply IH].
    apply andb_true_iff in Eb as [-> Ek%bool_decide_eq_true]. subst k. split; [|by eapply IH].
    eapply (shown_after key evs m' now); [|done]. left. unfold warn in E. repeat case_match; simplify_eq; apply lookup_insert_eq.
  - by eapply IH.
Qed.

(** ** The list of forwarders *)

Lemma index_of_split {A} `{EqDecision A} (x : A) l i : index_of x l = Some i -> exists a b, l = a ++ x :: b /\ length a = i.
Proof.
  revert i. induction l as [|y l IH]; intros i; cbn; [done|]. destruct (decide (y = x)) as [->|].
  - intros [= <-]. by exists [], l.
  - intros (j & E & ->)%fmap_Some. destruct (IH j E) as (a & b & -> & <-). by exists (y :: a), b.
Qed.

(** Taking a forwarder off the list keeps the others. *)
Lemma remove_forwarder_perm {A} `{EqDecision A} (f : A) l : f ∈ l -> f :: remove_forwarder f l ≡ₚ l.
Proof.
  intros Hin. unfold remove_forwarder. destruct (index_of f l) as [i|] eqn:E.
  - apply index_of_split in E as (a & b & -> & <-). destruct b as [|z b _] using rev_ind.
    + rewrite last_snoc, insert_app_r_alt, Nat.sub_diag by lia. cbn. rewrite removelast_last. by rewrite Permutation_app_comm.
    + rewrite app_comm_cons, app_assoc, last_snoc, <- app_assoc. rewrite insert_app_r_alt, Nat.sub_diag by lia. cbn.
      rewrite app_comm_cons, app_assoc, removelast_last. rewrite <- (Permutation_middle a b). solve_Permutation.
  - exfalso. revert Hin E. clear. induction l as [|y l IH]; [by intros ?%elem_of_nil|]. cbn. destruct (decide (y = f)); [done|].
    intros [?|?]%elem_of_cons; [done|]. destruct (index_of f l); [done|]. naive_solver.
Qed.
