(* ===== verification/Recorder.v ===== *)
(** * The capture recorder (src/vpntunnel/recorder.go)

    A bounded queue between the flows and one writer, which keeps a bounded set of
    open files and stops at the session limit; body sinks that store a prefix of a
    body; and the bookkeeping that ends every transaction once.  The mutexes give
    atomic steps; the state is grouped by the lock (or goroutine) that guards it. *)

From S2P Require Import Prelude GoStrings.

Definition recorderQueueLimit : Z := Z.shiftl 2 20.
Definition recorderMaxQueuedOps : Z := 8192.
Definition recorderMaxOpenFiles : Z := 64.
Definition indexFileName : bytes := lit "index.jsonl".
Definition packetsFileName : bytes := lit "packets.bin".
Definition keylogFileName : bytes := lit "keylog.txt".

(** ** Index events *)

Record evSegment := { sg_TS : Z; sg_Seg : bytes; sg_Session : bytes; sg_Transport : bytes }.
Record evStop := { st_T : bytes; st_TS : Z; st_Reason : bytes }.
Record evTxStart := {
  ts_ID : bytes;
  ts_Conn : bytes;
  ts_TS : Z;
  ts_Method : bytes;
  ts_URL : bytes;
  ts_Host : bytes;
  ts_Scheme : bytes;
  ts_Proto : bytes;
  ts_ReqHeaders : list (bytes * bytes);
  ts_ReqHead : bytes;
  ts_Client : bytes;
  ts_Server : bytes;
  ts_SNI : bytes;
  ts_TLS : bytes;
  ts_ALPN : bytes;
  ts_ConnectMs : Z;
  ts_TLSMs : Z;
  ts_Reused : bool;
  ts_Rewritten : list bytes
}.
Record evTxResponse := {
  tr_ID : bytes;
  tr_TS : Z;
  tr_Status : Z;
  tr_Reason : bytes;
  tr_Proto : bytes;
  tr_ResHeaders : list (bytes * bytes);
  tr_ResHead : bytes;
  tr_Rewritten : list bytes
}.
Record evTxEnd := {
  te_ID : bytes;
  te_TS : Z;
  te_ReqBytes : Z;
  te_ResBytes : Z;
  te_ReqBodyFile : bytes;
  te_ResBodyFile : bytes;
  te_ReqTruncated : bool;
  te_ResTruncated : bool;
  te_Error : bytes;
  te_WS : bool;
  te_Note : bytes
}.
Record evTunnel := {
  tu_ID : bytes;
  tu_TS : Z;
  tu_Start : Z;
  tu_Client : bytes;
  tu_Server : bytes;
  tu_Host : bytes;
  tu_SNI : bytes;
  tu_ALPN : bytes;
  tu_Reason : bytes;
  tu_Error : bytes;
  tu_BytesUp : Z;
  tu_BytesDown : Z
}.
Record evTLSRejected := {
  tl_ID : bytes;
  tl_TS : Z;
  tl_Host : bytes;
  tl_Server : bytes;
  tl_Detail : bytes;
  tl_Bypassed : bool
}.
Record evFailure := {
  fl_ID : bytes;
  fl_TS : Z;
  fl_Host : bytes;
  fl_Server : bytes;
  fl_Stage : bytes;
  fl_Error : bytes
}.
(** The events the flows report; the [T] tag is the constructor, but for [evStop],
    whose tag is "stop" or "segmentEnd". *)
Inductive recEvent :=
| EvSegment (e : evSegment)
| EvStop (e : evStop)
| EvTxStart (e : evTxStart)
| EvTxResponse (e : evTxResponse)
| EvTxEnd (e : evTxEnd)
| EvTunnel (e : evTunnel)
| EvTLSRejected (e : evTLSRejected)
| EvFailure (e : evFailure).

Record recOp := { op_path : bytes; op_data : bytes; op_close : bool; op_droppable : bool }.

(** ** State *)

(** Guarded by [mu]. *)
Record queueState := { q_ops : list recOp; q_bytes : Z; q_closing : bool }.
(** Touched by the writer goroutine only; [w_disk] is what has reached the files. *)
Record writerState := { w_files : gset bytes; w_order : list bytes; w_disk : gmap bytes bytes }.
(** A body sink is shared between its flow and the transaction that lists it. *)
Record bodySink := { s_rel : bytes; s_max : Z; s_stored : Z; s_total : Z; s_truncated : bool }.
Record pendingTx := { pt_req : option nat; pt_res : option nat; pt_ws : bool }.
(** Guarded by [txMu]; [x_sinks] is the store of the sinks. *)
Record txState := {
  x_pending : gmap bytes pendingTx;
  x_swept : gset bytes;
  x_sinks : gmap nat bodySink;
  x_next : nat
}.
Record recorder := mkRec {
  rc_nonce : bytes;
  rc_maxBody : Z;
  rc_maxSession : Z;
  rc_active : bool;
  rc_halted : bool;
  rc_stopReason : bytes;
  rc_written : Z;
  rc_dropped : Z;
  rc_txSeq : Z;
  rc_connSeq : Z;
  rc_q : queueState;
  rc_w : writerState;
  rc_tx : txState
}.

Definition with_q (r : recorder) (q : queueState) : recorder :=
  mkRec (rc_nonce r) (rc_maxBody r) (rc_maxSession r) (rc_active r) (rc_halted r) (rc_stopReason r)
    (rc_written r) (rc_dropped r) (rc_txSeq r) (rc_connSeq r) q (rc_w r) (rc_tx r).
Definition with_w (r : recorder) (w : writerState) : recorder :=
  mkRec (rc_nonce r) (rc_maxBody r) (rc_maxSession r) (rc_active r) (rc_halted r) (rc_stopReason r)
    (rc_written r) (rc_dropped r) (rc_txSeq r) (rc_connSeq r) (rc_q r) w (rc_tx r).
Definition with_tx (r : recorder) (x : txState) : recorder :=
  mkRec (rc_nonce r) (rc_maxBody r) (rc_maxSession r) (rc_active r) (rc_halted r) (rc_stopReason r)
    (rc_written r) (rc_dropped r) (rc_txSeq r) (rc_connSeq r) (rc_q r) (rc_w r) x.
Definition with_counts (r : recorder) (written dropped : Z) : recorder :=
  mkRec (rc_nonce r) (rc_maxBody r) (rc_maxSession r) (rc_active r) (rc_halted r) (rc_stopReason r)
    written dropped (rc_txSeq r) (rc_connSeq r) (rc_q r) (rc_w r) (rc_tx r).
Definition with_flags (r : recorder) (active halted : bool) (reason : bytes) : recorder :=
  mkRec (rc_nonce r) (rc_maxBody r) (rc_maxSession r) active halted reason
    (rc_written r) (rc_dropped r) (rc_txSeq r) (rc_connSeq r) (rc_q r) (rc_w r) (rc_tx r).
Definition with_seq (r : recorder) (tx conn : Z) : recorder :=
  mkRec (rc_nonce r) (rc_maxBody r) (rc_maxSession r) (rc_active r) (rc_halted r) (rc_stopReason r)
    (rc_written r) (rc_dropped r) tx conn (rc_q r) (rc_w r) (rc_tx r).

(** [nextTxID] and [nextConnID] *)
Definition nextTxID (r : recorder) : bytes * recorder :=
  let n := rc_txSeq r + 1 in (rc_nonce r ++ lit "-" ++ Itoa n, with_seq r n (rc_connSeq r)).
Definition nextConnID (r : recorder) : bytes * recorder :=
  let n := rc_connSeq r + 1 in (rc_nonce r ++ lit "-c" ++ Itoa n, with_seq r (rc_txSeq r) n).

(** ** The queue *)

(** [recorder.enqueue]; callers never pass an empty slice that is not [nil]. *)
Definition enqueue (r : recorder) (op : recOp) : recorder :=
  let q := rc_q r in
  if q_closing q || (negb (bool_decide (op_data op = [])) && negb (rc_active r) && negb (bool_decide (op_path op = indexFileName)))
  then r
  else if (recorderMaxQueuedOps <=? len (q_ops q))
          || (op_droppable op && (recorderQueueLimit <? q_bytes q + len (op_data op)))
  then with_counts r (rc_written r) (rc_dropped r + len (op_data op))
  else with_q r {| q_ops := q_ops q ++ [op];
                   q_bytes := if op_droppable op then q_bytes q + len (op_data op) else q_bytes q;
                   q_closing := q_closing q |}.

Definition appendFile (r : recorder) (rel data : bytes) (droppable : bool) : recorder :=
  enqueue r {| op_path := rel; op_data := data; op_close := false; op_droppable := droppable |}.
Definition closeFile (r : recorder) (rel : bytes) : recorder :=
  enqueue r {| op_path := rel; op_data := []; op_close := true; op_droppable := false |}.

Section Recorder.
(** [json.Marshal] of an event, the clock, and whether the file system accepts an
    open or a write in a given state. *)
Context (marshal : recEvent -> option bytes) (nowMs : Z).
Context (open_ok : writerState -> bytes -> bool) (write_ok : writerState -> bytes -> bytes -> bool).

Definition event (r : recorder) (v : recEvent) : recorder :=
  match marshal v with Some b => appendFile r indexFileName (b ++ [10]) false | None => r end.

(** [newRecorder] once the spool directories exist; [onDisk] is what they already hold. *)
Definition newRecorder (sessionID nonce : bytes) (maxBody maxSession onDisk : Z) (transport : bytes) : recorder :=
  event (mkRec nonce maxBody maxSession true false [] onDisk 0 0 0
           {| q_ops := []; q_bytes := 0; q_closing := false |}
           {| w_files := ∅; w_order := []; w_disk := ∅ |}
           {| x_pending := ∅; x_swept := ∅; x_sinks := ∅; x_next := 0 |})
        (EvSegment {| sg_TS := nowMs; sg_Seg := nonce; sg_Session := sessionID; sg_Transport := transport |}).

(** ** The writer *)

(** The eviction loop of [file]: the oldest open file other than the index. *)
Fixpoint evictFile (order : list bytes) (files : gset bytes) : list bytes * gset bytes :=
  match order with
  | [] => ([], files)
  | victim :: order' =>
      if bool_decide (victim ∈ files) && negb (bool_decide (victim = indexFileName))
      then (order', files ∖ {[victim]})
      else evictFile order' files
  end.

(** [recorder.file]: the writer state afterwards and whether the file is open. *)
Definition file (w : writerState) (rel : bytes) : writerState * bool :=
  if bool_decide (rel ∈ w_files w) then (w, true)
  else
    let '(order, files) :=
      if recorderMaxOpenFiles <=? Z.of_nat (size (w_files w)) then evictFile (w_order w) (w_files w)
      else (w_order w, w_files w) in
    let w1 := {| w_files := files; w_order := order; w_disk := w_disk w |} in
    if negb (open_ok w1 rel) then (w1, false)
    else
      let files2 := {[rel]} ∪ files in
      let order2 := order ++ [rel] in
      let order3 := if 4 * recorderMaxOpenFiles <? len order2
                    then filter (fun p => p ∈ files2) order2 else order2 in
      ({| w_files := files2; w_order := order3; w_disk := w_disk w |}, true).

(** [f.Write] on an append-mode file. *)
Definition disk_append (w : writerState) (rel data : bytes) : writerState :=
  {| w_files := w_files w; w_order := w_order w;
     w_disk := <[rel := default [] (w_disk w !! rel) ++ data]> (w_disk w) |}.

Definition autoStop (r : recorder) (reason : bytes) : recorder :=
  if rc_halted r then r
  else
    let r1 := with_flags r false true reason in
    let b := default [] (marshal (EvStop {| st_T := lit "stop"; st_TS := nowMs; st_Reason := reason |})) in
    let '(w, ok) := file (rc_w r1) indexFileName in
    if ok && write_ok w indexFileName (b ++ [10])
    then with_w r1 (disk_append w indexFileName (b ++ [10])) else with_w r1 w.

Definition apply (r : recorder) (op : recOp) : recorder :=
  let w := rc_w r in
  if op_close op then
    if bool_decide (op_path op ∈ w_files w)
    then with_w r {| w_files := w_files w ∖ {[op_path op]}; w_order := w_order w; w_disk := w_disk w |} else r
  else if len (op_data op) =? 0 then r
  else if negb (bool_decide (op_path op = indexFileName)) && rc_halted r then r
  else
    let '(w1, ok) := file w (op_path op) in
    if ok && write_ok w1 (op_path op) (op_data op) then
      let total := rc_written r + len (op_data op) in
      let r1 := with_counts (with_w r (disk_append w1 (op_path op) (op_data op))) total (rc_dropped r) in
      if (0 <? rc_maxSession r1) && (rc_maxSession r1 <? total) then autoStop r1 (lit "sizeLimit") else r1
    else autoStop (with_w r w1) (lit "writeError").

(** One wake-up of [run]: take the queue, write it, and on closing close every file. *)
Definition run_batch (r : recorder) : recorder :=
  let q := rc_q r in
  let r1 := fold_left apply (q_ops q) (with_q r {| q_ops := []; q_bytes := 0; q_closing := q_closing q |}) in
  if q_closing q
  then with_w r1 {| w_files := ∅; w_order := w_order (rc_w r1); w_disk := w_disk (rc_w r1) |}
  else r1.

(** ** Transactions *)

(** [openTx]: the pending entry, created when missing. *)
Definition openTx (x : txState) (txID : bytes) : pendingTx :=
  default {| pt_req := None; pt_res := None; pt_ws := false |} (x_pending x !! txID).

(** [newBodySink]: the sink's identity and the recorder. *)
Definition newBodySink (r : recorder) (txID ext : bytes) : nat * recorder :=
  let x := rc_tx r in
  let s := {| s_rel := lit "bodies/" ++ txID ++ lit "." ++ ext; s_max := rc_maxBody r; s_stored := 0;
              s_total := 0; s_truncated := false |} in
  let t := openTx x txID in
  let t' := if bool_decide (ext = lit "req")
            then {| pt_req := Some (x_next x); pt_res := pt_res t; pt_ws := pt_ws t |}
            else {| pt_req := pt_req t; pt_res := Some (x_next x); pt_ws := pt_ws t |} in
  (x_next x, with_tx r {| x_pending := <[txID := t']> (x_pending x); x_swept := x_swept x;
                          x_sinks := <[x_next x := s]> (x_sinks x); x_next := S (x_next x) |}).

Definition markWebSocket (r : recorder) (txID : bytes) : recorder :=
  let x := rc_tx r in
  let t := openTx x txID in
  with_tx r {| x_pending := <[txID := {| pt_req := pt_req t; pt_res := pt_res t; pt_ws := true |}]> (x_pending x);
               x_swept := x_swept x; x_sinks := x_sinks x; x_next := x_next x |}.

(** [bodySink.Write] on the sink value: the new sink, and the piece handed to
    [appendFile] if any. *)
Definition sink_store (s : bodySink) (p : bytes) : bodySink * option bytes :=
  let total := s_total s + len p in
  let room := s_max s - s_stored s in
  if room <=? 0 then
    ({| s_rel := s_rel s; s_max := s_max s; s_stored := s_stored s; s_total := total;
        s_truncated := s_truncated s || (0 <? len p) |}, None)
  else
    let k := Z.min (len p) room in
    ({| s_rel := s_rel s; s_max := s_max s; s_stored := s_stored s + k; s_total := total;
        s_truncated := s_truncated s || (room <? len p) |}, Some (take (Z.to_nat k) p)).
Definition sink_Write (r : recorder) (sid : nat) (p : bytes) : recorder :=
  match x_sinks (rc_tx r) !! sid with
  | None => r
  | Some s =>
      let '(s', piece) := sink_store s p in
      let r1 := match piece with Some d => appendFile r (s_rel s) d true | None => r end in
      let x := rc_tx r1 in
      with_tx r1 {| x_pending := x_pending x; x_swept := x_swept x; x_sinks := <[sid := s']> (x_sinks x);
                    x_next := x_next x |}
  end.

(** [snapshot]: the file name, if anything was stored, and the total. *)
Definition snapshot (x : txState) (sid : option nat) : bytes * Z :=
  match sid with
  | None => ([], 0)
  | Some i =>
      match x_sinks x !! i with
      | None => ([], 0)
      | Some s => (if 0 <? s_stored s then s_rel s else [], s_total s)
      end
  end.
(** [finish]: as [snapshot], and the file is closed. *)
Definition finish (r : recorder) (sid : option nat) : recorder * (bytes * Z * bool) :=
  match sid with
  | None => (r, ([], 0, false))
  | Some i =>
      match x_sinks (rc_tx r) !! i with
      | None => (r, ([], 0, false))
      | Some s =>
          let r1 := if 0 <? s_stored s then closeFile r (s_rel s) else r in
          (r1, (if 0 <? s_stored s then s_rel s else [], s_total s, s_truncated s))
      end
  end.

(** [endTxOnce] *)
Definition endTxOnce (r : recorder) (txID : bytes) (ev : evTxEnd) : recorder :=
  let x := rc_tx r in
  if bool_decide (txID ∈ x_swept x) then r
  else event (with_tx r {| x_pending := delete txID (x_pending x); x_swept := x_swept x;
                           x_sinks := x_sinks x; x_next := x_next x |}) (EvTxEnd ev).

(** The first half of [endPendingTx], under [txMu]: claim every pending transaction. *)
Definition sweep (r : recorder) : recorder * list (bytes * pendingTx) :=
  let x := rc_tx r in
  (with_tx r {| x_pending := ∅; x_swept := dom (x_pending x) ∪ x_swept x; x_sinks := x_sinks x;
                x_next := x_next x |},
   map_to_list (x_pending x)).
(** The second half, for one claimed transaction. *)
Definition swept_event (r : recorder) (e : bytes * pendingTx) : recEvent :=
  let '(id, t) := e in
  let '(reqFile, reqBytes) := snapshot (rc_tx r) (pt_req t) in
  let '(resFile, resBytes) := snapshot (rc_tx r) (pt_res t) in
  EvTxEnd {| te_ID := id; te_TS := nowMs; te_ReqBytes := reqBytes; te_ResBytes := resBytes;
                      te_ReqBodyFile := reqFile; te_ResBodyFile := resFile; te_ReqTruncated := true;
                      te_ResTruncated := true; te_Error := []; te_WS := pt_ws t;
                      te_Note := lit "recording stopped before this finished" |}.
Definition end_swept (r : recorder) (e : bytes * pendingTx) : recorder := event r (swept_event r e).
Definition endPendingTx (r : recorder) : recorder :=
  let '(r1, todo) := sweep r in fold_left end_swept todo r1.

(** The rest of [close]: the final event, then no more data and no more operations. *)
Definition close_gate (r : recorder) (kind reason : bytes) : recorder :=
  let r1 := if rc_active r then event r (EvStop {| st_T := kind; st_TS := nowMs; st_Reason := reason |}) else r in
  let r2 := with_flags r1 false (rc_halted r1) (rc_stopReason r1) in
  with_q r2 {| q_ops := q_ops (rc_q r2); q_bytes := q_bytes (rc_q r2); q_closing := true |}.
Definition close (r : recorder) (kind reason : bytes) : recorder := close_gate (endPendingTx r) kind reason.

(** [packet]: one TUN packet record. *)
Definition packet (r : recorder) (now dir : Z) (data : bytes) : recorder :=
  appendFile r packetsFileName (be_put 8 now ++ be_put 4 (len data) ++ [dir] ++ data) true.
(** [keylogWriter.Write] *)
Definition keylog_Write (r : recorder) (p : bytes) : recorder := appendFile r keylogFileName p false.

(** ** Everything the flows, the writer and the controller do *)

Inductive rec_call :=
| CEvent (v : recEvent) | CAppend (rel data : bytes) (droppable : bool) | CCloseFile (rel : bytes)
| CNewSink (txID ext : bytes) | CMarkWS (txID : bytes) | CSinkWrite (sid : nat) (p : bytes)
| CFinish (sid : option nat) | CEndTx (txID : bytes) (ev : evTxEnd) | CPacket (now dir : Z) (data : bytes)
| CKeylog (p : bytes) | CRun | CClose (kind reason : bytes).

Definition exec (r : recorder) (c : rec_call) : recorder :=
  match c with
  | CEvent v => event r v
  | CAppend rel data d => appendFile r rel data d
  | CCloseFile rel => closeFile r rel
  | CNewSink tx ext => (newBodySink r tx ext).2
  | CMarkWS tx => markWebSocket r tx
  | CSinkWrite sid p => sink_Write r sid p
  | CFinish sid => (finish r sid).1
  | CEndTx tx ev => endTxOnce r tx ev
  | CPacket now dir data => packet r now dir data
  | CKeylog p => keylog_Write r p
  | CRun => run_batch r
  | CClose kind reason => close r kind reason
  end.

Definition droppable_bytes (ops : list recOp) : Z :=
  foldr Z.add 0 (map (fun op => if op_droppable op then len (op_data op) else 0) ops).

Definition queue_ok (q : queueState) : Prop :=
  len (q_ops q) <= recorderMaxQueuedOps /\ q_bytes q = droppable_bytes (q_ops q) /\
  q_bytes q <= recorderQueueLimit.
Definition writer_ok (w : writerState) : Prop :=
  Z.of_nat (size (w_files w)) <= recorderMaxOpenFiles /\
  forall f, f ∈ w_files w -> f <> indexFileName -> f ∈ w_order w.

Lemma droppable_app a b : droppable_bytes (a ++ b) = droppable_bytes a + droppable_bytes b.
Proof. induction a as [|x a IH]; cbn; [done|]. unfold droppable_bytes in *. cbn. rewrite IH. lia. Qed.

Lemma enqueue_ok r op :
  queue_ok (rc_q r) -> queue_ok (rc_q (enqueue r op)) /\ rc_w (enqueue r op) = rc_w r /\ rc_tx (enqueue r op) = rc_tx r.
Proof.
  intros (H1 & H2 & H3). unfold enqueue. case_match; [done|]. case_match; [done|]. to_prop.
  split; [|done]. unfold queue_ok. cbn [with_q rc_q q_ops q_bytes]. rewrite len_app, droppable_app.
  change (len [op]) with 1. unfold droppable_bytes at 2. cbn [map foldr]. split_and!; [lia| |].
  - destruct (op_droppable op); lia.
  - destruct (op_droppable op) eqn:E; [|done]. destruct_or!; to_prop; congruence || lia.
Qed.

Lemma event_ok r v :
  queue_ok (rc_q r) -> queue_ok (rc_q (event r v)) /\ rc_w (event r v) = rc_w r /\ rc_tx (event r v) = rc_tx r.
Proof. intros H. unfold event. case_match; [by apply enqueue_ok|done]. Qed.

(** *** Open files *)

Lemma evictFile_spec order files f :
  f ∈ files -> f <> indexFileName -> f ∈ order ->
  let '(order', files') := evictFile order files in
  exists v, v ∈ files /\ v <> indexFileName /\ files' = files ∖ {[v]} /\
    forall g, g ∈ files' -> g <> indexFileName -> g ∈ order -> g ∈ order'.
Proof.
  intros Hf Hn. induction order as [|v order IH]; intros Hin; [by apply elem_of_nil in Hin|]. cbn [evictFile].
  destruct (bool_decide (v ∈ files) && negb (bool_decide (v = indexFileName))) eqn:E.
  - to_prop. exists v. split_and!; [done..|]. intros g Hg _ [->|]%elem_of_cons; [set_solver|done].
  - assert (v ∉ files \/ v = indexFileName) as Hv by (apply andb_false_iff in E as [E|E]; to_prop; auto).
    apply elem_of_cons in Hin as [<-|Hin]; [by destruct Hv|].
    specialize (IH Hin). destruct (evictFile order files) as [order' files'].
    destruct IH as (x & Hx1 & Hx2 & -> & Hx4). exists x. split_and!; [done..|].
    intros g Hg Hg2 [->|Hg3]%elem_of_cons; [|by apply Hx4].
    exfalso. destruct Hv; set_solver.
Qed.

Lemma file_ok w rel :
  writer_ok w -> let '(w', ok) := file w rel in
  writer_ok w' /\ w_disk w' = w_disk w /\ (ok = true -> rel ∈ w_files w').
Proof.
  intros [Hs Ho]. unfold file. case_bool_decide as Hrel; [done|].
  set (ev := if recorderMaxOpenFiles <=? _ then _ else _).
  assert (Z.of_nat (size ev.2) < recorderMaxOpenFiles /\ ev.2 ⊆ w_files w /\
          forall g, g ∈ ev.2 -> g <> indexFileName -> g ∈ ev.1) as (He1 & He2 & He3).
  { unfold ev. destruct (Z.leb_spec recorderMaxOpenFiles (Z.of_nat (size (w_files w)))) as [Hge|Hlt].
    - assert (exists f, f ∈ w_files w /\ f <> indexFileName) as (f & Hf1 & Hf2).
      { destruct (decide (exists f, f ∈ w_files w /\ f <> indexFileName)) as [|Hno]; [done|exfalso].
        assert (w_files w ⊆ {[indexFileName]}) as Hsub.
        { intros x Hx. apply elem_of_singleton. apply dec_stable. intros Hne. apply Hno. by exists x. }
        apply subseteq_size in Hsub. rewrite size_singleton in Hsub. unfold recorderMaxOpenFiles in *. lia. }
      pose proof (evictFile_spec (w_order w) (w_files w) f Hf1 Hf2 (Ho f Hf1 Hf2)) as Hev.
      destruct (evictFile (w_order w) (w_files w)) as [order' files'].
      destruct Hev as (v & Hv1 & Hv2 & -> & Hv4). cbn. split_and!; [|set_solver|].
      + rewrite size_difference by set_solver. rewrite size_singleton.
        assert (size (w_files w) <> 0%nat) by (apply size_non_empty_iff; set_solver). lia.
      + intros g Hg Hgn. apply Hv4; [done..|]. apply Ho; [set_solver|done].
    - cbn. split_and!; [lia|done|]. intros g. apply Ho. }
  destruct ev as [order files]. cbn in He1, He2, He3.
  destruct (open_ok _ rel); cbn [negb]; [|split; [split; [cbn; lia|done]|done]].
  split; [split|split; [done|set_solver]].
  - cbn. rewrite size_union by set_solver. rewrite size_singleton. lia.
  - intros f Hf Hn. cbn in *. set (order2 := order ++ [rel]).
    assert (f ∈ order2) as Hin.
    { unfold order2. apply elem_of_app. apply elem_of_union in Hf as [->%elem_of_singleton|Hf]; [right|left; auto].
      by apply list_elem_of_singleton. }
    case_match; [|done]. apply list_elem_of_filter. done.
Qed.

Lemma disk_append_ok w rel data : writer_ok w -> writer_ok (disk_append w rel data).
Proof. done. Qed.

Lemma autoStop_ok r reason :
  writer_ok (rc_w r) -> writer_ok (rc_w (autoStop r reason)) /\ rc_q (autoStop r reason) = rc_q r /\
  forall p, p <> indexFileName -> w_disk (rc_w (autoStop r reason)) !! p = w_disk (rc_w r) !! p.
Proof.
  intros H. unfold autoStop. destruct (rc_halted r); [done|]. generalize (default [] (marshal (EvStop {| st_T := lit "stop"; st_TS := nowMs; st_Reason := reason |}))). intros b.
  cbn [rc_w with_flags]. pose proof (file_ok (rc_w r) indexFileName H) as Hf.
  destruct (file (rc_w r) indexFileName) as [w ok]. destruct Hf as (Hw & Hd & _).
  case_match; cbn; (split; [by try apply disk_append_ok|split; [done|]]); intros p Hp.
  - rewrite lookup_insert_ne by congruence. by rewrite Hd.
  - by rewrite Hd.
Qed.

Lemma apply_ok r op : writer_ok (rc_w r) -> writer_ok (rc_w (apply r op)) /\ rc_q (apply r op) = rc_q r.
Proof.
  intros H. unfold apply. case_match.
  { case_match; [|done]. split; [|done]. destruct H as [Hsz Hord]. split; cbn.
    - assert (size (w_files (rc_w r) ∖ {[op_path op]}) <= size (w_files (rc_w r)))%nat
        by (apply subseteq_size; set_solver). lia.
    - intros f Hf. apply Hord. set_solver. }
  case_match; [done|]. case_match; [done|].
  pose proof (file_ok (rc_w r) (op_path op) H) as Hf. destruct (file (rc_w r) (op_path op)) as [w ok].
  destruct Hf as (Hw & _ & _). case_match.
  - case_match; [|done]. destruct (autoStop_ok (with_counts (with_w r (disk_append w (op_path op) (op_data op)))
      (rc_written r + len (op_data op)) (rc_dropped r)) (lit "sizeLimit")) as (A1 & A2 & _); [done|]. done.
  - destruct (autoStop_ok (with_w r w) (lit "writeError")) as (A1 & A2 & _); [done|]. done.
Qed.

Lemma fold_apply_ok ops : forall r,
  writer_ok (rc_w r) -> writer_ok (rc_w (fold_left apply ops r)) /\ rc_q (fold_left apply ops r) = rc_q r.
Proof.
  induction ops as [|op ops IH]; intros r H; [done|]. cbn. destruct (apply_ok r op H) as [H1 H2].
  destruct (IH (apply r op) H1) as [H3 H4]. split; [done|congruence].
Qed.

Definition rec_ok (r : recorder) : Prop := queue_ok (rc_q r) /\ writer_ok (rc_w r).

Lemma run_batch_ok r : rec_ok r -> rec_ok (run_batch r).
Proof.
  intros [_ Hw]. unfold run_batch.
  destruct (fold_apply_ok (q_ops (rc_q r)) (with_q r {| q_ops := []; q_bytes := 0; q_closing := q_closing (rc_q r) |}) Hw)
    as [H1 H2].
  assert (queue_ok {| q_ops := []; q_bytes := 0; q_closing := q_closing (rc_q r) |}) as Hq by (split_and!; by vm_compute).
  destruct (q_closing (rc_q r)); (split; [cbn; rewrite H2; exact Hq|]); [|done].
  split; [by vm_compute|]. cbn. set_solver.
Qed.

Lemma enqueue_rec_ok r op : rec_ok r -> rec_ok (enqueue r op).
Proof. intros [Hq Hw]. destruct (enqueue_ok r op Hq) as (H1 & H2 & _). split; [done|]. by rewrite H2. Qed.

Lemma event_rec_ok r v : rec_ok r -> rec_ok (event r v).
Proof. intros H. unfold event. case_match; [by apply enqueue_rec_ok|done]. Qed.

Lemma fold_end_swept_ok todo : forall r, rec_ok r -> rec_ok (fold_left end_swept todo r).
Proof.
  induction todo as [|[id t] todo IH]; intros r H; [done|]. cbn [fold_left]. apply IH. by apply event_rec_ok.
Qed.

Lemma close_gate_ok r kind reason : rec_ok r -> rec_ok (close_gate r kind reason).
Proof.
  intros H. unfold close_gate. set (r1 := if rc_active r then _ else _).
  assert (rec_ok r1) as [Hq Hw] by (unfold r1; case_match; [by apply event_rec_ok|done]). done.
Qed.

Lemma exec_ok r c : rec_ok r -> rec_ok (exec r c).
Proof.
  intros H. destruct c; cbn [exec].
  - by apply event_rec_ok.
  - by apply enqueue_rec_ok.
  - by apply enqueue_rec_ok.
  - done.
  - done.
  - unfold sink_Write. destruct (x_sinks _ !! sid) as [s|]; [|done].
    destruct (sink_store s p) as [s' [d|]]; [|done].
    exact (enqueue_rec_ok r {| op_path := s_rel s; op_data := d; op_close := false; op_droppable := true |} H).
  - unfold finish. destruct sid as [i|]; [|done]. destruct (x_sinks _ !! i) as [s|]; [|done]. cbn.
    case_match; [by apply enqueue_rec_ok|done].
  - unfold endTxOnce. case_bool_decide; [done|]. by apply event_rec_ok.
  - by apply enqueue_rec_ok.
  - by apply enqueue_rec_ok.
  - by apply run_batch_ok.
  - unfold close, endPendingTx, sweep. apply close_gate_ok, fold_end_swept_ok. done.
Qed.

Lemma apply_halted r op p :
  rc_halted r = true -> p <> indexFileName -> writer_ok (rc_w r) ->
  rc_halted (apply r op) = true /\ w_disk (rc_w (apply r op)) !! p = w_disk (rc_w r) !! p.
Proof.
  intros Hh Hp Hw. unfold apply. rewrite Hh, andb_true_r. case_match; [by case_match|]. case_match; [done|].
  case_bool_decide as E; cbn [negb]; [|done].
  pose proof (file_ok (rc_w r) (op_path op) Hw) as Hf. destruct (file (rc_w r) (op_path op)) as [w ok].
  destruct Hf as (_ & Hd & _). unfold autoStop. cbn [rc_halted with_w with_counts]. rewrite Hh.
  case_match; [|by cbn; rewrite Hd]. case_match; cbn; (split; [done|]); by rewrite E, lookup_insert_ne, Hd by congruence.
Qed.

Lemma run_halted r p :
  rc_halted r = true -> p <> indexFileName -> writer_ok (rc_w r) ->
  w_disk (rc_w (run_batch r)) !! p = w_disk (rc_w r) !! p.
Proof.
  intros Hh Hp Hw. unfold run_batch. set (r0 := with_q r _).
  assert (forall ops r', rc_halted r' = true -> writer_ok (rc_w r') ->
    w_disk (rc_w (fold_left apply ops r')) !! p = w_disk (rc_w r') !! p) as H.
  { induction ops as [|op ops IH]; intros r' Hh' Hw'; [done|]. cbn.
    destruct (apply_halted r' op p Hh' Hp Hw') as [H1 H2]. destruct (apply_ok r' op Hw') as [H3 _].
    by rewrite IH, H2. }
  specialize (H (q_ops (rc_q r)) r0 Hh Hw). case_match; exact H.
Qed.

(** The recorder is bounded: after any sequence of calls by the flows, the writer
    and the controller, the queue holds at most 8192 operations and 2 MiB of
    droppable data, at most 64 files are open, and once recording has been halted
    the writer adds nothing to any file but the index. *)
Theorem recorder_bounded session nonce maxBody maxSession onDisk transport calls :
  let r := fold_left exec calls (newRecorder session nonce maxBody maxSession onDisk transport) in
  len (q_ops (rc_q r)) <= 8192 /\ droppable_bytes (q_ops (rc_q r)) <= 2 * 2 ^ 20 /\
  (size (w_files (rc_w r)) <= 64)%nat /\
  (rc_halted r = true -> forall p, p <> indexFileName -> w_disk (rc_w (run_batch r)) !! p = w_disk (rc_w r) !! p).
Proof.
  assert (forall r, rec_ok r -> rec_ok (fold_left exec calls r)) as Hstep.
  { induction calls as [|c calls IH]; intros r H; [done|]. cbn [fold_left]. apply IH. by apply exec_ok. }
  intros r. assert (rec_ok r) as [(Q1 & Q2 & Q3) W].
  { apply Hstep. unfold newRecorder. apply event_rec_ok. split; split_and!; try (by vm_compute). }
  split_and!.
  - exact Q1.
  - rewrite <- Q2. exact Q3.
  - destruct W as [W1 _]. unfold recorderMaxOpenFiles in W1. lia.
  - intros Hh p Hp. by apply run_halted.
Qed.

(** ** Body sinks *)

Fixpoint sink_stores (s : bodySink) (ps : list bytes) : bodySink * bytes :=
  match ps with
  | [] => (s, [])
  | p :: ps' =>
      let '(s1, piece) := sink_store s p in
      let '(s2, out) := sink_stores s1 ps' in (s2, default [] piece ++ out)
  end.

(** A body sink hands on exactly the first [max] bytes of the body, in order and
    for every way the body is cut into writes; it counts the whole body, and it is
    marked truncated exactly when the body is longer than the limit. *)
Theorem body_sink_prefix rel max ps :
  0 <= max ->
  let '(s, out) := sink_stores {| s_rel := rel; s_max := max; s_stored := 0; s_total := 0; s_truncated := false |} ps in
  out = take (Z.to_nat max) (concat ps) /\ s_stored s = len out /\ s_total s = len (concat ps) /\
  (s_truncated s = true <-> max < len (concat ps)).
Proof.
  intros Hmax.
  assert (forall s, 0 <= s_stored s <= s_max s ->
    let '(s', out) := sink_stores s ps in
    out = take (Z.to_nat (s_max s - s_stored s)) (concat ps) /\ s_stored s' = s_stored s + len out /\
    s_total s' = s_total s + len (concat ps) /\
    (s_truncated s' = true <-> s_truncated s = true \/ s_max s - s_stored s < len (concat ps))) as H.
  { induction ps as [|p ps IH]; intros s Hs; cbn [sink_stores concat].
    { rewrite take_nil, len_nil, !Z.add_0_r. split_and!; [done..|]. split; [by left|]. intros [|]; [done|lia]. }
    pose proof (len_nonneg p). pose proof (len_nonneg (concat ps)).
    unfold sink_store. destruct (Z.leb_spec (s_max s - s_stored s) 0) as [Hr|Hr].
    - match goal with |- context [sink_stores ?s1 ps] => specialize (IH s1 ltac:(cbn; lia)); destruct (sink_stores s1 ps) as [s2 out] end.
      cbn in IH. destruct IH as (-> & I2 & I3 & I4). cbn [default app].
      replace (Z.to_nat (s_max s - s_stored s)) with 0%nat in * by lia. rewrite take_0 in *.
      rewrite len_app. split_and!; [done|done|lia|]. rewrite I4, orb_true_iff, Z.ltb_lt.
      assert (0 < len p \/ len p = 0) by lia. intuition lia.
    - match goal with |- context [sink_stores ?s1 ps] => specialize (IH s1 ltac:(cbn; lia)); destruct (sink_stores s1 ps) as [s2 out] end.
      cbn in IH. destruct IH as (-> & I2 & I3 & I4). cbn [default].
      unfold id. rewrite !len_app. set (k := Z.min (len p) (s_max s - s_stored s)) in *.
      assert (len (take (Z.to_nat k) p) = k) as Hk by (unfold len in *; rewrite length_take; lia).
      split_and!; [|rewrite Hk; lia|lia|].
      + rewrite firstn_app. f_equal; [|f_equal; unfold len in *; lia].
        destruct (decide (len p <= s_max s - s_stored s)).
        * rewrite !take_ge; [done|unfold len in *; lia..].
        * f_equal. unfold k. lia.
      + rewrite I4, orb_true_iff, Z.ltb_lt. unfold k.
        assert (s_max s - s_stored s < len p \/ len p <= s_max s - s_stored s) by lia. intuition lia. }
  specialize (H {| s_rel := rel; s_max := max; s_stored := 0; s_total := 0; s_truncated := false |}). cbn in H.
  specialize (H ltac:(lia)). destruct (sink_stores _ ps) as [s out]. rewrite Z.sub_0_r, !Z.add_0_l in H.
  destruct H as (H1 & H2 & H3 & H4). split_and!; try done. rewrite H4. naive_solver.
Qed.

(** ** Transactions end once *)

(** The flows and one closer at a time (closing is serialised by [captureMu]).
    [sy_todo] is the closer between claiming the transactions and shutting the
    queue; [sy_ended] the transactions whose flow has called [endTxOnce]; [sy_log]
    the transactions whose end event entered the queue, newest first. *)
Record system := {
  sy_rec : recorder;
  sy_todo : option (list (bytes * pendingTx));
  sy_ended : gset bytes;
  sy_log : list bytes
}.

(** The log after a call that took the recorder from [r] to [r']: the queue has grown
    exactly when the call's end event was accepted. *)
Definition note (r r' : recorder) (id : bytes) (log : list bytes) : list bytes :=
  if len (q_ops (rc_q r)) <? len (q_ops (rc_q r')) then id :: log else log.

(** A flow creates its sinks before it ends its transaction, and ends it once. *)
Inductive sys_step : system -> system -> Prop :=
| step_sink s id ext :
    id ∉ sy_ended s ->
    sys_step s {| sy_rec := (newBodySink (sy_rec s) id ext).2; sy_todo := sy_todo s;
                  sy_ended := sy_ended s; sy_log := sy_log s |}
| step_ws s id :
    id ∉ sy_ended s ->
    sys_step s {| sy_rec := markWebSocket (sy_rec s) id; sy_todo := sy_todo s;
                  sy_ended := sy_ended s; sy_log := sy_log s |}
| step_other s r' :
    rc_tx r' = rc_tx (sy_rec s) -> (q_closing (rc_q (sy_rec s)) = true -> q_closing (rc_q r') = true) ->
    sys_step s {| sy_rec := r'; sy_todo := sy_todo s; sy_ended := sy_ended s; sy_log := sy_log s |}
| step_end s id ev :
    id ∉ sy_ended s -> te_ID ev = id ->
    sys_step s {| sy_rec := endTxOnce (sy_rec s) id ev; sy_todo := sy_todo s;
                  sy_ended := {[id]} ∪ sy_ended s;
                  sy_log := note (sy_rec s) (endTxOnce (sy_rec s) id ev) id (sy_log s) |}
| step_sweep s :
    sy_todo s = None ->
    sys_step s {| sy_rec := (sweep (sy_rec s)).1; sy_todo := Some (sweep (sy_rec s)).2;
                  sy_ended := sy_ended s; sy_log := sy_log s |}
| step_emit s id t todo :
    sy_todo s = Some ((id, t) :: todo) ->
    sys_step s {| sy_rec := end_swept (sy_rec s) (id, t); sy_todo := Some todo;
                  sy_ended := sy_ended s; sy_log := note (sy_rec s) (end_swept (sy_rec s) (id, t)) id (sy_log s) |}
| step_shut s kind reason :
    sy_todo s = Some [] ->
    sys_step s {| sy_rec := close_gate (sy_rec s) kind reason; sy_todo := None;
                  sy_ended := sy_ended s; sy_log := sy_log s |}.

Definition todo_ids (s : system) : list bytes := map fst (default [] (sy_todo s)).

(** Before the queue is shut. *)
Record open_inv (s : system) : Prop := {
  oi_nodup : NoDup (todo_ids s ++ sy_log s);
  oi_swept : forall id, id ∈ todo_ids s -> id ∈ x_swept (rc_tx (sy_rec s));
  oi_log : forall id, id ∈ sy_log s -> id ∈ sy_ended s \/ id ∈ x_swept (rc_tx (sy_rec s));
  oi_idle : sy_todo s = None -> x_swept (rc_tx (sy_rec s)) = ∅ /\
            forall id, is_Some (x_pending (rc_tx (sy_rec s)) !! id) -> id ∉ sy_ended s
}.
Definition sys_inv (s : system) : Prop :=
  NoDup (sy_log s) /\ (q_closing (rc_q (sy_rec s)) = true \/ open_inv s).

Lemma note_same r r' id log : rc_q r' = rc_q r -> note r r' id log = log.
Proof. intros H. unfold note. rewrite H. by rewrite Z.ltb_irrefl. Qed.

Lemma event_closed r v : q_closing (rc_q r) = true -> rc_q (event r v) = rc_q r.
Proof. intros H. unfold event. destruct (marshal v); [|done]. unfold appendFile, enqueue. by rewrite H. Qed.

Lemma note_in r r' id log x : x ∈ note r r' id log -> x = id \/ x ∈ log.
Proof. unfold note. case_match; [|by right]. intros [|]%elem_of_cons; auto. Qed.

Lemma enqueue_closing r op : q_closing (rc_q (enqueue r op)) = q_closing (rc_q r).
Proof. unfold enqueue. by repeat case_match. Qed.

Lemma event_closing r v : q_closing (rc_q (event r v)) = q_closing (rc_q r) /\ rc_tx (event r v) = rc_tx r.
Proof.
  unfold event. destruct (marshal v); [|done]. split; [apply enqueue_closing|].
  unfold appendFile, enqueue. by repeat case_match.
Qed.

Lemma inv_sink s r' id :
  sys_inv s -> id ∉ sy_ended s -> q_closing (rc_q r') = q_closing (rc_q (sy_rec s)) ->
  x_swept (rc_tx r') = x_swept (rc_tx (sy_rec s)) ->
  (forall x, is_Some (x_pending (rc_tx r') !! x) -> x = id \/ is_Some (x_pending (rc_tx (sy_rec s)) !! x)) ->
  sys_inv {| sy_rec := r'; sy_todo := sy_todo s; sy_ended := sy_ended s; sy_log := sy_log s |}.
Proof.
  intros [Hnd Hinv] Hid Hq Hsw Hp. split; [done|]. destruct Hinv as [Hc|[O1 O2 O3 O4]]; [left; cbn; congruence|right].
  split; cbn; [done| |rewrite Hsw; done|].
  - intros x Hx. rewrite Hsw. by apply O2.
  - intros Ht. rewrite Hsw. destruct (O4 Ht) as [E1 E2]. split; [done|].
    intros x Hx. destruct (Hp x Hx) as [->|Hx']; [done|by apply E2].
Qed.

Lemma inv_end s id ev :
  sys_inv s -> id ∉ sy_ended s -> sys_inv
    {| sy_rec := endTxOnce (sy_rec s) id ev; sy_todo := sy_todo s; sy_ended := {[id]} ∪ sy_ended s;
       sy_log := note (sy_rec s) (endTxOnce (sy_rec s) id ev) id (sy_log s) |}.
Proof.
  intros [Hnd Hinv] Hid. unfold endTxOnce. case_bool_decide as Hs.
  - rewrite note_same by done. split; [done|]. destruct Hinv as [Hc|[O1 O2 O3 O4]]; [by left|right]. split; cbn; [done..| |].
    + intros x Hx. destruct (O3 x Hx); [left; set_solver|by right].
    + intros Ht. destruct (O4 Ht) as [E1 _]. rewrite E1 in Hs. set_solver.
  - set (r1 := with_tx _ _). destruct (event_closing r1 (EvTxEnd ev)) as [Eq Etx].
    destruct Hinv as [Hc|[O1 O2 O3 O4]].
    { rewrite note_same by (by rewrite event_closed). split; [done|]. left. cbn. rewrite Eq. done. }
    assert (id ∉ todo_ids s ++ sy_log s) as Hfresh.
    { rewrite not_elem_of_app. split; [intros Hx; by apply Hs, O2|]. intros Hx. destruct (O3 id Hx); done. }
    set (log := note (sy_rec s) (event r1 (EvTxEnd ev)) id (sy_log s)).
    assert (NoDup (todo_ids s ++ log)) as Hnd'.
    { unfold log, note. case_match; [|done]. rewrite <- Permutation_middle. by apply NoDup_cons. }
    split; [by apply NoDup_app in Hnd' as (_ & _ & ?)|right]. split; cbn; rewrite ?Etx; cbn; [done..| |].
    + intros x Hx. apply note_in in Hx as [->|Hx']; [left; set_solver|]. destruct (O3 x Hx'); [left; set_solver|by right].
    + intros Ht. destruct (O4 Ht) as [E1 E2]. split; [done|]. intros x [t' Hx]. apply lookup_delete_Some in Hx as [Hne Hx].
      assert (x ∉ sy_ended s) by (apply E2; by eexists). set_solver.
Qed.

Lemma inv_sweep s :
  sys_inv s -> sy_todo s = None -> sys_inv
    {| sy_rec := (sweep (sy_rec s)).1; sy_todo := Some (sweep (sy_rec s)).2; sy_ended := sy_ended s; sy_log := sy_log s |}.
Proof.
  intros [Hnd Hinv] Ht. split; [done|]. destruct Hinv as [Hc|[O1 O2 O3 O4]]; [by left|right].
  destruct (O4 Ht) as [E1 E2]. unfold todo_ids in *. cbn.
  assert (forall x, x ∈ map fst (map_to_list (x_pending (rc_tx (sy_rec s)))) -> is_Some (x_pending (rc_tx (sy_rec s)) !! x)) as Hin.
  { intros x ([y t'] & -> & Hy)%list_elem_of_fmap. apply elem_of_map_to_list in Hy. by eexists. }
  split; cbn; unfold todo_ids; cbn.
  - apply NoDup_app. split_and!; [apply NoDup_fst_map_to_list| |done].
    intros x Hx Hl. apply Hin, E2 in Hx. destruct (O3 x Hl) as [|Hsw]; [done|]. rewrite E1 in Hsw. set_solver.
  - intros x Hx%Hin. apply elem_of_union_l. by apply elem_of_dom.
  - intros x Hx. destruct (O3 x Hx); [by left|right; set_solver].
  - done.
Qed.

Lemma inv_emit s id t todo :
  sys_inv s -> sy_todo s = Some ((id, t) :: todo) -> sys_inv
    {| sy_rec := end_swept (sy_rec s) (id, t); sy_todo := Some todo; sy_ended := sy_ended s;
       sy_log := note (sy_rec s) (end_swept (sy_rec s) (id, t)) id (sy_log s) |}.
Proof.
  intros [Hnd Hinv] Ht. unfold end_swept.
  destruct (event_closing (sy_rec s) (swept_event (sy_rec s) (id, t))) as [Eq Etx].
  destruct Hinv as [Hc|[O1 O2 O3 O4]].
  { rewrite note_same by (by rewrite event_closed). split; [done|]. left. cbn [sy_rec]. by rewrite Eq. }
  unfold todo_ids in O1, O2. rewrite Ht in O1, O2. cbn in O1, O2.
  set (log := note (sy_rec s) (event (sy_rec s) (swept_event (sy_rec s) (id, t))) id (sy_log s)).
  assert (NoDup (map fst todo ++ log)) as Hnd'.
  { unfold log, note. case_match; [by rewrite <- Permutation_middle|]. by apply NoDup_cons in O1 as [_ ?]. }
  split; [by apply NoDup_app in Hnd' as (_ & _ & ?)|right].
  split; unfold todo_ids; cbn [sy_rec sy_todo sy_ended sy_log default]; rewrite ?Etx; [done| | |done].
  - intros x Hx. apply O2, elem_of_cons. by right.
  - intros x [->|Hx]%note_in; [right; apply O2, elem_of_cons; by left|by apply O3].
Qed.

Lemma sys_inv_step s s' : sys_inv s -> sys_step s s' -> sys_inv s'.
Proof.
  intros H Hst. destruct Hst as [s id ext Hid|s id Hid|s r' Htx Hq|s id ev Hid _|s Ht|s id t todo Ht|s kind reason Ht].
  - apply (inv_sink s _ id); try done. intros x Hx.
    unfold newBodySink, markWebSocket in Hx. cbn [snd with_tx rc_tx x_pending] in Hx.
    apply lookup_insert_is_Some in Hx as [->|[_ Hx]]; [by left|by right].
  - apply (inv_sink s _ id); try done. intros x Hx.
    unfold newBodySink, markWebSocket in Hx. cbn [snd with_tx rc_tx x_pending] in Hx.
    apply lookup_insert_is_Some in Hx as [->|[_ Hx]]; [by left|by right].
  - destruct H as [Hnd [Hc|[O1 O2 O3 O4]]]; (split; [done|]); [left; auto|right]. split; cbn; by rewrite ?Htx.
  - by apply inv_end.
  - by apply inv_sweep.
  - by apply inv_emit.
  - split; [apply H|]. by left.
Qed.

Definition sys_init (r : recorder) : system :=
  {| sy_rec := r; sy_todo := None; sy_ended := ∅; sy_log := [] |}.

(** C7: a transaction ends once: in every interleaving of the flows (creating sinks,
    marking WebSockets, ending their own transactions) with closings of the recorder,
    at most one end event per transaction enters the index queue. *)
Theorem tx_end_once session nonce maxBody maxSession onDisk transport s :
  rtc sys_step (sys_init (newRecorder session nonce maxBody maxSession onDisk transport)) s ->
  NoDup (sy_log s).
Proof.
  set (r := newRecorder _ _ _ _ _ _).
  assert (sys_inv (sys_init r)) as H0.
  { assert (rc_tx r = {| x_pending := ∅; x_swept := ∅; x_sinks := ∅; x_next := 0 |}) as E.
    { unfold r, newRecorder. apply event_closing. }
    split; [constructor|right]. split; cbn; rewrite ?E; cbn.
    - constructor.
    - intros x Hx. by apply elem_of_nil in Hx.
    - intros x Hx. by apply elem_of_nil in Hx.
    - intros _. split; [done|]. intros x [? Hx]. by rewrite lookup_empty in Hx. }
  intros Hr. assert (sys_inv s) as [Hnd _]; [|done]. clearbody r.
  induction Hr as [x|x y z Hxy Hyz IH]; [done|]. apply IH. by eapply sys_inv_step.
Qed.
End Recorder.

(** ** Witnesses *)

Definition sample_marshal (v : recEvent) : option bytes := Some (lit "{}").
Definition sample_recorder : recorder :=
  newRecorder sample_marshal 0 (lit "S") (lit "n") 4 100 0 (lit "ssh").
Definition sample_end : evTxEnd := {|
  te_ID := lit "n-1"; te_TS := 0; te_ReqBytes := 0; te_ResBytes := 0; te_ReqBodyFile := []; te_ResBodyFile := [];
  te_ReqTruncated := false; te_ResTruncated := false; te_Error := []; te_WS := false; te_Note := [] |}.

Lemma body_sink_prefix_witness :
  let '(s, out) := sink_stores {| s_rel := lit "bodies/n-1.res"; s_max := 4; s_stored := 0; s_total := 0;
                                  s_truncated := false |} [lit "ab"; lit "cdef"; lit "g"] in
  out = take (Z.to_nat 4) (concat [lit "ab"; lit "cdef"; lit "g"]) /\ s_stored s = len out /\
  s_total s = len (concat [lit "ab"; lit "cdef"; lit "g"]) /\
  (s_truncated s = true <-> 4 < len (concat [lit "ab"; lit "cdef"; lit "g"])).
Proof. apply (body_sink_prefix (lit "bodies/n-1.res") 4 [lit "ab"; lit "cdef"; lit "g"]). lia. Defined.

(** A transaction is swept by a closing; the flow's own end is then ignored. *)
Definition sample_pending : pendingTx := {| pt_req := Some 0%nat; pt_res := None; pt_ws := false |}.
Definition run0 : system := sys_init sample_recorder.
Definition run1 : system :=
  {| sy_rec := (newBodySink (sy_rec run0) (lit "n-1") (lit "req")).2; sy_todo := sy_todo run0;
     sy_ended := sy_ended run0; sy_log := sy_log run0 |}.
Definition run2 : system :=
  {| sy_rec := (sweep (sy_rec run1)).1; sy_todo := Some (sweep (sy_rec run1)).2;
     sy_ended := sy_ended run1; sy_log := sy_log run1 |}.
Definition run3 : system :=
  {| sy_rec := end_swept sample_marshal 0 (sy_rec run2) (lit "n-1", sample_pending); sy_todo := Some [];
     sy_ended := sy_ended run2;
     sy_log := note (sy_rec run2) (end_swept sample_marshal 0 (sy_rec run2) (lit "n-1", sample_pending))
                    (lit "n-1") (sy_log run2) |}.
Definition run4 : system :=
  {| sy_rec := endTxOnce sample_marshal (sy_rec run3) (lit "n-1") sample_end; sy_todo := sy_todo run3;
     sy_ended := {[lit "n-1"]} ∪ sy_ended run3;
     sy_log := note (sy_rec run3) (endTxOnce sample_marshal (sy_rec run3) (lit "n-1") sample_end)
                    (lit "n-1") (sy_log run3) |}.

Lemma tx_end_once_witness : sy_log run4 = [lit "n-1"] /\ NoDup (sy_log run4).
Proof.
  split; [vm_compute; reflexivity|].
  apply (tx_end_once sample_marshal 0 (lit "S") (lit "n") 4 100 0 (lit "ssh")).
  apply rtc_l with run1; [apply (step_sink _ _ run0 (lit "n-1") (lit "req")); apply not_elem_of_empty|].
  apply rtc_l with run2; [apply (step_sweep _ _ run1); reflexivity|].
  apply rtc_l with run3; [apply (step_emit _ _ run2 (lit "n-1") sample_pending []); vm_compute; reflexivity|].
  apply rtc_l with run4; [|apply rtc_refl].
  apply (step_end _ _ run3 (lit "n-1") sample_end); [apply not_elem_of_empty|reflexivity].
Defined.
