(* ===== verification/Flows.v ===== *)
(** * Flows

    The connection plumbing of src/vpntunnel/flows.go: the registry of live TCP
    flows, the connection that can be peeked into and replayed, and the two-way
    relay.  A connection is the bytes its peer still sends, the error that ends
    them, and the bytes written to it. *)

From S2P Require Import Prelude GoStrings NetIP Http1 Http1Body.

(** ** The registry of flows *)

(** [fe_ep] names the endpoint that [Abort] and [cancel] act on. *)
Record flowEntry := { fe_ep : Z; fe_dst : Addr }.
Record flowRegistry := { fr_seq : Z; fr_flows : gmap Z flowEntry }.

Definition newFlowRegistry : flowRegistry := {| fr_seq := 0; fr_flows := ∅ |}.

Definition reg_add (r : flowRegistry) (ep : Z) (dst : Addr) : Z * flowRegistry :=
  let seq := wrap 64 (fr_seq r + 1) in
  (seq, {| fr_seq := seq; fr_flows := <[seq := {| fe_ep := ep; fe_dst := Unmap dst |}]> (fr_flows r) |}).

Definition reg_remove (r : flowRegistry) (id : Z) : flowRegistry :=
  {| fr_seq := fr_seq r; fr_flows := delete id (fr_flows r) |}.

(** [abortMatching] and [abortAll]: the registry and the endpoints reset. *)
Definition abortMatching (r : flowRegistry) (match_ : Addr -> bool) : flowRegistry * list Z :=
  let hit := filter (fun e : Z * flowEntry => match_ (fe_dst e.2) = true) (map_to_list (fr_flows r)) in
  ({| fr_seq := fr_seq r; fr_flows := filter (fun e : Z * flowEntry => match_ (fe_dst e.2) = false) (fr_flows r) |},
   map (fun e => fe_ep e.2) hit).

Definition abortAll (r : flowRegistry) : flowRegistry * list Z :=
  ({| fr_seq := fr_seq r; fr_flows := ∅ |}, map (fun e => fe_ep e.2) (map_to_list (fr_flows r))).

(** ** Peeking *)

Definition maxPeekRecord : Z := Z.shiftl 64 10.

Inductive peek_error := ErrPeekOverflow | ErrRead (e : h1_error).

Record peekConn := mkPeek {
  pk_rest : bytes;
  pk_end : h1_error;
  pk_buf : bytes;
  pk_recording : bool;
  pk_recorded : bytes;
  pk_discard : bool;
  pk_written : bytes
}.

Definition newPeekConn (rest : bytes) (e : h1_error) : peekConn := mkPeek rest e [] false [] false [].

Section Peek.
(** How many bytes the next read of the connection yields. *)
Context (read_size : bytes -> Z).

(** [p.Conn.Read(b)] with room for [n] bytes. *)
Definition conn_Read (p : peekConn) (n : Z) : bytes * option h1_error * bytes :=
  if n <=? 0 then ([], None, pk_rest p)
  else if bool_decide (pk_rest p = []) then ([], Some (pk_end p), [])
  else
    let k := Z.to_nat (piece read_size (pk_rest p) n) in
    (take k (pk_rest p), None, drop k (pk_rest p)).

(** The loop of [peek]. *)
Fixpoint peek_loop (fuel : nat) (p : peekConn) (n : Z) : option (peekConn * bytes * option h1_error) :=
  match fuel with
  | O => None
  | S fuel' =>
      if n <=? len (pk_buf p) then Some (p, take (Z.to_nat n) (pk_buf p), None)
      else
        let '(got, err, rest) := conn_Read p 4096 in
        let p1 := mkPeek rest (pk_end p) (pk_buf p ++ got) (pk_recording p) (pk_recorded p) (pk_discard p) (pk_written p) in
        match err with
        | Some e => Some (p1, pk_buf p1, Some e)
        | None => peek_loop fuel' p1 n
        end
  end.
(** Every turn but the last takes at least one byte from the connection. *)
Definition peek (p : peekConn) (n : Z) : option (peekConn * bytes * option h1_error) :=
  peek_loop (S (length (pk_rest p))) p n.

(** [peekConn.Read] into a buffer of [n] bytes. *)
Definition peek_Read (p : peekConn) (n : Z) : peekConn * bytes * option peek_error :=
  let '(got, err, buf, rest) :=
    if bool_decide (pk_buf p = []) then
      let '(got, err, rest) := conn_Read p n in (got, ErrRead <$> err, [], rest)
    else (take (Z.to_nat n) (pk_buf p), None, drop (Z.to_nat n) (pk_buf p), pk_rest p) in
  let p1 recorded := mkPeek rest (pk_end p) buf (pk_recording p) recorded (pk_discard p) (pk_written p) in
  if pk_recording p && (0 <? len got) then
    if maxPeekRecord <? len (pk_recorded p) + len got then (p1 (pk_recorded p), got, Some ErrPeekOverflow)
    else (p1 (pk_recorded p ++ got), got, err)
  else (p1 (pk_recorded p), got, err).

Definition peek_Write (p : peekConn) (b : bytes) : peekConn :=
  if pk_discard p then p
  else mkPeek (pk_rest p) (pk_end p) (pk_buf p) (pk_recording p) (pk_recorded p) (pk_discard p) (pk_written p ++ b).

Definition startRecording (p : peekConn) : peekConn :=
  mkPeek (pk_rest p) (pk_end p) (pk_buf p) true [] (pk_discard p) (pk_written p).
Definition discardWrites (p : peekConn) : peekConn :=
  mkPeek (pk_rest p) (pk_end p) (pk_buf p) (pk_recording p) (pk_recorded p) true (pk_written p).

(** [replay]: a connection over the same underlying one. *)
Definition replay (p : peekConn) : peekConn :=
  mkPeek (pk_rest p) (pk_end p) (pk_recorded p ++ pk_buf p) false [] false (pk_written p).

(** ** Replaying a failed interception *)

(** What a consumer of the connection would still read. *)
Definition stream (p : peekConn) : bytes := pk_buf p ++ pk_rest p.

(** What the TLS server does with the connection while it is recorded. *)
Inductive peek_call := CallRead (n : Z) | CallPeek (n : Z) | CallWrite (b : bytes) | CallDiscard.
Definition peek_exec (p : peekConn) (c : peek_call) : option peekConn :=
  match c with
  | CallRead n => let '(p1, _, e) := peek_Read p n in
      match e with Some ErrPeekOverflow => None | _ => Some p1 end
  | CallPeek n => '(p1, _, _) ← peek p n; Some p1
  | CallWrite b => Some (peek_Write p b)
  | CallDiscard => Some (discardWrites p)
  end.
Fixpoint peek_run (p : peekConn) (cs : list peek_call) : option peekConn :=
  match cs with [] => Some p | c :: cs' => p1 ← peek_exec p c; peek_run p1 cs' end.

Lemma conn_Read_split p n got err rest : conn_Read p n = (got, err, rest) -> pk_rest p = got ++ rest.
Proof.
  unfold conn_Read. case_match; [by intros [= <- _ <-]|].
  case_bool_decide as Hb; intros [= <- _ <-]; [done|]. by rewrite take_drop.
Qed.

Lemma conn_Read_progress p n got rest :
  0 < n -> conn_Read p n = (got, None, rest) -> (length rest < length (pk_rest p))%nat.
Proof.
  intros Hn. unfold conn_Read. destruct (Z.leb_spec n 0); [lia|]. case_bool_decide as Hb; [done|]. intros [= _ <-]. rewrite length_drop.
  assert (0 < length (pk_rest p))%nat by (destruct (pk_rest p); [done|cbn; lia]). unfold piece. lia.
Qed.

(** [peek] returns, keeps the stream, and hands out its first bytes. *)
Lemma peek_spec p n :
  0 <= n ->
  exists p' b e, peek p n = Some (p', b, e) /\ stream p' = stream p /\ pk_end p' = pk_end p /\
    pk_recorded p' = pk_recorded p /\ pk_recording p' = pk_recording p /\ pk_written p' = pk_written p /\
    (e = None -> b = take (Z.to_nat n) (stream p) /\ len b = n).
Proof.
  intros Hn. unfold peek. assert (length (pk_rest p) < S (length (pk_rest p)))%nat as Hf by lia.
  revert Hf. generalize (S (length (pk_rest p))). intros fuel. revert p.
  induction fuel as [|fuel IH]; intros p Hf; [lia|]. cbn [peek_loop].
  destruct (Z.leb_spec n (len (pk_buf p))) as [Hle|Hgt].
  { eexists _, _, _. split_and!; [done..|]. intros _. unfold stream, len in *.
    rewrite firstn_app, length_take. replace (Z.to_nat n - length (pk_buf p))%nat with 0%nat by lia.
    rewrite take_0, app_nil_r. split; [done|lia]. }
  destruct (conn_Read p 4096) as [[got err] rest] eqn:E.
  pose proof (conn_Read_split _ _ _ _ _ E) as Hs. destruct err as [e|].
  - eexists _, _, _. split; [done|]. unfold stream; cbn. rewrite Hs, <- app_assoc. done.
  - apply conn_Read_progress in E; [|lia]. edestruct IH as (p' & b & e & E' & S1 & S2 & S3 & S4 & S5 & S6).
    2: { eexists _, _, _. split; [exact E'|]. unfold stream in *. cbn in *.
         rewrite Hs, app_assoc. split_and!; done. }
    cbn. lia.
Qed.

Lemma peek_exec_keeps p c p' :
  pk_recording p = true -> peek_exec p c = Some p' ->
  pk_recording p' = true /\ pk_recorded p' ++ stream p' = pk_recorded p ++ stream p /\ pk_end p' = pk_end p /\
  (exists w, pk_written p' = pk_written p ++ w).
Proof.
  intros Hr. destruct c as [n|n|b|]; cbn [peek_exec].
  - unfold peek_Read. rewrite Hr. case_bool_decide as Hb.
    + destruct (conn_Read p n) as [[got err] rest] eqn:E. apply conn_Read_split in E. cbn [andb].
      unfold stream. rewrite Hb, E. destruct (Z.ltb_spec 0 (len got)) as [Hg|Hg].
      * destruct (maxPeekRecord <? _); [done|]. destruct err; intros [= <-]; cbn;
          rewrite <- app_assoc; (split_and!; [done..|]); exists []; by rewrite app_nil_r.
      * assert (got = []) as -> by (destruct got; [done|exfalso; revert Hg; len_lia]).
        destruct err; intros [= <-]; cbn; (split_and!; [done..|]); exists []; by rewrite app_nil_r.
    + cbn [andb]. unfold stream. destruct (0 <? len (take (Z.to_nat n) (pk_buf p))) eqn:Eg.
      * destruct (maxPeekRecord <? _); [done|]. intros [= <-]. cbn. split_and!; [done| |done|exists []; by rewrite app_nil_r].
        rewrite <- app_assoc. f_equal. rewrite app_assoc. by rewrite take_drop.
      * intros [= <-]. cbn. split_and!; [done| |done|exists []; by rewrite app_nil_r].
        apply Z.ltb_ge in Eg as Hg.
        unfold len in Hg. rewrite length_take in Hg. destruct (pk_buf p) as [|x l] eqn:Ebuf; [done|]. cbn in Hg.
        replace (Z.to_nat n) with 0%nat by lia. done.
  - destruct (decide (0 <= n)) as [Hn|Hn].
    + destruct (peek_spec p n Hn) as (p1 & b & e & -> & S1 & S2 & S3 & S4 & S5 & _). cbn. intros [= <-].
      rewrite S1, S2, S3, S4, S5. split_and!; [done..|]. exists []. by rewrite app_nil_r.
    + unfold peek. cbn [peek_loop]. pose proof (len_nonneg (pk_buf p)). destruct (Z.leb_spec n (len (pk_buf p))); [|lia].
      cbn. intros [= <-]. split_and!; [done..|]. exists []. by rewrite app_nil_r.
  - intros [= <-]. unfold peek_Write. destruct (pk_discard p); cbn; (split_and!; [done..|]);
      [exists []; by rewrite app_nil_r|by exists b].
  - intros [= <-]. cbn. split_and!; [done..|]. exists []. by rewrite app_nil_r.
Qed.

(** Once writes are discarded, nothing more reaches the client. *)
Lemma peek_exec_discards p c p' :
  pk_discard p = true -> peek_exec p c = Some p' -> pk_discard p' = true /\ pk_written p' = pk_written p.
Proof.
  intros Hd. destruct c as [n|n|b|]; cbn [peek_exec].
  - destruct (peek_Read p n) as [[p1 got] e] eqn:E. assert (pk_discard p1 = true /\ pk_written p1 = pk_written p) as H.
    { revert E. unfold peek_Read. repeat case_match; intros [= <- <- <-]; done. }
    destruct e as [[]|]; intros [= <-]; done.
  - unfold peek. generalize (S (length (pk_rest p))). intros fuel. revert p Hd.
    induction fuel as [|fuel IH]; intros p Hd; [done|]. cbn [peek_loop]. case_match; [cbn; by intros [= <-]|].
    destruct (conn_Read p 4096) as [[got [e|]] rest]; [cbn; by intros [= <-]|]. intros H1.
    by apply IH in H1.
  - unfold peek_Write. rewrite Hd. by intros [= <-].
  - by intros [= <-].
Qed.

(** A flow whose interception is abandoned is relayed from its first byte: whatever
    the TLS server read, peeked or wrote after [startRecording], and as long as the
    64 KiB record did not overflow, the replayed connection yields exactly the bytes
    the connection held when recording started; and from the moment writes are
    discarded none of the server's output reaches the client. *)
Theorem peek_replay p before after p1 p2 :
  peek_run (startRecording p) before = Some p1 -> peek_run (discardWrites p1) after = Some p2 ->
  stream (replay p2) = stream p /\ pk_end (replay p2) = pk_end p /\ pk_written (replay p2) = pk_written p1.
Proof.
  assert (forall cs q q', pk_recording q = true -> peek_run q cs = Some q' ->
    pk_recording q' = true /\ pk_recorded q' ++ stream q' = pk_recorded q ++ stream q /\ pk_end q' = pk_end q /\
    (pk_discard q = true -> pk_written q' = pk_written q)) as H.
  { induction cs as [|c cs IH]; intros q q' Hr; cbn; [by intros [= <-]|].
    destruct (peek_exec q c) as [q1|] eqn:E; cbn; [|done].
    destruct (peek_exec_keeps q c q1 Hr E) as (K1 & K2 & K3 & _). intros H1.
    destruct (IH q1 q' K1 H1) as (I1 & I2 & I3 & I4). split_and!; [done|congruence|congruence|].
    intros Hd. destruct (peek_exec_discards q c q1 Hd E) as [D1 D2]. rewrite I4; done. }
  intros H1 H2. apply H in H1 as (A1 & A2 & A3 & _); [|done]. apply H in H2 as (B1 & B2 & B3 & B4); [|done].
  cbn in *. split_and!; [|congruence|by apply B4].
  unfold stream at 1. cbn. rewrite <- app_assoc. fold (stream p2). rewrite B2. unfold stream in *. cbn in *. by rewrite A2.
Qed.
End Peek.

(** ** The registry resets exactly the matching flows *)

Lemma abortMatching_spec r m :
  let '(r', hit) := abortMatching r m in
  (forall id e, fr_flows r' !! id = Some e <-> fr_flows r !! id = Some e /\ m (fe_dst e) = false) /\
  (forall ep, ep ∈ hit <-> exists id e, fr_flows r !! id = Some e /\ m (fe_dst e) = true /\ fe_ep e = ep).
Proof.
  unfold abortMatching. split.
  - intros id e. cbn. rewrite map_lookup_filter_Some. done.
  - intros ep. rewrite list_elem_of_fmap. split.
    + intros ([id e] & -> & [Hm Hin]%list_elem_of_filter). apply elem_of_map_to_list in Hin. by exists id, e.
    + intros (id & e & He & Hm & <-). exists (id, e). split; [done|]. apply list_elem_of_filter.
      split; [done|]. by apply elem_of_map_to_list.
Qed.

Lemma peek_replay_witness :
  let p := newPeekConn (lit "hello world") ErrEOF in
  let r q := replay q in
  exists p1 p2, peek_run (fun _ => 4) (startRecording p) [CallPeek 2; CallRead 3; CallWrite (lit "alert")] = Some p1 /\
    peek_run (fun _ => 4) (discardWrites p1) [CallRead 3; CallWrite (lit "x")] = Some p2 /\
    stream (r p2) = lit "hello world" /\ pk_written (r p2) = lit "alert".
Proof.
  eexists _, _. split; [vm_compute; reflexivity|]. split; [vm_compute; reflexivity|].
  pose proof (peek_replay (fun _ => 4) (newPeekConn (lit "hello world") ErrEOF)
    [CallPeek 2; CallRead 3; CallWrite (lit "alert")] [CallRead 3; CallWrite (lit "x")] _ _
    ltac:(vm_compute; reflexivity) ltac:(vm_compute; reflexivity)) as (H1 & _ & H3).
  split; [exact H1|exact H3].
Defined.
