(* ===== verification/ProxyH1.v ===== *)
(** * The HTTP/1 proxy

    src/vpntunnel/proxy_h1.go: one client connection, request after request, with the
    rewrite rules applied, bodies copied or buffered, and every transaction reported to
    the recorder.  The two connections are their incoming streams and [Conn]
    destinations; what the outside world decides (dialing, the clock, whether a body
    finished in time, where an upgraded stream is cut) are parameters. *)

From S2P Require Import Prelude GoStrings Http1 Http1Body Rewrite Recorder WebSocket.

Definition h1BufferSize : nat := Z.to_nat 4096.
(** In seconds. *)
Definition tcpIdleTimeout : Z := 30.
Definition longLivedIdle : Z := 10 * 60.

Record connMeta := mkMeta {
  m_connID : bytes;
  m_scheme : bytes;
  m_client : bytes;
  m_server : bytes;
  m_sni : bytes;
  m_tlsVersion : bytes;
  m_alpn : bytes;
  m_connectMs : Z;
  m_tlsMs : Z;
  m_defaultHost : bytes;
  m_served : Z
}.
Definition with_served (m : connMeta) (n : Z) : connMeta :=
  mkMeta (m_connID m) (m_scheme m) (m_client m) (m_server m) (m_sni m) (m_tlsVersion m) (m_alpn m)
    (m_connectMs m) (m_tlsMs m) (m_defaultHost m) n.
Definition with_connectMs (m : connMeta) (ms : Z) : connMeta :=
  mkMeta (m_connID m) (m_scheme m) (m_client m) (m_server m) (m_sni m) (m_tlsVersion m) (m_alpn m)
    ms (m_tlsMs m) (m_defaultHost m) (m_served m).

(** ** The recorder, as its clients see it *)

Class RecorderOps (S : Type) := {
  ro_nextTxID : S -> bytes * S;
  ro_nextConnID : S -> bytes * S;
  ro_event : S -> recEvent -> S;
  ro_newBodySink : S -> bytes -> bytes -> nat * S;
  ro_sink_Write : S -> nat -> bytes -> S;
  ro_finish : S -> nat -> S * (bytes * Z * bool);
  ro_endTxOnce : S -> bytes -> evTxEnd -> S;
  ro_markWebSocket : S -> bytes -> S;
  ro_ws_frames : S -> bytes -> list wsFrameEvent -> S
}.

(** What the calls to a recorder say about its transactions. *)
Inductive mark := MStart (id : bytes) | MResponse (id : bytes) | MEnd (id : bytes).
Definition event_marks (v : recEvent) : list mark :=
  match v with
  | EvTxStart e => [MStart (ts_ID e)]
  | EvTxResponse e => [MResponse (tr_ID e)]
  | EvTxEnd e => [MEnd (te_ID e)]
  | _ => []
  end.
Class RecorderLog (S : Type) {RO : RecorderOps S} := {
  rl_log : S -> list mark;
  rl_nextTxID s : rl_log (ro_nextTxID s).2 = rl_log s;
  rl_event s v : rl_log (ro_event s v) = rl_log s ++ event_marks v;
  rl_newBodySink s id ext : rl_log (ro_newBodySink s id ext).2 = rl_log s;
  rl_sink_Write s i p : rl_log (ro_sink_Write s i p) = rl_log s;
  rl_finish s i : rl_log (ro_finish s i).1 = rl_log s;
  rl_endTxOnce s id ev : rl_log (ro_endTxOnce s id ev) = rl_log s ++ [MEnd id]
}.

(** ** Helpers *)

Section Helpers.
Context `{U : UnicodeTables}.

Definition keepAlive (proto : bytes) (hs : hdrList) : bool :=
  let conn := hdr_tokens hs (lit "Connection") in
  if hasToken conn (lit "close") then false
  else if bool_decide (proto = lit "HTTP/1.0") then hasToken conn (lit "keep-alive")
  else true.

Definition buildURL (scheme host target : bytes) : bytes :=
  if HasPrefix target (lit "http://") || HasPrefix target (lit "https://") then target
  else
    let target := if bool_decide (target = lit "*") then [] else target in
    scheme ++ lit "://" ++ ToLower host ++ target.

(** [strings.Trim(s, "[]")] *)
Fixpoint trim_left_brackets (s : bytes) : bytes :=
  match s with c :: s' => if (c =? 91) || (c =? 93) then trim_left_brackets s' else s | [] => [] end.
Definition trim_brackets (s : bytes) : bytes := rev (trim_left_brackets (rev (trim_left_brackets s))).

(** [hostOnly] *)
Definition hostOnly (authority : bytes) : bytes :=
  match SplitHostPort authority with
  | Some (h, _) => ToLower h
  | None => ToLower (trim_brackets authority)
  end.

Definition ifFirst (first : bool) (v : Z) : Z := if first then v else 0.

Definition writeProxyError (status : Z) (msg : bytes) : bytes :=
  let body := lit "rootshell capture: " ++ msg ++ [LF] in
  lit "HTTP/1.1 " ++ Itoa status ++ lit " Bad Gateway" ++ crlf ++
  lit "Content-Type: text/plain; charset=utf-8" ++ crlf ++
  lit "Content-Length: " ++ Itoa (len body) ++ crlf ++ lit "Connection: close" ++ crlf ++ crlf ++ body.
End Helpers.

(** ** One exchange *)

Section Proxy.
Context `{U : UnicodeTables} {R : Regexp} {Dz : Decompress} {D : Type} `{C : Conn D} {S : Type} `{RO : RecorderOps S}.
(** How reads are cut, the clock, and the text of an error. *)
Context (read_size : bytes -> Z) (nowMs : Z) (error_text : h1_error -> bytes).
(** For the request of each number: whether a recorder is in force, the rewrite rules in
    force, and whether a rewrite buffer is free for a message of the given phase. *)
Context (fc_rec : Z -> bool) (liveRewrites : Z -> list compiledRewrite) (acquire : Z -> bytes -> bool).
(** [fc.dial]: an error text, or a connection, what it sends, and the time it took. *)
Context (dial : result bytes (D * breader * Z)).
(** Whether the request body is finished within [requestBodyWindow] of the response, and
    how much of each direction an upgraded connection carries before it is torn down. *)
Context (body_in_time : Z -> bool) (cut : Z -> nat * nat).
(** The time stamps of recorded WebSocket frames. *)
Context (wsClock : nat -> Z).

Record h1State := mkH1 {
  h_client : D;
  h_cr : breader;
  h_up : option (D * breader);
  h_rec : S;
  h_meta : connMeta;
  h_idle : Z
}.

(** A nil recorder ignores every call. *)
Definition when (on : bool) (f : S -> S) (s : S) : S := if on then f s else s.
Definition newTxID (on : bool) (s : S) : bytes * S := if on then ro_nextTxID s else ([], s).
Definition newSink (on : bool) (s : S) (txID ext : bytes) : option nat * S :=
  if on then let '(i, s1) := ro_newBodySink s txID ext in (Some i, s1) else (None, s).
Definition sink_body (sink : option nat) (p : bytes) (s : S) : S :=
  match sink with Some i => ro_sink_Write s i p | None => s end.
Definition finish_sink (s : S) (sink : option nat) : S * (bytes * Z * bool) :=
  match sink with Some i => ro_finish s i | None => (s, ([], 0, false)) end.

Definition endTx (on : bool) (s : S) (txID : bytes) (reqSink resSink : option nat) (errText : bytes) (ws : bool)
    (note : bytes) : S :=
  if on then
    let '(s1, (reqFile, reqBytes, reqCut)) := finish_sink s reqSink in
    let '(s2, (resFile, resBytes, resCut)) := finish_sink s1 resSink in
    ro_endTxOnce s2 txID
      {| te_ID := txID; te_TS := nowMs; te_ReqBytes := reqBytes; te_ResBytes := resBytes; te_ReqBodyFile := reqFile;
         te_ResBodyFile := resFile; te_ReqTruncated := reqCut; te_ResTruncated := resCut; te_Error := errText;
         te_WS := ws; te_Note := note |}
  else s.

Definition plainEnd (txID errText : bytes) (up down : Z) (ws : bool) : evTxEnd :=
  {| te_ID := txID; te_TS := nowMs; te_ReqBytes := up; te_ResBytes := down; te_ReqBodyFile := []; te_ResBodyFile := [];
     te_ReqTruncated := false; te_ResTruncated := false; te_Error := errText; te_WS := ws; te_Note := [] |}.

Definition recordTxFailure (on : bool) (s : S) (txID : bytes) (meta : connMeta) (req : reqHead) (url host : bytes)
    (started : Z) (errText : bytes) : S :=
  if on then
    let s1 := ro_event s (EvTxStart
      {| ts_ID := txID; ts_Conn := m_connID meta; ts_TS := started; ts_Method := rq_method req; ts_URL := url;
         ts_Host := hostOnly host; ts_Scheme := m_scheme meta; ts_Proto := rq_proto req;
         ts_ReqHeaders := hdr_pairs (rq_headers req); ts_ReqHead := []; ts_Client := m_client meta;
         ts_Server := m_server meta; ts_SNI := m_sni meta; ts_TLS := []; ts_ALPN := []; ts_ConnectMs := 0;
         ts_TLSMs := 0; ts_Reused := false; ts_Rewritten := [] |}) in
    ro_endTxOnce s1 txID (plainEnd txID errText 0 0 false)
  else s.

Definition with_headers (req : reqHead) (h : hdrList) : reqHead :=
  {| rq_method := rq_method req; rq_target := rq_target req; rq_proto := rq_proto req; rq_headers := h |}.
Definition res_with_headers (res : resHead) (h : hdrList) : resHead :=
  {| rs_proto := rs_proto res; rs_status := rs_status res; rs_reason := rs_reason res; rs_headers := h |}.

(** What is decided about a request before anything is sent. *)
Record prepared := {
  p_req : reqHead;
  p_host : bytes;
  p_url : bytes;
  p_reqRules : list compiledRewrite;
  p_resRules : list compiledRewrite;
  p_applied : list bytes;
  p_changed : bool;
  p_isWS : bool;
  p_bufferRes : bool
}.

Definition prepareRequest (rw : list compiledRewrite) (meta : connMeta) (req : reqHead) : prepared :=
  let host0 := hdr_get (rq_headers req) (lit "Host") in
  let host := if bool_decide (host0 = []) then m_defaultHost meta else host0 in
  let url := buildURL (m_scheme meta) host (rq_target req) in
  let reqRules := matching rw (lit "request") url in
  let resRules := matching rw (lit "response") url in
  let '(h1, ids) := applyHeaderRewrites reqRules (rq_headers req) in
  let changed1 := negb (bool_decide (ids = [])) in
  let isWS := hasToken (hdr_tokens h1 (lit "Upgrade")) (lit "websocket") in
  let strip := isWS && hdr_has h1 (lit "Sec-WebSocket-Extensions") in
  let h2 := if strip then hdr_del h1 (lit "Sec-WebSocket-Extensions") else h1 in
  let bufferRes := hasBodyRule resRules && negb isWS in
  let gzip := bufferRes && negb (EqualFold (hdr_get h2 (lit "Accept-Encoding")) (lit "gzip"))
              && hdr_has h2 (lit "Accept-Encoding") in
  let h3 := if gzip then hdr_set h2 (lit "Accept-Encoding") (lit "gzip") else h2 in
  {| p_req := with_headers req h3; p_host := host; p_url := url; p_reqRules := reqRules; p_resRules := resRules;
     p_applied := ids; p_changed := changed1 || strip || gzip; p_isWS := isWS; p_bufferRes := bufferRes |}.

(** The edits the [headFor] callbacks make for a rewritten body. *)
Definition lengthHeaders (h : hdrList) (newBody : bytes) : hdrList :=
  hdr_set (hdr_del (hdr_del h (lit "Transfer-Encoding")) (lit "Content-Encoding"))
          (lit "Content-Length") (Itoa (len newBody)).
Definition reqHeadFor (req : reqHead) (changed : bool) (raw : bytes) (newBody : slice) : bytes :=
  match newBody with
  | Some b => req_serialize (with_headers req (lengthHeaders (rq_headers req) b))
  | None => if changed then req_serialize req else raw
  end.
Definition resHeadFor (res : resHead) (changed : bool) (raw : bytes) (newBody : slice) : bytes :=
  match newBody with
  | Some b => res_serialize (res_with_headers res (lengthHeaders (rs_headers res) b))
  | None => if changed then res_serialize res else raw
  end.

(** Sending the request: the head could not be written, the buffered body failed, or it
    is on its way and [waitBody] will find the given result. *)
Inductive sent :=
| SendFailed (e : h1_error)
| BodyFailed
| Sent (req : reqHead) (changed : bool) (applied : list bytes) (bodyErr : option h1_error).

(** [copyBody] runs in its own goroutine on state nothing else touches until
    [waitBody]; it is run where it is started. *)
Definition sendRequest (k : Z) (p : prepared) (raw : bytes) (kind : framingKind) (n : Z) (sink : option nat)
    (client up : D) (cr : breader) (s : S) : option (D * D * breader * S * sent) :=
  let req := p_req p in
  if hasBodyRule (p_reqRules p) && negb (bool_decide (kind = framingNone)) && acquire k (lit "request") then
    let expect := hasToken (hdr_tokens (rq_headers req) (lit "Expect")) (lit "100-continue") in
    let req1 := if expect then with_headers req (hdr_del (rq_headers req) (lit "Expect")) else req in
    let changed := p_changed p || expect in
    let client1 := if expect then (d_write client (lit "HTTP/1.1 100 Continue" ++ crlf ++ crlf)).1 else client in
    '(res, asked, up1, pay, cr1) ←
      forwardBufferedBody read_size up cr kind n [] (p_reqRules p) (hdr_get (rq_headers req1) (lit "Content-Encoding"))
        (reqHeadFor req1 changed raw);
    let s1 := sink_body sink pay s in
    match res with
    | Err e => Some (client1, up1, cr1, s1, BodyFailed)
    | Ok ids =>
        let req2 := match asked with
                    | Some (Some b) => with_headers req1 (lengthHeaders (rq_headers req1) b)
                    | _ => req1
                    end in
        Some (client1, up1, cr1, s1, Sent req2 changed (p_applied p ++ ids) None)
    end
  else
    let '(up1, ok) := d_write up (if p_changed p then req_serialize req else raw) in
    if negb ok then Some (client, up1, cr, s, SendFailed ErrWrite)
    else
      '(w, cr1, e) ← copyBody read_size (mkTee up1 []) cr kind n;
      Some (client, te_conn w, cr1, sink_body sink (te_sink w) s, Sent req (p_changed p) (p_applied p) e).

(** The response head, after forwarding interim responses. *)
Inductive gotHead :=
| GotHead (res : resHead) (raw : bytes)
| NoResponse (msg : bytes) (gateway : bool)
| ClientGone.

Fixpoint responseHead (fuel : nat) (client : D) (ur : breader) : option (D * breader * gotHead) :=
  match fuel with
  | O => None
  | Datatypes.S fuel' =>
      '(rh, ur1) ← readHead ur;
      match rh with
      | Err e => Some (client, ur1, NoResponse (lit "upstream: " ++ error_text e) true)
      | Ok raw =>
          match parseResponseHead raw with
          | Err e => Some (client, ur1, NoResponse (error_text e) false)
          | Ok res =>
              if (100 <=? rs_status res) && (rs_status res <? 200) && negb (rs_status res =? 101) then
                let '(client1, ok) := d_write client raw in
                if ok then responseHead fuel' client1 ur1 else Some (client1, ur1, ClientGone)
              else Some (client, ur1, GotHead res raw)
          end
      end
  end.

Definition responseEvent (txID : bytes) (res : resHead) (head : bytes) (applied : list bytes) : recEvent :=
  EvTxResponse {| tr_ID := txID; tr_TS := nowMs; tr_Status := rs_status res; tr_Reason := rs_reason res;
                  tr_Proto := rs_proto res; tr_ResHeaders := hdr_pairs (rs_headers res); tr_ResHead := head;
                  tr_Rewritten := applied |}.

(** One direction of [relayConns]: everything up to where the connection is torn down. *)
Definition relayDir (dst : D) (src : breader) (limit : nat) : option (D * bytes * Z) :=
  '(w, _, _) ← copyAll read_size (mkTee dst []) (mkReader (take limit (br_rest src)) (br_size src) (br_end src));
  Some (te_conn w, te_sink w, len (d_out (te_conn w)) - len (d_out dst)).

(** 101 and successful CONNECT: a raw byte stream from here on. *)
Definition serveUpgrade (k : Z) (on : bool) (txID : bytes) (p : prepared) (res : resHead) (changed : bool)
    (applied : list bytes) (raw : bytes) (st : h1State) (up : D) (ur : breader) : option h1State :=
  let head := if changed then res_serialize res else raw in
  let '(client1, ok) := d_write (h_client st) head in
  if negb ok then Some (mkH1 client1 (h_cr st) (Some (up, ur)) (h_rec st) (h_meta st) (h_idle st))
  else
    let s1 := when on (fun s => ro_event s (responseEvent txID res head applied)) (h_rec st) in
    let tap := on && p_isWS p in
    let s2 := when tap (fun s => ro_markWebSocket s txID) s1 in
    '(up1, seenOut, upBytes) ← relayDir up (h_cr st) (cut k).1;
    '(client2, seenIn, downBytes) ← relayDir client1 ur (cut k).2;
    '(outTap, _) ← WebSocket.Write wsClock (newWSTap tap txID (lit "out")) seenOut;
    '(inTap, _) ← WebSocket.Write wsClock (newWSTap tap txID (lit "in")) seenIn;
    let s3 := when tap (fun s => ro_ws_frames (ro_ws_frames s txID (t_log outTap)) txID (t_log inTap)) s2 in
    let s4 := when on (fun s => ro_endTxOnce s txID (plainEnd txID [] upBytes downBytes (p_isWS p))) s3 in
    Some (mkH1 client2 (h_cr st) (Some (up1, ur)) s4 (h_meta st) longLivedIdle).

(** The rest of an ordinary exchange once the response head is there: whether the
    connection is kept for another request. *)
Definition serveResponse (k : Z) (on : bool) (txID : bytes) (p : prepared) (req : reqHead) (res : resHead)
    (changed : bool) (applied : list bytes) (raw : bytes) (reqSink : option nat) (reqErr : option h1_error)
    (st : h1State) (up : D) (ur : breader) : option (bool * h1State) :=
  let idle := if Contains (ToLower (hdr_get (rs_headers res) (lit "Content-Type"))) (lit "text/event-stream")
              then longLivedIdle else h_idle st in
  match responseFraming (rq_method req) res with
  | Err _ => Some (false, mkH1 (h_client st) (h_cr st) (Some (up, ur)) (h_rec st) (h_meta st) idle)
  | Ok (kind, n) =>
      let '(resSink, s0) := newSink on (h_rec st) txID (lit "res") in
      let reqErr := if body_in_time k then reqErr else Some ErrUnexpectedEOF in
      let finishTx client2 ur2 s bodyErr note res' :=
        let errText :=
          match bodyErr, reqErr with
          | Some e, r => if bool_decide (e = ErrEOF)
                         then match r with Some e' => if bool_decide (e' = ErrEOF) then [] else lit "request body: " ++ error_text e' | None => [] end
                         else error_text e
          | None, Some e' => if bool_decide (e' = ErrEOF) then [] else lit "request body: " ++ error_text e'
          | None, None => []
          end in
        let s' := endTx on s txID reqSink resSink errText false note in
        let stop := bool_decide (is_Some bodyErr) || bool_decide (is_Some reqErr) || bool_decide (kind = framingUntilClose)
                    || negb (keepAlive (rq_proto req) (rq_headers req)) || negb (keepAlive (rs_proto res') (rs_headers res')) in
        Some (negb stop, mkH1 client2 (h_cr st) (Some (up, ur2)) s' (h_meta st) idle) in
      if p_bufferRes p && negb (bool_decide (kind = framingNone)) && acquire k (lit "response") then
        '(r, asked, client1, pay, ur1) ←
          forwardBufferedBody read_size (h_client st) ur kind n [] (p_resRules p)
            (hdr_get (rs_headers res) (lit "Content-Encoding")) (resHeadFor res changed raw);
        let res' := match asked with
                    | Some (Some b) => res_with_headers res (lengthHeaders (rs_headers res) b)
                    | _ => res
                    end in
        let sentHead := match asked with Some b => resHeadFor res changed raw b | None => [] end in
        let ids := match r with Ok ids => ids | Err _ => [] end in
        let s1 := sink_body resSink pay s0 in
        let s2 := when on (fun s => ro_event s (responseEvent txID res' sentHead (applied ++ ids))) s1 in
        let bodyErr := match r with Ok _ => None | Err e => Some e end in
        let note := match r with Ok [] => lit "body rewrite did not apply" | _ => [] end in
        finishTx client1 ur1 s2 bodyErr note res'
      else
        let head := if changed then res_serialize res else raw in
        let '(client1, ok) := d_write (h_client st) head in
        if negb ok then Some (false, mkH1 client1 (h_cr st) (Some (up, ur)) s0 (h_meta st) idle)
        else
          let s1 := when on (fun s => ro_event s (responseEvent txID res head applied)) s0 in
          '(w, ur1, e) ← copyBody read_size (mkTee client1 []) ur kind n;
          finishTx (te_conn w) ur1 (sink_body resSink (te_sink w) s1) e [] res
  end.

Definition startEvent (txID : bytes) (meta : connMeta) (p : prepared) (req : reqHead) (sentHead : bytes)
    (reused : bool) (applied : list bytes) : recEvent :=
  EvTxStart
    {| ts_ID := txID; ts_Conn := m_connID meta; ts_TS := nowMs; ts_Method := rq_method req; ts_URL := p_url p;
       ts_Host := hostOnly (p_host p); ts_Scheme := m_scheme meta; ts_Proto := rq_proto req;
       ts_ReqHeaders := hdr_pairs (rq_headers req); ts_ReqHead := sentHead; ts_Client := m_client meta;
       ts_Server := m_server meta; ts_SNI := m_sni meta; ts_TLS := m_tlsVersion meta; ts_ALPN := m_alpn meta;
       ts_ConnectMs := ifFirst (negb reused) (m_connectMs meta); ts_TLSMs := ifFirst (negb reused) (m_tlsMs meta);
       ts_Reused := reused; ts_Rewritten := applied |}.

(** One turn of the loop of [serveHTTP1], after the head has been read and parsed. *)
Definition serveRequest (raw : bytes) (req0 : reqHead) (st : h1State) : option (bool * h1State) :=
  let k := m_served (h_meta st) in
  let on := fc_rec k in
  let '(txID, s0) := newTxID on (h_rec st) in
  let p := prepareRequest (liveRewrites k) (h_meta st) req0 in
  let halt client cr up s meta := Some (false, mkH1 client cr up s meta (h_idle st)) in
  match requestFraming (p_req p) with
  | Err _ => halt (h_client st) (h_cr st) (h_up st) s0 (h_meta st)
  | Ok (kind, n) =>
      let meta1 := with_served (h_meta st) (k + 1) in
      let reused := 1 <? m_served meta1 in
      match (match h_up st with Some c => Ok (c, meta1) | None =>
               match dial with
               | Ok (d, ur, ms) => Ok ((d, ur), with_connectMs meta1 ms)
               | Err e => Err e
               end end) with
      | Err e =>
          halt (d_write (h_client st) (writeProxyError 502 (lit "upstream connect failed: " ++ e))).1 (h_cr st) None
            (recordTxFailure on s0 txID meta1 (p_req p) (p_url p) (p_host p) nowMs e) meta1
      | Ok ((up, ur), meta2) =>
          let '(reqSink, s1) := newSink on s0 txID (lit "req") in
          '(client1, up1, cr1, s2, out) ← sendRequest k p raw kind n reqSink (h_client st) up (h_cr st) s1;
          match out with
          | SendFailed e =>
              halt client1 cr1 (Some (up1, ur))
                (recordTxFailure on s2 txID meta2 (p_req p) (p_url p) (p_host p) nowMs (error_text e)) meta2
          | BodyFailed => halt client1 cr1 (Some (up1, ur)) s2 meta2
          | Sent req changed applied bodyErr =>
              let sentHead := if changed || negb (bool_decide (applied = [])) then req_serialize req else raw in
              let s3 := when on (fun s => ro_event s (startEvent txID meta2 p req sentHead reused applied)) s2 in
              '(client2, ur1, got) ← responseHead (Datatypes.S (length (br_rest ur))) client1 ur;
              match got with
              | NoResponse msg gateway =>
                  let client3 := if gateway
                                 then (d_write client2 (writeProxyError 502 (lit "upstream closed before responding"))).1
                                 else client2 in
                  halt client3 cr1 (Some (up1, ur1)) (endTx on s3 txID reqSink None msg false []) meta2
              | ClientGone => halt client2 cr1 (Some (up1, ur1)) s3 meta2
              | GotHead res0 resRaw =>
                  let '(h, ids) := applyHeaderRewrites (p_resRules p) (rs_headers res0) in
                  let res := res_with_headers res0 h in
                  let resChanged := negb (bool_decide (ids = [])) in
                  let st1 := mkH1 client2 cr1 (Some (up1, ur1)) s3 meta2 (h_idle st) in
                  if (rs_status res =? 101)
                     || (bool_decide (rq_method req = lit "CONNECT") && (200 <=? rs_status res) && (rs_status res <? 300))
                  then st2 ← serveUpgrade k on txID p res resChanged ids resRaw st1 up1 ur1; Some (false, st2)
                  else serveResponse k on txID p req res resChanged ids resRaw reqSink bodyErr st1 up1 ur1
              end
          end
      end
  end.

(** The loop.  Every turn takes at least one byte of the client's stream, so the length
    of the stream bounds the number of turns. *)
Fixpoint serve_loop (fuel : nat) (st : h1State) : option h1State :=
  match fuel with
  | O => None
  | Datatypes.S fuel' =>
      '(rh, cr1) ← readHead (h_cr st);
      let st1 := mkH1 (h_client st) cr1 (h_up st) (h_rec st) (h_meta st) (h_idle st) in
      match rh with
      | Err _ => Some st1
      | Ok raw =>
          match parseRequestHead raw with
          | Err _ => Some st1
          | Ok req =>
              '(again, st2) ← serveRequest raw req st1;
              if (again : bool) then serve_loop fuel' st2 else Some st2
          end
      end
  end.

Definition serveHTTP1 (client : D) (clientStream : bytes) (clientEnd : h1_error) (up : option (D * breader)) (s : S)
    (meta : connMeta) : option h1State :=
  serve_loop (Datatypes.S (length clientStream))
    (mkH1 client (mkReader clientStream h1BufferSize clientEnd) up s meta tcpIdleTimeout).

(** ** Transparency *)

(** [head_read n s raw rest]: on the stream [s], a reader with a buffer of [n] bytes skips some
    blank lines, returns [raw] as the head and leaves [rest]. *)
Definition head_read (n : nat) (s raw rest : bytes) : Prop :=
  (exists blanks, Forall (fun b => blank_line b = true) blanks /\ s = concat blanks ++ raw ++ rest) /\
  exists br br1, br_size br = n /\ br_rest br = s /\ readHead br = Some (Ok raw, br1) /\ br_rest br1 = rest.
Lemma readHead_read br raw br1 : readHead br = Some (Ok raw, br1) -> head_read (br_size br) (br_rest br) raw (br_rest br1) /\ br_size br1 = br_size br.
Proof.
  intros H. pose proof (readHead_consumes _ _ _ H) as (bl & F & Hr & Hs & _). split; [|done]. split; [by exists bl|]. by exists br, br1.
Qed.

(** [answered n s s' y]: of the upstream's stream [s] everything but [s'] was taken, and [y] is
    what the client receives for it: head by head exactly what the reader returned, each with
    the bytes after it, down to the next head; only blank lines skipped before a head are
    missing. *)
Inductive answered (n : nat) : bytes -> bytes -> bytes -> Prop :=
| an_done s : answered n s s []
| an_head s raw c s1 s' y :
    head_read n s raw (c ++ s1) -> is_ok (parseResponseHead raw) = true -> answered n s1 s' y ->
    answered n s s' (raw ++ c ++ y).
Lemma answered_app n s1 s2 s3 y1 y2 : answered n s1 s2 y1 -> answered n s2 s3 y2 -> answered n s1 s3 (y1 ++ y2).
Proof. induction 1 as [|s raw c s1' s' y H1 H2 H3 IH]; intros H; [done|]. rewrite <- !app_assoc. apply an_head with s1'; auto. Qed.

(** The head the upstream may receive for [raw]: the same bytes, or the same request
    without the WebSocket extensions. *)
Definition head_for (raw head : bytes) : Prop :=
  exists req, parseRequestHead raw = Ok req /\
    (head = raw \/
     head = req_serialize (with_headers req (hdr_del (rq_headers req) (lit "Sec-WebSocket-Extensions")))).

(** [forwarded n s s' o]: the same for the client's stream and what the upstream receives. *)
Inductive forwarded (n : nat) : bytes -> bytes -> bytes -> Prop :=
| fw_done s : forwarded n s s []
| fw_request s raw head c s1 s' o :
    head_read n s raw (c ++ s1) -> head_for raw head -> forwarded n s1 s' o -> forwarded n s s' (head ++ c ++ o).

Lemma with_headers_eta req : with_headers req (rq_headers req) = req.
Proof. by destruct req. Qed.
Lemma res_with_headers_eta res : res_with_headers res (rs_headers res) = res.
Proof. by destruct res. Qed.

(** Without rules, a request is only changed by dropping the WebSocket extensions. *)
Lemma prepare_no_rules meta raw req :
  parseRequestHead raw = Ok req ->
  let p := prepareRequest [] meta req in
  p_reqRules p = [] /\ p_resRules p = [] /\ p_applied p = [] /\ p_bufferRes p = false /\
  head_for raw (if p_changed p then req_serialize (p_req p) else raw).
Proof.
  intros Hp. unfold prepareRequest. cbn [matching filter list_filter applyHeaderRewrites hasBodyRule existsb andb].
  change (bool_decide (@nil bytes = [])) with true. cbn [negb orb]. rewrite orb_false_r.
  split_and!; try done. cbn [p_changed p_req]. exists req. split; [done|].
  destruct (hasToken _ _ && hdr_has _ _); [by right|by left].
Qed.

Lemma responseHead_spec fuel : forall client ur client' ur' res raw,
  responseHead fuel client ur = Some (client', ur', GotHead res raw) ->
  exists y s1, d_out client' = d_out client ++ y /\ answered (br_size ur) (br_rest ur) s1 y /\
    head_read (br_size ur) s1 raw (br_rest ur') /\ parseResponseHead raw = Ok res /\ br_size ur' = br_size ur.
Proof.
  induction fuel as [|fuel IH]; intros client ur client' ur' res raw; [done|]. cbn [responseHead].
  destruct (readHead ur) as [[[raw1|e] ur1]|] eqn:Er; cbn; [|done|done].
  apply readHead_read in Er as [Hr Hs].
  destruct (parseResponseHead raw1) as [res1|] eqn:Ep; [|done]. case_match.
  - destruct (d_write client raw1) as [client1 [|]] eqn:Ew; [|done]. apply d_write_ok in Ew.
    intros (y & s1 & A1 & A2 & A3 & A4 & A5)%IH. rewrite Hs in A2, A3, A5. exists (raw1 ++ y), s1.
    split_and!; [by rewrite A1, Ew, <- app_assoc| |done|done|done].
    change (raw1 ++ y) with (raw1 ++ [] ++ y). apply an_head with (br_rest ur1); [done|by rewrite Ep|done].
  - intros [= <- <- <- <-]. exists [], (br_rest ur). rewrite app_nil_r. split_and!; try done. constructor.
Qed.

Lemma copyBody_none (d : D) br kind n w br' :
  copyBody read_size (mkTee d []) br kind n = Some (w, br', None) ->
  exists c, br_rest br = c ++ br_rest br' /\ d_out (te_conn w) = d_out d ++ c /\ br_size br' = br_size br.
Proof.
  intros E. destruct (copyBody_spec (T := tee_writer) read_size (mkTee d []) br kind n I) as (w1 & b1 & e1 & E1 & He).
  rewrite E in E1. injection E1 as <- <- <-. destruct (He eq_refl) as (c & p & (M1 & M2 & _ & M4 & _) & _).
  by exists c.
Qed.

Lemma serveResponse_kept k on txID p req res raw reqSink reqErr st up ur st' :
  p_bufferRes p = false ->
  serveResponse k on txID p req res false [] raw reqSink reqErr st up ur = Some (true, st') ->
  exists c ur', h_up st' = Some (up, ur') /\ h_cr st' = h_cr st /\ reqErr = None /\
    br_rest ur = c ++ br_rest ur' /\ d_out (h_client st') = d_out (h_client st) ++ raw ++ c /\ br_size ur' = br_size ur.
Proof.
  intros Hb. unfold serveResponse. destruct (responseFraming _ res) as [[kind n]|]; [|done].
  destruct (newSink _ _ _ _) as [sink s0]. rewrite Hb. cbn [andb].
  destruct (d_write (h_client st) raw) as [client1 [|]] eqn:Ew; [|done]. cbn [negb]. apply d_write_ok in Ew.
  destruct (copyBody read_size (mkTee client1 []) ur kind n) as [[[w ur1] e]|] eqn:Ec; cbn [mbind option_bind]; [|done].
  intros [= Hstop <-]. apply negb_true_iff in Hstop. repeat (apply orb_false_iff in Hstop as [Hstop ?]).
  to_prop. destruct e as [e|]; [by destruct Hstop; eexists|].
  apply copyBody_none in Ec as (c & C1 & C2 & C3). exists c, ur1. cbn. split_and!; try done.
  - destruct (body_in_time k); [|exfalso; eauto]. destruct reqErr as [e'|]; [exfalso; eauto|done].
  - by rewrite C2, Ew, <- app_assoc.
Qed.

(** The exchange that leaves the connection open for another request. *)
Definition exchange (st st' : h1State) : Prop :=
  exists raw req cr1, readHead (h_cr st) = Some (Ok raw, cr1) /\ parseRequestHead raw = Ok req /\
    serveRequest raw req (mkH1 (h_client st) cr1 (h_up st) (h_rec st) (h_meta st) (h_idle st)) = Some (true, st').

Lemma exchange_transparent st st' up ur :
  (forall k, liveRewrites k = []) -> h_up st = Some (up, ur) -> exchange st st' ->
  exists up' ur' raw head c y,
    h_up st' = Some (up', ur') /\ head_for raw head /\
    head_read (br_size (h_cr st)) (br_rest (h_cr st)) raw (c ++ br_rest (h_cr st')) /\ d_out up' = d_out up ++ head ++ c /\
    answered (br_size ur) (br_rest ur) (br_rest ur') y /\ d_out (h_client st') = d_out (h_client st) ++ y /\
    br_size (h_cr st') = br_size (h_cr st) /\ br_size ur' = br_size ur.
Proof.
  intros Hl Hu (raw & req & cr1 & Hr & Hp & Hs). apply readHead_read in Hr as [Hr Hrs].
  unfold serveRequest in Hs. cbn [h_meta h_up h_cr h_client h_idle h_rec] in Hs. rewrite Hl, Hu in Hs.
  destruct (newTxID _ _) as [txID s0].
  destruct (prepare_no_rules (h_meta st) raw req Hp) as (P1 & P2 & P3 & P4 & P5).
  revert Hs P1 P2 P3 P4 P5. generalize (prepareRequest [] (h_meta st) req). intros p Hs P1 P2 P3 P4 P5.
  destruct (requestFraming (p_req p)) as [[kind n]|]; [|done]. destruct (newSink _ _ _ _) as [sink s1].
  unfold sendRequest in Hs. rewrite P1 in Hs. cbn [hasBodyRule existsb andb] in Hs.
  destruct (d_write up _) as [up1 [|]] eqn:Ew; [|done]. cbn [negb] in Hs. apply d_write_ok in Ew.
  destruct (copyBody read_size (mkTee up1 []) cr1 kind n) as [[[w cr2] e]|] eqn:Ec; cbn [mbind option_bind] in Hs; [|done].
  destruct (responseHead _ _ ur) as [[[client2 ur1] [res rawRes|msg gw|]]|] eqn:Eh; cbn [mbind option_bind] in Hs; try done.
  apply responseHead_spec in Eh as (y & s2 & H1 & H2 & H3 & H4 & H5).
  rewrite P2 in Hs. cbn [applyHeaderRewrites] in Hs. change (bool_decide (@nil bytes = [])) with true in Hs. cbn [negb] in Hs.
  destruct ((rs_status _ =? 101) || _); [by destruct (serveUpgrade _ _ _ _ _ _ _ _ _ _ _)|].
  apply serveResponse_kept in Hs as (c' & ur2 & U1 & U2 & -> & U4 & U5 & U6); [|done].
  apply copyBody_none in Ec as (c & C1 & C2 & C3). cbn [h_client h_cr] in U2, U5.
  exists (te_conn w), ur2, raw, (if p_changed p then req_serialize (p_req p) else raw), c, (y ++ rawRes ++ c').
  split_and!; try done.
  - by rewrite U2, <- C1.
  - by rewrite C2, Ew, <- app_assoc.
  - apply answered_app with s2; [done|]. rewrite <- (app_nil_r c'). apply an_head with (br_rest ur2); [by rewrite <- U4|by rewrite H4|constructor].
  - by rewrite U5, H1, <- app_assoc.
  - by rewrite U2, C3.
  - by rewrite U6, H5.
Qed.

(** C12: with no rewrite rules in force the proxy is transparent: over any number of
    exchanges on a kept-alive connection, the client has received exactly the bytes
    taken from the upstream and the upstream exactly the bytes taken from the client, head by
    head with the bytes that follow it, where the head is what the reader returned; only blank
    lines the reader skipped in front of a head are missing, and a WebSocket request may
    have lost its extensions. *)
Theorem h1_transparent st st' up ur :
  (forall k, liveRewrites k = []) -> h_up st = Some (up, ur) -> rtc exchange st st' ->
  exists up' ur' o y,
    h_up st' = Some (up', ur') /\
    forwarded (br_size (h_cr st)) (br_rest (h_cr st)) (br_rest (h_cr st')) o /\ d_out up' = d_out up ++ o /\
    answered (br_size ur) (br_rest ur) (br_rest ur') y /\ d_out (h_client st') = d_out (h_client st) ++ y.
Proof.
  intros Hl Hu Hr. revert up ur Hu. induction Hr as [st|st st1 st2 He Hr IH]; intros up ur Hu.
  - exists up, ur, [], []. rewrite !app_nil_r. split_and!; (done || constructor).
  - destruct (exchange_transparent st st1 up ur Hl Hu He) as (up1 & ur1 & raw & head & c & y & Hu1 & Hh & A1 & A2 & A3 & A4 & A5 & A6).
    destruct (IH up1 ur1 Hu1) as (up2 & ur2 & o & y' & Hu2 & B1 & B2 & B3 & B4). rewrite A5 in B1. rewrite A6 in B3.
    exists up2, ur2, (head ++ c ++ o), (y ++ y'). split_and!; [done|..].
    + by apply fw_request with raw (br_rest (h_cr st1)).
    + by rewrite B2, A2, <- !app_assoc.
    + by apply answered_app with (br_rest ur1).
    + by rewrite B4, A4, <- app_assoc.
Qed.

(** ** Transactions *)

Context {RL : RecorderLog S}.

Lemma sink_body_log sink p s : rl_log (sink_body sink p s) = rl_log s.
Proof. destruct sink; [apply rl_sink_Write|done]. Qed.
Lemma finish_sink_log s sink : rl_log (finish_sink s sink).1 = rl_log s.
Proof. destruct sink; [apply rl_finish|done]. Qed.
Lemma newSink_log on s id ext sink s1 : newSink on s id ext = (sink, s1) -> rl_log s1 = rl_log s.
Proof.
  unfold newSink. destruct on; [|by intros [= _ <-]]. pose proof (rl_newBodySink s id ext) as H.
  destruct (ro_newBodySink s id ext) as [i s2]. by intros [= _ <-].
Qed.
Lemma endTx_log s id rq rs err ws note : rl_log (endTx true s id rq rs err ws note) = rl_log s ++ [MEnd id].
Proof.
  unfold endTx. pose proof (finish_sink_log s rq) as H1. destruct (finish_sink s rq) as [s1 [[f1 b1] c1]].
  pose proof (finish_sink_log s1 rs) as H2. destruct (finish_sink s1 rs) as [s2 [[f2 b2] c2]].
  rewrite rl_endTxOnce. cbn in *. by rewrite H2, H1.
Qed.

Lemma sendRequest_log k p raw kind n sink client up cr s client1 up1 cr1 s1 out :
  sendRequest k p raw kind n sink client up cr s = Some (client1, up1, cr1, s1, out) -> rl_log s1 = rl_log s.
Proof.
  unfold sendRequest. case_match.
  - match goal with |- context [forwardBufferedBody ?a ?b ?c ?d ?e ?f ?g ?h ?i] =>
      destruct (forwardBufferedBody a b c d e f g h i) as [[[[[res asked] up2] pay] cr2]|] end; cbn; [|done].
    destruct res; intros [= _ _ _ <- _]; apply sink_body_log.
  - destruct (d_write up _) as [up2 [|]]; cbn [negb]; [|by intros [= _ _ _ <- _]].
    destruct (copyBody _ _ _ _ _) as [[[w cr2] e]|]; cbn; [|done]. intros [= _ _ _ <- _]. apply sink_body_log.
Qed.

Lemma serveResponse_log k on txID p req res changed applied raw reqSink reqErr st up ur st' :
  serveResponse k on txID p req res changed applied raw reqSink reqErr st up ur = Some (true, st') ->
  rl_log (h_rec st') = rl_log (h_rec st) ++ (if on then [MResponse txID; MEnd txID] else []) /\
  h_meta st' = h_meta st /\ is_Some (h_up st').
Proof.
  unfold serveResponse. destruct (responseFraming _ res) as [[kind n]|]; [|done].
  destruct (newSink _ _ _ _) as [sink s0] eqn:Es. apply newSink_log in Es.
  assert (forall a b head ids e note pay s, rl_log s = rl_log s0 ->
    rl_log (endTx on (when on (fun s => ro_event s (responseEvent txID a head ids)) (sink_body sink pay s)) txID reqSink b e false note)
      = rl_log (h_rec st) ++ (if on then [MResponse txID; MEnd txID] else []) /\
    rl_log (endTx on (sink_body sink pay (when on (fun s => ro_event s (responseEvent txID a head ids)) s)) txID reqSink b e false note)
      = rl_log (h_rec st) ++ (if on then [MResponse txID; MEnd txID] else [])) as Hend.
  { intros a b head ids e note pay s Hs. destruct on; cbn [when].
    - rewrite !endTx_log, sink_body_log, !rl_event, sink_body_log, Hs, Es. split; by rewrite <- !app_assoc.
    - cbn [endTx]. rewrite sink_body_log, Hs, Es, app_nil_r. done. }
  destruct (p_bufferRes p && _ && _).
  - match goal with |- context [forwardBufferedBody ?a ?b ?c ?d ?e ?f ?g ?h ?i] =>
      destruct (forwardBufferedBody a b c d e f g h i) as [[[[[r asked] client1] pay] ur1]|] end;
      cbn [mbind option_bind]; [|done].
    intros [= _ <-]. cbn [h_rec h_meta h_up]. split_and!; [|done|by eexists]. by apply Hend.
  - destruct (d_write _ _) as [client1 [|]]; cbn [negb]; [|done].
    destruct (copyBody _ _ _ _ _) as [[[w ur1] e]|]; cbn [mbind option_bind]; [|done].
    intros [= _ <-]. cbn [h_rec h_meta h_up]. split_and!; [|done|by eexists]. by apply Hend.
Qed.

Lemma exchange_log st st' :
  exchange st st' -> exists id,
    rl_log (h_rec st') = rl_log (h_rec st)
      ++ (if fc_rec (m_served (h_meta st)) then [MStart id; MResponse id; MEnd id] else []) /\
    m_served (h_meta st') = m_served (h_meta st) + 1.
Proof.
  intros (raw & req & cr1 & _ & _ & Hs). unfold serveRequest in Hs.
  cbn [h_meta h_up h_cr h_client h_idle h_rec] in Hs. set (on := fc_rec _) in *.
  destruct (newTxID on (h_rec st)) as [txID s0] eqn:Ei. exists txID.
  assert (rl_log s0 = rl_log (h_rec st)) as L0.
  { unfold newTxID in Ei. destruct on; [|by injection Ei as _ <-]. pose proof (rl_nextTxID (h_rec st)) as H. by rewrite Ei in H. }
  revert Hs. generalize (prepareRequest (liveRewrites (m_served (h_meta st))) (h_meta st) req). intros p.
  destruct (requestFraming (p_req p)) as [[kind n]|]; [|done].
  match goal with |- context [match ?c with Ok _ => _ | Err _ => _ end] => destruct c as [[[up ur] meta2]|e] eqn:Ed end; [|done].
  assert (m_served meta2 = m_served (h_meta st) + 1) as Hm.
  { revert Ed. destruct (h_up st) as [c|]; [by intros [= _ <-]|]. destruct dial as [[[d ur0] ms]|]; [|done].
    by intros [= _ _ <-]. }
  destruct (newSink on s0 txID _) as [sink s1] eqn:Es. apply newSink_log in Es.
  destruct (sendRequest _ _ _ _ _ _ _ _ _ _) as [[[[[client1 up1] cr2] s2] out]|] eqn:Er; cbn [mbind option_bind]; [|done].
  apply sendRequest_log in Er. destruct out as [e| |rq changed applied bodyErr]; [done..|].
  destruct (responseHead _ _ ur) as [[[client2 ur1] [res rawRes|msg gw|]]|]; cbn [mbind option_bind]; try done.
  destruct (applyHeaderRewrites _ _) as [h ids].
  destruct ((rs_status _ =? 101) || _); [by destruct (serveUpgrade _ _ _ _ _ _ _ _ _ _ _)|].
  intros (L & M & _)%serveResponse_log. cbn [h_rec h_meta] in L, M. split; [|by rewrite M].
  rewrite L. unfold when. destruct on; [|by rewrite Er, Es, L0, !app_nil_r]. rewrite rl_event, Er, Es, L0.
  by rewrite <- app_assoc.
Qed.

(** On a kept-alive connection every exchange is recorded as one transaction, whole
    and in order: its start, its response and its end, under one identity, before the
    next begins; and while recording is on, every exchange is. *)
Theorem h1_transactions st st' :
  rtc exchange st st' -> exists ids,
    rl_log (h_rec st') = rl_log (h_rec st) ++ flat_map (fun id => [MStart id; MResponse id; MEnd id]) ids /\
    ((forall k, fc_rec k = true) -> len ids = m_served (h_meta st') - m_served (h_meta st)).
Proof.
  induction 1 as [st|st st1 st2 He Hr (ids & L & N)].
  - exists []. rewrite app_nil_r. split; [done|]. rewrite len_nil. lia.
  - destruct (exchange_log st st1 He) as (id & L1 & N1). destruct (fc_rec (m_served (h_meta st))) eqn:Ef.
    + exists (id :: ids). cbn [flat_map]. rewrite L, L1, <- app_assoc. split; [done|].
      intros Hall. rewrite len_cons, (N Hall). lia.
    + exists ids. rewrite app_nil_r in L1. rewrite L, L1. split; [done|]. intros Hall. by rewrite Hall in Ef.
Qed.
End Proxy.

(** ** Two recorders *)

(** The recorder of [Recorder.v] behind the interface. *)
Section RealRecorder.
Context (marshal : recEvent -> option bytes) (nowMs : Z) (frame_json : wsFrameEvent -> bytes).

Definition append_frames (r : recorder) (txID : bytes) (fs : list wsFrameEvent) : recorder :=
  fold_left (fun r e => appendFile r (lit "ws/" ++ txID ++ lit ".jsonl") (frame_json e ++ [LF]) true) fs r.

#[export] Instance recorder_ops : RecorderOps recorder := {|
  ro_nextTxID := nextTxID;
  ro_nextConnID := nextConnID;
  ro_event := event marshal;
  ro_newBodySink := newBodySink;
  ro_sink_Write := sink_Write;
  ro_finish r i := finish r (Some i);
  ro_endTxOnce := endTxOnce marshal;
  ro_markWebSocket := markWebSocket;
  ro_ws_frames := append_frames
|}.
End RealRecorder.

(** A recorder that only remembers what it was told. *)
Record txLog := { lg_seq : Z; lg_marks : list mark; lg_sinks : list bytes; lg_frames : list wsFrameEvent }.
#[export] Instance txLog_ops : RecorderOps txLog := {|
  ro_nextTxID s := (Itoa (lg_seq s + 1),
    {| lg_seq := lg_seq s + 1; lg_marks := lg_marks s; lg_sinks := lg_sinks s; lg_frames := lg_frames s |});
  ro_nextConnID s := (lit "c", s);
  ro_event s v := {| lg_seq := lg_seq s; lg_marks := lg_marks s ++ event_marks v; lg_sinks := lg_sinks s; lg_frames := lg_frames s |};
  ro_newBodySink s _ _ := (length (lg_sinks s),
    {| lg_seq := lg_seq s; lg_marks := lg_marks s; lg_sinks := lg_sinks s ++ [[]]; lg_frames := lg_frames s |});
  ro_sink_Write s i p :=
    {| lg_seq := lg_seq s; lg_marks := lg_marks s; lg_sinks := alter (fun b => b ++ p) i (lg_sinks s); lg_frames := lg_frames s |};
  ro_finish s i := (s, ([], len (default [] (lg_sinks s !! i)), false));
  ro_endTxOnce s id _ :=
    {| lg_seq := lg_seq s; lg_marks := lg_marks s ++ [MEnd id]; lg_sinks := lg_sinks s; lg_frames := lg_frames s |};
  ro_markWebSocket s _ := s;
  ro_ws_frames s _ fs :=
    {| lg_seq := lg_seq s; lg_marks := lg_marks s; lg_sinks := lg_sinks s; lg_frames := lg_frames s ++ fs |}
|}.
#[export] Program Instance txLog_log : RecorderLog txLog := {| rl_log := lg_marks |}.
Solve All Obligations with done.

(** ** Witnesses *)

#[local] Instance no_regexp_h1 : Regexp :=
  {| re := unit; re_Compile := fun _ => None; re_MatchString := fun _ _ => false; re_ReplaceAll := fun _ b _ => Some b |}.
#[local] Instance no_decompress_h1 : Decompress :=
  {| gunzip := fun _ _ => None; zlib_header := fun _ => false;
     inflate_zlib := fun _ _ => None; inflate_raw := fun _ _ => None |}.
#[local] Existing Instance caseless_tables.

Definition line (s : string) : bytes := lit s ++ crlf.
Definition sample_meta : connMeta :=
  mkMeta (lit "c1") (lit "http") (lit "10.0.0.2:4000") (lit "192.0.2.1:80") [] [] [] 0 0 (lit "192.0.2.1") 0.
Definition sample_post : bytes :=
  line "POST /a HTTP/1.1" ++ line "Host: example.com" ++ line "Content-Length: 3" ++ crlf ++ lit "abc".
Definition sample_answer : bytes := line "HTTP/1.1 200 OK" ++ line "Content-Length: 2" ++ crlf ++ lit "ok".
Definition empty_log : txLog := {| lg_seq := 0; lg_marks := []; lg_sinks := []; lg_frames := [] |}.
Definition reader (s : bytes) : breader := mkReader s 64 ErrEOF.
Definition no_conn : bytes := [].
Definition before_exchange (answer : bytes) : h1State (D := bytes) (S := txLog) :=
  mkH1 no_conn (reader (sample_post ++ sample_post)) (Some (no_conn, reader answer)) empty_log sample_meta 30.

Definition sample_serve : bytes -> reqHead -> h1State (D := bytes) (S := txLog) -> option (bool * h1State) :=
  serveRequest (fun _ => 2) 0 (fun _ => lit "error") (fun _ => true) (fun _ => []) (fun _ _ => true)
    (Err (lit "unreachable")) (fun _ => true) (fun _ => (O, O)) (fun _ => 0).
Definition sample_exchange : h1State (D := bytes) (S := txLog) -> h1State -> Prop :=
  exchange (fun _ => 2) 0 (fun _ => lit "error") (fun _ => true) (fun _ => []) (fun _ _ => true)
    (Err (lit "unreachable")) (fun _ => true) (fun _ => (O, O)) (fun _ => 0).

(** The state after one exchange. *)
Definition sample_turn (st : h1State (D := bytes) (S := txLog)) : option (bool * h1State) :=
  '(rh, cr1) ← readHead (h_cr st);
  match rh with
  | Ok raw => match parseRequestHead raw with
              | Ok req => sample_serve raw req (mkH1 (h_client st) cr1 (h_up st) (h_rec st) (h_meta st) (h_idle st))
              | Err _ => None
              end
  | Err _ => None
  end.
Definition after_exchange : h1State (D := bytes) (S := txLog) :=
  match sample_turn (before_exchange (sample_answer ++ sample_answer)) with
  | Some (_, st) => st
  | None => before_exchange []
  end.

Lemma h1_transparent_witness :
  exists up' ur' o y,
    h_up after_exchange = Some (up', ur') /\
    forwarded (br_size (h_cr (before_exchange (sample_answer ++ sample_answer)))) (sample_post ++ sample_post) (br_rest (h_cr after_exchange)) o /\ d_out up' = d_out no_conn ++ o /\
    answered (br_size (reader (sample_answer ++ sample_answer))) (sample_answer ++ sample_answer) (br_rest ur') y /\ d_out (h_client after_exchange) = d_out no_conn ++ y.
Proof.
  apply (h1_transparent (fun _ => 2) 0 (fun _ => lit "error") (fun _ => true) (fun _ => []) (fun _ _ => true)
    (Err (lit "unreachable")) (fun _ => true) (fun _ => (O, O)) (fun _ => 0)
    (before_exchange (sample_answer ++ sample_answer)) after_exchange no_conn (reader (sample_answer ++ sample_answer))).
  - reflexivity.
  - reflexivity.
  - apply rtc_once. eexists _, _, _. split; [vm_compute; reflexivity|].
    split; [vm_compute; reflexivity|]. vm_compute. reflexivity.
Defined.

Lemma h1_transactions_witness :
  let st := before_exchange (sample_answer ++ sample_answer) in
  lg_marks (h_rec after_exchange) = [MStart (lit "1"); MResponse (lit "1"); MEnd (lit "1")] /\
  exists ids,
    rl_log (h_rec after_exchange) = rl_log (h_rec st) ++ flat_map (fun id => [MStart id; MResponse id; MEnd id]) ids /\
    ((forall k : Z, (fun _ => true) k = true) ->
     len ids = m_served (h_meta after_exchange) - m_served (h_meta st)).
Proof.
  split; [vm_compute; reflexivity|].
  apply (h1_transactions (fun _ => 2) 0 (fun _ => lit "error") (fun _ => true) (fun _ => []) (fun _ _ => true)
    (Err (lit "unreachable")) (fun _ => true) (fun _ => (O, O)) (fun _ => 0)
    (before_exchange (sample_answer ++ sample_answer)) after_exchange).
  apply rtc_once. eexists _, _, _. split; [vm_compute; reflexivity|].
    split; [vm_compute; reflexivity|]. vm_compute. reflexivity.
Defined.

(** A response whose framing is invalid ends the connection without ending its
    transaction: the recorder is left with a started transaction. *)
Lemma bad_framing_leaves_tx_open :
  (fun r : bool * h1State => (r.1, lg_marks (h_rec r.2))) <$>
    sample_turn (before_exchange (line "HTTP/1.1 200 OK" ++ line "Content-Length: x" ++ crlf)) =
  Some (false, [MStart (lit "1")]).
Proof. vm_compute. reflexivity. Qed.
