(* ===== verification/H1Termination.v ===== *)
(** * The HTTP/1 proxy returns

    Every loop of [serveHTTP1] (src/vpntunnel/proxy_h1.go) consumes one of its two streams:
    whatever the client and the upstream send, the handler of a connection whose
    streams end returns.  The fuel the model gives its loops is therefore never the
    reason for a result. *)

From S2P Require Import Prelude GoStrings Http1 Http1Body Rewrite Recorder WebSocket Flows ProxyH1.

(** ** Readers only move forward *)

Definition behind (br br' : breader) : Prop :=
  br_size br' = br_size br /\ exists c, br_rest br = c ++ br_rest br'.

#[export] Instance behind_preorder : PreOrder behind.
Proof.
  split.
  - intros br. split; [done|by exists []].
  - intros a b c [S1 [x E1]] [S2 [y E2]]. split; [congruence|]. exists (x ++ y). by rewrite E1, E2, <- app_assoc.
Qed.

Lemma behind_length br br' : behind br br' -> (length (br_rest br') <= length (br_rest br))%nat.
Proof. intros [_ [c ->]]. rewrite length_app. lia. Qed.

Lemma ReadSlice_behind br line err br1 : ReadSlice br = (line, err, br1) -> behind br br1.
Proof. intros (E & S & _)%ReadSlice_splits. split; [done|by exists line]. Qed.

Lemma readLine_behind br r br1 : readLine br = (r, br1) -> behind br br1.
Proof.
  unfold readLine. destruct (ReadSlice br) as [[l e] b] eqn:E. apply ReadSlice_behind in E.
  destruct e as [[|]|]; by intros [= _ <-].
Qed.

Lemma advance_behind br k : behind br (advance br k).
Proof. split; [done|]. exists (take k (br_rest br)). cbn. by rewrite take_drop. Qed.

Section Behind.
Context {W : Type} {T : TeeWriter W} (read_size : bytes -> Z).

Lemma copyN_loop_behind fuel : forall w br n w' br' e,
  copyN_loop read_size fuel w br n = Some (w', br', e) -> behind br br'.
Proof.
  induction fuel as [|fuel IH]; intros w br n w' br' e; [done|]. cbn [copyN_loop].
  destruct (n <=? 0); [by intros [= _ <- _]|]. destruct (bool_decide _); [by intros [= _ <- _]|].
  destruct (forward w _) as [w1 []]; [|intros [= _ <- _]; apply advance_behind].
  intros H%IH. etransitivity; [apply advance_behind|exact H].
Qed.

Lemma copyAll_loop_behind fuel : forall w br w' br' e,
  copyAll_loop read_size fuel w br = Some (w', br', e) -> behind br br'.
Proof.
  induction fuel as [|fuel IH]; intros w br w' br' e; [done|]. cbn [copyAll_loop].
  destruct (bool_decide _); [by intros [= _ <- _]|].
  destruct (forward w _) as [w1 []]; [|intros [= _ <- _]; apply advance_behind].
  intros H%IH. etransitivity; [apply advance_behind|exact H].
Qed.

Lemma trailers_behind fuel : forall w br w' br' e, trailers fuel w br = Some (w', br', e) -> behind br br'.
Proof.
  induction fuel as [|fuel IH]; intros w br w' br' e; [done|]. cbn [trailers].
  destruct (readLine br) as [[tl|er] br1] eqn:Er; apply readLine_behind in Er; [|by intros [= _ <- _]].
  destruct (tw_dst w tl) as [w1 []]; cbn [negb]; [|by intros [= _ <- _]].
  destruct (blank_line tl); [by intros [= _ <- _]|]. intros H%IH. by etransitivity.
Qed.

Lemma chunked_loop_behind fuel : forall w br w' br' e, chunked_loop read_size fuel w br = Some (w', br', e) -> behind br br'.
Proof.
  induction fuel as [|fuel IH]; intros w br w' br' e; [done|]. cbn [chunked_loop].
  destruct (readLine br) as [[line|er] br1] eqn:Er; apply readLine_behind in Er; [|by intros [= _ <- _]].
  destruct (chunk_size line); [|by intros [= _ <- _]].
  destruct (tw_dst w line) as [w1 []]; cbn [negb]; [|by intros [= _ <- _]].
  destruct (_ =? 0); [intros H%trailers_behind; by etransitivity|].
  destruct (copyN read_size w1 br1 _) as [[[w2 br2] e2]|] eqn:Ec; [|done].
  apply copyN_loop_behind in Ec. assert (behind br br2) as H2 by (by etransitivity).
  destruct e2; [by intros [= _ <- _]|].
  destruct (readLine br2) as [[l2|er2] br3] eqn:Er2; apply readLine_behind in Er2;
    [|intros [= _ <- _]; by etransitivity].
  destruct (tw_dst w2 l2) as [w3 []]; [|intros [= _ <- _]; by etransitivity].
  intros H%IH. etransitivity; [exact H2|]. by etransitivity.
Qed.

Lemma copyBody_behind w br kind n w' br' e : copyBody read_size w br kind n = Some (w', br', e) -> behind br br'.
Proof.
  destruct kind; cbn [copyBody].
  - by intros [= _ <- _].
  - apply copyN_loop_behind.
  - apply chunked_loop_behind.
  - apply copyAll_loop_behind.
Qed.

Lemma copyBody_total w br kind n : tw_inv w -> is_Some (copyBody read_size w br kind n).
Proof. intros Hw. destruct (copyBody_spec read_size w br kind n Hw) as (w' & br' & e & -> & _). done. Qed.
End Behind.

Lemma readHead_behind br r br1 : readHead br = Some (r, br1) -> behind br br1.
Proof.
  unfold readHead. generalize (S (length (br_rest br))). intros fuel. generalize (@nil Z). revert br.
  induction fuel as [|fuel IH]; intros br buf; [done|]. cbn [readHead_loop].
  destruct (ReadSlice br) as [[line err] b1] eqn:E. apply ReadSlice_behind in E.
  assert (forall buf, readHead_loop fuel b1 buf = Some (r, br1) -> behind br br1) as Hrec
    by (intros b H%IH; by etransitivity).
  destruct err as [[|e]|]; repeat case_match; try (intros [= _ <-]; done); apply Hrec.
Qed.

Lemma readHead_total br : (1 <= br_size br)%nat -> is_Some (readHead br).
Proof. intros Hs. apply readHead_loop_total; [done|lia]. Qed.

Lemma readHead_shrinks br raw br1 :
  readHead br = Some (Ok raw, br1) -> (length (br_rest br1) < length (br_rest br))%nat.
Proof.
  intros (bl & _ & E & _ & Hn)%readHead_consumes. rewrite E, !length_app. destruct raw; [done|]. cbn. lia.
Qed.

(** ** Each stage returns *)

Definition rd_ok (br : breader) : Prop := (1 <= br_size br)%nat /\ wf_bytes (br_rest br).
Lemma behind_ok br br' : behind br br' -> rd_ok br -> rd_ok br'.
Proof. intros [Hs [c Hc]] [H1 H2]. split; [lia|]. rewrite Hc in H2. by apply wf_bytes_app in H2 as [_ ?]. Qed.

Section Stages.
Context `{U : UnicodeTables} {R : Regexp} {Dz : Decompress} {D : Type} `{C : Conn D} {S : Type} `{RO : RecorderOps S}.
Context (read_size : bytes -> Z) (nowMs : Z) (error_text : h1_error -> bytes).
Context (fc_rec : Z -> bool) (liveRewrites : Z -> list compiledRewrite) (acquire : Z -> bytes -> bool).
Context (dial : result bytes (D * breader * Z)) (body_in_time : Z -> bool) (cut : Z -> nat * nat) (wsClock : nat -> Z).

Lemma forwardBufferedBody_total (dst : D) src kind n sink rules encoding headFor :
  exists r asked d s br', forwardBufferedBody read_size dst src kind n sink rules encoding headFor = Some (r, asked, d, s, br') /\
    behind src br'.
Proof.
  unfold forwardBufferedBody. set (T := spill_writer (headFor None) dst sink). set (sp := mkSpill _ _ _ _ _ _ _ _).
  assert (spill_hold (headFor None) dst sink sp) as Hw by (split_and!; cbn; done || (split; by vm_compute)).
  destruct (copyBody_total (T := T) read_size sp src kind n Hw) as [[[sp' br1] e] E]. rewrite E.
  apply copyBody_behind in E. cbn [mbind option_bind].
  destruct e as [e|]; [by eexists _, _, _, _, _|]. destruct (sp_spilled sp'); [by eexists _, _, _, _, _|].
  destruct (d_write (sp_dst sp') (headFor None ++ sp_raw sp')) as [d1 ok1].
  destruct (decodeBody _ _) as [decoded|]; [|destruct ok1; by eexists _, _, _, _, _].
  destruct (applyBodyRewrites _ _) as [out [|i ids]]; [destruct ok1; by eexists _, _, _, _, _|].
  destruct (d_write (sp_dst sp') (headFor out ++ default [] out)) as [d2 []]; by eexists _, _, _, _, _.
Qed.

Lemma copyBody_tee_total (w : tee D) br kind n :
  exists w' br' e, copyBody read_size w br kind n = Some (w', br', e) /\ behind br br'.
Proof.
  destruct (copyBody_total (T := tee_writer) read_size w br kind n I) as [[[w' br'] e] E]. exists w', br', e.
  split; [done|]. by eapply copyBody_behind.
Qed.

Lemma sendRequest_total k p raw kind n sink (client up : D) cr (s : S) :
  exists client1 up1 cr1 s1 out, sendRequest read_size acquire k p raw kind n sink client up cr s =
    Some (client1, up1, cr1, s1, out) /\ behind cr cr1.
Proof.
  unfold sendRequest. destruct (hasBodyRule _ && _ && _).
  - match goal with |- context [forwardBufferedBody _ ?d ?b ?ki ?m ?sk ?ru ?en ?h] =>
      destruct (forwardBufferedBody_total d b ki m sk ru en h) as (r & asked & d1 & pay & br' & E & Hb) end. rewrite E. cbn [mbind option_bind].
    destruct r; by eexists _, _, _, _, _.
  - destruct (d_write up _) as [up1 []]; cbn [negb]; [|by eexists _, _, _, _, _].
    destruct (copyBody_tee_total (mkTee up1 []) cr kind n) as (w & br' & e & E & Hb).
    rewrite E. by eexists _, _, _, _, _.
Qed.

Lemma responseHead_total fuel : forall (client : D) ur,
  (1 <= br_size ur)%nat -> (length (br_rest ur) < fuel)%nat ->
  exists client' ur' got, responseHead error_text fuel client ur = Some (client', ur', got) /\ behind ur ur'.
Proof.
  induction fuel as [|fuel IH]; intros client ur Hs Hf; [lia|]. cbn [responseHead].
  destruct (readHead_total ur Hs) as [[[raw|e] ur1] E]; rewrite E; cbn [mbind option_bind];
    pose proof (readHead_behind _ _ _ E) as Hb; [|by eexists _, _, _].
  destruct (parseResponseHead raw) as [res|]; [|by eexists _, _, _].
  destruct (_ && _ && _); [|by eexists _, _, _].
  destruct (d_write client raw) as [client1 []]; [|by eexists _, _, _].
  destruct (IH client1 ur1) as (c & u & g & E2 & Hb2); [destruct Hb; lia|apply readHead_shrinks in E; lia|].
  exists c, u, g. split; [done|]. by etransitivity.
Qed.

(** What a relay direction has seen are bytes of its source. *)
Lemma copyAll_sink fuel : forall (w : tee D) br w' br' e,
  copyAll_loop read_size fuel w br = Some (w', br', e) -> wf_bytes (br_rest br) -> wf_bytes (te_sink w) -> wf_bytes (te_sink w').
Proof.
  induction fuel as [|fuel IH]; intros w br w' br' e; [done|]. cbn [copyAll_loop].
  destruct (bool_decide _); [by intros [= <- _ _]|]. unfold forward. cbn [tw_sink tw_dst tee_writer].
  set (k := Z.to_nat _). destruct (d_write (te_conn _) _) as [d ok]. cbn [te_sink]. intros H Hr Hw.
  assert (wf_bytes (te_sink w ++ take k (br_rest br))) as Hw1 by (apply wf_bytes_app; auto with go_bytes).
  destruct ok; [|by injection H as <- _ _]. eapply IH; [exact H| |done]. cbn. auto with go_bytes.
Qed.

Lemma relayDir_total (d : D) src limit :
  wf_bytes (br_rest src) -> exists d' seen n, relayDir read_size d src limit = Some (d', seen, n) /\ wf_bytes seen.
Proof.
  intros Hw. unfold relayDir. set (br := mkReader _ _ _).
  destruct (copyAll_loop_spec (T := tee_writer) read_size (Datatypes.S (length (br_rest br))) (mkTee d []) br I ltac:(lia))
    as (w & br' & e & E & _).
  unfold copyAll. rewrite E. eexists _, _, _. split; [done|]. eapply copyAll_sink; [exact E| |constructor]. cbn. auto with go_bytes.
Qed.

Lemma tap_total on txID dir p : wf_bytes p -> is_Some (WebSocket.Write wsClock (newWSTap on txID dir) p).
Proof.
  intros Hp. destruct on; [|done]. rewrite Write_bytes; [done|done| |done].
  split; [constructor|]. right. left. unfold collecting. cbn. repeat split; done || lia.
Qed.

Lemma serveUpgrade_total k on txID p res changed applied raw (st : h1State) up ur :
  wf_bytes (br_rest (h_cr st)) -> wf_bytes (br_rest ur) ->
  is_Some (serveUpgrade (RO := RO) read_size nowMs cut wsClock k on txID p res changed applied raw st up ur).
Proof.
  intros Hc Hu. unfold serveUpgrade. destruct (d_write (h_client st) _) as [client1 []]; cbn [negb]; [|done].
  destruct (relayDir_total up (h_cr st) (cut k).1 Hc) as (up1 & seenOut & nUp & -> & Ho). cbn [mbind option_bind].
  destruct (relayDir_total client1 ur (cut k).2 Hu) as (c2 & seenIn & nDown & -> & Hi). cbn [mbind option_bind].
  destruct (tap_total (on && p_isWS p) txID (lit "out") seenOut Ho) as [[t1 n1] ->].
  destruct (tap_total (on && p_isWS p) txID (lit "in") seenIn Hi) as [[t2 n2] ->]. done.
Qed.

(** A connection whose streams can be read. *)
Definition h1_ok (st : h1State (D := D) (S := S)) : Prop :=
  rd_ok (h_cr st) /\ match h_up st with Some (_, ur) => rd_ok ur | None => True end.

Lemma serveResponse_total k on txID p req res changed applied raw reqSink reqErr (st : h1State) up ur :
  exists again st', serveResponse (RO := RO) read_size nowMs error_text acquire body_in_time k on txID p req res changed applied raw
      reqSink reqErr st up ur = Some (again, st') /\
    h_cr st' = h_cr st /\ exists up' ur', h_up st' = Some (up', ur') /\ behind ur ur'.
Proof.
  unfold serveResponse. destruct (responseFraming _ res) as [[kind n]|]; [|by eexists _, _; split_and!; [done..|]; eexists _, _].
  destruct (newSink on (h_rec st) txID (lit "res")) as [resSink s0].
  destruct (p_bufferRes p && _ && _).
  - match goal with |- context [forwardBufferedBody _ ?d ?b ?ki ?m ?sk ?ru ?en ?h] =>
      destruct (forwardBufferedBody_total d b ki m sk ru en h) as (r & asked & d1 & pay & br' & -> & Hb) end.
    cbn [mbind option_bind]. eexists _, _. split; [reflexivity|]. split; [done|]. by eexists _, _.
  - destruct (d_write (h_client st) _) as [client1 []]; cbn [negb];
      [|by eexists _, _; split_and!; [done..|]; eexists _, _].
    destruct (copyBody_tee_total (mkTee client1 []) ur kind n) as (w & br' & e & -> & Hb).
    cbn [mbind option_bind]. eexists _, _. split; [reflexivity|]. split; [done|]. by eexists _, _.
Qed.

Hypothesis dial_ok : match dial with Ok (_, ur, _) => rd_ok ur | Err _ => True end.

Lemma serveRequest_total raw req (st : h1State) :
  h1_ok st ->
  exists again st', serveRequest (RO := RO) read_size nowMs error_text fc_rec liveRewrites acquire dial body_in_time cut wsClock
      raw req st = Some (again, st') /\ (again = true -> h1_ok st' /\ behind (h_cr st) (h_cr st')).
Proof.
  intros [Hc Hu]. unfold serveRequest. destruct (newTxID _ _) as [txID s0]. set (p := prepareRequest _ _ _).
  destruct (requestFraming (p_req p)) as [[kind n]|]; [|by eexists _, _].
  set (conn := match h_up st with Some c => _ | None => _ end).
  assert (match conn with Ok ((_, ur), _) => rd_ok ur | Err _ => True end) as Hconn.
  { subst conn. destruct (h_up st) as [[u ur]|]; [done|]. by destruct dial as [[[u ur] ms]|]. }
  clearbody conn. destruct conn as [[[up ur] meta2]|e]; [|by eexists _, _].
  destruct (newSink _ s0 txID (lit "req")) as [reqSink s1].
  destruct (sendRequest_total (m_served (h_meta st)) p raw kind n reqSink (h_client st) up (h_cr st) s1)
    as (client1 & up1 & cr1 & s2 & out & -> & Hb). cbn [mbind option_bind].
  destruct out as [e| |req2 changed applied bodyErr]; [by eexists _, _..|].
  destruct (responseHead_total (Datatypes.S (length (br_rest ur))) client1 ur) as (client2 & ur1 & got & -> & Hbu);
    [apply Hconn|lia|]. cbn [mbind option_bind].
  pose proof (behind_ok _ _ Hb Hc) as Hc1. pose proof (behind_ok _ _ Hbu Hconn) as Hu1.
  destruct got as [res0 resRaw|msg gateway|]; [|by eexists _, _..].
  destruct (applyHeaderRewrites _ _) as [h ids]. destruct (_ || _).
  - match goal with |- context [serveUpgrade _ _ _ _ ?k ?on ?tx ?q ?re ?ch ?ap ?rw ?s ?u ?v] =>
      destruct (serveUpgrade_total k on tx q re ch ap rw s u v (proj2 Hc1) (proj2 Hu1)) as [st2 ->] end.
    by eexists _, _.
  - match goal with |- context [serveResponse _ _ _ _ _ ?k ?on ?tx ?q ?rq ?re ?ch ?ap ?rw ?rs ?er ?s ?u ?v] =>
      destruct (serveResponse_total k on tx q rq re ch ap rw rs er s u v) as (again & st' & -> & Hcr & up' & ur' & Eu & Hb') end.
    exists again, st'. split; [done|]. intros _. rewrite Hcr. split; [|done]. unfold h1_ok. rewrite Hcr, Eu.
    split; [done|]. by eapply behind_ok.
Qed.

Lemma serve_loop_total fuel : forall st : h1State,
  h1_ok st -> (length (br_rest (h_cr st)) < fuel)%nat ->
  is_Some (serve_loop (RO := RO) read_size nowMs error_text fc_rec liveRewrites acquire dial body_in_time cut wsClock fuel st).
Proof.
  induction fuel as [|fuel IH]; intros st [Hc Hu] Hf; [lia|]. cbn [serve_loop].
  destruct (readHead_total (h_cr st)) as [[[raw|e] cr1] E]; [apply Hc| |]; rewrite E; cbn [mbind option_bind]; [|done].
  pose proof (readHead_shrinks _ _ _ E) as Hlt. apply readHead_behind in E.
  destruct (parseRequestHead raw) as [req|]; [|done].
  match goal with |- context [serveRequest _ _ _ _ _ _ _ _ _ _ ?rw ?rq ?s] =>
    destruct (serveRequest_total rw rq s) as (again & st2 & -> & Hst2) end.
  { split; [by eapply behind_ok|done]. }
  cbn [mbind option_bind]. destruct again; [|done]. destruct (Hst2 eq_refl) as [Hok Hb].
  apply IH; [done|]. apply behind_length in Hb. cbn in Hb. lia.
Qed.

(** C38: the handler of an HTTP/1 connection returns: whatever the client and the upstream
    send before their streams end, well-formed or not, and whichever rewrite rules,
    recorder, dial result and write failures it meets, [serveHTTP1] ends. *)
Theorem serveHTTP1_returns client clientStream clientEnd up (s : S) meta :
  wf_bytes clientStream -> match up with Some (_, ur) => rd_ok ur | None => True end ->
  is_Some (serveHTTP1 (RO := RO) read_size nowMs error_text fc_rec liveRewrites acquire dial body_in_time cut wsClock
             client clientStream clientEnd up s meta).
Proof.
  intros Hw Hu. apply serve_loop_total; [|cbn; lia]. split; [|done]. split; [|done]. cbn. unfold h1BufferSize. lia.
Qed.
End Stages.

(** ** Witness *)

#[local] Instance no_regexp_ht : Regexp :=
  {| re := unit; re_Compile := fun _ => None; re_MatchString := fun _ _ => false; re_ReplaceAll := fun _ b _ => Some b |}.
#[local] Instance no_decompress_ht : Decompress :=
  {| gunzip := fun _ _ => None; zlib_header := fun _ => false;
     inflate_zlib := fun _ _ => None; inflate_raw := fun _ _ => None |}.
#[local] Existing Instance caseless_tables.

Lemma serveHTTP1_returns_witness :
  is_Some (serveHTTP1 (D := bytes) (S := txLog) (fun _ => 2) 0 (fun _ => lit "error") (fun _ => true) (fun _ => [])
    (fun _ _ => true) (Err (lit "unreachable")) (fun _ => true) (fun _ => (O, O)) (fun _ => 0)
    no_conn (sample_post ++ sample_post) ErrEOF (Some (no_conn, reader (ProxyH1.sample_answer ++ [72; 84]))) empty_log sample_meta).
Proof.
  apply serveHTTP1_returns.
  - exact I.
  - apply (bool_decide_eq_true_1 (wf_bytes (sample_post ++ sample_post))). vm_compute. reflexivity.
  - split; [cbn; lia|]. apply (bool_decide_eq_true_1 (wf_bytes (ProxyH1.sample_answer ++ [72; 84]))). vm_compute. reflexivity.
Defined.
