(* ===== verification/Capture.v ===== *)
(** * The capture controller

    src/vpntunnel/capture.go: the configuration in force, the recorder it owns and the
    tunnel-scoped state, changed by configuring, stopping and starting tunnels.
    Configuring loads the tunnel's state before it takes [captureMu], so it is two steps
    here; what runs under [captureMu] is one, seen when the mutex is free.  Recorders and
    semaphores are shared objects and live in a store, named by identity. *)

From S2P Require Import Prelude GoStrings NetIP HostMatch Http1 Rewrite Recorder Flows DNSCache.

Definition defaultMaxBodyBytes : Z := Z.shiftl 10 20.
Definition defaultMaxSessionBytes : Z := Z.shiftl 500 20.
Definition pinnedEmptyThreshold : Z := 2.
(** In nanoseconds. *)
Definition pinnedEmptyWindow : Z := 60 * 10 ^ 9.
Definition tsshHeapLimitBytes : Z := 34 * 1024 * 1024.
Definition tsshGCPercent : Z := 90.
Definition sshHeapLimitBytes : Z := -1.
Definition sshGCPercent : Z := 100.

Record captureConfig := mkConfig {
  cc_Enabled : bool;
  cc_SessionID : bytes;
  cc_SegmentNonce : bytes;
  cc_SpoolDir : bytes;
  cc_MITMHosts : list bytes;
  cc_CACertPEM : bytes;
  cc_CAKeyPEM : bytes;
  cc_CAProfileB64 : bytes;
  cc_EnableH2 : bool;
  cc_SkipUpstreamVerify : bool;
  cc_AutoBypassPinned : bool;
  cc_MaxBodyBytes : Z;
  cc_MaxSessionBytes : Z;
  cc_Pcap : bool;
  cc_RewriteRules : list rewriteRule
}.
Definition set_enabled (c : captureConfig) (b : bool) : captureConfig :=
  mkConfig b (cc_SessionID c) (cc_SegmentNonce c) (cc_SpoolDir c) (cc_MITMHosts c) (cc_CACertPEM c) (cc_CAKeyPEM c)
    (cc_CAProfileB64 c) (cc_EnableH2 c) (cc_SkipUpstreamVerify c) (cc_AutoBypassPinned c) (cc_MaxBodyBytes c)
    (cc_MaxSessionBytes c) (cc_Pcap c) (cc_RewriteRules c).
Definition default_limits (c : captureConfig) : captureConfig :=
  mkConfig (cc_Enabled c) (cc_SessionID c) (cc_SegmentNonce c) (cc_SpoolDir c) (cc_MITMHosts c) (cc_CACertPEM c)
    (cc_CAKeyPEM c) (cc_CAProfileB64 c) (cc_EnableH2 c) (cc_SkipUpstreamVerify c) (cc_AutoBypassPinned c)
    (if cc_MaxBodyBytes c <=? 0 then defaultMaxBodyBytes else cc_MaxBodyBytes c)
    (if cc_MaxSessionBytes c <=? 0 then defaultMaxSessionBytes else cc_MaxSessionBytes c)
    (cc_Pcap c) (cc_RewriteRules c).

(** A certificate minter, known by the CA it was made from. *)
Record certMinter := { cm_caPEM : bytes; cm_id : nat }.

Record captureEnv := mkEnv {
  en_transport : bytes;
  en_flows : flowRegistry;
  en_dns : dnsCache;
  en_blocking : bool;
  en_bypass : gset bytes;
  en_empty : gmap bytes (list Z);
  en_mitmLive : Z;
  en_overflow : Z
}.
Definition set_blocking (e : captureEnv) (b : bool) : captureEnv :=
  mkEnv (en_transport e) (en_flows e) (en_dns e) b (en_bypass e) (en_empty e) (en_mitmLive e) (en_overflow e).
Definition set_empty (e : captureEnv) (m : gmap bytes (list Z)) : captureEnv :=
  mkEnv (en_transport e) (en_flows e) (en_dns e) (en_blocking e) (en_bypass e) m (en_mitmLive e) (en_overflow e).

(** A recorder and the session it was opened for. *)
Record recEntry := { re_session : bytes; re_rec : recorder }.
(** A semaphore: capacity and slots taken. *)
Record sem := { sm_cap : Z; sm_held : Z }.

Section Capture.
Context `{U : UnicodeTables} {R : Regexp}.
(** JSON encoding and decoding, the clock, the file system, base64 and X.509. *)
Context (marshal : recEvent -> option bytes) (nowMs : Z).
Context (open_ok : writerState -> bytes -> bool) (write_ok : writerState -> bytes -> bytes -> bool).
Context (parse_config : bytes -> option captureConfig) (base64_decode : bytes -> bytes).
Context (spool_ok : bytes -> bool) (directorySize : bytes -> Z) (ca_valid : bytes -> bytes -> bool).
(** [runtime.GOOS == "ios"] *)
Context (ios : bool).

Record captureState := mkState {
  cs_cfg : captureConfig;
  cs_hosts : hostMatcher;
  cs_minter : option certMinter;
  cs_rec : option nat;
  cs_rewrites : list compiledRewrite;
  cs_caProfile : option bytes;
  cs_mitmSem : nat
}.

(** The package's variables and the objects they point to; [g_mem] is what was last
    given to the runtime, [g_notified] how often the routing hook ran. *)
Record global := mkGlobal {
  g_cur : option captureState;
  g_env : option captureEnv;
  g_recs : gmap nat recEntry;
  g_sems : gmap nat sem;
  g_next : nat;
  g_base : Z * Z;
  g_mem : Z * Z;
  g_notified : Z
}.
Definition with_cur (g : global) (c : option captureState) : global :=
  mkGlobal c (g_env g) (g_recs g) (g_sems g) (g_next g) (g_base g) (g_mem g) (g_notified g).
Definition with_env (g : global) (e : option captureEnv) : global :=
  mkGlobal (g_cur g) e (g_recs g) (g_sems g) (g_next g) (g_base g) (g_mem g) (g_notified g).
Definition with_recs (g : global) (m : gmap nat recEntry) : global :=
  mkGlobal (g_cur g) (g_env g) m (g_sems g) (g_next g) (g_base g) (g_mem g) (g_notified g).
Definition with_sems (g : global) (m : gmap nat sem) (n : nat) : global :=
  mkGlobal (g_cur g) (g_env g) (g_recs g) m n (g_base g) (g_mem g) (g_notified g).
Definition with_mem (g : global) (base mem : Z * Z) : global :=
  mkGlobal (g_cur g) (g_env g) (g_recs g) (g_sems g) (g_next g) base mem (g_notified g).

Definition isActive (g : global) (i : option nat) : bool :=
  match i with
  | Some i => match g_recs g !! i with Some e => rc_active (re_rec e) | None => false end
  | None => false
  end.
(** [captureState.recording] *)
Definition recording (g : global) (cs : option captureState) : bool :=
  match cs with Some cs => cc_Enabled (cs_cfg cs) && isActive g (cs_rec cs) | None => false end.

Definition resetCaptureTunnelState (g : global) (transport : bytes) : global :=
  with_env g (Some (mkEnv transport newFlowRegistry newDNSCache false ∅ ∅ 0 0)).

Definition notifyCaptureRouting (g : global) : global :=
  mkGlobal (g_cur g) (g_env g) (g_recs g) (g_sems g) (g_next g) (g_base g) (g_mem g) (g_notified g + 1).

Definition captureServesCA (g : global) : bool :=
  match g_cur g with
  | Some cs => bool_decide (is_Some (cs_caProfile cs)) || bool_decide (is_Some (cs_minter cs))
  | None => false
  end.

(** Memory policy *)
Definition setBaseMemoryLimits (g : global) (limit gc : Z) : global := with_mem g (limit, gc) (limit, gc).
Definition applyBaseMemoryLimits (g : global) (transport : bytes) : global :=
  if bool_decide (transport = lit "tssh") || bool_decide (transport = lit "direct")
  then setBaseMemoryLimits g tsshHeapLimitBytes tsshGCPercent
  else setBaseMemoryLimits g sshHeapLimitBytes sshGCPercent.
Definition applyCaptureMemoryLimits (g : global) (transport : bytes) (enabled : bool) : global :=
  if negb ios then g
  else if enabled then
    if bool_decide (transport = lit "ssh") then with_mem g (g_base g) (tsshHeapLimitBytes, tsshGCPercent) else g
  else if (g_base g).2 =? 0 then g
  else with_mem g (g_base g) (g_base g).

Definition mitmFlowCap (transport : bytes) : Z :=
  if negb ios then 256
  else if bool_decide (transport = lit "ssh") || bool_decide (transport = lit "tailscale") then 24
  else 32.

(** [prev.rec.close(kind, reason)], nothing for a nil recorder. *)
Definition close_rec (g : global) (i : option nat) (kind reason : bytes) : global :=
  match i with
  | None => g
  | Some i => with_recs g (alter (fun e => {| re_session := re_session e; re_rec := close marshal nowMs (re_rec e) kind reason |})
                                 i (g_recs g))
  end.

Definition set_limits (r : recorder) (maxBody maxSession : Z) : recorder :=
  mkRec (rc_nonce r) maxBody maxSession (rc_active r) (rc_halted r) (rc_stopReason r)
    (rc_written r) (rc_dropped r) (rc_txSeq r) (rc_connSeq r) (rc_q r) (rc_w r) (rc_tx r).
Definition live_limits (g : global) (i : nat) (cfg : captureConfig) : global :=
  with_recs g (alter (fun e => {| re_session := re_session e;
                                  re_rec := set_limits (re_rec e) (cc_MaxBodyBytes cfg) (cc_MaxSessionBytes cfg) |})
                     i (g_recs g)).

Definition new_rec (g : global) (cfg : captureConfig) (transport : bytes) : nat * global :=
  let i := g_next g in
  let r := newRecorder marshal nowMs (cc_SessionID cfg) (cc_SegmentNonce cfg) (cc_MaxBodyBytes cfg)
             (cc_MaxSessionBytes cfg) (directorySize (cc_SpoolDir cfg)) transport in
  (i, mkGlobal (g_cur g) (g_env g) (<[i := {| re_session := cc_SessionID cfg; re_rec := r |}]> (g_recs g)) (g_sems g)
        (S i) (g_base g) (g_mem g) (g_notified g)).

(** The minter of the new state: the previous one when the CA is unchanged. *)
Definition next_minter (g : global) (cfg : captureConfig) : option certMinter :=
  if bool_decide (cc_CACertPEM cfg = []) then None
  else
    let fresh := if ca_valid (cc_CACertPEM cfg) (cc_CAKeyPEM cfg)
                 then Some {| cm_caPEM := cc_CACertPEM cfg; cm_id := g_next g |} else None in
    match g_cur g ≫= cs_minter with
    | Some m => if bool_decide (cm_caPEM m = cc_CACertPEM cfg) then Some m else fresh
    | None => fresh
    end.
(** The semaphore: the previous one when its capacity is the same. *)
Definition next_sem (g : global) (transport : bytes) : nat * global :=
  let cap := mitmFlowCap transport in
  let fresh := (g_next g, with_sems g (<[g_next g := {| sm_cap := cap; sm_held := 0 |}]> (g_sems g)) (S (g_next g))) in
  match g_cur g with
  | Some p => match g_sems g !! cs_mitmSem p with
              | Some s => if sm_cap s =? cap then (cs_mitmSem p, g) else fresh
              | None => fresh
              end
  | None => fresh
  end.

Inductive capture_error := ErrConfig | ErrNotRunning | ErrSpool.

(** The last lines of [applyCaptureConfig], and its error path.  [tr] is the transport of
    the environment the call loaded and [live] whether that one is still the tunnel's:
    the flag of an environment that was replaced is nobody's. *)
Definition install (g : global) (tr : bytes) (live : bool) (next : captureState) : global :=
  let enabled := cc_Enabled (cs_cfg next) in
  let g1 := with_env (with_cur g (Some next))
              (if live then (fun env => set_blocking env enabled) <$> g_env g else g_env g) in
  notifyCaptureRouting (applyCaptureMemoryLimits g1 tr enabled).

(** What [applyCaptureConfig] does before it takes [captureMu]: the configuration and the
    transport of the environment it loaded. *)
Definition configure_load (g : global) (raw : bytes) : result capture_error (captureConfig * bytes) :=
  match parse_config raw with
  | None => Err ErrConfig
  | Some cfg0 =>
      match g_env g with
      | None => Err ErrNotRunning
      | Some env => Ok (default_limits cfg0, en_transport env)
      end
  end.

(** The rest of it, under [captureMu]. *)
Definition configure_locked (g : global) (cfg : captureConfig) (tr : bytes) (live : bool) : option capture_error * global :=
  let prevRec := g_cur g ≫= cs_rec in
  let minter := next_minter g cfg in
  let '(sm, g1) := next_sem g tr in
  let next c r :=
    mkState c (compileHostRules (cc_MITMHosts cfg)) minter r (compileRewriteRules (cc_RewriteRules cfg))
      (if bool_decide (cc_CAProfileB64 cfg = []) then None else Some (base64_decode (cc_CAProfileB64 cfg))) sm in
  let sameSegment :=
    match prevRec ≫= fun i => g_recs g !! i with
    | Some e => bool_decide (re_session e = cc_SessionID cfg) && bool_decide (rc_nonce (re_rec e) = cc_SegmentNonce cfg)
    | None => false
    end in
  if cc_Enabled cfg && negb (bool_decide (cc_SessionID cfg = [])) && negb (bool_decide (cc_SpoolDir cfg = [])) then
    match prevRec, sameSegment with
    | Some i, true => (None, install (live_limits g1 i cfg) tr live (next cfg (Some i)))
    | _, _ =>
        let g2 := close_rec g1 prevRec (lit "segmentEnd") (lit "reconfigured") in
        if spool_ok (cc_SpoolDir cfg) then
          let '(i, g3) := new_rec g2 cfg tr in
          (None, install (live_limits g3 i cfg) tr live (next cfg (Some i)))
        else (Some ErrSpool, install g2 tr live (next (set_enabled cfg false) None))
    end
  else (None, install (close_rec g1 prevRec (lit "stop") (lit "user")) tr live (next (set_enabled cfg false) None)).

(** The call when nothing else comes between its two parts. *)
Definition applyCaptureConfig (g : global) (raw : bytes) : option capture_error * global :=
  match configure_load g raw with
  | Ok (cfg, tr) => configure_locked g cfg tr true
  | Err e => (Some e, g)
  end.

Definition closeCapture (g : global) (reason : bytes) (final : bool) : global :=
  match g_cur g with
  | None => if final then g else with_env g None
  | Some cs =>
      let g1 := close_rec g (cs_rec cs) (if final then lit "stop" else lit "segmentEnd") reason in
      let g2 := if final
                then with_cur g1 (Some (mkState (set_enabled (cs_cfg cs) false) (cs_hosts cs) (cs_minter cs) None
                                          (cs_rewrites cs) (cs_caProfile cs) (cs_mitmSem cs)))
                else with_cur g1 None in
      let g3 := match g_env g2 with
                | Some env => applyCaptureMemoryLimits (with_env g2 (Some (set_blocking env false))) (en_transport env) false
                | None => g2
                end in
      notifyCaptureRouting (if final then g3 else with_env g3 None)
  end.

Definition liveRewriteRules (g : global) : list compiledRewrite :=
  match g_cur g with
  | Some cs => if cc_Enabled (cs_cfg cs) then cs_rewrites cs else []
  | None => []
  end.

(** [capturePacket] *)
Definition capturePacket (g : global) (now dir : Z) (data : bytes) : global :=
  match g_cur g with
  | Some cs =>
      if negb (cc_Pcap (cs_cfg cs)) || negb (recording g (Some cs)) then g
      else match cs_rec cs with
           | Some i => with_recs g (alter (fun e => {| re_session := re_session e; re_rec := packet (re_rec e) now dir data |})
                                          i (g_recs g))
           | None => g
           end
  | None => g
  end.

Definition captureBlocking (g : global) : bool :=
  match g_env g with Some e => en_blocking e | None => false end.

Definition isBypassed (e : captureEnv) (host : bytes) : bool := bool_decide (host ∈ en_bypass e).

(** [noteEmptyMITM] at time [now]: whether the host crosses the threshold. *)
Definition noteEmptyMITM (e : captureEnv) (host : bytes) (now : Z) : bool * captureEnv :=
  let kept := filter (fun t => now - t < pinnedEmptyWindow) (default [] (en_empty e !! host)) ++ [now] in
  (pinnedEmptyThreshold <=? len kept, set_empty e (<[host := kept]> (en_empty e))).
Definition noteServedMITM (e : captureEnv) (host : bytes) : captureEnv :=
  set_empty e (delete host (en_empty e)).

(** ** Who may record *)

(** The controller with the configurations that have loaded the environment and wait for
    [captureMu]: what they decoded, the transport they read and which environment it was.
    [w_gen] counts the stores to the environment's pointer.  [w_over] is history: the last
    change of what is in force was made with an environment that is no longer the
    tunnel's, or a tunnel was started over a recorder in force. *)
Record world := mkWorld {
  w_g : global;
  w_gen : nat;
  w_calls : list (captureConfig * bytes * nat);
  w_over : bool
}.
Definition w_set (w : world) (g : global) : world := mkWorld g (w_gen w) (w_calls w) (w_over w).

(** Flows and the writer goroutine work on any recorder at any time, but only the
    controller closes one. *)
Inductive capture_step : world -> world -> Prop :=
| cs_load w raw cfg tr :
    configure_load (w_g w) raw = Ok (cfg, tr) ->
    capture_step w (mkWorld (w_g w) (w_gen w) ((cfg, tr, w_gen w) :: w_calls w) (w_over w))
| cs_configure w l cfg tr n k :
    w_calls w = l ++ (cfg, tr, n) :: k ->
    capture_step w (mkWorld (configure_locked (w_g w) cfg tr (n =? w_gen w)%nat).2 (w_gen w) (l ++ k)
                      (negb (n =? w_gen w)%nat))
| cs_close w reason (final : bool) :
    capture_step w (mkWorld (closeCapture (w_g w) reason final) (if final then w_gen w else S (w_gen w)) (w_calls w)
                      (final && w_over w))
| cs_start w transport :
    capture_step w (mkWorld (resetCaptureTunnelState (w_g w) transport) (S (w_gen w)) (w_calls w)
                      (bool_decide (is_Some (g_cur (w_g w) ≫= cs_rec))))
| cs_record w i e c :
    g_recs (w_g w) !! i = Some e -> (forall kind reason, c <> CClose kind reason) ->
    capture_step w (w_set w (with_recs (w_g w) (<[i := {| re_session := re_session e;
                                           re_rec := exec marshal nowMs open_ok write_ok (re_rec e) c |}]> (g_recs (w_g w)))))
| cs_env w env env' :
    g_env (w_g w) = Some env -> en_blocking env' = en_blocking env -> capture_step w (w_set w (with_env (w_g w) (Some env'))).

Definition is_open (g : global) (i : nat) : Prop :=
  exists e, g_recs g !! i = Some e /\ q_closing (rc_q (re_rec e)) = false.

(** The recorder the current state holds is open, and no other one is. *)
Record capture_core (g : global) : Prop := {
  cc_open : forall i, is_open g i <-> g_cur g ≫= cs_rec = Some i;
  cc_enabled : forall cs, g_cur g = Some cs -> cc_Enabled (cs_cfg cs) = bool_decide (is_Some (cs_rec cs));
  cc_fresh : forall i, (g_next g <= i)%nat -> g_recs g !! i = None
}.
(** The environment agrees with what is in force. *)
Definition env_agrees (g : global) : Prop :=
  captureBlocking g = bool_decide (is_Some (g_cur g ≫= cs_rec)) /\ (g_env g = None -> g_cur g = None).
(** Both. *)
Record capture_inv (g : global) : Prop := {
  ci_open : forall i, is_open g i <-> g_cur g ≫= cs_rec = Some i;
  ci_enabled : forall cs, g_cur g = Some cs -> cc_Enabled (cs_cfg cs) = bool_decide (is_Some (cs_rec cs));
  ci_blocking : captureBlocking g = bool_decide (is_Some (g_cur g ≫= cs_rec));
  ci_down : g_env g = None -> g_cur g = None;
  ci_fresh : forall i, (g_next g <= i)%nat -> g_recs g !! i = None
}.

Lemma close_closing r kind reason : q_closing (rc_q (close marshal nowMs r kind reason)) = true.
Proof. done. Qed.

Lemma autoStop_q r reason : rc_q (autoStop marshal nowMs open_ok write_ok r reason) = rc_q r.
Proof.
  unfold autoStop. destruct (rc_halted r); [done|].
  destruct (file open_ok (rc_w (with_flags r false true reason)) indexFileName) as [w ok].
  by destruct (ok && _).
Qed.
Lemma apply_q r op : rc_q (apply marshal nowMs open_ok write_ok r op) = rc_q r.
Proof.
  unfold apply. case_match; [by case_match|]. case_match; [done|]. case_match; [done|].
  destruct (file open_ok (rc_w r) (op_path op)) as [w ok]. case_match; [|by rewrite autoStop_q].
  case_match; [by rewrite autoStop_q|done].
Qed.
Lemma exec_closing r c :
  (forall kind reason, c <> CClose kind reason) ->
  q_closing (rc_q (exec marshal nowMs open_ok write_ok r c)) = q_closing (rc_q r).
Proof.
  intros Hc. destruct c; cbn [exec]; try apply enqueue_closing; try done.
  - apply event_closing.
  - unfold sink_Write. destruct (x_sinks (rc_tx r) !! sid); [|done]. destruct (sink_store b p) as [s' [d|]]; [|done].
    apply enqueue_closing.
  - unfold finish. destruct sid as [i|]; [|done]. destruct (x_sinks (rc_tx r) !! i); [|done].
    cbn [fst]. case_match; [apply enqueue_closing|done].
  - unfold endTxOnce. case_match; [done|]. rewrite (proj1 (event_closing _ _ _)). done.
  - unfold run_batch. set (r0 := with_q r _).
    assert (forall ops s, rc_q (fold_left (apply marshal nowMs open_ok write_ok) ops s) = rc_q s) as Hf.
    { induction ops as [|op ops IH]; intros s; cbn; [done|]. by rewrite IH, apply_q. }
    destruct (q_closing (rc_q r)) eqn:E; cbn [rc_q with_w]; rewrite Hf; done.
  - by destruct (Hc kind reason).
Qed.

Lemma set_limits_closing r a b : rc_q (set_limits r a b) = rc_q r.
Proof. done. Qed.
Lemma new_open session nonce maxBody maxSession onDisk transport :
  q_closing (rc_q (newRecorder marshal nowMs session nonce maxBody maxSession onDisk transport)) = false.
Proof. unfold newRecorder. by rewrite (proj1 (event_closing _ _ _)). Qed.

(** Facts about the store that the parts of the operations preserve. *)
Lemma close_rec_open g i kind reason j :
  is_open (close_rec g i kind reason) j <-> is_open g j /\ i <> Some j.
Proof.
  unfold is_open, close_rec. destruct i as [i|]; [|naive_solver]. cbn [g_recs with_recs].
  destruct (decide (i = j)) as [->|Hne].
  - rewrite lookup_alter_eq. split; [|naive_solver]. intros (e & He & Hq).
    apply fmap_Some in He as (e0 & _ & ->). done.
  - rewrite lookup_alter_ne by done. naive_solver.
Qed.
Lemma live_limits_open g i cfg j : is_open (live_limits g i cfg) j <-> is_open g j.
Proof.
  unfold is_open, live_limits. cbn [g_recs with_recs]. destruct (decide (i = j)) as [->|Hne].
  - rewrite lookup_alter_eq. destruct (g_recs g !! j); cbn; naive_solver.
  - by rewrite lookup_alter_ne by done.
Qed.

(** The state apart from the store. *)
Definition same_rest (g g' : global) : Prop := g_cur g' = g_cur g /\ g_env g' = g_env g.

Lemma memory_rest g tr en : g_recs (applyCaptureMemoryLimits g tr en) = g_recs g /\
  same_rest g (applyCaptureMemoryLimits g tr en) /\ g_next (applyCaptureMemoryLimits g tr en) = g_next g.
Proof. unfold applyCaptureMemoryLimits, same_rest. by repeat case_match. Qed.

Lemma capture_inv_iff g : capture_inv g <-> capture_core g /\ env_agrees g.
Proof. split; [intros [I1 I2 I3 I4 I5]; split; split; done|intros [[I1 I2 I5] [I3 I4]]; split; done]. Qed.

(** Installing a state re-establishes the invariant when the store already agrees with it. *)
Lemma install_core g tr live next :
  (forall i, is_open g i <-> cs_rec next = Some i) ->
  cc_Enabled (cs_cfg next) = bool_decide (is_Some (cs_rec next)) ->
  (forall i, (g_next g <= i)%nat -> g_recs g !! i = None) ->
  capture_core (install g tr live next) /\
  (live = true -> is_Some (g_env g) -> env_agrees (install g tr live next)) /\
  (is_Some (g_env (install g tr live next)) <-> is_Some (g_env g)).
Proof.
  intros H1 H2 H3. unfold install. set (g1 := with_env _ _).
  destruct (memory_rest g1 tr (cc_Enabled (cs_cfg next))) as (M1 & [M2 M3] & M4).
  split_and!.
  - split; cbn; rewrite ?M1, ?M2, ?M3, ?M4; cbn.
    + intros i. unfold is_open. cbn. rewrite M1. apply H1.
    + by intros cs [= <-].
    + done.
  - intros -> [env He]. split; unfold captureBlocking; cbn; rewrite M2, M3; cbn; rewrite He; [exact H2|done].
  - cbn. rewrite M3. cbn. destruct live; [|done]. by rewrite fmap_is_Some.
Qed.

Lemma next_sem_rest g tr sm g1 :
  next_sem g tr = (sm, g1) -> g_recs g1 = g_recs g /\ same_rest g g1 /\ (g_next g <= g_next g1)%nat.
Proof.
  unfold next_sem, same_rest. repeat case_match; intros [= <- <-]; cbn; split_and!; (done || lia).
Qed.

(** With every recorder closed, the new one is the only open one. *)
Lemma new_rec_open g cfg tr :
  (forall j, ~ is_open g j) -> (forall i, (g_next g <= i)%nat -> g_recs g !! i = None) ->
  let '(i, g') := new_rec g cfg tr in
  (forall j, is_open g' j <-> Some i = Some j) /\ (forall j, (g_next g' <= j)%nat -> g_recs g' !! j = None) /\ g_env g' = g_env g.
Proof.
  intros H1 H2. cbn. split_and!; [| |done].
  - intros j. unfold is_open. cbn [g_recs]. destruct (decide (g_next g = j)) as [<-|Hne].
    + rewrite lookup_insert_eq. split; [done|]. intros _. eexists. split; [done|]. apply new_open.
    + rewrite lookup_insert_ne by done. split; [intros Ho; by destruct (H1 j)|congruence].
  - intros j Hj. rewrite lookup_insert_ne by lia. apply H2. lia.
Qed.

Lemma configure_locked_spec g cfg tr live :
  capture_core g ->
  let g' := (configure_locked g cfg tr live).2 in
  capture_core g' /\ (live = true -> is_Some (g_env g) -> env_agrees g') /\ (is_Some (g_env g') <-> is_Some (g_env g)).
Proof.
  intros H. unfold configure_locked.
  destruct (next_sem g tr) as [sm g1] eqn:Es.
  apply next_sem_rest in Es as (R1 & [R2 R3] & R4). destruct H as [I1 I2 I5]. rewrite <- R3.
  assert (forall j, is_open g1 j <-> g_cur g ≫= cs_rec = Some j) as O1 by (unfold is_open; rewrite R1; apply I1).
  assert (forall i, (g_next g1 <= i)%nat -> g_recs g1 !! i = None) as F1 by (intros i Hi; rewrite R1; apply I5; lia).
  assert (forall kind reason, let gc := close_rec g1 (g_cur g ≫= cs_rec) kind reason in (forall j, ~ is_open gc j) /\
    (forall i, (g_next g1 <= i)%nat -> g_recs gc !! i = None) /\ g_next gc = g_next g1 /\ g_env gc = g_env g1) as Hclose.
  { intros kind reason. cbn zeta. split_and!.
    - intros j. rewrite close_rec_open, O1. tauto.
    - intros i Hi. unfold close_rec. destruct (g_cur g ≫= cs_rec) as [k|]; [|by apply F1].
      cbn. rewrite lookup_alter_None. by apply F1.
    - unfold close_rec. by destruct (g_cur g ≫= cs_rec).
    - unfold close_rec. by destruct (g_cur g ≫= cs_rec). }
  destruct (cc_Enabled cfg && _ && _) eqn:En.
  2: { destruct (Hclose (lit "stop") (lit "user")) as (C1 & C2 & C3 & C4). rewrite <- C4. apply install_core; cbn [cs_rec cs_cfg]; [|done|by rewrite C3].
       intros i. split; [intros Ho; by destruct (C1 i)|done]. }
  apply andb_true_iff in En as [[En _]%andb_true_iff _].
  destruct (Hclose (lit "segmentEnd") (lit "reconfigured")) as (C1 & C2 & C3 & C4). cbn zeta in *.
  pose proof (new_rec_open _ cfg tr C1 ltac:(intros i; rewrite C3; apply C2)) as N.
  set (g2 := close_rec g1 (g_cur g ≫= cs_rec) (lit "segmentEnd") (lit "reconfigured")) in *.
  destruct (new_rec g2 cfg tr) as [n g3] eqn:Hn. destruct N as (N1 & N2 & N3).
  assert (forall c m rw ca, let next c r := mkState c (compileHostRules (cc_MITMHosts cfg)) m r rw ca sm in
    let g' := (if spool_ok (cc_SpoolDir cfg) then (None, install (live_limits g3 n cfg) tr live (next cfg (Some n)))
               else (Some ErrSpool, install g2 tr live (next (set_enabled cfg c) None))).2 in
    c = false -> capture_core g' /\ (live = true -> is_Some (g_env g1) -> env_agrees g') /\ (is_Some (g_env g') <-> is_Some (g_env g1))) as Hnew.
  { intros c m rw ca next g' ->. subst g' next. rewrite <- C4. destruct (spool_ok _); cbn [snd].
    - rewrite <- N3. apply (install_core (live_limits g3 n cfg)); cbn [cs_rec cs_cfg]; [|by rewrite En|].
      + intros i. by rewrite live_limits_open, N1.
      + cbn. intros i Hi. rewrite lookup_alter_None. by apply N2.
    - apply install_core; cbn [cs_rec cs_cfg]; [|done|by rewrite C3].
      intros i. split; [intros Ho; by destruct (C1 i)|done]. }
  clearbody g2. destruct (g_cur g ≫= cs_rec) as [i|] eqn:Er; [|by apply (Hnew false)].
  destruct (match _ with Some _ => _ | None => false end); [|by apply (Hnew false)].
  apply (install_core (live_limits g1 i cfg)); cbn [cs_rec cs_cfg]; [|by rewrite En|].
  - intros j. by rewrite live_limits_open, O1.
  - cbn. intros j Hj. rewrite lookup_alter_None. by apply F1.
Qed.

Lemma configure_inv g raw : capture_inv g -> capture_inv (applyCaptureConfig g raw).2.
Proof.
  intros H. unfold applyCaptureConfig, configure_load. destruct (parse_config raw) as [cfg0|]; [|done].
  destruct (g_env g) as [env|] eqn:Ee; [|done]. apply capture_inv_iff in H as [H _].
  destruct (configure_locked_spec g (default_limits cfg0) (en_transport env) true H) as (H1 & H2 & _).
  apply capture_inv_iff. split; [done|]. apply H2; [done|]. by rewrite Ee.
Qed.

(** Closing keeps what is open and what is in force in agreement whatever the environment;
    a stop keeps the environment in agreement, and a teardown restores it. *)
Lemma closeCapture_spec g reason (final : bool) :
  capture_core g ->
  capture_core (closeCapture g reason final) /\
  (final = false \/ env_agrees g -> env_agrees (closeCapture g reason final)) /\
  (is_Some (g_env (closeCapture g reason final)) <-> final = true /\ is_Some (g_env g)).
Proof.
  intros [I1 I2 I5]. unfold closeCapture. destruct (g_cur g) as [cs|] eqn:Ec.
  2: { destruct final; cbn; split_and!.
       - split; rewrite ?Ec; done.
       - by intros [?|?].
       - clear. tauto.
       - split; cbn; rewrite ?Ec; done.
       - intros _. split; cbn; by rewrite Ec.
       - split; [by intros [? ?]|by intros [? _]]. }
  cbn [mbind option_bind] in *. set (kind := if final then lit "stop" else lit "segmentEnd").
  assert (forall j, ~ is_open (close_rec g (cs_rec cs) kind reason) j) as Hn.
  { intros j. rewrite close_rec_open, I1. tauto. }
  assert (forall i, (g_next g <= i)%nat -> g_recs (close_rec g (cs_rec cs) kind reason) !! i = None) as Hf.
  { intros i Hi. unfold close_rec. destruct (cs_rec cs); [|by apply I5]. cbn. rewrite lookup_alter_None. by apply I5. }
  assert (g_next (close_rec g (cs_rec cs) kind reason) = g_next g) as Hx by (unfold close_rec; by destruct (cs_rec cs)).
  assert (g_env (close_rec g (cs_rec cs) kind reason) = g_env g) as Hv by (unfold close_rec; by destruct (cs_rec cs)).
  revert Hn Hf Hx Hv. generalize (close_rec g (cs_rec cs) kind reason). intros gc Hn Hf Hx Hv.
  set (g2 := if final then with_cur gc _ else with_cur gc None). set (g3 := match g_env g2 with Some _ => _ | None => _ end).
  assert (g_recs g3 = g_recs gc /\ g_cur g3 = g_cur g2 /\ g_next g3 = g_next g /\
          g_env g3 = (fun e => set_blocking e false) <$> g_env g) as (M1 & M2 & M3 & M4).
  { subst g3. assert (g_env g2 = g_env g) as -> by (by subst g2; destruct final). destruct (g_env g) as [env|].
    - destruct (memory_rest (with_env g2 (Some (set_blocking env false))) (en_transport env) false) as (M1 & [M2 M3] & M4).
      rewrite M1, M2, M3, M4. cbn. subst g2. by destruct final.
    - subst g2. by destruct final. }
  clearbody g3. subst g2. destruct final; cbn in M2; split_and!.
  - split; cbn; rewrite ?M1, ?M2, ?M3; cbn; [|by intros cs' [= <-]|intros; apply Hf; lia].
    intros i. unfold is_open. cbn. rewrite M1. split; [intros Ho; by destruct (Hn i)|done].
  - intros [?|[_ Hd]]; [done|]. split; unfold captureBlocking; cbn; rewrite M2, M4; cbn; [by destruct (g_env g)|].
    intros He. destruct (g_env g); [done|]. specialize (Hd eq_refl). congruence.
  - cbn. rewrite M4, fmap_is_Some. tauto.
  - split; cbn; rewrite ?M1, ?M2, ?M3; cbn; [|done|intros; apply Hf; lia].
    intros i. unfold is_open. cbn. rewrite M1. split; [intros Ho; by destruct (Hn i)|done].
  - intros _. split; unfold captureBlocking; cbn; by rewrite M2.
  - cbn. split; [intros [? ?]; done|naive_solver].
Qed.
Lemma closeCapture_inv g reason final : capture_inv g -> capture_inv (closeCapture g reason final).
Proof. rewrite !capture_inv_iff. intros [H1 H2]. destruct (closeCapture_spec g reason final H1) as (C1 & C2 & _). auto. Qed.

Lemma start_core g tr : capture_core g -> capture_core (resetCaptureTunnelState g tr).
Proof. intros [I1 I2 I5]. by split. Qed.
Lemma start_inv g tr : capture_inv g -> g_env g = None -> capture_inv (resetCaptureTunnelState g tr).
Proof. intros [I1 I2 I3 I4 I5] He. pose proof (I4 He) as Hcur. split; cbn; rewrite ?Hcur in *; done. Qed.

Lemma record_core g i e c :
  capture_core g -> g_recs g !! i = Some e -> (forall kind reason, c <> CClose kind reason) ->
  capture_core (with_recs g (<[i := {| re_session := re_session e;
                                       re_rec := exec marshal nowMs open_ok write_ok (re_rec e) c |}]> (g_recs g))).
Proof.
  intros [I1 I2 I5] Hi Hc. split; cbn [g_cur g_recs g_next with_recs]; try done.
  - intros j. rewrite <- I1. unfold is_open. cbn [g_recs with_recs]. destruct (decide (i = j)) as [->|Hne].
    + rewrite lookup_insert_eq, Hi. split; intros (e' & [= <-] & Hq); eexists; (split; [done|]).
      * cbn [re_rec] in Hq. by rewrite exec_closing in Hq.
      * cbn [re_rec]. by rewrite exec_closing.
    + by rewrite lookup_insert_ne by done.
  - intros j Hj. rewrite lookup_insert_ne; [by apply I5|]. intros ->. by rewrite I5 in Hi.
Qed.

(** A waiting configuration loaded an environment of this or an earlier generation, and
    while the generation is the same it is there. *)
Record world_inv (w : world) : Prop := {
  wi_core : capture_core (w_g w);
  wi_agrees : w_over w = false -> env_agrees (w_g w);
  wi_calls : Forall (fun c => c.2 <= w_gen w /\ (c.2 = w_gen w -> is_Some (g_env (w_g w))))%nat (w_calls w)
}.

Lemma world_inv_step w w' : world_inv w -> capture_step w w' -> world_inv w'.
Proof.
  intros [H1 H2 H3] Hs. destruct Hs as [w raw cfg tr Hl|w l cfg tr n k Hw|w reason final|w tr|w i e c Hi Hc|w env env' He Hb].
  - split; [done|done|]. cbn. constructor; [|done]. cbn. split; [lia|]. intros _. unfold configure_load in Hl.
    destruct (parse_config raw); [|done]. by destruct (g_env (w_g w)).
  - rewrite Hw in H3. apply Forall_app in H3 as [Fl [[Hn1 Hn2] Fk]%Forall_cons].
    destruct (configure_locked_spec (w_g w) cfg tr (n =? w_gen w)%nat H1) as (C1 & C2 & C3). split; cbn [w_g w_over w_calls w_gen].
    + done.
    + intros Hx%negb_false_iff. apply C2; [done|]. apply Hn2. by apply Nat.eqb_eq.
    + apply Forall_app. split; (eapply Forall_impl; [eassumption|]); cbn; intros x [? ?]; by rewrite C3.
  - destruct (closeCapture_spec (w_g w) reason final H1) as (C1 & C2 & C3). split; cbn [w_g w_over w_calls w_gen].
    + done.
    + intros Hx. apply C2. destruct final; [right; by apply H2|by left].
    + eapply Forall_impl; [exact H3|]. cbn. intros x [X1 X2]. rewrite C3. destruct final; [tauto|]. split; lia.
  - split; cbn [w_g w_over w_calls w_gen]; [by apply start_core| |].
    + intros Hx. split; unfold captureBlocking; cbn; [by rewrite Hx|done].
    + eapply Forall_impl; [exact H3|]. cbn. intros x [X1 X2]. split; [lia|]. eauto.
  - split; cbn; [by apply record_core|done|done].
  - split; cbn [w_set w_g w_over w_calls w_gen].
    + destruct H1 as [I1 I2 I5]. by split.
    + intros Hx. destruct (H2 Hx) as [A1 A2]. split; [|done]. unfold captureBlocking in *. cbn. rewrite He in A1. by rewrite Hb.
    + eapply Forall_impl; [exact H3|]. cbn. intros x [X1 X2]. eauto.
Qed.

Definition capture_init : global := mkGlobal None None ∅ ∅ 0 (0, 0) (0, 0) 0.
Definition world_init : world := mkWorld capture_init 0 [] false.

(** C8: at most one recorder is open at any time, and it is the one in force: in every
    interleaving of configurations, stops, tunnel starts and recording activity, whenever
    [captureMu] is free, a recorder is open exactly when the current state holds it, and
    capture is enabled exactly when there is one.  QUIC and HTTPS records are blocked
    exactly then, and no state outlives its tunnel, unless a configuration that loaded the
    environment of an earlier tunnel was the last to be applied, or a tunnel was
    started over a recorder in force, and no configuration or teardown has followed. *)
Theorem capture_invariant w :
  rtc capture_step world_init w ->
  let g := w_g w in
  (forall i, is_open g i <-> g_cur g ≫= cs_rec = Some i) /\
  (forall cs, g_cur g = Some cs -> cc_Enabled (cs_cfg cs) = bool_decide (is_Some (cs_rec cs))) /\
  (w_over w = false ->
   captureBlocking g = bool_decide (is_Some (g_cur g ≫= cs_rec)) /\ (g_env g = None -> g_cur g = None)).
Proof.
  intros Hr. assert (world_inv world_init) as H0.
  { split; cbn; [split; cbn; try done|done|constructor]. intros i. unfold is_open. cbn. split; [|done]. intros (e & He & _).
    by rewrite lookup_empty in He. }
  assert (world_inv w) as [[I1 I2 _] I3 _]; [|by split_and!].
  clear - H0 Hr. induction Hr as [w|w w1 w2 Hs Hr IH]; [done|]. apply IH. by eapply world_inv_step.
Qed.
End Capture.

(** ** Witnesses *)

#[local] Existing Instance caseless_tables.
#[local] Instance no_regexp_capture : Regexp :=
  {| re := unit; re_Compile := fun _ => None; re_MatchString := fun _ _ => false; re_ReplaceAll := fun _ b _ => Some b |}.

Definition sample_config : captureConfig :=
  mkConfig true (lit "S1") (lit "n") (lit "/spool") [lit "*.example.com"] [] [] [] false false true 0 10 false [].
Definition sample_parse (raw : bytes) : option captureConfig :=
  if bool_decide (raw = lit "on") then Some sample_config else None.
Definition sample_json (v : recEvent) : option bytes := Some (lit "{}").
Definition sample_started : global := resetCaptureTunnelState capture_init (lit "ssh").
Definition sample_locked : global -> captureConfig -> bytes -> bool -> option capture_error * global :=
  configure_locked sample_json 0 (fun b => b) (fun _ => true) (fun _ => 0) (fun _ _ => true) true.
Definition sample_configured : global := (sample_locked sample_started (default_limits sample_config) (lit "ssh") true).2.

Definition sample_world_step : world -> world -> Prop :=
  capture_step sample_json 0 (fun _ _ => true) (fun _ _ _ => true) sample_parse (fun b => b)
    (fun _ => true) (fun _ => 0) (fun _ _ => true) true.

(** A tunnel starts, two configurations load its environment; the first is applied, the
    tunnel is torn down, and then the second is applied. *)
Definition sample_call : captureConfig * bytes * nat := (default_limits sample_config, lit "ssh", 1%nat).
Definition sample_configured_world : world := mkWorld sample_configured 1 [sample_call] false.
Definition sample_torn : global := closeCapture sample_json 0 true sample_configured (lit "tunnel stopped") false.
Definition sample_overtaken : world :=
  mkWorld (sample_locked sample_torn (default_limits sample_config) (lit "ssh") false).2 2 [] true.

Lemma sample_world_run : rtc sample_world_step world_init sample_configured_world.
Proof.
  eapply rtc_l; [apply (cs_start _ _ _ _ _ _ _ _ _ _ world_init (lit "ssh"))|].
  eapply rtc_l; [apply (cs_load _ _ _ _ _ _ _ _ _ _ _ (lit "on") (default_limits sample_config) (lit "ssh")); vm_compute; reflexivity|].
  eapply rtc_l; [apply (cs_load _ _ _ _ _ _ _ _ _ _ _ (lit "on") (default_limits sample_config) (lit "ssh")); vm_compute; reflexivity|].
  apply rtc_once, (cs_configure _ _ _ _ _ _ _ _ _ _
    (mkWorld sample_started 1 [sample_call; sample_call] false) [] (default_limits sample_config) (lit "ssh") 1%nat [sample_call]).
  reflexivity.
Qed.
Lemma sample_overtaken_run : rtc sample_world_step world_init sample_overtaken.
Proof.
  etrans; [exact sample_world_run|].
  eapply rtc_l; [apply (cs_close _ _ _ _ _ _ _ _ _ _ _ (lit "tunnel stopped") false)|].
  apply rtc_once, (cs_configure _ _ _ _ _ _ _ _ _ _ (mkWorld sample_torn 2 [sample_call] false) [] (default_limits sample_config) (lit "ssh") 1%nat []).
  reflexivity.
Qed.

Lemma capture_invariant_witness :
  (forall i, is_open (w_g sample_overtaken) i <-> g_cur (w_g sample_overtaken) ≫= cs_rec = Some i) /\
  (forall i, is_open sample_configured i <-> g_cur sample_configured ≫= cs_rec = Some i) /\
  g_cur sample_configured ≫= cs_rec = Some 1%nat /\ captureBlocking sample_configured = true.
Proof.
  pose proof (capture_invariant _ _ _ _ _ _ _ _ _ _ sample_configured_world sample_world_run) as (H1 & _).
  pose proof (capture_invariant _ _ _ _ _ _ _ _ _ _ sample_overtaken sample_overtaken_run) as (H2 & _).
  split; [exact H2|]. split; [exact H1|]. split; vm_compute; reflexivity.
Defined.

(** The configuration that lost the race: a recorder is open and in force with no tunnel
    and nothing blocked. *)
Lemma overtaken_configuration_records :
  rtc sample_world_step world_init sample_overtaken /\
  g_env (w_g sample_overtaken) = None /\ captureBlocking (w_g sample_overtaken) = false /\
  recording (w_g sample_overtaken) (g_cur (w_g sample_overtaken)) = true.
Proof. split; [exact sample_overtaken_run|]. split_and!; vm_compute; reflexivity. Qed.

(** A recorder that stops by itself (here: past its size limit) leaves the blocking of
    QUIC and HTTPS records on although nothing is being recorded. *)
Definition sample_halted : global :=
  with_recs sample_configured
    (alter (fun e => {| re_session := re_session e;
                        re_rec := run_batch sample_json 0 (fun _ _ => true) (fun _ _ _ => true)
                                    (appendFile (re_rec e) (lit "bodies/n-1.res") (lit "0123456789") true) |})
           1%nat (g_recs sample_configured)).
Lemma blocking_outlives_recording :
  captureBlocking sample_halted = true /\ recording sample_halted (g_cur sample_halted) = false.
Proof. split; vm_compute; reflexivity. Qed.
