(* ===== verification/Mitm.v ===== *)
(** * Classifying and intercepting flows

    src/vpntunnel/mitm.go: which flows are looked into, what becomes of them, and the
    decision to intercept a TLS connection or to pass it through.  The TLS handshakes,
    dialing and the relay are the outside world: their outcomes are parameters. *)

From S2P Require Import Prelude GoStrings HostMatch Http1 Rewrite Recorder Flows DNSCache Capture ProxyH1.

(** In milliseconds. *)
Definition peekTimeoutWeb : Z := 5000.
Definition peekTimeoutExplicit : Z := 2000.
Definition peekTimeoutAnyPort : Z := 300.
Definition caEndpointIP : bytes := lit "10.0.0.1".

Definition isWebPort (port : Z) : bool := (port =? 80) || (port =? 443) || (port =? 8080) || (port =? 8443).

Definition httpMethodPrefixes : list bytes :=
  map lit ["GET "; "POST "; "PUT "; "HEAD "; "DELETE "; "OPTIONS "; "PATCH "; "TRACE "; "CONNECT "]%string.

(** [looksLikeHTTP] on the bytes [peek] returned. *)
Definition looksLikeHTTP (s : bytes) : bool :=
  existsb (fun m => HasPrefix m s || HasPrefix s m) httpMethodPrefixes && (3 <=? len s).

Definition hostForURL (name ip : bytes) (port defaultPort : Z) : bytes :=
  let h := if bool_decide (name = []) then (if ContainsByte ip 58 then [91] ++ ip ++ [93] else ip) else name in
  if port =? defaultPort then h else h ++ [58] ++ Itoa port.

Definition filterALPN (offered : list bytes) (h2 : bool) : list bytes :=
  filter (fun p => p = lit "http/1.1" \/ (p = lit "h2" /\ h2 = true)) offered.

Definition isCertRejection (msg : bytes) : bool :=
  Contains msg (lit "remote error") &&
  existsb (fun s => Contains msg (lit s))
    ["bad certificate"; "unknown certificate authority"; "certificate unknown"; "unknown certificate";
     "certificate required"]%string.

Section Mitm.
Context `{U : UnicodeTables} {R : Regexp} {S : Type} `{RO : RecorderOps S}.
Context (nowMs : Z).

(** The flow: where it goes, the configuration it was opened under, and what a client
    offers in its TLS hello. *)
Record flowCtx := { fc_cs : captureState; fc_dstIP : bytes; fc_dstPort : Z; fc_dstAddr : bytes; fc_srcAddr : bytes }.
Record clientHello := { ch_ServerName : bytes; ch_SupportedProtos : list bytes }.

(** [shouldPeek]; [active] is [cs.rec.isActive()]. *)
Definition shouldPeek (cs : captureState) (active : bool) (dstIP : bytes) (port : Z) : bool :=
  if bool_decide (dstIP = caEndpointIP) && (port =? 80)
  then bool_decide (is_Some (cs_caProfile cs)) || bool_decide (is_Some (cs_minter cs))
  else if negb (cc_Enabled (cs_cfg cs)) || negb active then false
  else if isWebPort port then true
  else hasExplicitPort (Some (cs_hosts cs)) port.

Definition peekWait (cs : captureState) (port : Z) : Z :=
  if isWebPort port then peekTimeoutWeb
  else if bool_decide (port ∈ hm_ports (cs_hosts cs)) then peekTimeoutExplicit
  else peekTimeoutAnyPort.

(** What the flows of this file change: the semaphore of the flow's configuration, the
    tunnel's state, and the recorder. *)
Record mitmState := mkMitm { ms_sem : sem; ms_env : captureEnv; ms_rec : S }.

Definition set_dns (e : captureEnv) (d : dnsCache) : captureEnv :=
  mkEnv (en_transport e) (en_flows e) d (en_blocking e) (en_bypass e) (en_empty e) (en_mitmLive e) (en_overflow e).
Definition add_live (e : captureEnv) (n : Z) : captureEnv :=
  mkEnv (en_transport e) (en_flows e) (en_dns e) (en_blocking e) (en_bypass e) (en_empty e) (en_mitmLive e + n) (en_overflow e).
Definition add_overflow (e : captureEnv) : captureEnv :=
  mkEnv (en_transport e) (en_flows e) (en_dns e) (en_blocking e) (en_bypass e) (en_empty e) (en_mitmLive e) (en_overflow e + 1).
Definition add_bypass (e : captureEnv) (host : bytes) : captureEnv :=
  mkEnv (en_transport e) (en_flows e) (en_dns e) (en_blocking e) ({[host]} ∪ en_bypass e) (en_empty e) (en_mitmLive e) (en_overflow e).

(** [env.dns.lookup(ip)] *)
Definition dns_lookup (e : captureEnv) (ip : bytes) : captureEnv * bytes :=
  let '(d, name) := DNSCache.lookup (Some (en_dns e)) ip in
  (match d with Some d => set_dns e d | None => e end, name).

(** An event that takes the next transaction number, when a recorder is in force. *)
Definition record (on : bool) (mk : bytes -> recEvent) (s : S) : S :=
  if on then let '(id, s1) := ro_nextTxID s in ro_event s1 (mk id) else s.

(** [relayPeeked] once the relay is over: the dial error, or the bytes moved. *)
Definition relayPeeked (fc : flowCtx) (on : bool) (reason sni alpn : bytes) (start : Z) (outcome : result bytes (Z * Z))
    (st : mitmState) : mitmState :=
  if on then
    let '(env, host) := dns_lookup (ms_env st) (fc_dstIP fc) in
    mkMitm (ms_sem st) env
      (record true (fun id => EvTunnel
        {| tu_ID := id; tu_TS := nowMs; tu_Start := start; tu_Client := fc_srcAddr fc; tu_Server := fc_dstAddr fc;
           tu_Host := host; tu_SNI := sni; tu_ALPN := alpn; tu_Reason := reason;
           tu_Error := match outcome with Err e => e | Ok _ => [] end;
           tu_BytesUp := match outcome with Ok (u, _) => u | Err _ => 0 end;
           tu_BytesDown := match outcome with Ok (_, d) => d | Err _ => 0 end |}) (ms_rec st))
  else st.

(** [recordRawTunnel] *)
Definition recordRawTunnel (on : bool) (src dstIP dstAddr : bytes) (start : Z) (outcome : Z * Z * bytes) (st : mitmState)
    : mitmState :=
  if on then
    let '(env, host) := dns_lookup (ms_env st) dstIP in
    let '(up, down, err) := outcome in
    mkMitm (ms_sem st) env
      (record true (fun id => EvTunnel
        {| tu_ID := id; tu_TS := nowMs; tu_Start := start; tu_Client := src; tu_Server := dstAddr; tu_Host := host;
           tu_SNI := []; tu_ALPN := []; tu_Reason := lit "notInspected"; tu_Error := err; tu_BytesUp := up;
           tu_BytesDown := down |}) (ms_rec st))
  else st.

(** ** The TLS decision *)

Record tlsDecision := {
  td_pass : bytes;
  td_sni : bytes;
  td_host : bytes;
  td_upstream : bool;
  td_meta : option connMeta;
  td_held : bool
}.
Record tlsConfig := { tc_NextProtos : list bytes; tc_KeyLog : bool }.

(** The upstream side: the dial fails, the handshake fails (perhaps after the server
    asked for a client certificate), or it is up with the negotiated protocol. *)
Inductive upstream :=
| DialFailed (e : bytes)
| HandshakeFailed (e : bytes) (askedForClientCert : bool)
| UpstreamReady (alpn : bytes) (connectMs tlsMs : Z).

Definition failure (fc : flowCtx) (host stage err : bytes) (id : bytes) : recEvent :=
  EvFailure {| fl_ID := id; fl_TS := nowMs; fl_Host := host; fl_Server := fc_dstAddr fc; fl_Stage := stage; fl_Error := err |}.

(** [decideTLS]: the configuration to intercept with, or a reason to pass through. *)
Definition decideTLS (fc : flowCtx) (on : bool) (hello : clientHello) (up : upstream) (certFor : bytes -> bool)
    (st : mitmState) : mitmState * tlsDecision * option tlsConfig :=
  let cs := fc_cs fc in
  let sni := ToLower (ch_ServerName hello) in
  let name := if bool_decide (sni = []) then fc_dstIP fc else sni in
  let decision pass ups meta held :=
    {| td_pass := pass; td_sni := sni; td_host := name; td_upstream := ups; td_meta := meta; td_held := held |} in
  let pass reason := (st, decision (lit reason) false None false, None) in
  if bool_decide (sni = []) && negb (hostMatcher_match (Some (cs_hosts cs)) (fc_dstIP fc) (fc_dstPort fc)) then pass "noSNI"%string
  else if negb (hostMatcher_match (Some (cs_hosts cs)) name (fc_dstPort fc)) then pass "notMatched"%string
  else if isBypassed (ms_env st) name then pass "bypassed"%string
  else if negb (bool_decide (is_Some (cs_minter cs))) then pass "noCA"%string
  else
    let protos := filterALPN (ch_SupportedProtos hello) (cc_EnableH2 (cs_cfg cs)) in
    if negb (bool_decide (ch_SupportedProtos hello = [])) && bool_decide (protos = []) then pass "alpn"%string
    else if sm_cap (ms_sem st) <=? sm_held (ms_sem st) then
      (mkMitm (ms_sem st) (add_overflow (ms_env st)) (ms_rec st), decision (lit "capacity") false None false, None)
    else
      let st1 := mkMitm {| sm_cap := sm_cap (ms_sem st); sm_held := sm_held (ms_sem st) + 1 |}
                        (add_live (ms_env st) 1) (ms_rec st) in
      let failed stage err := (mkMitm (ms_sem st1) (ms_env st1) (record on (failure fc name (lit stage) err) (ms_rec st1)),
                               decision (lit stage) false None true, None) in
      match up with
      | DialFailed e => failed "upstreamDial"%string e
      | HandshakeFailed e asked => failed (if asked then "clientCertRequired" else "upstreamTLS")%string e
      | UpstreamReady alpn connectMs tlsMs =>
          if negb (certFor name) then (st1, decision (lit "mintFailed") false None true, None)
          else
            let '(connID, s2) := if on then ro_nextConnID (ms_rec st1) else ([], ms_rec st1) in
            let meta := mkMeta connID (lit "https") (fc_srcAddr fc) (fc_dstAddr fc) sni [] [] connectMs tlsMs
                          (hostForURL name (fc_dstIP fc) (fc_dstPort fc) 443) 0 in
            (mkMitm (ms_sem st1) (ms_env st1) s2, decision [] true (Some meta) true,
             Some {| tc_NextProtos := if bool_decide (alpn = []) then [] else [alpn];
                     tc_KeyLog := on && cc_Pcap (cs_cfg cs) |})
      end.

(** [tlsRejected]: with automatic bypassing the host is not intercepted again. *)
Definition rejected (fc : flowCtx) (on : bool) (host detail : bytes) (st : mitmState) : mitmState :=
  let bypass := cc_AutoBypassPinned (cs_cfg (fc_cs fc)) in
  let env := if bypass then add_bypass (ms_env st) host else ms_env st in
  mkMitm (ms_sem st) env
    (record on (fun id => EvTLSRejected {| tl_ID := id; tl_TS := nowMs; tl_Host := host; tl_Server := fc_dstAddr fc;
                                           tl_Detail := detail; tl_Bypassed := bypass |}) (ms_rec st)).

(** The deferred release of the slot. *)
Definition release (d : tlsDecision) (st : mitmState) : mitmState :=
  if td_held d then
    mkMitm {| sm_cap := sm_cap (ms_sem st); sm_held := sm_held (ms_sem st) - 1 |} (add_live (ms_env st) (-1)) (ms_rec st)
  else st.

(** How the flow went after the decision: the relay of a passthrough; the error of the
    client's handshake; or the requests served over it and when it ended. *)
Inductive aftermath :=
| Relayed (outcome : result bytes (Z * Z))
| ClientHandshakeFailed (detail : bytes)
| Served (requests endTime : Z).

(** [serveTLS] after [decideTLS] (or after a handshake that never got there). *)
Definition finishTLS (fc : flowCtx) (on : bool) (d : tlsDecision) (start : Z) (how : aftermath) (st : mitmState) : mitmState :=
  release d
    match how with
    | Relayed outcome => relayPeeked fc on (td_pass d) (td_sni d) [] start outcome st
    | ClientHandshakeFailed detail =>
        match td_meta d with
        | None => st
        | Some _ => if isCertRejection detail then rejected fc on (td_host d) detail st else st
        end
    | Served n endTime =>
        if n =? 0 then
          let '(crossed, env) := noteEmptyMITM (ms_env st) (td_host d) endTime in
          let st1 := mkMitm (ms_sem st) env (ms_rec st) in
          if (crossed : bool) then rejected fc on (td_host d) (lit "closed after handshake without a request") st1 else st1
        else mkMitm (ms_sem st) (noteServedMITM (ms_env st) (td_host d)) (ms_rec st)
    end.

(** ** The decision, exactly *)

(** A branch that passes before, or fails after, the slot is taken. *)
Ltac passes :=
  cbn; split_and!; [done|done|split; [by intros [? ?]|intuition congruence]|split; [done|lia]|by right|by intros [? ?]].
Ltac fails :=
  cbn; split_and!; [done|done| |done|by left|by intros [? ?]];
  (split; [by intros [? ?]|]); intros (_ & _ & _ & _ & _ & (? & ? & ? & [=]) & _).

(** A TLS flow is intercepted exactly when the rules match its name (the SNI, or the
    address without one), the host is not bypassed, there is a CA, the client offers
    nothing or something the proxy speaks, a slot is free, and the upstream and the
    certificate are ready; it then holds one slot.  Otherwise it is passed through, and
    holds a slot only if it failed after taking one. *)
Theorem tls_decision_exact fc on hello up certFor st :
  let '(st', d, cfg) := decideTLS fc on hello up certFor st in
  let sni := ToLower (ch_ServerName hello) in
  let name := if bool_decide (sni = []) then fc_dstIP fc else sni in
  td_host d = name /\
  (td_pass d = [] <-> is_Some cfg) /\
  (is_Some cfg <->
     hostMatcher_match (Some (cs_hosts (fc_cs fc))) name (fc_dstPort fc) = true /\
     isBypassed (ms_env st) name = false /\ is_Some (cs_minter (fc_cs fc)) /\
     (ch_SupportedProtos hello = [] \/ filterALPN (ch_SupportedProtos hello) (cc_EnableH2 (cs_cfg (fc_cs fc))) <> []) /\
     sm_held (ms_sem st) < sm_cap (ms_sem st) /\
     (exists alpn c t, up = UpstreamReady alpn c t) /\ certFor name = true) /\
  (td_held d = true <-> sm_held (ms_sem st') = sm_held (ms_sem st) + 1) /\
  (td_held d = true \/ sm_held (ms_sem st') = sm_held (ms_sem st)) /\
  (is_Some cfg -> td_held d = true /\ is_Some (td_meta d)).
Proof.
  unfold decideTLS. set (sni := ToLower _). set (name := if bool_decide (sni = []) then _ else sni).
  set (m := hostMatcher_match _ name (fc_dstPort fc)).
  assert (bool_decide (sni = []) && negb (hostMatcher_match (Some (cs_hosts (fc_cs fc))) (fc_dstIP fc) (fc_dstPort fc)) = true
          -> m = false) as Hno.
  { subst m name. case_bool_decide; [|done]. cbn. by intros ->%negb_true_iff. }
  destruct (_ && negb (hostMatcher_match _ (fc_dstIP fc) _)); [rewrite (Hno eq_refl); passes|clear Hno].
  destruct m; [|passes]. cbn [negb]. destruct (isBypassed (ms_env st) name); [passes|].
  case_bool_decide as Hm; cbn [negb]; [|passes].
  destruct (negb (bool_decide (ch_SupportedProtos hello = [])) && _) eqn:Ea.
  { apply andb_true_iff in Ea as [Ea1 Ea2]. to_prop. cbn. split_and!; [done|done| |split; [done|lia]|by right|by intros [? ?]].
    split; [by intros [? ?]|]. intros (_ & _ & _ & [|] & _); done. }
  assert (ch_SupportedProtos hello = [] \/ filterALPN (ch_SupportedProtos hello) (cc_EnableH2 (cs_cfg (fc_cs fc))) <> []) as Hp.
  { apply andb_false_iff in Ea as [Ea|Ea]; [left|right]; by to_prop. }
  destruct (Z.leb_spec (sm_cap (ms_sem st)) (sm_held (ms_sem st))) as [Hc|Hc].
  { cbn. split_and!; [done|done| |split; [done|lia]|by right|by intros [? ?]].
    split; [by intros [? ?]|]. intros (_ & _ & _ & _ & ? & _). lia. }
  destruct up as [e|e asked|alpn c t]; [fails|destruct asked; fails|].
  destruct (certFor name); cbn [negb].
  2: { cbn. split_and!; [done|done| |done|by left|by intros [? ?]]. split; [by intros [? ?]|]. by intros (_ & _ & _ & _ & _ & _ & ?). }
  destruct (if on then _ else _) as [connID s2]. cbn. split_and!; [done|done| |done|by left|done].
  split; [|done]. intros _. split_and!; eauto.
Qed.

(** ** Slots *)

(** Flows decide and finish in any order; [my_live] holds the flows between the two. *)
Record mitmSystem := mkSys { my_st : mitmState; my_live : gmap nat tlsDecision }.

Inductive mitm_step : mitmSystem -> mitmSystem -> Prop :=
| ms_decide s id fc on hello up certFor st' d cfg :
    my_live s !! id = None -> decideTLS fc on hello up certFor (my_st s) = (st', d, cfg) ->
    mitm_step s (mkSys st' (<[id := d]> (my_live s)))
| ms_finish s id d fc on start how :
    my_live s !! id = Some d ->
    mitm_step s (mkSys (finishTLS fc on d start how (my_st s)) (delete id (my_live s)))
| ms_other s st' :
    ms_sem st' = ms_sem (my_st s) -> en_mitmLive (ms_env st') = en_mitmLive (ms_env (my_st s)) ->
    mitm_step s (mkSys st' (my_live s)).

Definition holders (m : gmap nat tlsDecision) : gmap nat tlsDecision := filter (fun e => td_held e.2 = true) m.

Record slots_ok (cap : Z) (s : mitmSystem) : Prop := {
  so_cap : sm_cap (ms_sem (my_st s)) = cap;
  so_held : sm_held (ms_sem (my_st s)) = Z.of_nat (size (holders (my_live s)));
  so_live : en_mitmLive (ms_env (my_st s)) = Z.of_nat (size (holders (my_live s)));
  so_bound : sm_held (ms_sem (my_st s)) <= cap
}.

Lemma holders_insert m id d :
  m !! id = None -> size (holders (<[id := d]> m)) = (size (holders m) + (if td_held d then 1 else 0))%nat.
Proof.
  intros Hn. unfold holders. destruct (td_held d) eqn:Ed.
  - rewrite map_filter_insert_True by done. rewrite map_size_insert_None; [lia|]. by apply map_lookup_filter_None_2; left.
  - rewrite map_filter_insert_False by (cbn; congruence). rewrite delete_id by done. lia.
Qed.

Lemma holders_delete m id d :
  m !! id = Some d -> size (holders m) = (size (holders (delete id m)) + (if td_held d then 1 else 0))%nat.
Proof.
  intros Hs. rewrite <- (holders_insert (delete id m) id d) by apply lookup_delete_eq. by rewrite insert_delete_id.
Qed.

Ltac slot_branch := cbn; split_and!; (done || lia).

Lemma decide_slots fc on hello up certFor st :
  let '(st', d, _) := decideTLS fc on hello up certFor st in
  let n := if td_held d then 1 else 0 in
  sm_cap (ms_sem st') = sm_cap (ms_sem st) /\ sm_held (ms_sem st') = sm_held (ms_sem st) + n /\
  en_mitmLive (ms_env st') = en_mitmLive (ms_env st) + n /\ (td_held d = true -> sm_held (ms_sem st) < sm_cap (ms_sem st)).
Proof.
  unfold decideTLS. set (name := if bool_decide (ToLower (ch_ServerName hello) = []) then _ else _).
  destruct (_ && negb (hostMatcher_match _ (fc_dstIP fc) _)); [slot_branch|].
  destruct (negb (hostMatcher_match _ name _)); [slot_branch|]. destruct (isBypassed _ _); [slot_branch|].
  destruct (negb (bool_decide (is_Some _))); [slot_branch|].
  destruct (negb (bool_decide (ch_SupportedProtos hello = [])) && _); [slot_branch|].
  destruct (Z.leb_spec (sm_cap (ms_sem st)) (sm_held (ms_sem st))); [slot_branch|].
  destruct up; [slot_branch|destruct askedForClientCert; slot_branch|].
  destruct (negb _); [slot_branch|]. destruct (if on then _ else _). slot_branch.
Qed.

Lemma rejected_slots fc on host detail st :
  ms_sem (rejected fc on host detail st) = ms_sem st /\
  en_mitmLive (ms_env (rejected fc on host detail st)) = en_mitmLive (ms_env st).
Proof. unfold rejected. by destruct (cc_AutoBypassPinned _). Qed.

Lemma relayPeeked_slots fc on reason sni alpn start outcome st :
  ms_sem (relayPeeked fc on reason sni alpn start outcome st) = ms_sem st /\
  en_mitmLive (ms_env (relayPeeked fc on reason sni alpn start outcome st)) = en_mitmLive (ms_env st).
Proof.
  unfold relayPeeked, dns_lookup. destruct on; [|done]. by destruct (DNSCache.lookup _ _) as [[c|] name].
Qed.

Lemma finish_slots fc on d start how st :
  let st' := finishTLS fc on d start how st in
  let n := if td_held d then 1 else 0 in
  sm_cap (ms_sem st') = sm_cap (ms_sem st) /\ sm_held (ms_sem st') = sm_held (ms_sem st) - n /\
  en_mitmLive (ms_env st') = en_mitmLive (ms_env st) - n.
Proof.
  unfold finishTLS. set (st1 := match how with Relayed _ => _ | _ => _ end).
  assert (ms_sem st1 = ms_sem st /\ en_mitmLive (ms_env st1) = en_mitmLive (ms_env st)) as [E1 E2].
  { subst st1. destruct how as [outcome|detail|n endTime].
    - apply relayPeeked_slots.
    - destruct (td_meta d); [|done]. case_match; [apply rejected_slots|done].
    - case_match; [|done]. cbn [noteEmptyMITM]. case_match; [|done].
      match goal with |- context [rejected ?a ?b ?c ?e ?f] => destruct (rejected_slots a b c e f) as [-> ->] end. done. }
  unfold release. destruct (td_held d); cbn; rewrite ?E1, ?E2; split_and!; (done || lia).
Qed.

(** Slots are neither leaked nor oversold: whatever the flows do and in whatever
    order they decide and finish, the slots taken and the live count shown in the status
    both equal the number of flows holding a slot, which never exceeds the capacity. *)
Theorem mitm_slots_conserved cap env s st :
  0 <= cap -> en_mitmLive env = 0 ->
  rtc mitm_step (mkSys (mkMitm {| sm_cap := cap; sm_held := 0 |} env st) ∅) s ->
  sm_held (ms_sem (my_st s)) = Z.of_nat (size (holders (my_live s))) /\
  en_mitmLive (ms_env (my_st s)) = Z.of_nat (size (holders (my_live s))) /\
  0 <= sm_held (ms_sem (my_st s)) <= cap.
Proof.
  intros Hcap Henv Hr. set (s0 := mkSys _ _) in Hr.
  assert (slots_ok cap s0) as H0 by (split; cbn; rewrite ?Henv; done).
  assert (slots_ok cap s) as [S1 S2 S3 S4]; [|split_and!; lia]. clear - H0 Hr.
  induction Hr as [s|s s1 s2 Hs Hr IH]; [done|]. apply IH. clear IH Hr. destruct H0 as [S1 S2 S3 S4].
  destruct Hs as [s id fc on hello up certFor st' d cfg Hn Hd0|s id d fc on start how Hl|s st' E1 E2].
  - pose proof (decide_slots fc on hello up certFor (my_st s)) as Hd.
    rewrite Hd0 in Hd. destruct Hd as (D1 & D2 & D3 & D4).
    pose proof (holders_insert (my_live s) id d Hn). split; cbn; destruct (td_held d); try specialize (D4 eq_refl); lia.
  - destruct (finish_slots fc on d start how (my_st s)) as (F1 & F2 & F3).
    pose proof (holders_delete (my_live s) id d Hl). split; cbn; destruct (td_held d); lia.
  - split; cbn; rewrite ?E1, ?E2; done.
Qed.
End Mitm.

(** ** Witness *)

#[local] Existing Instance caseless_tables.
#[local] Instance no_regexp_mitm : Regexp :=
  {| re := unit; re_Compile := fun _ => None; re_MatchString := fun _ _ => false; re_ReplaceAll := fun _ b _ => Some b |}.

Definition sample_cs : captureState :=
  mkState sample_config (compileHostRules [lit "*.example.com"]) (Some {| cm_caPEM := lit "ca"; cm_id := 0 |}) (Some 1%nat)
    [] None 0%nat.
Definition sample_fc : flowCtx := {|
  fc_cs := sample_cs; fc_dstIP := lit "192.0.2.1"; fc_dstPort := 443; fc_dstAddr := lit "192.0.2.1:443";
  fc_srcAddr := lit "10.0.0.2:4000" |}.
Definition sample_hello : clientHello :=
  {| ch_ServerName := lit "API.example.com"; ch_SupportedProtos := [lit "h2"; lit "http/1.1"] |}.
Definition sample_env : captureEnv := mkEnv (lit "ssh") newFlowRegistry newDNSCache true ∅ ∅ 0 0.
Definition sample_slots : mitmSystem (S := txLog) :=
  mkSys (mkMitm {| sm_cap := 1; sm_held := 0 |} sample_env empty_log) ∅.
Definition sample_decided : mitmState (S := txLog) * tlsDecision * option tlsConfig :=
  decideTLS 0 sample_fc true sample_hello (UpstreamReady (lit "http/1.1") 5 7) (fun _ => true) (my_st sample_slots).
Definition sample_taken : mitmSystem (S := txLog) :=
  mkSys sample_decided.1.1 (<[0%nat := sample_decided.1.2]> ∅).

Lemma mitm_slots_conserved_witness :
  sm_held (ms_sem (my_st sample_taken)) = 1 /\
  sm_held (ms_sem (my_st sample_taken)) = Z.of_nat (size (holders (my_live sample_taken))) /\
  en_mitmLive (ms_env (my_st sample_taken)) = Z.of_nat (size (holders (my_live sample_taken))) /\
  0 <= sm_held (ms_sem (my_st sample_taken)) <= 1.
Proof.
  split; [vm_compute; reflexivity|].
  apply (mitm_slots_conserved 0 1 sample_env sample_taken empty_log); [lia|reflexivity|].
  apply rtc_once. eapply (ms_decide 0 sample_slots 0 sample_fc true sample_hello
    (UpstreamReady (lit "http/1.1") 5 7) (fun _ => true)); vm_compute; reflexivity.
Defined.
