(* ===== verification/UDPForwarder.v ===== *)
(** * The UDP forwarder

    src/vpntunnel/udphandler.go: which UDP flows the netstack lets through, the table of
    tracked flows with its cap, eviction and cleanup, what each direction does with a
    datagram, and the DNS exchanges over TCP and UDP.  A tracker is shared by the table
    and by the goroutine that serves its flow, so trackers live in a store and the
    table maps keys to tracker ids; the goroutine's deferred clean-up is split into the
    steps other goroutines can interleave with. *)

From S2P Require Import Prelude GoStrings NetIP IPPacket DNSMessage.

Definition second : Z := 1000000000.
Definition udpIdleTimeout : Z := 60 * second.
Definition udpIdleTimeoutQUIC : Z := 180 * second.
Definition udpAdmissionEvictAge : Z := 5 * second.
Definition udpBufferSize : Z := 16 * 1024.
Definition maxActiveUDPFlows : Z := 512.
Definition ipv4Overhead : Z := 28.

(** Ranging over a Go map visits every key once, in no fixed order. *)
Class MapRange := {
  range_keys : gmap bytes nat -> list bytes;
  range_keys_perm : forall m, range_keys m ≡ₚ map fst (map_to_list m)
}.

(** ** State *)

(** How far the goroutine of a flow has come: serving it, out of the table, counted as
    closed, and gone with its endpoint closed. *)
Inductive phase := Serving | Unlinked | Counted | Gone.
#[export] Instance phase_eq_dec : EqDecision phase.
Proof. solve_decision. Defined.

Record udpConnTracker := mkTracker {
  ut_key : bytes;
  ut_remote : option bool;      (* the remote, and whether it is still open *)
  ut_cancelled : bool;
  ut_lastUse : Z;
  ut_idleTimeout : Z;
  ut_phase : phase
}.

Record udpForwarder := mkForwarder {
  uf_dialer : bool;
  uf_tcpDial : bool;
  uf_blockQUIC : bool;
  uf_maxPayload : Z;
  uf_dnsViaTCP : bool;
  uf_conns : gmap bytes nat;
  uf_store : gmap nat udpConnTracker;
  uf_fresh : nat;
  uf_active : Z;                (* [stats.activeUDPConns] *)
  uf_drops : Z                  (* [stats.udpCapacityDrops] *)
}.

Definition newUDPForwarder (dialer tcpDial blockQUIC : bool) (tunMTU datagramBudget : Z) : udpForwarder :=
  let maxPayload := tunMTU - ipv4Overhead in
  let maxPayload := if (0 <? datagramBudget) && (datagramBudget <? maxPayload) then datagramBudget else maxPayload in
  mkForwarder dialer tcpDial blockQUIC maxPayload false ∅ ∅ 0%nat 0 0.

Definition with_table (f : udpForwarder) (conns : gmap bytes nat) (store : gmap nat udpConnTracker) : udpForwarder :=
  mkForwarder (uf_dialer f) (uf_tcpDial f) (uf_blockQUIC f) (uf_maxPayload f) (uf_dnsViaTCP f) conns store
    (uf_fresh f) (uf_active f) (uf_drops f).

(** The [isDNS] closure. *)
Definition isDNS (addr : bytes) : bool :=
  match SplitHostPort addr with Some (_, port) => bool_decide (port = lit "53") | None => false end.

Definition allowFlow (f : udpForwarder) (captureBlocking : bool) (dstPort : Z) : bool :=
  if negb (uf_dialer f) then dstPort =? 53
  else negb ((uf_blockQUIC f || captureBlocking) && (dstPort =? 443)).

Section Forwarder.
Context `{MR : MapRange} {C : DNSCodec}.

(** ** Removing flows from the table *)

(** Closing the remote, if there is one, and cancelling the context. *)
Definition shut (t : udpConnTracker) : udpConnTracker :=
  mkTracker (ut_key t) (match ut_remote t with Some _ => Some false | None => None end) true
    (ut_lastUse t) (ut_idleTimeout t) (ut_phase t).

(** The body shared by [closePort], [cleanup] and the eviction, for one table entry. *)
Definition drop_entry (f : udpForwarder) (key : bytes) : udpForwarder :=
  match uf_conns f !! key with
  | Some id => with_table f (delete key (uf_conns f)) (alter shut id (uf_store f))
  | None => f
  end.

Definition tracked (f : udpForwarder) (key : bytes) : option udpConnTracker :=
  id ← uf_conns f !! key; uf_store f !! id.

(** [closePort] and [cleanup] visit every key of the table, in the order of the range. *)
Definition closePort (f : udpForwarder) (dstPort : Z) : udpForwarder :=
  fold_left (fun f key => if HasSuffix key ([58] ++ Itoa dstPort) then drop_entry f key else f)
    (range_keys (uf_conns f)) f.

Definition idle_over (f : udpForwarder) (now : Z) (key : bytes) : bool :=
  match tracked f key with Some t => ut_idleTimeout t <? now - ut_lastUse t | None => false end.
Definition cleanup (f : udpForwarder) (now : Z) : udpForwarder :=
  fold_left (fun f key => if idle_over f now key then drop_entry f key else f)
    (range_keys (uf_conns f)) f.

(** The loop of [evictOldestIdleLocked]: the victim so far, and the age to beat. *)
Fixpoint evict_loop (f : udpForwarder) (now minIdle : Z) (keys : list bytes) (victim : option bytes) (oldest : Z)
    : option bytes :=
  match keys with
  | [] => victim
  | key :: keys' =>
      match tracked f key with
      | Some t =>
          if now - ut_lastUse t <? minIdle then evict_loop f now minIdle keys' victim oldest
          else if bool_decide (victim = None) || (ut_lastUse t <? oldest)
          then evict_loop f now minIdle keys' (Some key) (ut_lastUse t)
          else evict_loop f now minIdle keys' victim oldest
      | None => evict_loop f now minIdle keys' victim oldest
      end
  end.
Definition evictOldestIdleLocked (f : udpForwarder) (now minIdle : Z) : udpForwarder * bool :=
  match evict_loop f now minIdle (range_keys (uf_conns f)) None now with
  | Some key => (drop_entry f key, true)
  | None => (f, false)
  end.

(** ** A new flow *)

Inductive admission := NoEndpoint | Existing | Dropped | Opened (id : nat).

Definition flowKey (src dst : bytes) : bytes := src ++ lit "->" ++ dst.

(** [handleUDP] up to the start of its goroutine.  [created] tells whether gVisor made
    the endpoint; the endpoint is closed again unless the flow opens. *)
Definition handleUDP (f : udpForwarder) (now : Z) (srcHost : bytes) (srcPort : Z) (dstHost : bytes) (dstPort : Z)
    (created : bool) : udpForwarder * admission :=
  let dstAddr := JoinHostPort dstHost (Itoa dstPort) in
  let srcAddr := JoinHostPort srcHost (Itoa srcPort) in
  let key := flowKey srcAddr dstAddr in
  if negb created then (f, NoEndpoint)
  else match uf_conns f !! key with
  | Some id =>
      (with_table f (uf_conns f)
         (alter (fun t => mkTracker (ut_key t) (ut_remote t) (ut_cancelled t) now (ut_idleTimeout t) (ut_phase t)) id (uf_store f)),
       Existing)
  | None =>
      let f1 := if maxActiveUDPFlows <=? Z.of_nat (size (uf_conns f))
                then (evictOldestIdleLocked f now udpAdmissionEvictAge).1 else f in
      if maxActiveUDPFlows <=? Z.of_nat (size (uf_conns f1)) then
        (mkForwarder (uf_dialer f1) (uf_tcpDial f1) (uf_blockQUIC f1) (uf_maxPayload f1) (uf_dnsViaTCP f1)
           (uf_conns f1) (uf_store f1) (uf_fresh f1) (uf_active f1) (uf_drops f1 + 1), Dropped)
      else
        let idle := if dstPort =? 443 then udpIdleTimeoutQUIC else udpIdleTimeout in
        let t := mkTracker key None false now idle Serving in
        (mkForwarder (uf_dialer f1) (uf_tcpDial f1) (uf_blockQUIC f1) (uf_maxPayload f1) (uf_dnsViaTCP f1)
           (<[key := uf_fresh f1]> (uf_conns f1)) (<[uf_fresh f1 := t]> (uf_store f1)) (S (uf_fresh f1))
           (uf_active f1 + 1) (uf_drops f1), Opened (uf_fresh f1))
  end.

(** ** The goroutine of a flow *)

(** What the goroutine does first. *)
Inductive serveMode := DNSOverTCP | Nothing | NativeUDP.
Definition serveModeOf (f : udpForwarder) (dstAddr : bytes) : serveMode :=
  if negb (uf_dialer f) || (uf_dnsViaTCP f && isDNS dstAddr)
  then if isDNS dstAddr then DNSOverTCP else Nothing
  else NativeUDP.

(** [tracker.remote = remote] *)
Definition flow_dialed (f : udpForwarder) (id : nat) : udpForwarder :=
  with_table f (uf_conns f)
    (alter (fun t => mkTracker (ut_key t) (Some true) (ut_cancelled t) (ut_lastUse t) (ut_idleTimeout t) (ut_phase t)) id (uf_store f)).
(** [tracker.lastUse = time.Now()] *)
Definition flow_used (f : udpForwarder) (id : nat) (now : Z) : udpForwarder :=
  with_table f (uf_conns f)
    (alter (fun t => mkTracker (ut_key t) (ut_remote t) (ut_cancelled t) now (ut_idleTimeout t) (ut_phase t)) id (uf_store f)).

(** The deferred function: the table entry goes, the count, then the endpoint. *)
Definition at_phase (p : phase) (t : udpConnTracker) : udpConnTracker :=
  mkTracker (ut_key t) (ut_remote t) (ut_cancelled t) (ut_lastUse t) (ut_idleTimeout t) p.
Definition defer_unlink (f : udpForwarder) (id : nat) : udpForwarder :=
  match uf_store f !! id with
  | Some t => with_table f (delete (ut_key t) (uf_conns f)) (<[id := at_phase Unlinked t]> (uf_store f))
  | None => f
  end.
Definition defer_count (f : udpForwarder) (id : nat) : udpForwarder :=
  mkForwarder (uf_dialer f) (uf_tcpDial f) (uf_blockQUIC f) (uf_maxPayload f) (uf_dnsViaTCP f) (uf_conns f)
    (alter (at_phase Counted) id (uf_store f)) (uf_fresh f) (uf_active f - 1) (uf_drops f).
Definition defer_close (f : udpForwarder) (id : nat) : udpForwarder :=
  with_table f (uf_conns f) (alter (fun t => at_phase Gone (shut t)) id (uf_store f)).

(** ** Datagrams *)

(** [interceptDNSQuery], given [captureBlocking()]. *)
Definition interceptDNSQuery (blocking : bool) (query : bytes) : option bytes :=
  if blocking then synthesizeHTTPSNoData query else None.

Inductive dataAction := WriteRemote (d : bytes) | WriteNetstack (d : bytes) | ObserveDNSResponse (d : bytes).

(** One datagram of the loop from the netstack to the remote, and back. *)
Definition toRemote (blocking dns : bool) (d : bytes) : list dataAction :=
  if bool_decide (d = []) then []
  else if dns then match interceptDNSQuery blocking d with Some a => [WriteNetstack a] | None => [WriteRemote d] end
  else [WriteRemote d].
Definition fromRemote (f : udpForwarder) (dns : bool) (d : bytes) : list dataAction :=
  if bool_decide (d = []) then []
  else if uf_maxPayload f <? len d then []
  else (if dns then [ObserveDNSResponse d] else []) ++ [WriteNetstack d].

(** [readFull] of [n] bytes from a connection whose reads return the given chunks. *)
Fixpoint readFull (chunks : list bytes) (n : Z) (acc : bytes) : option (bytes * list bytes) :=
  if n <=? 0 then Some (acc, chunks)
  else match chunks with
  | [] => None
  | c :: chunks' =>
      if n <? len c then Some (acc ++ take (Z.to_nat n) c, drop (Z.to_nat n) c :: chunks')
      else readFull chunks' (n - len c) (acc ++ c)
  end.

(** The length-prefixed query [dnsExchangeTCP] writes. *)
Definition tcpQuery (query : bytes) : bytes := [u8 (Z.shiftr (len query) 8); Z.land (len query) 255] ++ query.

(** [dnsExchangeTCP]; [dial] is the server's connection: what its reads return once the
    query is written, [None] when dialing or writing fails. *)
Definition dnsExchangeTCP (dial : option (bytes -> list bytes)) (query : bytes) : option bytes :=
  peer ← dial;
  '(lenBuf, rest) ← readFull (peer (tcpQuery query)) 2 [];
  let respLen := Z.lor (Z.shiftl (at_ lenBuf 0) 8) (at_ lenBuf 1) in
  if udpBufferSize <? respLen then None
  else '(resp, _) ← readFull rest respLen []; Some resp.

(** [handleDNSOverTCP], once a datagram is there ([None]: the endpoint or the context
    ended first). *)
Definition handleDNSOverTCP (f : udpForwarder) (blocking : bool) (read : option bytes) (dial : option (bytes -> list bytes))
    : list dataAction :=
  if negb (uf_tcpDial f) then []
  else match read with
  | None => []
  | Some d =>
      let query := take (Z.to_nat udpBufferSize) d in
      if len query <? 12 then []
      else match interceptDNSQuery blocking query with
      | Some answer => [WriteNetstack answer]
      | None =>
          match dnsExchangeTCP dial query with
          | Some resp => [ObserveDNSResponse resp; WriteNetstack resp]
          | None => []
          end
      end
  end.

(** ** The forwarder as a step relation *)

(** A run of the forwarder: new flows, the goroutines of the open ones in any
    interleaving, and the sweeps.  gVisor hands a packet to [handleUDP] only when no
    endpoint has the packet's addresses, and refuses a second endpoint with them; the
    endpoint of a flow lives until [defer_close]. *)
Definition registered (f : udpForwarder) (key : bytes) : Prop :=
  exists id t, uf_store f !! id = Some t /\ ut_key t = key /\ ut_phase t <> Gone.

Definition in_phase (f : udpForwarder) (id : nat) (p : phase) : Prop :=
  exists t, uf_store f !! id = Some t /\ ut_phase t = p.

Inductive ustep : udpForwarder -> udpForwarder -> Prop :=
| u_handle f now sh sp dh dp created :
    (registered f (flowKey (JoinHostPort sh (Itoa sp)) (JoinHostPort dh (Itoa dp))) -> created = false) ->
    ustep f (handleUDP f now sh sp dh dp created).1
| u_dialed f id : in_phase f id Serving -> ustep f (flow_dialed f id)
| u_used f id now : in_phase f id Serving -> ustep f (flow_used f id now)
| u_unlink f id : in_phase f id Serving -> ustep f (defer_unlink f id)
| u_count f id : in_phase f id Unlinked -> ustep f (defer_count f id)
| u_close f id : in_phase f id Counted -> ustep f (defer_close f id)
| u_closePort f port : ustep f (closePort f port)
| u_cleanup f now : ustep f (cleanup f now).
End Forwarder.

(** ** The table invariant *)

(** Whether [activeUDPConns] still counts the flow of a tracker. *)
Definition counted (t : udpConnTracker) : bool :=
  match ut_phase t with Serving | Unlinked => true | _ => false end.
Definition count_active (m : gmap nat udpConnTracker) : Z :=
  Z.of_nat (size (filter (fun e : nat * udpConnTracker => counted e.2 = true) m)).

Lemma count_insert m id t' :
  count_active (<[id := t']> m) =
  count_active m - match m !! id with Some t => Z.b2z (counted t) | None => 0 end + Z.b2z (counted t').
Proof.
  unfold count_active. rewrite <- (insert_delete_eq m), map_filter_insert.
  assert (filter (fun e : nat * udpConnTracker => counted e.2 = true) (delete id m) !! id = None) as Hn
    by (apply map_lookup_filter_None_2; left; apply lookup_delete_eq).
  assert (Z.of_nat (size (filter (fun e : nat * udpConnTracker => counted e.2 = true) (delete id m))) =
          Z.of_nat (size (filter (fun e : nat * udpConnTracker => counted e.2 = true) m))
          - match m !! id with Some t => Z.b2z (counted t) | None => 0 end) as Hd.
  { destruct (m !! id) as [t|] eqn:E; [|rewrite delete_id by done; lia].
    rewrite <- (insert_delete_id m id t E) at 2. rewrite map_filter_insert. cbn.
    destruct (counted t) eqn:Ht; cbn.
    - rewrite decide_True by done. rewrite map_size_insert_None by done. lia.
    - rewrite decide_False by done. rewrite delete_delete_eq. lia. }
  cbn. destruct (counted t'); cbn.
  - rewrite decide_True by done. rewrite map_size_insert_None by done. lia.
  - rewrite decide_False by done. rewrite delete_delete_eq. lia.
Qed.

Lemma alter_as_insert (g : udpConnTracker -> udpConnTracker) (m : gmap nat udpConnTracker) id t :
  m !! id = Some t -> alter g id m = <[id := g t]> m.
Proof.
  intros E. apply map_eq. intros j. destruct (decide (id = j)) as [<-|].
  - by rewrite lookup_alter_eq, lookup_insert_eq, E.
  - by rewrite lookup_alter_ne, lookup_insert_ne.
Qed.

(** The table holds at most 512 flows; it is exactly the flows still served and not
    cancelled; flows whose endpoints are open have distinct addresses; and the
    statistics count the flows whose clean-up has not got that far. *)
Record fwd_ok (f : udpForwarder) : Prop := {
  fk_cap : Z.of_nat (size (uf_conns f)) <= maxActiveUDPFlows;
  fk_fresh : forall id t, uf_store f !! id = Some t -> (id < uf_fresh f)%nat;
  fk_conns : forall k id, uf_conns f !! k = Some id ->
    exists t, uf_store f !! id = Some t /\ ut_key t = k /\ ut_phase t = Serving /\ ut_cancelled t = false;
  fk_live : forall id t, uf_store f !! id = Some t -> ut_phase t = Serving -> ut_cancelled t = false ->
    uf_conns f !! ut_key t = Some id;
  fk_unique : forall id id' t t', uf_store f !! id = Some t -> uf_store f !! id' = Some t' ->
    ut_phase t <> Gone -> ut_phase t' <> Gone -> ut_key t = ut_key t' -> id = id';
  fk_active : uf_active f = count_active (uf_store f)
}.

Lemma newUDPForwarder_ok d t b mtu budget : fwd_ok (newUDPForwarder d t b mtu budget).
Proof.
  constructor; cbn.
  - rewrite map_size_empty. unfold maxActiveUDPFlows. lia.
  - intros id x. by rewrite lookup_empty.
  - intros k id. by rewrite lookup_empty.
  - intros id x. by rewrite lookup_empty.
  - intros id id' x y. by rewrite lookup_empty.
  - done.
Qed.

(** The same forwarder with another table, store and count. *)
Definition put_state (f : udpForwarder) (conns : gmap bytes nat) (store : gmap nat udpConnTracker) (active : Z) : udpForwarder :=
  mkForwarder (uf_dialer f) (uf_tcpDial f) (uf_blockQUIC f) (uf_maxPayload f) (uf_dnsViaTCP f) conns store
    (uf_fresh f) active (uf_drops f).

(** A tracker whose time of use or remote changes. *)
Lemma tracker_touch_ok f id t t' :
  fwd_ok f -> uf_store f !! id = Some t ->
  ut_key t' = ut_key t -> ut_phase t' = ut_phase t -> ut_cancelled t' = ut_cancelled t ->
  fwd_ok (with_table f (uf_conns f) (<[id := t']> (uf_store f))).
Proof.
  intros [Hcap Hfr Hc Hl Hu Ha] E Hk Hp Hx. constructor; cbn; try done.
  - intros j u. rewrite lookup_insert_Some. intros [[<- _]|[_ ?]]; eauto.
  - intros k j Hj. destruct (Hc k j Hj) as (u & Eu & Ku & Pu & Xu). destruct (decide (id = j)) as [<-|].
    + exists t'. rewrite lookup_insert_eq. simplify_eq. by rewrite Hk, Hp, Hx.
    + exists u. by rewrite lookup_insert_ne.
  - intros j u. rewrite lookup_insert_Some. intros [[<- <-]|[_ Hj]]; [|eauto].
    rewrite Hk, Hp, Hx. eauto.
  - intros j j' u u'. rewrite !lookup_insert_Some.
    intros [[<- <-]|[_ Hj]] [[<- <-]|[_ Hj']]; rewrite ?Hp, ?Hk; eauto.
  - rewrite count_insert, E. unfold counted. rewrite Hp. lia.
Qed.

(** A tracker that leaves the table, or is on its way out. *)
Lemma leave_ok f id t t' active :
  fwd_ok f -> uf_store f !! id = Some t -> ut_phase t <> Gone ->
  ut_key t' = ut_key t -> (ut_phase t' = Serving -> ut_cancelled t' = true) ->
  active = uf_active f - Z.b2z (counted t) + Z.b2z (counted t') ->
  fwd_ok (put_state f (delete (ut_key t) (uf_conns f)) (<[id := t']> (uf_store f)) active).
Proof.
  intros [Hcap Hfr Hc Hl Hu Ha] E Hg Hk Hs ->. constructor; cbn.
  - rewrite map_size_delete. destruct (uf_conns f !! ut_key t); cbn; lia.
  - intros j u. rewrite lookup_insert_Some. intros [[<- _]|[_ ?]]; eauto.
  - intros k j. rewrite lookup_delete_Some. intros [Hne Hj].
    destruct (Hc k j Hj) as (u & Eu & Ku & Pu & Xu). exists u.
    rewrite lookup_insert_ne; [done|]. intros <-. congruence.
  - intros j u. rewrite lookup_insert_Some. intros [[<- <-]|[Hne Hj]] Pu Xu; [by rewrite Hs in Xu|].
    rewrite lookup_delete_Some. split; [|by eapply Hl]. intros Hku. apply Hne.
    eapply Hu; eauto. by rewrite Pu.
  - assert (forall j u, uf_store f !! j = Some u -> ut_phase u <> Gone -> ut_key u = ut_key t -> j = id) as Hone
      by (intros; eapply Hu; eauto).
    intros j j' u u'. rewrite !lookup_insert_Some.
    intros [[<- <-]|[_ Hj]] [[<- <-]|[_ Hj']]; rewrite ?Hk; intros ? ? Hkk; eauto.
  - rewrite count_insert, E. lia.
Qed.

(** A key that is not in the table may be deleted. *)
Lemma leaving_untracked f id t :
  fwd_ok f -> uf_store f !! id = Some t -> ut_phase t <> Gone -> ut_phase t <> Serving ->
  delete (ut_key t) (uf_conns f) = uf_conns f.
Proof.
  intros Hok E Hg Hs. apply delete_id. destruct (uf_conns f !! ut_key t) as [j|] eqn:Ej; [|done]. exfalso.
  destruct (fk_conns _ Hok _ _ Ej) as (u & Eu & Ku & Pu & _).
  assert (j = id) as -> by (eapply (fk_unique _ Hok); eauto; by rewrite Pu). simplify_eq.
Qed.

Section Invariant.
Context `{MR : MapRange}.

Lemma drop_entry_ok f key : fwd_ok f -> fwd_ok (drop_entry f key).
Proof.
  intros Hok. unfold drop_entry. destruct (uf_conns f !! key) as [id|] eqn:E; [|done].
  destruct (fk_conns _ Hok _ _ E) as (t & Et & <- & Pt & Xt).
  rewrite (alter_as_insert _ _ _ _ Et).
  eapply (leave_ok f id t (shut t)); eauto; [by rewrite Pt|].
  unfold counted. cbn. lia.
Qed.

Lemma drops_ok (test : udpForwarder -> bytes -> bool) keys f :
  fwd_ok f -> fwd_ok (fold_left (fun f key => if test f key then drop_entry f key else f) keys f).
Proof.
  revert f. induction keys as [|k keys IH]; intros f Hok; cbn; [done|].
  apply IH. destruct (test f k); [by apply drop_entry_ok|done].
Qed.

Lemma eviction_ok f now minIdle : fwd_ok f -> fwd_ok (evictOldestIdleLocked f now minIdle).1.
Proof. intros Hok. unfold evictOldestIdleLocked. destruct (evict_loop _ _ _ _ _ _); [by apply drop_entry_ok|done]. Qed.

(** Making room changes neither the ids nor which endpoints are open. *)
Lemma drop_entry_store f key id t :
  uf_store (drop_entry f key) !! id = Some t ->
  exists u, uf_store f !! id = Some u /\ ut_key u = ut_key t /\ ut_phase u = ut_phase t.
Proof.
  unfold drop_entry. destruct (uf_conns f !! key) as [j|]; cbn; [|eauto].
  rewrite lookup_alter_Some. intros [(-> & u & Eu & ->)|[_ ?]]; eauto.
Qed.
Lemma drop_entry_conns f key : uf_conns (drop_entry f key) = delete key (uf_conns f).
Proof.
  unfold drop_entry. destruct (uf_conns f !! key) eqn:E; [done|]. by rewrite delete_id.
Qed.
Lemma drop_entry_fresh f key : uf_fresh (drop_entry f key) = uf_fresh f.
Proof. unfold drop_entry. by destruct (uf_conns f !! key). Qed.
Lemma drop_entry_drops f key : uf_drops (drop_entry f key) = uf_drops f.
Proof. unfold drop_entry. by destruct (uf_conns f !! key). Qed.

Lemma evict_registered f now minIdle key :
  registered (evictOldestIdleLocked f now minIdle).1 key -> registered f key.
Proof.
  unfold evictOldestIdleLocked. destruct (evict_loop _ _ _ _ _ _) as [k|]; [|done]. cbn.
  intros (id & t & E & Hk & Hp). apply drop_entry_store in E as (u & Eu & Ku & Pu).
  exists id, u. split; [done|]. rewrite Ku, Pu. done.
Qed.

(** A new flow, in a table with room, at addresses no open endpoint has. *)
Lemma open_ok f key now idle :
  fwd_ok f -> Z.of_nat (size (uf_conns f)) < maxActiveUDPFlows -> ~ registered f key ->
  fwd_ok (mkForwarder (uf_dialer f) (uf_tcpDial f) (uf_blockQUIC f) (uf_maxPayload f) (uf_dnsViaTCP f)
            (<[key := uf_fresh f]> (uf_conns f))
            (<[uf_fresh f := mkTracker key None false now idle Serving]> (uf_store f)) (S (uf_fresh f))
            (uf_active f + 1) (uf_drops f)).
Proof.
  intros [Hcap Hfr Hc Hl Hu Ha] Hroom Hreg.
  assert (uf_store f !! uf_fresh f = None) as Hn.
  { destruct (uf_store f !! uf_fresh f) as [t|] eqn:E; [|done]. apply Hfr in E. lia. }
  assert (forall id t, uf_store f !! id = Some t -> ut_phase t <> Gone -> ut_key t <> key) as Hother
    by (intros id t E Hg <-; apply Hreg; by exists id, t).
  constructor; cbn.
  - rewrite map_size_insert. destruct (uf_conns f !! key); cbn; lia.
  - intros id t. rewrite lookup_insert_Some. intros [[<- _]|[_ E]]; [lia|]. apply Hfr in E. lia.
  - intros k id. rewrite lookup_insert_Some. intros [[<- <-]|[Hne E]].
    + eexists. by rewrite lookup_insert_eq.
    + destruct (Hc _ _ E) as (t & Et & ?). exists t. rewrite lookup_insert_ne; [done|]. intros <-. congruence.
  - intros id t. rewrite lookup_insert_Some. intros [[<- <-]|[Hne E]] Pt Xt; [by rewrite lookup_insert_eq|].
    rewrite lookup_insert_ne; [by eapply Hl|]. intros Hkk. eapply Hother; eauto. by rewrite Pt.
  - intros id id' t t'. rewrite !lookup_insert_Some.
    intros [[<- <-]|[_ E]] [[<- <-]|[_ E']] Hg Hg' Hkk; [done| | |by eapply Hu].
    + exfalso. by eapply Hother.
    + exfalso. by eapply Hother.
  - rewrite count_insert, Hn. cbn. lia.
Qed.

Lemma handleUDP_ok f now sh sp dh dp created :
  fwd_ok f -> (registered f (flowKey (JoinHostPort sh (Itoa sp)) (JoinHostPort dh (Itoa dp))) -> created = false) ->
  fwd_ok (handleUDP f now sh sp dh dp created).1.
Proof.
  intros Hok Hcr. unfold handleUDP. destruct created; cbn [negb]; [|done].
  set (key := flowKey _ _) in *. destruct (uf_conns f !! key) as [id|] eqn:E.
  - destruct (fk_conns _ Hok _ _ E) as (t & Et & Kt & Pt & _). specialize (Hcr ltac:(exists id, t; by rewrite Pt)). done.
  - set (f1 := if _ <=? _ then _ else f).
    assert (fwd_ok f1 /\ ~ registered f1 key) as [Hok1 Hr1].
    { subst f1. destruct (_ <=? _); [split; [by apply eviction_ok|]|split; [done|]].
      - intros Hr. apply evict_registered in Hr. by specialize (Hcr Hr).
      - intros Hr. by specialize (Hcr Hr). }
    clearbody f1. destruct (maxActiveUDPFlows <=? _) eqn:Hfull; cbn; to_prop.
    + destruct Hok1 as [H1 H2 H3 H4 H5 H6]. constructor; [exact H1|exact H2|exact H3|exact H4|exact H5|exact H6].
    + by apply open_ok.
Qed.

Lemma ustep_ok f f' : ustep f f' -> fwd_ok f -> fwd_ok f'.
Proof.
  intros Hst Hok. destruct Hst as [? ? ? ? ? ? ? Hcr | f id (t & E & P) | f id now (t & E & P) | f id (t & E & P)
    | f id (t & E & P) | f id (t & E & P) | f port | f now].
  - by apply handleUDP_ok.
  - unfold flow_dialed. rewrite (alter_as_insert _ _ _ _ E). by eapply tracker_touch_ok.
  - unfold flow_used. rewrite (alter_as_insert _ _ _ _ E). by eapply tracker_touch_ok.
  - unfold defer_unlink. rewrite E. eapply (leave_ok f id t (at_phase Unlinked t)); eauto; rewrite ?P; try done.
    unfold counted. cbn. rewrite P. cbn. lia.
  - unfold defer_count. rewrite (alter_as_insert _ _ _ _ E).
    rewrite <- (leaving_untracked f id t) at 1; try done; rewrite ?P; try done.
    eapply (leave_ok f id t (at_phase Counted t)); eauto; rewrite ?P; try done.
    unfold counted. cbn. rewrite P. cbn. lia.
  - unfold defer_close. rewrite (alter_as_insert _ _ _ _ E).
    rewrite <- (leaving_untracked f id t) at 1; try done; rewrite ?P; try done.
    eapply (leave_ok f id t (at_phase Gone (shut t))); eauto; rewrite ?P; try done.
    unfold counted. cbn. rewrite P. cbn. lia.
  - apply (drops_ok (fun _ key => HasSuffix key ([58] ++ Itoa port))). done.
  - apply (drops_ok (fun f => idle_over f now)). done.
Qed.
End Invariant.

(** ** What the sweeps remove *)

Section Sweeps.
Context `{MR : MapRange}.

Lemma range_keys_elem (m : gmap bytes nat) k : k ∈ range_keys m <-> is_Some (m !! k).
Proof.
  rewrite range_keys_perm. setoid_rewrite list_elem_of_fmap. split.
  - intros ([k' v] & -> & H). apply elem_of_map_to_list in H. by exists v.
  - intros [v H]. exists (k, v). split; [done|]. by apply elem_of_map_to_list.
Qed.
Lemma range_keys_nodup (m : gmap bytes nat) : NoDup (range_keys m).
Proof. rewrite range_keys_perm. apply NoDup_fst_map_to_list. Qed.

(** The age of a flow survives the removal of another. *)
Lemma drop_entry_tracked f k k' :
  k <> k' ->
  match tracked (drop_entry f k) k', tracked f k' with
  | Some t, Some u => ut_lastUse t = ut_lastUse u /\ ut_idleTimeout t = ut_idleTimeout u
  | None, None => True
  | _, _ => False
  end.
Proof.
  intros Hne. unfold tracked. rewrite drop_entry_conns, lookup_delete_ne by done.
  destruct (uf_conns f !! k') as [id|]; cbn; [|done]. unfold drop_entry.
  destruct (uf_conns f !! k) as [j|]; cbn; [|by destruct (uf_store f !! id)].
  destruct (decide (j = id)) as [->|].
  - rewrite lookup_alter_eq. by destruct (uf_store f !! id).
  - rewrite lookup_alter_ne by done. by destruct (uf_store f !! id).
Qed.

Lemma drops_conns (test : udpForwarder -> bytes -> bool) keys f k :
  (forall f k k', k <> k' -> test (drop_entry f k) k' = test f k') -> NoDup keys ->
  uf_conns (fold_left (fun f key => if test f key then drop_entry f key else f) keys f) !! k =
  if bool_decide (k ∈ keys) && test f k then None else uf_conns f !! k.
Proof.
  intros Hst. revert f. induction keys as [|k0 keys IH]; intros f Hnd; cbn.
  { by rewrite bool_decide_false by set_solver. }
  apply NoDup_cons in Hnd as [Hn Hnd]. rewrite IH by done. destruct (decide (k = k0)) as [->|Hne].
  - rewrite (bool_decide_false (k0 ∈ keys)), (bool_decide_true (k0 ∈ k0 :: keys)) by set_solver. cbn.
    destruct (test f k0); [|done]. rewrite drop_entry_conns. apply lookup_delete_eq.
  - rewrite (bool_decide_ext (k ∈ k0 :: keys) (k ∈ keys)) by set_solver.
    destruct (test f k0); [|done]. rewrite Hst by done. rewrite drop_entry_conns, lookup_delete_ne by done. done.
Qed.

(** The two sweeps remove exactly what they should, whatever the order of the map:
    after [cleanup] the table holds just the flows that have not been idle beyond
    their own timeout, and after [closePort] just those whose key does not end in
    that port. *)
Theorem udp_sweeps_exact f now port k :
  uf_conns (cleanup f now) !! k = (if idle_over f now k then None else uf_conns f !! k) /\
  uf_conns (closePort f port) !! k = (if HasSuffix k ([58] ++ Itoa port) then None else uf_conns f !! k).
Proof.
  assert (forall test : udpForwarder -> bytes -> bool,
    (if bool_decide (k ∈ range_keys (uf_conns f)) && test f k then None else uf_conns f !! k) =
    if test f k then None else uf_conns f !! k) as Hkeys.
  { intros test. case_bool_decide as Hk; [done|]. cbn. rewrite range_keys_elem, <- eq_None_not_Some in Hk.
    rewrite Hk. by destruct (test f k). }
  split.
  - unfold cleanup. rewrite (drops_conns (fun f => idle_over f now)); [apply (Hkeys (fun f => idle_over f now))| |apply range_keys_nodup].
    intros f0 k0 k' Hne. unfold idle_over. pose proof (drop_entry_tracked f0 k0 k' Hne) as Ht.
    destruct (tracked (drop_entry f0 k0) k'), (tracked f0 k'); try done. by destruct Ht as [-> ->].
  - unfold closePort. rewrite (drops_conns (fun _ key => HasSuffix key ([58] ++ Itoa port)));
      [apply (Hkeys (fun _ key => HasSuffix key ([58] ++ Itoa port)))|done|apply range_keys_nodup].
Qed.

(** What the eviction loop has found after some keys. *)
Definition best_victim (f : udpForwarder) (now minIdle : Z) (keys : list bytes) (v : option bytes) : Prop :=
  match v with
  | Some k => exists t, tracked f k = Some t /\ minIdle <= now - ut_lastUse t /\ k ∈ keys /\
      forall k' t', k' ∈ keys -> tracked f k' = Some t' -> minIdle <= now - ut_lastUse t' -> ut_lastUse t <= ut_lastUse t'
  | None => forall k' t', k' ∈ keys -> tracked f k' = Some t' -> now - ut_lastUse t' < minIdle
  end.

(** A key that cannot beat the victim leaves it the best. *)
Lemma best_victim_skip f now minIdle seen v k :
  best_victim f now minIdle seen v ->
  (forall t, tracked f k = Some t -> minIdle <= now - ut_lastUse t ->
     exists k0 u, v = Some k0 /\ tracked f k0 = Some u /\ ut_lastUse u <= ut_lastUse t) ->
  best_victim f now minIdle (seen ++ [k]) v.
Proof.
  intros Hb Hk. destruct v as [v|]; cbn in *.
  - destruct Hb as (u & Eu & Hu & Hin & Hall). exists u. split_and!; [done|done|set_solver|].
    intros k' t' Hk' Et' Hi'. apply elem_of_app in Hk' as [Hk'| ->%list_elem_of_singleton]; [eauto|].
    destruct (Hk _ Et' Hi') as (k0 & u' & [= <-] & Eu' & ?). by simplify_eq.
  - intros k' t' Hk' Et'. apply elem_of_app in Hk' as [Hk'| ->%list_elem_of_singleton]; [eauto|].
    destruct (decide (minIdle <= now - ut_lastUse t')) as [Hi|]; [|lia].
    by destruct (Hk _ Et' Hi) as (? & ? & ? & _).
Qed.

Lemma evict_loop_best f now minIdle keys : forall seen victim oldest,
  best_victim f now minIdle seen victim ->
  (forall k t, victim = Some k -> tracked f k = Some t -> oldest = ut_lastUse t) ->
  best_victim f now minIdle (seen ++ keys) (evict_loop f now minIdle keys victim oldest).
Proof.
  induction keys as [|k keys IH]; intros seen victim oldest Hb Ho; cbn; [by rewrite app_nil_r|].
  replace (seen ++ k :: keys) with ((seen ++ [k]) ++ keys) by (by rewrite <- app_assoc).
  destruct (tracked f k) as [t|] eqn:E; [destruct (now - ut_lastUse t <? minIdle) eqn:Hi; to_prop|].
  - apply IH; [|done]. apply best_victim_skip; [done|]. intros t' ? ?. simplify_eq. lia.
  - destruct (bool_decide (victim = None) || (ut_lastUse t <? oldest)) eqn:Hw; to_prop.
    + apply IH; [|intros ? ? [=<-] ?; by simplify_eq]. exists t. split_and!; [done|lia|set_solver|].
      intros k' t' Hk' Et' Hi'. apply elem_of_app in Hk' as [Hk'| ->%list_elem_of_singleton]; [|by simplify_eq].
      destruct victim as [v|]; cbn in Hb; [|specialize (Hb _ _ Hk' Et'); lia].
      destruct Hw as [Hw|Hw]; [by rewrite bool_decide_false in Hw|]. to_prop.
      destruct Hb as (u & Eu & _ & _ & Hall). rewrite (Ho v u eq_refl Eu) in Hw. specialize (Hall _ _ Hk' Et' Hi'). lia.
    + apply IH; [|done]. destruct victim as [v|]; [|done].
      apply best_victim_skip; [done|]. intros t' Et' _. destruct Hb as (u & Eu & _). exists v, u. simplify_eq.
      split_and!; [done|done|]. rewrite <- (Ho v u eq_refl Eu). by to_prop.
  - apply IH; [|done]. apply best_victim_skip; [done|]. congruence.
Qed.

(** At capacity the eviction takes the right flow, whatever the order of the map: it
    removes a flow idle for at least the given age than which no other flow has been
    idle longer, and removes nothing only when every flow is younger. *)
Theorem udp_eviction_oldest f now minIdle :
  match evictOldestIdleLocked f now minIdle with
  | (f', true) => exists key t, tracked f key = Some t /\ minIdle <= now - ut_lastUse t /\
      (forall k u, tracked f k = Some u -> minIdle <= now - ut_lastUse u -> ut_lastUse t <= ut_lastUse u) /\
      uf_conns f' = delete key (uf_conns f)
  | (f', false) => f' = f /\ forall k u, tracked f k = Some u -> now - ut_lastUse u < minIdle
  end.
Proof.
  assert (forall k t, tracked f k = Some t -> k ∈ range_keys (uf_conns f)) as Hin.
  { intros k t. unfold tracked. rewrite range_keys_elem. by destruct (uf_conns f !! k). }
  unfold evictOldestIdleLocked.
  pose proof (evict_loop_best f now minIdle (range_keys (uf_conns f)) [] None now) as Hb. cbn [app] in Hb.
  specialize (Hb ltac:(cbn; set_solver) ltac:(done)).
  destruct (evict_loop _ _ _ _ _ _) as [k|]; cbn in Hb.
  - destruct Hb as (t & Et & Hi & _ & Hall). exists k, t. split_and!; [done|done| |apply drop_entry_conns]. eauto.
  - split; [done|]. eauto.
Qed.

(** C14: in every run of the forwarder, with the goroutines of its flows interleaved in
    any order, the table never exceeds 512 flows, it holds exactly the flows still
    served and not cancelled, no two flows with an open endpoint share their
    addresses, and the active-flow statistic counts just the flows not yet
    accounted closed. *)
Theorem udp_table_invariant d t b mtu budget f :
  rtc ustep (newUDPForwarder d t b mtu budget) f ->
  Z.of_nat (size (uf_conns f)) <= maxActiveUDPFlows /\
  (forall k id, uf_conns f !! k = Some id <->
     exists u, uf_store f !! id = Some u /\ ut_key u = k /\ ut_phase u = Serving /\ ut_cancelled u = false) /\
  (forall id id' u u', uf_store f !! id = Some u -> uf_store f !! id' = Some u' ->
     ut_phase u <> Gone -> ut_phase u' <> Gone -> ut_key u = ut_key u' -> id = id') /\
  uf_active f = count_active (uf_store f).
Proof.
  intros Hr. assert (fwd_ok f) as [Hcap Hfr Hc Hl Hu Ha].
  { pose proof (newUDPForwarder_ok d t b mtu budget) as Hok. induction Hr; [done|]. eauto using ustep_ok. }
  split_and!; try done. intros k id. split; [apply Hc|]. intros (u & E & <- & P & X). eauto.
Qed.
End Sweeps.

(** ** Datagrams and streams *)

(** What reaches the device fits the interface and the transport. *)
Lemma inbound_fits d t b mtu budget dns data x :
  WriteNetstack x ∈ fromRemote (newUDPForwarder d t b mtu budget) dns data ->
  x = data /\ len x + ipv4Overhead <= mtu /\ (0 < budget -> len x <= budget).
Proof.
  unfold fromRemote, newUDPForwarder. cbn [uf_maxPayload].
  case_bool_decide; [set_solver|].
  destruct (_ <? len data) eqn:E; [set_solver|]. intros Hx.
  assert (x = data) as -> by (destruct dns; set_solver). to_prop.
  destruct ((0 <? budget) && (budget <? mtu - ipv4Overhead)) eqn:B; to_prop; [split_and!; [done|lia|done]|].
  split_and!; [done|lia|]. destruct B as [B|B]; to_prop; lia.
Qed.

(** [readFull] depends on the bytes, not on how reads cut them. *)
Lemma readFull_spec chunks : forall n acc,
  if len (concat chunks) <? n then readFull chunks n acc = None
  else exists rest, readFull chunks n acc = Some (acc ++ take (Z.to_nat n) (concat chunks), rest) /\
                    concat rest = drop (Z.to_nat n) (concat chunks).
Proof.
  induction chunks as [|c cs IH]; intros n acc; cbn [concat readFull].
  { rewrite len_nil. destruct (0 <? n) eqn:E; to_prop; [by rewrite (proj2 (Z.leb_gt n 0)) by lia|].
    rewrite (proj2 (Z.leb_le n 0)) by lia. eexists. replace (Z.to_nat n) with O by lia. by rewrite app_nil_r. }
  destruct (n <=? 0) eqn:E; to_prop.
  { rewrite (proj2 (Z.ltb_ge _ _)) by (pose proof (len_nonneg (c ++ concat cs)); lia).
    eexists. replace (Z.to_nat n) with O by lia. by rewrite app_nil_r. }
  rewrite len_app. pose proof (len_nonneg (concat cs)). destruct (n <? len c) eqn:Ec; to_prop.
  { rewrite (proj2 (Z.ltb_ge _ _)) by lia. eexists. split.
    - rewrite take_app_le by (unfold len in *; lia). done.
    - cbn. by rewrite drop_app_le by (unfold len in *; lia). }
  specialize (IH (n - len c) (acc ++ c)). replace (len c + len (concat cs) <? n) with (len (concat cs) <? n - len c)
    by (apply eq_true_iff_eq; rewrite !Z.ltb_lt; lia).
  destruct (_ <? _); [done|]. destruct IH as (rest & Er & Ec'). exists rest.
  rewrite Er, Ec'. replace (Z.to_nat (n - len c)) with (Z.to_nat n - length c)%nat by (unfold len; lia).
  rewrite take_app_ge, drop_app_ge by (unfold len in *; lia). by rewrite <- app_assoc.
Qed.

(** ** Witnesses *)

#[export] Program Instance go_map_range : MapRange := {| range_keys m := map fst (map_to_list m) |}.
Next Obligation. done. Qed.

Definition fresh_forwarder : udpForwarder := newUDPForwarder true true false 1280 0.
Definition one_flow : udpForwarder :=
  (handleUDP fresh_forwarder 0 (lit "10.0.0.2") 40000 (lit "9.9.9.9") 443 true).1.
(** The flow is dialed, goes idle, is swept away, and its goroutine starts to clean up. *)
Definition idle_swept : udpForwarder := defer_unlink (cleanup (flow_dialed one_flow 0) (200 * second)) 0.

Lemma idle_swept_reachable : rtc ustep fresh_forwarder idle_swept.
Proof.
  apply rtc_l with one_flow.
  { apply u_handle. intros (id & t & E & _). cbn in E. by rewrite lookup_empty in E. }
  apply rtc_l with (flow_dialed one_flow 0).
  { apply u_dialed. eexists. split; [vm_compute; reflexivity|done]. }
  apply rtc_l with (cleanup (flow_dialed one_flow 0) (200 * second)); [apply u_cleanup|].
  apply rtc_once. apply u_unlink. eexists. split; [vm_compute; reflexivity|done].
Defined.

Lemma udp_table_invariant_witness :
  rtc ustep fresh_forwarder idle_swept /\
  Z.of_nat (size (uf_conns idle_swept)) <= maxActiveUDPFlows /\
  (forall k id, uf_conns idle_swept !! k = Some id <->
     exists u, uf_store idle_swept !! id = Some u /\ ut_key u = k /\ ut_phase u = Serving /\ ut_cancelled u = false) /\
  (forall id id' u u', uf_store idle_swept !! id = Some u -> uf_store idle_swept !! id' = Some u' ->
     ut_phase u <> Gone -> ut_phase u' <> Gone -> ut_key u = ut_key u' -> id = id') /\
  uf_active idle_swept = count_active (uf_store idle_swept).
Proof.
  split; [exact idle_swept_reachable|].
  exact (udp_table_invariant true true false 1280 0 idle_swept idle_swept_reachable).
Defined.
