(* ===== verification/Socks5.v ===== *)
(** * SOCKS5, both ends

    The server of src/iosbridge/forward.go ([socks5HandshakeAuth], [socks5CheckPassword],
    [socks5SendReply], with the handlers of forward.go and tailnet_proxy.go that use it) and
    the client of src/vpntunnel/dialer.go ([socks5Handshake]).  A connection is what the peer
    still sends and what has been written to it; which of the writes fail is an argument. *)

From S2P Require Import Prelude GoStrings NetIP UDPForwarder.

(** ** A connection *)

Record sconn := mkConn { sc_in : bytes; sc_out : bytes; sc_writes : nat }.
Definition fresh_conn (input : bytes) : sconn := mkConn input [] 0.

(** [io.ReadFull] of [n] bytes; on a short stream what is left is consumed. *)
Definition ReadFull (c : sconn) (n : Z) : option bytes * sconn :=
  if len (sc_in c) <? n then (None, mkConn [] (sc_out c) (sc_writes c))
  else (Some (take (Z.to_nat n) (sc_in c)), mkConn (drop (Z.to_nat n) (sc_in c)) (sc_out c) (sc_writes c)).

(** ** Addresses as [package net] has them *)

(** [net.ParseIP]: no zones. *)
Definition ParseIP (s : bytes) : option Addr :=
  a ← ParseAddr s; if hasZone a then None else Some a.
(** [ip.To4()] *)
Definition To4 (a : Addr) : option bytes :=
  match Unmap a with A4 v => Some (be_put 4 v) | _ => None end.
(** [net.IP(b).String()] for 4 and 16 bytes *)
Definition IPString (b : bytes) : bytes :=
  if len b =? 4 then AddrString (AddrFrom4 b) else AddrString (Unmap (AddrFrom16 b)).

(** ** The server *)

(** [REP] codes go with the errors after the negotiation. *)
Inductive socks_error := Plain | WithRep (rep : Z).
Record socks5Credentials := { cr_user : bytes; cr_pass : bytes }.

Section Server.
Context (writeOk : nat -> bool).

Definition sock_Write (c : sconn) (b : bytes) : bool * sconn :=
  if writeOk (sc_writes c) then (true, mkConn (sc_in c) (sc_out c ++ b) (S (sc_writes c)))
  else (false, mkConn (sc_in c) (sc_out c) (S (sc_writes c))).

Definition socks5SendReply (c : sconn) (status : Z) : sconn :=
  (sock_Write c [5; status; 0; 1; 0; 0; 0; 0; 0; 0]).2.

(** The [read] closure: one byte of length, and that many bytes. *)
Definition read_counted (c : sconn) : option bytes * sconn :=
  match ReadFull c 1 with
  | (Some n, c1) => ReadFull c1 (at_ n 0)
  | (None, c1) => (None, c1)
  end.

(** [socks5CheckPassword]: whether it returns no error. *)
Definition socks5CheckPassword (c : sconn) (creds : socks5Credentials) : bool * sconn :=
  match ReadFull c 1 with
  | (None, c1) => (false, c1)
  | (Some ver, c1) =>
      match read_counted c1 with
      | (None, c2) => (false, c2)
      | (Some user, c2) =>
          match read_counted c2 with
          | (None, c3) => (false, c3)
          | (Some pass, c3) =>
              if (at_ ver 0 =? 1) && bool_decide (user = cr_user creds) && bool_decide (pass = cr_pass creds)
              then sock_Write c3 [1; 0]
              else (false, (sock_Write c3 [1; 1]).2)
          end
      end
  end.

(** The address of the CONNECT request, by its type. *)
Definition read_host (c : sconn) (atyp : Z) : result socks_error bytes * sconn :=
  let ip n := match ReadFull c n with
              | (Some b, c1) => (Ok (IPString b), c1)
              | (None, c1) => (Err (WithRep 1), c1)
              end in
  if atyp =? 1 then ip 4
  else if atyp =? 3 then
    match ReadFull c 1 with
    | (None, c1) => (Err (WithRep 1), c1)
    | (Some n, c1) =>
        match ReadFull c1 (at_ n 0) with
        | (Some domain, c2) => (Ok domain, c2)
        | (None, c2) => (Err (WithRep 1), c2)
        end
    end
  else if atyp =? 4 then ip 16
  else (Err (WithRep 8), c).

(** The CONNECT request. *)
Definition read_request (c : sconn) : result socks_error (bytes * Z) * sconn :=
  match ReadFull c 4 with
  | (None, c1) => (Err (WithRep 1), c1)
  | (Some h, c1) =>
      if negb (at_ h 0 =? 5) then (Err (WithRep 1), c1)
      else if negb (at_ h 1 =? 1) then (Err (WithRep 7), c1)
      else match read_host c1 (at_ h 3) with
      | (Err e, c2) => (Err e, c2)
      | (Ok host, c2) =>
          match ReadFull c2 2 with
          | (None, c3) => (Err (WithRep 1), c3)
          | (Some p, c3) => (Ok (host, be_get p), c3)
          end
      end
  end.

Definition socks5HandshakeAuth (c : sconn) (creds : option socks5Credentials) : result socks_error (bytes * Z) * sconn :=
  match ReadFull c 2 with
  | (None, c1) => (Err Plain, c1)
  | (Some header, c1) =>
      if negb (at_ header 0 =? 5) then (Err Plain, c1)
      else match ReadFull c1 (at_ header 1) with
      | (None, c2) => (Err Plain, c2)
      | (Some methods, c2) =>
          let want := match creds with Some _ => 2 | None => 0 end in
          if negb (bool_decide (want ∈ methods)) then (Err Plain, (sock_Write c2 [5; 255]).2)
          else match sock_Write c2 [5; want] with
          | (false, c3) => (Err Plain, c3)
          | (true, c3) =>
              match creds with
              | None => read_request c3
              | Some cr =>
                  match socks5CheckPassword c3 cr with
                  | (true, c4) => read_request c4
                  | (false, c4) => (Err Plain, c4)
                  end
              end
          end
      end
  end.
Definition socks5Handshake (c : sconn) : result socks_error (bytes * Z) * sconn := socks5HandshakeAuth c None.

(** The handlers: what the client is told, and the address a dial is tried to, if any.
    [dialOk] tells whether the dial succeeds.  [handleSOCKS5Connection] reports to its callback. *)
Inductive socks_event := EvOpened | EvError | EvClosed.
Definition handleSOCKS5Connection (c : sconn) (dialOk : bool) : sconn * option bytes * list socks_event :=
  match socks5Handshake c with
  | (Err e, c1) => (match e with WithRep rep => socks5SendReply c1 rep | Plain => c1 end, None, [EvError])
  | (Ok (host, port), c1) =>
      let target := JoinHostPort host (Itoa port) in
      if dialOk then (socks5SendReply c1 0, Some target, [EvOpened; EvClosed])
      else (socks5SendReply c1 5, Some target, [EvOpened; EvError; EvClosed])
  end.
Definition proxy_handle (c : sconn) (creds : socks5Credentials) (dialOk : bool) : sconn * option (bytes * Z) :=
  match socks5HandshakeAuth c (Some creds) with
  | (Err e, c1) => (match e with WithRep rep => socks5SendReply c1 rep | Plain => c1 end, None)
  | (Ok (host, port), c1) =>
      (socks5SendReply c1 (if dialOk then 0 else 5), Some (host, port))
  end.
End Server.

(** ** The client *)

Section Client.
(** [net.LookupPort("tcp", _)]: numbers and service names. *)
Context (LookupPort : bytes -> option Z).

Definition clientGreeting : bytes := [5; 1; 0].
Definition connectRequest (host : bytes) (port : Z) : bytes :=
  [5; 1; 0] ++
  match ParseIP host with
  | Some ip => match To4 ip with Some v4 => [1] ++ v4 | None => [4] ++ As16 ip end
  | None => [3; u8 (len host)] ++ host
  end ++ [u8 (Z.shiftr port 8); Z.land port 255].

(** What follows the reply header. *)
Definition skipBound (atyp : Z) (rest : list bytes) : option (list bytes) :=
  if atyp =? 1 then snd <$> readFull rest 6 []
  else if atyp =? 3 then '(n, rest1) ← readFull rest 1 []; snd <$> readFull rest1 (at_ n 0 + 2) []
  else if atyp =? 4 then snd <$> readFull rest 18 []
  else None.

(** [socks5Handshake] of the dialer: the bytes written, and what the proxy sends after
    the handshake, [None] for an error.  [reads] are the proxy's answers as reads cut
    them; [write1] and [write2] tell whether the two writes succeed. *)
Definition clientHandshake (write1 write2 : bool) (targetAddr : bytes) (reads : list bytes) : bytes * option (list bytes) :=
  match ('(host, portStr) ← SplitHostPort targetAddr; port ← LookupPort portStr; Some (host, port)) with
  | None => ([], None)
  | Some (host, port) =>
      if negb write1 then ([], None)
      else match readFull reads 2 [] with
      | None => (clientGreeting, None)
      | Some (methodResp, rest) =>
          if negb (at_ methodResp 0 =? 5) || negb (at_ methodResp 1 =? 0) then (clientGreeting, None)
          else if negb write2 then (clientGreeting, None)
          else
            (clientGreeting ++ connectRequest host port,
             '(reply, rest1) ← readFull rest 4 [];
             if negb (at_ reply 0 =? 5) then None
             else if negb (at_ reply 1 =? 0) then None
             else skipBound (at_ reply 3) rest1)
      end
  end.
End Client.

(** ** Reading what was written *)

Section Facts.

Lemma ReadFull_app a b out k :
  ReadFull (mkConn (a ++ b) out k) (len a) = (Some a, mkConn b out k).
Proof.
  unfold ReadFull. cbn [sc_in sc_out sc_writes]. rewrite (proj2 (Z.ltb_ge _ _)) by (rewrite len_app; pose proof (len_nonneg b); lia).
  unfold len. rewrite Nat2Z.id. by rewrite take_app_length, drop_app_length.
Qed.
Lemma ReadFull_some c n b c1 :
  0 <= n -> ReadFull c n = (Some b, c1) -> sc_in c = b ++ sc_in c1 /\ len b = n /\ sc_out c1 = sc_out c.
Proof.
  unfold ReadFull. intros Hn. destruct (len (sc_in c) <? n) eqn:E; [done|]. to_prop. intros [= <- <-]. cbn.
  rewrite take_drop. split_and!; [done| |done]. unfold len in *. rewrite length_take. lia.
Qed.

Lemma read_counted_app s b out k :
  len s < 256 -> read_counted (mkConn ([len s] ++ s ++ b) out k) = (Some s, mkConn b out k).
Proof.
  intros Hs. unfold read_counted. change 1 with (len [len s]). rewrite ReadFull_app. apply ReadFull_app.
Qed.
Lemma read_counted_some c s c1 :
  wf_bytes (sc_in c) -> read_counted c = (Some s, c1) -> sc_in c = [len s] ++ s ++ sc_in c1.
Proof.
  intros Hw. unfold read_counted. destruct (ReadFull c 1) as [[n|] c0] eqn:E; [|done].
  apply ReadFull_some in E as (E & Hl & _); [|lia].
  destruct n as [|n [|]]; [done| |revert Hl; len_lia]. intros H. rewrite E in Hw. apply wf_bytes_app in Hw as [Hn _].
  apply Forall_cons in Hn as [Hn _]. unfold is_byte in Hn.
  apply ReadFull_some in H as (E1 & Hl1 & _); [|cbn; lia]. cbn in Hl1. by rewrite E, E1, <- Hl1.
Qed.

(** The host the server understands: names as they are, addresses in canonical form. *)
Definition canonical (host : bytes) : bytes :=
  match ParseIP host with Some ip => AddrString (Unmap ip) | None => host end.
Definition sendable (host : bytes) : bool := bool_decide (is_Some (ParseIP host)) || (len host <? 256).

Lemma port_bytes port : 0 <= port < 65536 -> be_get [u8 (Z.shiftr port 8); Z.land port 255] = port.
Proof.
  intros Hp. cbn [be_get]. rewrite !len_cons, len_nil. change (256 ^ (1 + 0)) with 256. change (256 ^ 0) with 1.
  rewrite Z.shiftr_div_pow2 by lia. change (2 ^ 8) with 256. change 255 with (Z.ones 8). rewrite Z.land_ones by lia.
  unfold wrap. change (2 ^ 8) with 256. zlia.
Qed.

Lemma ParseIP_spec s a : ParseIP s = Some a -> wf_addr a /\ IsValid a = true /\ hasZone a = false.
Proof.
  unfold ParseIP. destruct (ParseAddr s) as [x|] eqn:E; cbn; [|done]. destruct (hasZone x) eqn:Ez; [done|].
  intros [= <-]. by apply ParseAddr_wf in E as [? ?].
Qed.

(** The bytes of an address, read back. *)
Lemma To4_string ip v4 : wf_addr ip -> To4 ip = Some v4 -> len v4 = 4 /\ IPString v4 = AddrString (Unmap ip).
Proof.
  unfold To4. intros Hw. assert (wf_addr (Unmap ip)) as Hu.
  { destruct ip as [|v|v z]; [done..|]. cbn [Unmap]. destruct (Is4In6 _); [|done]. cbn [wf_addr]. apply Z.mod_pos_bound. lia. }
  destruct (Unmap ip) as [|v|v z]; [done| |done]. intros H. assert (v4 = be_put 4 v) as -> by congruence. clear H.
  split; [unfold len; by rewrite length_be_put|].
  unfold IPString, len. rewrite length_be_put. cbn [Z.of_nat]. unfold AddrFrom4. rewrite be_get_put.
  change (256 ^ Z.of_nat 4) with (2 ^ 32). rewrite Z.mod_small by exact Hu. done.
Qed.
Lemma As16_string ip :
  wf_addr ip -> IsValid ip = true -> hasZone ip = false -> To4 ip = None ->
  len (As16 ip) = 16 /\ IPString (As16 ip) = AddrString (Unmap ip).
Proof.
  destruct ip as [|v|v z]; [done..|]. cbn [wf_addr]. intros Hw _ Hz Ht. cbn [hasZone] in Hz. to_prop. subst z.
  cbn [As16]. assert (len (be_put 16 v) = 16) as Hl by (unfold len; by rewrite length_be_put).
  split; [done|]. unfold IPString. rewrite Hl. change (16 =? 4) with false. cbv iota. unfold AddrFrom16.
  rewrite be_get_put. change (256 ^ Z.of_nat 16) with (2 ^ 128). by rewrite Z.mod_small by exact Hw.
Qed.

(** The server reads the request the client wrote. *)
Lemma read_request_connect host port rest out k :
  sendable host = true -> 0 <= port < 65536 ->
  read_request (mkConn (connectRequest host port ++ rest) out k) = (Ok (canonical host, port), mkConn rest out k).
Proof.
  intros Hs Hp. unfold connectRequest, canonical, sendable in *.
  assert (forall atyp a, read_request (mkConn (([5; 1; 0] ++ ([atyp] ++ a) ++ [u8 (Z.shiftr port 8); Z.land port 255]) ++ rest) out k) =
    match read_host (mkConn (a ++ [u8 (Z.shiftr port 8); Z.land port 255] ++ rest) out k) atyp with
    | (Err e, c2) => (Err e, c2)
    | (Ok h, c2) => match ReadFull c2 2 with (None, c3) => (Err (WithRep 1), c3) | (Some p, c3) => (Ok (h, be_get p), c3) end
    end) as Hreq.
  { intros atyp a. unfold read_request. rewrite <- !app_assoc. cbn [app].
    change (5 :: 1 :: 0 :: atyp :: ?l) with ([5; 1; 0; atyp] ++ l). change 4 with (len [5; 1; 0; atyp]). by rewrite ReadFull_app. }
  assert (forall h, (let '(r, c2) := (Ok h : result socks_error bytes, mkConn ([u8 (Z.shiftr port 8); Z.land port 255] ++ rest) out k) in
    match r with Err e => (Err e, c2) | Ok h => match ReadFull c2 2 with (None, c3) => (Err (WithRep 1), c3) | (Some p, c3) => (Ok (h, be_get p), c3) end end)
    = (Ok (h, port), mkConn rest out k)) as Hport.
  { intros h. change 2 with (len [u8 (Z.shiftr port 8); Z.land port 255]). by rewrite ReadFull_app, port_bytes. }
  destruct (ParseIP host) as [ip|] eqn:E.
  - apply ParseIP_spec in E as (Hw & Hv & Hz). destruct (To4 ip) as [v4|] eqn:E4.
    + apply To4_string in E4 as [Hl <-]; [|done]. rewrite Hreq. unfold read_host. change (1 =? 1) with true. cbv iota zeta.
      rewrite <- Hl, ReadFull_app. apply Hport.
    + destruct (As16_string ip) as [Hl Hstr]; [done..|]. rewrite Hreq. unfold read_host.
      change (4 =? 1) with false. change (4 =? 3) with false. change (4 =? 4) with true. cbv iota zeta.
      rewrite <- Hl, ReadFull_app, Hstr. apply Hport.
  - cbn [is_Some] in Hs. rewrite bool_decide_false in Hs by (intros [? [=]]). to_prop. cbn [orb] in Hs. to_prop.
    change ([3; u8 (len host)] ++ host) with ([3] ++ ([u8 (len host)] ++ host)). rewrite Hreq. unfold read_host.
    change (3 =? 1) with false. change (3 =? 3) with true. cbv iota zeta.
    unfold wrap. rewrite Z.mod_small by (pose proof (len_nonneg host); change (2 ^ 8) with 256; lia).
    rewrite <- app_assoc. change 1 with (len [len host]) at 1. rewrite ReadFull_app. cbn [at_ nth_default].
    rewrite ReadFull_app. apply Hport.
Qed.

(** What the client reads, however the reads are cut. *)
Lemma readFull_exact chunks a b :
  concat chunks = a ++ b -> exists rest, readFull chunks (len a) [] = Some (a, rest) /\ concat rest = b.
Proof.
  intros H. pose proof (readFull_spec chunks (len a) []) as Hs. rewrite H in Hs.
  rewrite (proj2 (Z.ltb_ge _ _)) in Hs by (rewrite len_app; pose proof (len_nonneg b); lia).
  unfold len in *. rewrite Nat2Z.id, take_app_length, drop_app_length in Hs. eauto.
Qed.
End Facts.

(** ** The two ends together *)

(** C35: the dialer and the forwarder's server understand each other on a host that is an address
    or a name of fewer than 256 bytes ([socks5_long_name_misread] shows why) and a port of
    16 bits, when no write fails.  Whatever is to follow,
    and however the replies are cut into reads: the client's handshake writes exactly the
    greeting and the request; the server accepts them, learns the host (an address in its
    canonical form) and the port, leaves the bytes after the request unread and writes one
    method reply; and the client finishes exactly when the status is success, with what comes
    after the reply left for the connection. *)
Theorem socks5_interop LookupPort targetAddr host portStr port early status after reads :
  SplitHostPort targetAddr = Some (host, portStr) -> LookupPort portStr = Some port -> 0 <= port < 65536 ->
  sendable host = true ->
  let '(r, c) := socks5Handshake (fun _ => true) (fresh_conn (clientGreeting ++ connectRequest host port ++ early)) in
  let replied := socks5SendReply (fun _ => true) c status in
  concat reads = sc_out replied ++ after ->
  let '(sent, remaining) := clientHandshake LookupPort true true targetAddr reads in
  r = Ok (canonical host, port) /\ sc_in replied = early /\
  sent = clientGreeting ++ connectRequest host port /\
  ((fun l => concat l) <$> remaining) = (if status =? 0 then Some after else None).
Proof.
  intros Hsplit Hlook Hport Hs.
  assert (socks5Handshake (fun _ => true) (fresh_conn (clientGreeting ++ connectRequest host port ++ early)) =
          (Ok (canonical host, port), mkConn early [5; 0] 1)) as ->.
  { unfold socks5Handshake, socks5HandshakeAuth, fresh_conn, clientGreeting.
    change ([5; 1; 0] ++ ?l) with ([5; 1] ++ [0] ++ l). change 2 with (len [5; 1]) at 1. rewrite ReadFull_app.
    cbn [at_ nth_default negb Z.eqb Pos.eqb]. change (at_ [5; 1] 1) with (len [0]). rewrite ReadFull_app.
    rewrite (bool_decide_true (0 ∈ [0])) by constructor.
    unfold sock_Write. cbn [negb sc_in sc_out sc_writes]. by rewrite read_request_connect. }
  cbn [socks5SendReply sock_Write sc_out sc_in sc_writes snd]. intros Hreads.
  unfold clientHandshake. rewrite Hsplit. cbn [mbind option_bind]. rewrite Hlook. cbn [negb].
  rewrite <- !app_assoc in Hreads.
  apply readFull_exact in Hreads as (rest & E & Hrest). change (len [5; 0]) with 2 in E. rewrite E. cbn [at_ nth_default].
  change ([5; status; 0; 1; 0; 0; 0; 0; 0; 0] ++ after) with ([5; status; 0; 1] ++ [0; 0; 0; 0; 0; 0] ++ after) in Hrest.
  apply readFull_exact in Hrest as (rest1 & E1 & Hrest1). change (len [5; status; 0; 1]) with 4 in E1.
  cbn. rewrite E1. cbn. destruct (status =? 0); [|done].
  apply readFull_exact in Hrest1 as (rest2 & E2 & Hrest2). change (len [0; 0; 0; 0; 0; 0]) with 6 in E2.
  unfold skipBound. cbn [Z.eqb]. rewrite E2. cbn. split_and!; [done..|]. exact (f_equal Some Hrest2).
Qed.

(** Port numbers only: the part of [net.LookupPort] that reads no service table. *)
Definition numericPort (s : bytes) : option Z :=
  match Atoi s with Ok n => if (0 <=? n) && (n <=? 65535) then Some n else None | Err _ => None end.

Lemma socks5_interop_witness :
  let host := lit "example.org" in
  let reads := [[5]; [0; 5; 0; 0]; [1; 0; 0; 0; 0; 0; 0; 72; 73]] in
  let '(r, c) := socks5Handshake (fun _ => true) (fresh_conn (clientGreeting ++ connectRequest host 443 ++ [22; 3])) in
  let replied := socks5SendReply (fun _ => true) c 0 in
  let '(sent, remaining) := clientHandshake numericPort true true (lit "example.org:443") reads in
  r = Ok (host, 443) /\ sc_in replied = [22; 3] /\
  sent = clientGreeting ++ connectRequest host 443 /\ ((fun l => concat l) <$> remaining) = Some [72; 73].
Proof.
  pose proof (socks5_interop numericPort (lit "example.org:443") (lit "example.org") (lit "443") 443 [22; 3] 0 [72; 73]
    [[5]; [0; 5; 0; 0]; [1; 0; 0; 0; 0; 0; 0; 72; 73]] eq_refl eq_refl ltac:(lia) eq_refl) as H.
  vm_compute in H |- *. exact (H eq_refl).
Defined.

(** ** Authentication *)

Lemma socks5CheckPassword_true writeOk c creds c1 :
  wf_bytes (sc_in c) -> socks5CheckPassword writeOk c creds = (true, c1) ->
  sc_in c = [1; len (cr_user creds)] ++ cr_user creds ++ [len (cr_pass creds)] ++ cr_pass creds ++ sc_in c1.
Proof.
  intros Hw. unfold socks5CheckPassword.
  destruct (ReadFull c 1) as [[ver|] c0] eqn:E; [|done]. apply ReadFull_some in E as (E & Hl & _); [|lia].
  destruct ver as [|v [|]]; [done| |revert Hl; len_lia]. rewrite E in Hw. apply wf_bytes_app in Hw as [_ Hw0].
  destruct (read_counted c0) as [[user|] c2] eqn:Eu; [|done]. apply read_counted_some in Eu; [|done].
  rewrite Eu in Hw0. apply wf_bytes_app in Hw0 as [_ Hw0]. apply wf_bytes_app in Hw0 as [_ Hw2].
  destruct (read_counted c2) as [[pass|] c3] eqn:Ep; [|done]. apply read_counted_some in Ep; [|done].
  destruct (_ && _) eqn:Eok; [|done]. apply andb_true_iff in Eok as [[Ev Eus]%andb_true_iff Eps].
  apply bool_decide_eq_true in Eus, Eps. apply Z.eqb_eq in Ev. cbn in Ev. subst.
  unfold sock_Write. destruct (writeOk _); [|done]. intros [= <-]. cbn [sc_in]. by rewrite E, Eu, Ep.
Qed.

(** A client that has not offered username and password, or that sends others than the
    configured ones, never gets to a request. *)
Lemma socks5HandshakeAuth_ok writeOk c creds r c1 :
  wf_bytes (sc_in c) -> socks5HandshakeAuth writeOk c (Some creds) = (Ok r, c1) ->
  exists methods request, 2 ∈ methods /\
    sc_in c = [5; len methods] ++ methods ++ [1; len (cr_user creds)] ++ cr_user creds ++
              [len (cr_pass creds)] ++ cr_pass creds ++ request.
Proof.
  intros Hw. unfold socks5HandshakeAuth.
  destruct (ReadFull c 2) as [[h|] c0] eqn:E; [|done]. apply ReadFull_some in E as (E & Hl & _); [|lia].
  destruct h as [|v [|n [|]]]; [revert Hl; len_lia..| |revert Hl; pose proof (len_nonneg l); len_lia].
  change (at_ [v; n] 0) with v. change (at_ [v; n] 1) with n. rewrite E in Hw. apply wf_bytes_app in Hw as [Hb Hw0].
  apply Forall_cons in Hb as [_ Hb]. apply Forall_cons in Hb as [Hn _]. unfold is_byte in Hn.
  destruct (negb (v =? 5)) eqn:Ev; [done|]. to_prop. subst v.
  destruct (ReadFull c0 n) as [[methods|] c2] eqn:Em; [|done]. apply ReadFull_some in Em as (Em & Hm & _); [|lia]. subst n.
  rewrite Em in Hw0. apply wf_bytes_app in Hw0 as [_ Hw2].
  destruct (negb (bool_decide (2 ∈ methods))) eqn:E2; [done|]. to_prop.
  destruct (sock_Write writeOk c2 [5; 2]) as [[] c3] eqn:E3; [|done].
  assert (sc_in c3 = sc_in c2) as H3 by (revert E3; unfold sock_Write; destruct (writeOk _); [by intros [= <-]|done]).
  destruct (socks5CheckPassword writeOk c3 creds) as [[] c4] eqn:E4; [|done]. intros _.
  apply socks5CheckPassword_true in E4; [|by rewrite H3]. exists methods, (sc_in c4). split; [done|].
  by rewrite E, Em, <- H3, E4.
Qed.

(** C34: the proxy of the tailnet dials for nobody without the password.  Whatever bytes the
    client sends and whichever writes fail: when a dial is tried,
    successful or not, the client's bytes began with a greeting that offers username/password and exactly
    the configured user and password. *)
Theorem socks5_auth writeOk input creds dialOk :
  wf_bytes input ->
  let '(c1, dialed) := proxy_handle writeOk (fresh_conn input) creds dialOk in
  dialed <> None ->
  exists methods request, 2 ∈ methods /\
    input = [5; len methods] ++ methods ++ [1; len (cr_user creds)] ++ cr_user creds ++
            [len (cr_pass creds)] ++ cr_pass creds ++ request.
Proof.
  intros Hw. unfold proxy_handle.
  destruct (socks5HandshakeAuth writeOk (fresh_conn input) (Some creds)) as [[[host port]|e] c1] eqn:E; [|done].
  apply socks5HandshakeAuth_ok in E; [|done]. intros _. exact E.
Qed.

Lemma socks5_auth_witness :
  let creds := {| cr_user := lit "u"; cr_pass := lit "pw" |} in
  let input := [5; 1; 2; 1; 1; 117; 2; 112; 119; 5; 1; 0; 3; 1; 120; 0; 80] in
  (proxy_handle (fun _ => true) (fresh_conn input) creds true).2 = Some (lit "x", 80) /\
  exists methods request, 2 ∈ methods /\
    input = [5; len methods] ++ methods ++ [1; 1] ++ lit "u" ++ [2] ++ lit "pw" ++ request.
Proof.
  intros creds input.
  assert (wf_bytes input) as Hw by (unfold input; repeat (constructor; [unfold is_byte; lia|]); constructor).
  assert ((proxy_handle (fun _ => true) (fresh_conn input) creds true).2 = Some (lit "x", 80)) as E
    by (vm_compute; reflexivity).
  split; [exact E|]. pose proof (socks5_auth (fun _ => true) input creds true Hw) as H.
  destruct (proxy_handle (fun _ => true) (fresh_conn input) creds true) as [c1 dialed]. cbn [snd] in E.
  apply H. by rewrite E.
Defined.

(** ** A name that does not fit its length byte *)

(** The client does not check the length of a name it sends as a domain: 257 bytes are
    announced as 1, and the server takes the first for the host and the next two for the port. *)
Lemma socks5_long_name_misread :
  let host := replicate 257 97 in
  (socks5Handshake (fun _ => true) (fresh_conn (clientGreeting ++ connectRequest host 443))).1 = Ok ([97], 24929).
Proof. vm_compute. reflexivity. Qed.
