(* ===== verification/PortForwarder.v ===== *)
(** * The port forwarder of the iOS bridge

    src/iosbridge/forward.go (with remote_forward_recovery.go): a map of running forwards
    under a lock, one goroutine per forward that listens, accepts and dials, one goroutine
    per connection, a goroutine that closes the listener when the context ends, and callers
    of [StopForward], [StopAll] and [Close] that stop forwards outside the lock.  Every
    goroutine is a program counter; a step runs one of them up to its next lock region,
    callback or blocking call, so a run is an interleaving.  What the network answers is in
    the label of the step.  The SOCKS5 handshake of a dynamic forward is in [Socks5]. *)

From S2P Require Import Prelude GoStrings.

(** ** Configuration *)

Record ForwardConfig := {
  ForwardID : bytes; Direction : bytes; BindAddress : bytes; BindPort : Z;
  TargetHost : bytes; TargetPort : Z; RecoverRemoteListener : bool }.

Inductive direction := DLocal | DRemote | DDynamic.
#[export] Instance direction_eq_dec : EqDecision direction.
Proof. solve_decision. Defined.
Definition directionOf (d : bytes) : option direction :=
  if bool_decide (d = lit "local") then Some DLocal
  else if bool_decide (d = lit "remote") then Some DRemote
  else if bool_decide (d = lit "dynamic") then Some DDynamic
  else None.

Definition listenAddr (cfg : ForwardConfig) : bytes :=
  let bindAddr := if bool_decide (BindAddress cfg = []) then lit "127.0.0.1" else BindAddress cfg in
  JoinHostPort bindAddr (Itoa (BindPort cfg)).
Definition targetAddr (cfg : ForwardConfig) : bytes := JoinHostPort (TargetHost cfg) (Itoa (TargetPort cfg)).

(** ** State *)

(** Where the goroutine of a forward stands; [PInvalid] is the caller of [StartForward]
    that has entered a forward of unknown direction and has yet to take it out. *)
Inductive pc :=
| PStart | PListen | PListened (port : Z) | PSet (port : Z) | PReady (port : Z)
| PAccept | PDial | PRemove | PNotify | PInvalid | PDone.

(** A connection handler; [CShake] and [CDialing] are those of a dynamic forward. *)
Inductive conn_state := CShake | CDialing (target : bytes) | COpen.

(** [activeForward].  [a_open] is the listener socket, [a_listener] whether the field that
    [closeListener] looks at holds it, [a_watch] the goroutine waiting for the context. *)
Record activeForward := mkAF {
  a_config : ForwardConfig; a_dir : option direction; a_cancelled : bool;
  a_open : bool; a_listener : bool; a_watch : bool; a_pc : pc; a_conns : list (Z * conn_state) }.

(** What a caller of [StopForward], [StopAll] or [Close] still has to do. *)
Inductive stop_phase := TCancel | TClose | TWait | TNotify.
Record stopper := mkStopper { t_root : bool; t_todo : list (bytes * nat); t_phase : stop_phase }.

(** Callbacks and calls in order.  [EvEntered] and [EvDiscarded] mark the moments a forward
    enters the map and an invalid one is taken out again. *)
Inductive fwd_event :=
| EvEntered (id : bytes) | EvDiscarded (id : bytes)
| OnForwardReady (id : bytes) (port : Z) | OnForwardError (id : bytes) | OnForwardStopped (id : bytes)
| OnConnectionOpened (id : bytes) (c : Z) | OnConnectionClosed (id : bytes) (c bytesIn bytesOut : Z)
| CallListen (remote : bool) (addr : bytes) | CallDial (remote : bool) (addr : bytes).
#[export] Instance fwd_event_eq_dec : EqDecision fwd_event.
Proof. solve_decision. Defined.

Record PortForwarder := mkPF {
  pf_forwards : gmap bytes nat; pf_closed : bool; pf_cancelled : bool; nextConnID : Z;
  pf_afs : list activeForward; pf_stoppers : list stopper; pf_log : list fwd_event }.

Definition NewPortForwarder (hasTransport hasClient hasCallback : bool) : option PortForwarder :=
  if hasTransport && hasClient && hasCallback then Some (mkPF ∅ false false 0 [] [] []) else None.

(** ** Updates *)

Definition with_map m s := mkPF m (pf_closed s) (pf_cancelled s) (nextConnID s) (pf_afs s) (pf_stoppers s) (pf_log s).
Definition with_af (k : nat) a s :=
  mkPF (pf_forwards s) (pf_closed s) (pf_cancelled s) (nextConnID s) (<[k := a]> (pf_afs s)) (pf_stoppers s) (pf_log s).
Definition with_stoppers ts s :=
  mkPF (pf_forwards s) (pf_closed s) (pf_cancelled s) (nextConnID s) (pf_afs s) ts (pf_log s).
Definition with_conn_id s :=
  mkPF (pf_forwards s) (pf_closed s) (pf_cancelled s) (nextConnID s + 1) (pf_afs s) (pf_stoppers s) (pf_log s).
Definition with_closed s :=
  mkPF (pf_forwards s) true (pf_cancelled s) (nextConnID s) (pf_afs s) (pf_stoppers s) (pf_log s).
Definition with_cancelled s :=
  mkPF (pf_forwards s) (pf_closed s) true (nextConnID s) (pf_afs s) (pf_stoppers s) (pf_log s).
Definition emit es s :=
  mkPF (pf_forwards s) (pf_closed s) (pf_cancelled s) (nextConnID s) (pf_afs s) (pf_stoppers s) (pf_log s ++ es).

Definition at_pc p a := mkAF (a_config a) (a_dir a) (a_cancelled a) (a_open a) (a_listener a) (a_watch a) p (a_conns a).
Definition with_conns cs a := mkAF (a_config a) (a_dir a) (a_cancelled a) (a_open a) (a_listener a) (a_watch a) (a_pc a) cs.
Definition cancel_af a := mkAF (a_config a) (a_dir a) true (a_open a) (a_listener a) (a_watch a) (a_pc a) (a_conns a).
Definition opened_af a := mkAF (a_config a) (a_dir a) (a_cancelled a) true (a_listener a) (a_watch a) (a_pc a) (a_conns a).
Definition setListener a := mkAF (a_config a) (a_dir a) (a_cancelled a) (a_open a) true (a_watch a) (a_pc a) (a_conns a).
Definition closeListener a :=
  mkAF (a_config a) (a_dir a) (a_cancelled a) (if a_listener a then false else a_open a) false (a_watch a) (a_pc a) (a_conns a).
Definition watched (w : bool) a := mkAF (a_config a) (a_dir a) (a_cancelled a) (a_open a) (a_listener a) w (a_pc a) (a_conns a).

(** [ctx.Err() != nil] for the context of a forward, a child of the forwarder's. *)
Definition ctxErr (s : PortForwarder) (a : activeForward) : bool := a_cancelled a || pf_cancelled s.

(** ** The calls *)

Inductive start_error := NilConfig | EmptyID | RemotePortZero | ForwarderClosed | AlreadyRunning.

Definition StartForward (config : option ForwardConfig) (s : PortForwarder) : result start_error PortForwarder :=
  match config with
  | None => Err NilConfig
  | Some cfg =>
      let id := ForwardID cfg in
      if bool_decide (id = []) then Err EmptyID
      else if bool_decide (Direction cfg = lit "remote") && (BindPort cfg =? 0) then Err RemotePortZero
      else if pf_closed s then Err ForwarderClosed
      else if bool_decide (is_Some (pf_forwards s !! id)) then Err AlreadyRunning
      else
        let d := directionOf (Direction cfg) in
        let af := mkAF cfg d false false false false (match d with Some _ => PStart | None => PInvalid end) [] in
        Ok (mkPF (<[id := length (pf_afs s)]> (pf_forwards s)) (pf_closed s) (pf_cancelled s) (nextConnID s)
                 (pf_afs s ++ [af]) (pf_stoppers s) (pf_log s ++ [EvEntered id]))
  end.

Definition StopForward (id : bytes) (s : PortForwarder) : PortForwarder :=
  match pf_forwards s !! id with
  | None => s
  | Some k => with_stoppers (pf_stoppers s ++ [mkStopper false [(id, k)] TCancel]) (with_map (delete id (pf_forwards s)) s)
  end.

(** The lock regions of [StopAll] and [Close]; [order] is the order in which the copied
    map will be walked. *)
Definition StopAll (order : list (bytes * nat)) (s : PortForwarder) : PortForwarder :=
  with_stoppers (pf_stoppers s ++ [mkStopper false order TCancel]) (with_map ∅ s).
Definition Close (order : list (bytes * nat)) (s : PortForwarder) : PortForwarder :=
  if pf_closed s then s
  else with_stoppers (pf_stoppers s ++ [mkStopper true order TCancel]) (with_map ∅ (with_closed s)).

(** The next step of a stopper: [pf.cancel()] of [Close], then [stopForward] and the
    notification for each forward.  The wait ends when the connections have drained or
    after five seconds. *)
Definition stop_step (s : PortForwarder) (i : nat) : option PortForwarder :=
  t ← pf_stoppers s !! i;
  let set t' s := with_stoppers (<[i := t']> (pf_stoppers s)) s in
  if t_root t then Some (set (mkStopper false (t_todo t) (t_phase t)) (with_cancelled s))
  else match t_todo t with
  | [] => None
  | (id, k) :: rest =>
      a ← pf_afs s !! k;
      match t_phase t with
      | TCancel => Some (set (mkStopper false (t_todo t) TClose) (with_af k (cancel_af a) s))
      | TClose => Some (set (mkStopper false (t_todo t) TWait) (with_af k (closeListener a) s))
      | TWait => Some (set (mkStopper false (t_todo t) TNotify) s)
      | TNotify => Some (set (mkStopper false rest TCancel) (emit [OnForwardStopped id] s))
      end
  end.

(** ** The goroutines *)

Inductive outcome :=
| Go | ListenOk (port : Z) | ListenErr | AcceptOk | AcceptErr | DialOk | DialErr
| ShakeOk (host : bytes) (port : Z) | ShakeErr | Bridged (bytesIn bytesOut : Z).

Definition is_remote (a : activeForward) : bool := bool_decide (a_dir a = Some DRemote).

(** [runLocalForward], [runRemoteForward] and [runDynamicForward]. *)
Definition run_step (s : PortForwarder) (k : nat) (o : outcome) : option PortForwarder :=
  a ← pf_afs s !! k;
  let cfg := a_config a in
  let id := ForwardID cfg in
  match a_pc a, o with
  | PStart, Go => Some (with_af k (at_pc (if ctxErr s a then PDone else PListen) a) s)
  | PListen, ListenOk port =>
      Some (with_af k (at_pc (PListened port) (opened_af a)) (emit [CallListen (is_remote a) (listenAddr cfg)] s))
  | PListen, ListenErr =>
      if is_remote a && ctxErr s a
      then Some (with_af k (at_pc PDone a) (emit [CallListen true (listenAddr cfg)] s))
      else Some (with_af k (at_pc PRemove a) (emit [CallListen (is_remote a) (listenAddr cfg); OnForwardError id] s))
  | PListened port, Go => Some (with_af k (at_pc (PSet port) (setListener a)) s)
  | PSet port, Go =>
      Some (with_af k (if ctxErr s a then at_pc PDone (closeListener a) else at_pc (PReady port) a) s)
  | PReady port, Go =>
      Some (with_af k (at_pc PAccept (watched true a))
              (emit [OnForwardReady id (if is_remote a then BindPort cfg else port)] s))
  | PAccept, AcceptOk =>
      if negb (a_open a) then None
      else if bool_decide (a_dir a = Some DDynamic)
      then Some (with_af k (with_conns ((nextConnID s + 1, CShake) :: a_conns a) a) (with_conn_id s))
      else Some (with_af k (at_pc PDial a) s)
  | PAccept, AcceptErr =>
      if ctxErr s a then Some (with_af k (at_pc PDone a) s)
      else Some (with_af k (at_pc PRemove a) (emit [OnForwardError id] s))
  | PDial, DialErr =>
      Some (with_af k (at_pc PAccept a) (emit [CallDial (negb (is_remote a)) (targetAddr cfg); OnForwardError id] s))
  | PDial, DialOk =>
      let c := nextConnID s + 1 in
      Some (with_af k (at_pc PAccept (with_conns ((c, COpen) :: a_conns a) a))
              (emit [CallDial (negb (is_remote a)) (targetAddr cfg); OnConnectionOpened id c] (with_conn_id s)))
  | PRemove, Go =>
      let existed := bool_decide (is_Some (pf_forwards s !! id)) in
      Some (with_af k (at_pc (if existed then PNotify else PDone) a) (with_map (delete id (pf_forwards s)) s))
  | PNotify, Go => Some (with_af k (at_pc PDone a) (emit [OnForwardStopped id] s))
  | PInvalid, Go =>
      let existed := bool_decide (is_Some (pf_forwards s !! id)) in
      Some (with_af k (at_pc PDone (cancel_af a))
              (emit (if existed then [EvDiscarded id] else []) (with_map (delete id (pf_forwards s)) s)))
  | _, _ => None
  end.

(** The goroutine that closes the listener when the context is done. *)
Definition watch_step (s : PortForwarder) (k : nat) : option PortForwarder :=
  a ← pf_afs s !! k;
  if a_watch a && ctxErr s a then Some (with_af k (watched false (closeListener a)) s) else None.

(** The goroutine of the [j]-th connection: [handleSOCKS5Connection], or the bridge. *)
Definition conn_step (s : PortForwarder) (k j : nat) (o : outcome) : option PortForwarder :=
  a ← pf_afs s !! k; '(c, st) ← a_conns a !! j;
  let id := ForwardID (a_config a) in
  let goes := with_af k (with_conns (delete j (a_conns a)) a) in
  let becomes st' := with_af k (with_conns (<[j := (c, st')]> (a_conns a)) a) in
  match st, o with
  | CShake, ShakeErr => Some (goes (emit [OnForwardError id] s))
  | CShake, ShakeOk host port =>
      Some (becomes (CDialing (JoinHostPort host (Itoa port))) (emit [OnConnectionOpened id c] s))
  | CDialing target, DialErr =>
      Some (goes (emit [CallDial true target; OnForwardError id; OnConnectionClosed id c 0 0] s))
  | CDialing target, DialOk => Some (becomes COpen (emit [CallDial true target] s))
  | COpen, Bridged bytesIn bytesOut => Some (goes (emit [OnConnectionClosed id c bytesIn bytesOut] s))
  | _, _ => None
  end.

(** ** Runs *)

Inductive label :=
| LStart (config : option ForwardConfig) | LStop (id : bytes)
| LStopAll (order : list (bytes * nat)) | LClose (order : list (bytes * nat))
| LStopper (i : nat) | LRun (k : nat) (o : outcome) | LWatch (k : nat) | LConn (k j : nat) (o : outcome).

Definition step (s : PortForwarder) (l : label) : option PortForwarder :=
  match l with
  | LStart config => match StartForward config s with Ok s' => Some s' | Err _ => Some s end
  | LStop id => Some (StopForward id s)
  | LStopAll order => if bool_decide (order ≡ₚ map_to_list (pf_forwards s)) then Some (StopAll order s) else None
  | LClose order => if bool_decide (order ≡ₚ map_to_list (pf_forwards s)) then Some (Close order s) else None
  | LStopper i => stop_step s i
  | LRun k o => run_step s k o
  | LWatch k => watch_step s k
  | LConn k j o => conn_step s k j o
  end.

Fixpoint run (s : PortForwarder) (ls : list label) : option PortForwarder :=
  match ls with
  | [] => Some s
  | l :: ls' => s' ← step s l; run s' ls'
  end.

(** ** Accounting *)

(** The number of events of the log that satisfy a test. *)
Definition counts (f : fwd_event -> bool) (es : list fwd_event) : nat := sum_list_with (fun e => Nat.b2n (f e)) es.
Definition entered (id : bytes) (e : fwd_event) : bool := bool_decide (e = EvEntered id).
Definition settled (id : bytes) (e : fwd_event) : bool := bool_decide (e = OnForwardStopped id) || bool_decide (e = EvDiscarded id).
Definition conn_opened (c : Z) (e : fwd_event) : bool := match e with OnConnectionOpened _ c' => c' =? c | _ => false end.
Definition conn_closed (c : Z) (e : fwd_event) : bool := match e with OnConnectionClosed _ c' _ _ => c' =? c | _ => false end.

(** Notifications still to come: of stoppers, and of goroutines between the removal and
    the callback. *)
Definition due_stopper (id : bytes) (t : stopper) : nat := sum_list_with (fun p => Nat.b2n (bool_decide (p.1 = id))) (t_todo t).
Definition due_af (id : bytes) (a : activeForward) : nat :=
  match a_pc a with PNotify => Nat.b2n (bool_decide (ForwardID (a_config a) = id)) | _ => 0 end.
Definition due (id : bytes) (s : PortForwarder) : nat :=
  sum_list_with (due_stopper id) (pf_stoppers s) + sum_list_with (due_af id) (pf_afs s).
Definition present (id : bytes) (s : PortForwarder) : nat := Nat.b2n (bool_decide (is_Some (pf_forwards s !! id))).

Definition balanced (s : PortForwarder) : Prop := forall id,
  counts (entered id) (pf_log s) = (counts (settled id) (pf_log s) + present id s + due id s)%nat.

Lemma counts_app f es es' : counts f (es ++ es') = (counts f es + counts f es')%nat.
Proof. apply sum_list_with_app. Qed.

Lemma sum_list_insert {A} (f : A -> nat) (l : list A) (k : nat) x y :
  l !! k = Some x -> (sum_list_with f (<[k := y]> l) + f x = sum_list_with f l + f y)%nat.
Proof.
  revert k. induction l as [|z l IH]; intros [|k] H; csimpl in *; [done..|simplify_eq; lia|].
  apply IH in H. lia.
Qed.
Lemma sum_list_delete {A} (f : A -> nat) (l : list A) (k : nat) x :
  l !! k = Some x -> (sum_list_with f (delete k l) + f x = sum_list_with f l)%nat.
Proof.
  revert k. induction l as [|z l IH]; intros [|k] H; csimpl in *; [done..|simplify_eq; lia|].
  apply IH in H. lia.
Qed.

Lemma sum_list_zero {A} (f : A -> nat) (l : list A) : (forall x, x ∈ l -> f x = 0%nat) -> sum_list_with f l = 0%nat.
Proof. induction l as [|x l IH]; intros H; [done|]. cbn. rewrite IH, H by set_solver. done. Qed.

(** How the sums move when a forward or a stopper is replaced. *)
Lemma due_with_af id k a a' s :
  pf_afs s !! k = Some a -> (due id (with_af k a' s) + due_af id a = due id s + due_af id a')%nat.
Proof. intros H. unfold due. cbn. pose proof (sum_list_insert (due_af id) _ _ _ a' H). lia. Qed.
Lemma due_with_stopper id i t t' s :
  pf_stoppers s !! i = Some t ->
  (due id (with_stoppers (<[i := t']> (pf_stoppers s)) s) + due_stopper id t = due id s + due_stopper id t')%nat.
Proof. intros H. unfold due. cbn. pose proof (sum_list_insert (due_stopper id) _ _ _ t' H). lia. Qed.

Lemma due_order (id : bytes) (m : gmap bytes nat) :
  sum_list_with (fun p : bytes * nat => Nat.b2n (bool_decide (p.1 = id))) (map_to_list m) = Nat.b2n (bool_decide (is_Some (m !! id))).
Proof.
  induction m as [|i x m Hi IH] using map_ind; [done|].
  rewrite map_to_list_insert by done. csimpl. rewrite IH. destruct (decide (i = id)) as [->|Hne].
  - rewrite lookup_insert_eq, Hi, !bool_decide_true by eauto. by rewrite bool_decide_false by (intros [? [=]]).
  - rewrite lookup_insert_ne by done. by rewrite bool_decide_false.
Qed.

Lemma present_delete id i s :
  (present id (with_map (delete i (pf_forwards s)) s) +
   Nat.b2n (bool_decide (i = id)) * Nat.b2n (bool_decide (is_Some (pf_forwards s !! i))) = present id s)%nat.
Proof.
  unfold present. cbn [pf_forwards with_map]. destruct (decide (i = id)) as [->|Hne].
  - rewrite lookup_delete_eq, (bool_decide_false (is_Some None)) by (intros [? [=]]). rewrite (bool_decide_true (id = id)) by done.
    cbn [Nat.b2n]. lia.
  - rewrite lookup_delete_ne, (bool_decide_false (i = id)) by done. cbn [Nat.b2n]. lia.
Qed.

(** The balance of a state in which one forward, or one stopper, has changed. *)
Lemma bal_af id s S k a a' es :
  pf_afs s !! k = Some a -> pf_afs S = pf_afs s -> pf_stoppers S = pf_stoppers s -> pf_log S = pf_log s ++ es ->
  (counts (settled id) es + present id S + due_af id a' = counts (entered id) es + present id s + due_af id a)%nat ->
  counts (entered id) (pf_log s) = (counts (settled id) (pf_log s) + present id s + due id s)%nat ->
  counts (entered id) (pf_log (with_af k a' S)) =
    (counts (settled id) (pf_log (with_af k a' S)) + present id (with_af k a' S) + due id (with_af k a' S))%nat.
Proof.
  intros Hk Ha Ht Hl Hd Hs. pose proof (due_with_af id k a a' S) as D. rewrite Ha in D. specialize (D Hk).
  assert (due id S = due id s) as Hdue by (unfold due; by rewrite Ha, Ht). rewrite Hdue in D.
  change (pf_log (with_af k a' S)) with (pf_log S). change (present id (with_af k a' S)) with (present id S).
  rewrite Hl, !counts_app. lia.
Qed.
Lemma bal_stopper id s S i t t' es :
  pf_stoppers s !! i = Some t -> pf_stoppers S = pf_stoppers s -> pf_log S = pf_log s ++ es ->
  sum_list_with (due_af id) (pf_afs S) = sum_list_with (due_af id) (pf_afs s) ->
  (counts (settled id) es + present id S + due_stopper id t' = counts (entered id) es + present id s + due_stopper id t)%nat ->
  counts (entered id) (pf_log s) = (counts (settled id) (pf_log s) + present id s + due id s)%nat ->
  let S' := with_stoppers (<[i := t']> (pf_stoppers S)) S in
  counts (entered id) (pf_log S') = (counts (settled id) (pf_log S') + present id S' + due id S')%nat.
Proof.
  intros Hi Ht Hl Ha Hd Hs S'. pose proof (due_with_stopper id i t t' S) as D. rewrite Ht in D. specialize (D Hi).
  subst S'. assert (due id S = due id s) as Hdue by (unfold due; by rewrite Ha, Ht). rewrite Hdue, <- Ht in D.
  change (pf_log (with_stoppers _ S)) with (pf_log S). change (present id (with_stoppers ?x S)) with (present id S).
  rewrite Hl, !counts_app. lia.
Qed.

Lemma due_af_same id s k a a' :
  pf_afs s !! k = Some a -> due_af id a' = due_af id a ->
  sum_list_with (due_af id) (<[k := a']> (pf_afs s)) = sum_list_with (due_af id) (pf_afs s).
Proof. intros H E. pose proof (sum_list_insert (due_af id) _ _ _ a' H). lia. Qed.

(** The side conditions of the balance lemmas. *)
Ltac bal_side := first [done | by rewrite app_nil_r | by eapply due_af_same | idtac].

Lemma settled_stopped id id' : settled id (OnForwardStopped id') = bool_decide (id' = id).
Proof.
  unfold settled. rewrite (bool_decide_false (OnForwardStopped id' = EvDiscarded id)) by done.
  rewrite orb_false_r. apply bool_decide_ext. naive_solver.
Qed.
Lemma settled_discarded id id' : settled id (EvDiscarded id') = bool_decide (id' = id).
Proof.
  unfold settled. rewrite (bool_decide_false (EvDiscarded id' = OnForwardStopped id)) by done. apply bool_decide_ext. naive_solver.
Qed.
Lemma entered_entered id id' : entered id (EvEntered id') = bool_decide (id' = id).
Proof. apply bool_decide_ext. naive_solver. Qed.

(** Evaluate the counts of the events a step emits, then arithmetic. *)
Ltac eval_events :=
  unfold counts; cbn [sum_list_with fst]; rewrite ?settled_stopped, ?settled_discarded, ?entered_entered;
  unfold entered, settled;
  repeat match goal with |- context [bool_decide (?e = ?e' :> fwd_event)] =>
    rewrite (bool_decide_false (e = e')) by discriminate end; cbn [Nat.b2n orb]; try lia.

Lemma stop_step_balanced s i s' : balanced s -> stop_step s i = Some s' -> balanced s'.
Proof.
  intros H E id. specialize (H id). unfold stop_step in E.
  destruct (pf_stoppers s !! i) as [t|] eqn:Et; [|done]. cbn [mbind option_bind] in E.
  destruct (t_root t); [simplify_eq; apply (bal_stopper id s (with_cancelled s) i t _ []); bal_side|].
  destruct (t_todo t) as [|[id' k] rest] eqn:Etodo; [done|].
  destruct (pf_afs s !! k) as [a|] eqn:Ea; [|done]. cbn [mbind option_bind] in E.
  destruct (t_phase t); simplify_eq.
  - apply (bal_stopper id s (with_af k (cancel_af a) s) i t _ []); bal_side.
    unfold due_stopper. cbn [t_todo]. by rewrite Etodo.
  - apply (bal_stopper id s (with_af k (closeListener a) s) i t _ []); bal_side.
    unfold due_stopper. cbn [t_todo]. by rewrite Etodo.
  - apply (bal_stopper id s s i t _ []); bal_side.
    unfold due_stopper. cbn [t_todo]. by rewrite Etodo.
  - apply (bal_stopper id s (emit [OnForwardStopped id'] s) i t _ [OnForwardStopped id']); bal_side.
    unfold due_stopper. cbn [t_todo]. rewrite Etodo. change (present id (emit _ s)) with (present id s).
    eval_events.
Qed.

Lemma run_step_balanced s k o s' : balanced s -> run_step s k o = Some s' -> balanced s'.
Proof.
  intros H E id. specialize (H id). unfold run_step in E.
  destruct (pf_afs s !! k) as [a|] eqn:Ea; [|done]. cbn [mbind option_bind] in E.
  pose proof (present_delete id (ForwardID (a_config a)) s) as D.
  assert (due_af id a = match a_pc a with PNotify => Nat.b2n (bool_decide (ForwardID (a_config a) = id)) | _ => 0 end)%nat as Da
    by done.
  destruct (a_pc a) eqn:Ep, o; try done; repeat case_match; simplify_eq; (eapply (bal_af id s _ k a); bal_side; rewrite Da).
  all: try (eval_events; done).
  all: repeat match goal with H : bool_decide (is_Some _) = _ |- _ => rewrite H in D end.
  all: rewrite ?Nat.mul_0_r, ?Nat.mul_1_r in D; cbn [Nat.b2n] in D; rewrite ?Nat.mul_0_r, ?Nat.mul_1_r in D.
  all: change (present id (emit ?es ?S)) with (present id S); unfold due_af; cbn [a_pc at_pc a_config cancel_af]; eval_events.
Qed.

Lemma watch_step_balanced s k s' : balanced s -> watch_step s k = Some s' -> balanced s'.
Proof.
  intros H E id. specialize (H id). unfold watch_step in E.
  destruct (pf_afs s !! k) as [a|] eqn:Ea; [|done]. cbn [mbind option_bind] in E.
  destruct (a_watch a && ctxErr s a); simplify_eq. apply (bal_af id s s k a _ []); bal_side.
Qed.
Lemma conn_step_balanced s k j o s' : balanced s -> conn_step s k j o = Some s' -> balanced s'.
Proof.
  intros H E id. specialize (H id). unfold conn_step in E.
  destruct (pf_afs s !! k) as [a|] eqn:Ea; [|done]. cbn [mbind option_bind] in E.
  destruct (a_conns a !! j) as [[c st]|]; [|done]. cbn [mbind option_bind] in E.
  destruct st, o; simplify_eq; (eapply (bal_af id s _ k a); bal_side; eval_events; done).
Qed.

Lemma StartForward_spec config s s' :
  StartForward config s = Ok s' ->
  exists cfg, config = Some cfg /\ pf_closed s = false /\ pf_forwards s !! ForwardID cfg = None /\ ForwardID cfg <> [] /\
    s' = mkPF (<[ForwardID cfg := length (pf_afs s)]> (pf_forwards s)) false (pf_cancelled s) (nextConnID s)
           (pf_afs s ++ [mkAF cfg (directionOf (Direction cfg)) false false false false
                           (match directionOf (Direction cfg) with Some _ => PStart | None => PInvalid end) []])
           (pf_stoppers s) (pf_log s ++ [EvEntered (ForwardID cfg)]).
Proof.
  unfold StartForward. destruct config as [cfg|]; [|done]. destruct (bool_decide (ForwardID cfg = [])) eqn:E0; [done|].
  destruct (_ && _); [done|]. destruct (pf_closed s); [done|]. destruct (bool_decide (is_Some _)) eqn:E1; [done|]. to_prop.
  intros [= <-]. exists cfg. split_and!; try done. by apply eq_None_not_Some.
Qed.

(** [StopAll] and [Close] hand every forward of the map to a stopper. *)
Lemma clear_balanced s S root order :
  balanced s -> order ≡ₚ map_to_list (pf_forwards s) ->
  pf_log S = pf_log s -> pf_afs S = pf_afs s -> pf_stoppers S = pf_stoppers s ->
  balanced (with_stoppers (pf_stoppers s ++ [mkStopper root order TCancel]) (with_map ∅ S)).
Proof.
  intros H Ho Hl Ha Ht id. specialize (H id). revert H. unfold present, due.
  cbn [pf_log pf_forwards pf_afs pf_stoppers with_stoppers with_map]. rewrite Hl, Ha, sum_list_with_app. cbn [sum_list_with].
  unfold due_stopper at 3. cbn [t_todo]. rewrite Ho, due_order.
  rewrite lookup_empty, (bool_decide_false (is_Some None)) by (by intros [? [=]]). cbn [Nat.b2n]. lia.
Qed.

Lemma step_balanced s l s' : balanced s -> step s l = Some s' -> balanced s'.
Proof.
  intros H E. destruct l as [config|i|order|order|i|k o|k|k j o]; cbn [step] in E;
    eauto using stop_step_balanced, run_step_balanced, watch_step_balanced, conn_step_balanced.
  - destruct (StartForward config s) as [s1|] eqn:Es; simplify_eq; [|done].
    apply StartForward_spec in Es as (cfg & -> & _ & Hn & _ & ->). intros id. specialize (H id). revert H.
    unfold present, due. cbn [pf_log pf_forwards pf_afs pf_stoppers]. rewrite !counts_app, sum_list_with_app. eval_events.
    assert (forall d, due_af id (mkAF cfg d false false false false (match d with Some _ => PStart | None => PInvalid end) []) = 0%nat)
      as -> by (by intros []). destruct (decide (ForwardID cfg = id)) as [<-|Hne].
    + rewrite lookup_insert_eq, Hn. rewrite (bool_decide_true (is_Some (Some _))) by eauto.
      rewrite (bool_decide_true (ForwardID cfg = _)) by done. rewrite (bool_decide_false (is_Some None)) by (by intros [? [=]]). cbn. lia.
    + rewrite lookup_insert_ne, (bool_decide_false (ForwardID cfg = id)) by done. cbn. lia.
  - simplify_eq. unfold StopForward. destruct (pf_forwards s !! i) as [k|] eqn:Ek; [|done]. intros id. specialize (H id).
    pose proof (present_delete id i s) as D. rewrite Ek, (bool_decide_true (is_Some _)) in D by eauto. revert D H.
    unfold present, due. cbn [pf_log pf_forwards pf_afs pf_stoppers with_stoppers with_map].
    rewrite sum_list_with_app. cbn [sum_list_with due_stopper t_todo fst Nat.b2n]. lia.
  - destruct (bool_decide _) eqn:Eo in E; simplify_eq. to_prop. by apply clear_balanced.
  - destruct (bool_decide _) eqn:Eo in E; simplify_eq. to_prop. unfold Close. destruct (pf_closed s); [done|].
    by apply clear_balanced.
Qed.

(** ** Connections *)

Definition is_conn (c : Z) (shaking : bool) (p : Z * conn_state) : bool :=
  (p.1 =? c) && match p.2 with CShake => shaking | _ => negb shaking end.
Definition in_flight (c : Z) (shaking : bool) (a : activeForward) : nat :=
  sum_list_with (fun p => Nat.b2n (is_conn c shaking p)) (a_conns a).
Definition all_in_flight (c : Z) (shaking : bool) (s : PortForwarder) : nat := sum_list_with (in_flight c shaking) (pf_afs s).
Definition issued (c : Z) (s : PortForwarder) : nat := Nat.b2n ((1 <=? c) && (c <=? nextConnID s)).

(** A connection is reported open once at most, and closed when it no longer is open. *)
Definition conns_ok (s : PortForwarder) : Prop := 0 <= nextConnID s /\ forall c,
  counts (conn_opened c) (pf_log s) = (counts (conn_closed c) (pf_log s) + all_in_flight c false s)%nat /\
  (counts (conn_opened c) (pf_log s) + all_in_flight c true s <= issued c s)%nat.

(** One forward changes while the events [es] are emitted. *)
Lemma conns_af s S k a a' es :
  pf_afs s !! k = Some a -> pf_afs S = pf_afs s -> pf_log S = pf_log s ++ es -> nextConnID s <= nextConnID S ->
  (forall c, (counts (conn_opened c) es + in_flight c false a = counts (conn_closed c) es + in_flight c false a')%nat /\
             (counts (conn_opened c) es + in_flight c true a' + issued c s <= in_flight c true a + issued c S)%nat) ->
  conns_ok s -> conns_ok (with_af k a' S).
Proof.
  intros Hk Ha Hl Hn Hc [H0 H]. split; [cbn; lia|]. intros c. specialize (H c). specialize (Hc c).
  unfold all_in_flight in *. cbn [pf_log pf_afs with_af nextConnID]. rewrite Ha, Hl, !counts_app.
  pose proof (sum_list_insert (in_flight c false) _ _ _ a' Hk). pose proof (sum_list_insert (in_flight c true) _ _ _ a' Hk).
  change (issued c (with_af k a' S)) with (issued c S). lia.
Qed.
(** Nothing about connections changes. *)
Lemma conns_same s S es :
  (forall c b, all_in_flight c b S = all_in_flight c b s) -> pf_log S = pf_log s ++ es -> nextConnID S = nextConnID s ->
  (forall c, counts (conn_opened c) es = 0%nat /\ counts (conn_closed c) es = 0%nat) -> conns_ok s -> conns_ok S.
Proof.
  intros Ha Hl Hn He [H0 H]. split; [lia|]. intros c. specialize (H c). destruct (He c). unfold issued in *.
  rewrite !Ha, Hl, Hn, !counts_app. lia.
Qed.

Lemma all_in_flight_af c b k a a' s :
  pf_afs s !! k = Some a -> a_conns a' = a_conns a -> all_in_flight c b (with_af k a' s) = all_in_flight c b s.
Proof.
  intros Hk Hc. unfold all_in_flight. cbn. pose proof (sum_list_insert (in_flight c b) _ _ _ a' Hk).
  unfold in_flight in *. rewrite Hc in *. lia.
Qed.

Lemma issued_next c s : issued c (with_conn_id s) = (issued c s + Nat.b2n ((0 <=? nextConnID s)%Z && (c =? nextConnID s + 1)%Z))%nat.
Proof.
  unfold issued. cbn [nextConnID with_conn_id]. destruct (0 <=? nextConnID s) eqn:E0, (c =? nextConnID s + 1) eqn:E1,
    (1 <=? c) eqn:E2, (c <=? nextConnID s + 1) eqn:E3, (c <=? nextConnID s) eqn:E4; to_prop; cbn; lia.
Qed.

(** A step that opens and closes no connection. *)
Ltac conns_unchanged s :=
  eapply (conns_same s);
  [intros; etransitivity; [eapply all_in_flight_af; [eassumption|reflexivity]|reflexivity]
  |first [reflexivity|symmetry; apply app_nil_r]|reflexivity|by intros|].

Lemma run_step_conns s k o s' : conns_ok s -> run_step s k o = Some s' -> conns_ok s'.
Proof.
  intros H E. unfold run_step in E.
  destruct (pf_afs s !! k) as [a|] eqn:Ea; [|done]. cbn [mbind option_bind] in E.
  destruct (a_pc a) eqn:Ep, o; try done; repeat case_match; simplify_eq.
  all: try (conns_unchanged s; exact H).
  - eapply (conns_af s (with_conn_id s) k a _ []); [done..|symmetry; apply app_nil_r|cbn; lia| |exact H].
    intros c. rewrite issued_next. unfold in_flight, is_conn. cbn [a_conns with_conns sum_list_with fst snd].
    destruct H as [Hpos _]. rewrite (proj2 (Z.leb_le 0 (nextConnID s))), (Z.eqb_sym c) by done.
    destruct (nextConnID s + 1 =? c); cbn; lia.
  - eapply (conns_af s (emit _ (with_conn_id s)) k a); [done..|reflexivity|cbn; lia| |exact H].
    intros c. change (issued c (emit ?es ?S)) with (issued c S). rewrite issued_next. unfold in_flight, is_conn, counts.
    cbn [a_conns with_conns at_pc sum_list_with fst snd conn_opened conn_closed].
    destruct H as [Hpos _]. rewrite (proj2 (Z.leb_le 0 (nextConnID s))), (Z.eqb_sym c) by done.
    destruct (nextConnID s + 1 =? c); cbn; lia.
Qed.

Lemma conn_step_conns s k j o s' : conns_ok s -> conn_step s k j o = Some s' -> conns_ok s'.
Proof.
  intros H E. unfold conn_step in E.
  destruct (pf_afs s !! k) as [a|] eqn:Ea; [|done]. cbn [mbind option_bind] in E.
  destruct (a_conns a !! j) as [[c st]|] eqn:Ej; [|done]. cbn [mbind option_bind] in E.
  destruct st, o; simplify_eq; eapply (conns_af s (emit _ s) k a); try done; [..].
  all: intros c'; change (issued c' (emit ?es ?S)) with (issued c' S); unfold in_flight, counts; cbn [a_conns with_conns sum_list_with conn_opened conn_closed].
  all: pose proof (fun b => sum_list_delete (fun p => Nat.b2n (is_conn c' b p)) _ _ _ Ej) as D.
  all: pose proof (fun b st' => sum_list_insert (fun p => Nat.b2n (is_conn c' b p)) _ _ _ (c, st') Ej) as Ins.
  all: unfold is_conn in D at 2, Ins at 2 4; cbn [fst snd] in D, Ins; pose proof (D true); pose proof (D false).
  all: try match goal with |- context [<[_ := (_, ?st')]> _] => pose proof (Ins true st'); pose proof (Ins false st') end.
  all: clear D Ins; destruct (c =? c'); cbn in *; lia.
Qed.

Lemma stop_step_conns s i s' : conns_ok s -> stop_step s i = Some s' -> conns_ok s'.
Proof.
  intros H E. unfold stop_step in E.
  destruct (pf_stoppers s !! i) as [t|] eqn:Et; [|done]. cbn [mbind option_bind] in E.
  destruct (t_root t); [simplify_eq; apply (conns_same s _ []); try done; symmetry; apply app_nil_r|].
  destruct (t_todo t) as [|[id' k] rest] eqn:Etodo; [done|].
  destruct (pf_afs s !! k) as [a|] eqn:Ea; [|done]. cbn [mbind option_bind] in E.
  destruct (t_phase t); simplify_eq; try (conns_unchanged s; exact H);
    (eapply (conns_same s); [done|first [reflexivity|symmetry; apply app_nil_r]|done..]).
Qed.
Lemma watch_step_conns s k s' : conns_ok s -> watch_step s k = Some s' -> conns_ok s'.
Proof.
  intros H E. unfold watch_step in E.
  destruct (pf_afs s !! k) as [a|] eqn:Ea; [|done]. cbn [mbind option_bind] in E.
  destruct (a_watch a && ctxErr s a); simplify_eq. conns_unchanged s. exact H.
Qed.

Lemma step_conns s l s' : conns_ok s -> step s l = Some s' -> conns_ok s'.
Proof.
  intros H E. destruct l as [config|i|order|order|i|k o|k|k j o]; cbn [step] in E;
    eauto using stop_step_conns, run_step_conns, watch_step_conns, conn_step_conns.
  - destruct (StartForward config s) as [s1|] eqn:Es; simplify_eq; [|done].
    apply StartForward_spec in Es as (cfg & -> & _ & Hn & _ & ->). eapply (conns_same s); [|reflexivity|done..].
    intros c b. unfold all_in_flight. cbn [pf_afs]. rewrite sum_list_with_app. cbn. lia.
  - simplify_eq. unfold StopForward. destruct (pf_forwards s !! i); [|done].
    apply (conns_same s _ []); try done. symmetry. apply app_nil_r.
  - destruct (bool_decide _); simplify_eq. apply (conns_same s _ []); try done. symmetry. apply app_nil_r.
  - destruct (bool_decide _); simplify_eq. unfold Close. destruct (pf_closed s); [done|].
    apply (conns_same s _ []); try done. symmetry. apply app_nil_r.
Qed.

(** ** The structure of the state *)

(** An open listener is always in somebody's hands: the goroutine that is about to store
    it, or, once it is in the field, the goroutine that is about to look at the context
    and later the one that waits for it. *)
Definition af_ok (a : activeForward) : Prop :=
  (a_open a = true -> a_listener a = true \/ exists port, a_pc a = PListened port) /\
  (a_listener a = true -> a_watch a = true \/ exists port, a_pc a = PSet port \/ a_pc a = PReady port).

Definition names (s : PortForwarder) (id : bytes) (k : nat) : Prop :=
  exists a, pf_afs s !! k = Some a /\ ForwardID (a_config a) = id.

Record pf_ok (s : PortForwarder) : Prop := {
  ok_map : forall id k, pf_forwards s !! id = Some k -> names s id k;
  ok_todo : forall t id k, t ∈ pf_stoppers s -> (id, k) ∈ t_todo t -> names s id k;
  ok_closed : pf_closed s = true -> pf_forwards s = ∅;
  ok_root : pf_cancelled s = true -> pf_closed s = true;
  ok_close : forall t, t ∈ pf_stoppers s -> t_root t = true -> pf_closed s = true;
  ok_afs : Forall af_ok (pf_afs s) }.

Lemma names_with_af s k a a' id j :
  pf_afs s !! k = Some a -> a_config a' = a_config a -> names s id j -> names (with_af k a' s) id j.
Proof.
  intros Hk Hc (b & Hb & Hid). destruct (decide (j = k)) as [->|Hne].
  - exists a'. cbn. rewrite list_lookup_insert_eq by (by eapply lookup_lt_Some). split; [done|]. congruence.
  - exists b. cbn. by rewrite list_lookup_insert_ne.
Qed.
Lemma pf_ok_af s k a a' :
  pf_ok s -> pf_afs s !! k = Some a -> a_config a' = a_config a -> (af_ok a -> af_ok a') -> pf_ok (with_af k a' s).
Proof.
  intros [H1 H2 H3 H4 H5 H6] Hk Hc Ha. constructor; try done.
  - intros id j Hj. eapply names_with_af; eauto.
  - intros t id j Ht Hj. eapply names_with_af; eauto.
  - apply Forall_insert; [done|]. apply Ha. by eapply Forall_lookup_1.
Qed.
Lemma pf_ok_emit s es : pf_ok s -> pf_ok (emit es s).
Proof. by intros []. Qed.
Lemma pf_ok_conn_id s : pf_ok s -> pf_ok (with_conn_id s).
Proof. by intros []. Qed.
Lemma pf_ok_delete s id : pf_ok s -> pf_ok (with_map (delete id (pf_forwards s)) s).
Proof.
  intros [H1 H2 H3 H4 H5 H6]. constructor; try done; cbn.
  - intros i k [_ H]%lookup_delete_Some. by apply H1.
  - intros Hc. rewrite H3 by done. apply delete_empty.
Qed.
Lemma elem_of_insert_inv {A} (l : list A) (i : nat) (x y : A) : x ∈ <[i := y]> l -> x = y \/ x ∈ l.
Proof.
  intros [j [(-> & -> & _)|[_ H]]%list_lookup_insert_Some]%list_elem_of_lookup_1; [by left|right]. by eapply list_elem_of_lookup_2.
Qed.
Lemma pf_ok_stopper s i t t' :
  pf_ok s -> pf_stoppers s !! i = Some t -> t_root t' = false -> t_todo t' ⊆ t_todo t ->
  pf_ok (with_stoppers (<[i := t']> (pf_stoppers s)) s).
Proof.
  intros [H1 H2 H3 H4 H5 H6] Ht Hr Hs. apply list_elem_of_lookup_2 in Ht. constructor; try done; cbn.
  - intros t0 id k [->|H0]%elem_of_insert_inv Hk; [|by eapply H2]. apply (H2 t); [done|]. by apply Hs.
  - intros t0 [->|H0]%elem_of_insert_inv Hk; [congruence|by eapply H5].
Qed.
Lemma pf_ok_clear s S root order :
  pf_ok s -> order ≡ₚ map_to_list (pf_forwards s) ->
  pf_afs S = pf_afs s -> pf_cancelled S = pf_cancelled s -> (pf_closed s = true -> pf_closed S = true) ->
  (root = true -> pf_closed S = true) ->
  pf_ok (with_stoppers (pf_stoppers s ++ [mkStopper root order TCancel]) (with_map ∅ S)).
Proof.
  intros [H1 H2 H3 H4 H5 H6] Ho Ha Hc Hcl Hr. unfold names in *. constructor; unfold names; cbn; rewrite ?Ha, ?Hc; try done.
  - intros t id k [Ht| ->%list_elem_of_singleton]%elem_of_app Hk; [by eapply H2|]. cbn in Hk.
    rewrite Ho in Hk. apply elem_of_map_to_list in Hk. by apply H1.
  - auto.
  - intros t [Ht| ->%list_elem_of_singleton]%elem_of_app Hk; [|by apply Hr]. apply Hcl. by eapply H5.
Qed.

Lemma run_step_ok s k o s' : pf_ok s -> run_step s k o = Some s' -> pf_ok s'.
Proof.
  intros H E. unfold run_step in E.
  destruct (pf_afs s !! k) as [a|] eqn:Ea; [|done]. cbn [mbind option_bind] in E.
  destruct (a_pc a) eqn:Ep, o; try done; repeat case_match; simplify_eq.
  all: eapply pf_ok_af; [by auto using pf_ok_emit, pf_ok_conn_id, pf_ok_delete|exact Ea|done|].
  all: clear -Ep; unfold af_ok; cbn; rewrite Ep; intros [A1 A2]; destruct (a_listener a), (a_open a), (a_watch a); naive_solver.
Qed.
Lemma stop_step_ok s i s' : pf_ok s -> stop_step s i = Some s' -> pf_ok s'.
Proof.
  intros H E. unfold stop_step in E.
  destruct (pf_stoppers s !! i) as [t|] eqn:Et; [|done]. cbn [mbind option_bind] in E.
  destruct (t_root t) eqn:Er.
  { simplify_eq. eapply (pf_ok_stopper (with_cancelled s)); [|exact Et|done..].
    apply list_elem_of_lookup_2 in Et. destruct H as [H1 H2 H3 H4 H5 H6]. constructor; try done. intros _. by eapply H5. }
  destruct (t_todo t) as [|[id' k] rest] eqn:Etodo; [done|].
  destruct (pf_afs s !! k) as [a|] eqn:Ea; [|done]. cbn [mbind option_bind] in E.
  destruct (t_phase t); simplify_eq.
  - eapply (pf_ok_stopper (with_af k (cancel_af a) s)); [by apply (pf_ok_af s k a)|exact Et|done|by rewrite Etodo].
  - eapply (pf_ok_stopper (with_af k (closeListener a) s)); [|exact Et|done|by rewrite Etodo].
    apply (pf_ok_af s k a); try done. intros [A1 A2]. split; cbn; [destruct (a_listener a); naive_solver|done].
  - by eapply (pf_ok_stopper s); [|exact Et|done|rewrite Etodo].
  - eapply (pf_ok_stopper (emit _ s)); [by apply pf_ok_emit|exact Et|done|]. rewrite Etodo. cbn. set_solver.
Qed.
Lemma watch_step_ok s k s' : pf_ok s -> watch_step s k = Some s' -> pf_ok s'.
Proof.
  intros H E. unfold watch_step in E.
  destruct (pf_afs s !! k) as [a|] eqn:Ea; [|done]. cbn [mbind option_bind] in E.
  destruct (a_watch a && ctxErr s a); simplify_eq. eapply (pf_ok_af s k a); [done..|].
  intros [A1 A2]. split; cbn; [destruct (a_listener a); naive_solver|done].
Qed.
Lemma conn_step_ok s k j o s' : pf_ok s -> conn_step s k j o = Some s' -> pf_ok s'.
Proof.
  intros H E. unfold conn_step in E.
  destruct (pf_afs s !! k) as [a|] eqn:Ea; [|done]. cbn [mbind option_bind] in E.
  destruct (a_conns a !! j) as [[c st]|] eqn:Ej; [|done]. cbn [mbind option_bind] in E.
  destruct st, o; simplify_eq; (eapply pf_ok_af; [by apply pf_ok_emit|exact Ea|done|done]).
Qed.
Lemma step_pf_ok s l s' : pf_ok s -> step s l = Some s' -> pf_ok s'.
Proof.
  intros H E. destruct l as [config|i|order|order|i|k o|k|k j o]; cbn [step] in E;
    eauto using stop_step_ok, run_step_ok, watch_step_ok, conn_step_ok.
  - destruct (StartForward config s) as [s1|] eqn:Es; simplify_eq; [|done].
    apply StartForward_spec in Es as (cfg & -> & Hc & Hn & _ & ->). destruct H as [H1 H2 H3 H4 H5 H6].
    assert (forall af id k, names s id k -> exists a, (pf_afs s ++ [af]) !! k = Some a /\ ForwardID (a_config a) = id) as Hext
      by (intros af id k (a & Ha & Hid); exists a; split; [by apply lookup_app_l_Some|done]).
    constructor; unfold names; cbn; [| |done|intros Hcan; apply H4 in Hcan; congruence| |].
    + intros id k [[<- <-]|[_ Hk]]%lookup_insert_Some; [|by apply Hext, H1]. rewrite lookup_app_r, Nat.sub_diag by done. eauto.
    + intros t id k Ht Hk. by eapply Hext, H2.
    + intros t Ht Hr. apply (H5 t Ht) in Hr. congruence.
    + apply Forall_app. split; [done|]. constructor; [by split|constructor].
  - simplify_eq. unfold StopForward. destruct (pf_forwards s !! i) as [k|] eqn:Ek; [|done].
    pose proof (ok_map _ H _ _ Ek) as Hk. pose proof (pf_ok_delete s i H) as [H1 H2 H3 H4 H5 H6]. constructor; try done; cbn.
    + intros t id j [Ht| ->%list_elem_of_singleton]%elem_of_app Hj; [by eapply H2|]. cbn in Hj. apply list_elem_of_singleton in Hj. by simplify_eq.
    + intros t [Ht| ->%list_elem_of_singleton]%elem_of_app Hr; [by eapply H5|done].
  - destruct (bool_decide _) eqn:Eo in E; simplify_eq. to_prop. by apply pf_ok_clear.
  - destruct (bool_decide _) eqn:Eo in E; simplify_eq. to_prop. unfold Close. destruct (pf_closed s); [done|]. by apply pf_ok_clear.
Qed.

(** ** Running forwards can be stopped *)

Definition live (p : pc) : bool :=
  match p with PStart | PListen | PListened _ | PSet _ | PReady _ | PAccept | PDial => true | _ => false end.

(** The forwards whose context a stopper is going to cancel. *)
Definition to_cancel (t : stopper) : list (bytes * nat) :=
  match t_phase t with TCancel => t_todo t | _ => tail (t_todo t) end.

Definition tracked (s : PortForwarder) : Prop := forall k a,
  pf_afs s !! k = Some a -> live (a_pc a) = true -> a_cancelled a = false ->
  pf_forwards s !! ForwardID (a_config a) = Some k \/
  exists t, t ∈ pf_stoppers s /\ (ForwardID (a_config a), k) ∈ to_cancel t.

(** No identifier is used for two forwards. *)
Definition ids (s : PortForwarder) : list bytes := (fun a => ForwardID (a_config a)) <$> pf_afs s.

Lemma ids_with_af s k a a' : pf_afs s !! k = Some a -> a_config a' = a_config a -> ids (with_af k a' s) = ids s.
Proof.
  intros Hk Hc. unfold ids. cbn. rewrite list_fmap_insert, Hc. apply list_insert_id. by rewrite list_lookup_fmap, Hk.
Qed.
Lemma ids_unique s k a k' a' :
  NoDup (ids s) -> pf_afs s !! k = Some a -> pf_afs s !! k' = Some a' ->
  ForwardID (a_config a) = ForwardID (a_config a') -> k = k'.
Proof.
  intros Hn Hk Hk' He. eapply NoDup_lookup; [exact Hn|unfold ids; by rewrite list_lookup_fmap, Hk|].
  unfold ids. rewrite list_lookup_fmap, Hk'. cbn. by rewrite He.
Qed.

Lemma tracked_af s k a a' :
  tracked s -> pf_afs s !! k = Some a -> a_config a' = a_config a ->
  (live (a_pc a') = true -> a_cancelled a' = false -> live (a_pc a) = true /\ a_cancelled a = false) -> tracked (with_af k a' s).
Proof.
  intros H Hk Hc Hl j b [(-> & -> & _)|[_ Hj]]%list_lookup_insert_Some Hlv Hcn; [|by apply H].
  destruct (Hl Hlv Hcn). rewrite Hc. by apply H.
Qed.
(** Taking an identifier out of the map is harmless when no running forward has it. *)
Lemma tracked_delete s id :
  tracked s -> (forall k a, pf_afs s !! k = Some a -> ForwardID (a_config a) = id -> live (a_pc a) = false) ->
  tracked (with_map (delete id (pf_forwards s)) s).
Proof.
  intros H Hid k a Hk Hl Hc. destruct (decide (ForwardID (a_config a) = id)) as [E|E]; [rewrite (Hid k a) in Hl by done; done|].
  destruct (H k a Hk Hl Hc) as [Hm|Ht]; [left|by right]. cbn. by rewrite lookup_delete_ne.
Qed.
Lemma tracked_stopper s i t t' :
  tracked s -> pf_stoppers s !! i = Some t ->
  (forall id k, (id, k) ∈ to_cancel t -> (id, k) ∈ to_cancel t' \/ exists a, pf_afs s !! k = Some a /\ a_cancelled a = true) ->
  tracked (with_stoppers (<[i := t']> (pf_stoppers s)) s).
Proof.
  intros H Ht Hc k a Hk Hl Hcn. destruct (H k a Hk Hl Hcn) as [Hm|(t0 & H0 & Hin)]; [by left|right]. cbn.
  apply list_elem_of_lookup_1 in H0 as [j Hj]. destruct (decide (i = j)) as [<-|Hne].
  - simplify_eq. destruct (Hc _ _ Hin) as [Hin'|(b & Hb & Hbc)]; [|change (pf_afs s !! k = Some a) in Hk; congruence]. exists t'. split; [|done].
    apply list_elem_of_insert. by eapply lookup_lt_Some.
  - exists t0. split; [|done]. eapply list_elem_of_lookup_2. by rewrite list_lookup_insert_ne.
Qed.
Lemma tracked_clear s S root order :
  tracked s -> order ≡ₚ map_to_list (pf_forwards s) -> pf_afs S = pf_afs s ->
  tracked (with_stoppers (pf_stoppers s ++ [mkStopper root order TCancel]) (with_map ∅ S)).
Proof.
  intros H Ho Ha k a Hk Hl Hc. cbn in *. rewrite Ha in Hk. right.
  destruct (H k a Hk Hl Hc) as [Hm|(t & Ht & Hin)].
  - eexists. split; [apply elem_of_app; right; by apply list_elem_of_singleton|]. cbn. rewrite Ho. by apply elem_of_map_to_list.
  - exists t. split; [|done]. apply elem_of_app. by left.
Qed.

Lemma run_step_tracked s k o s' : NoDup (ids s) -> tracked s -> run_step s k o = Some s' -> tracked s'.
Proof.
  intros Hn H E. unfold run_step in E.
  destruct (pf_afs s !! k) as [a|] eqn:Ea; [|done]. cbn [mbind option_bind] in E.
  assert (live (a_pc a) = false -> tracked (with_map (delete (ForwardID (a_config a)) (pf_forwards s)) s)) as Hdel.
  { intros Hl. apply tracked_delete; [done|]. intros j b Hb Hid. assert (j = k) as -> by (by eapply ids_unique). congruence. }
  destruct (a_pc a) eqn:Ep, o; try done; repeat case_match; simplify_eq.
  all: eapply tracked_af; [first [exact H|by apply Hdel]|exact Ea|done|cbn; rewrite ?Ep; done].
Qed.
Lemma stop_step_tracked s i s' : tracked s -> stop_step s i = Some s' -> tracked s'.
Proof.
  intros H E. unfold stop_step in E.
  destruct (pf_stoppers s !! i) as [t|] eqn:Et; [|done]. cbn [mbind option_bind] in E.
  destruct (t_root t) eqn:Er; [simplify_eq; eapply (tracked_stopper (with_cancelled s)); [done|exact Et|by left]|].
  destruct (t_todo t) as [|[id' k] rest] eqn:Etodo; [done|].
  destruct (pf_afs s !! k) as [a|] eqn:Ea; [|done]. cbn [mbind option_bind] in E.
  destruct (t_phase t) eqn:Eph; simplify_eq.
  - eapply (tracked_stopper (with_af k (cancel_af a) s)); [by apply (tracked_af s k a)|exact Et|].
    intros id j. unfold to_cancel. rewrite Eph, Etodo. cbn. intros [[= -> ->]|?]%elem_of_cons; [|by left]. right.
    exists (cancel_af a). split; [|done]. apply list_lookup_insert_eq. by eapply lookup_lt_Some.
  - eapply (tracked_stopper (with_af k (closeListener a) s)); [by apply (tracked_af s k a)|exact Et|].
    intros id j. unfold to_cancel. rewrite Eph, Etodo. by left.
  - eapply (tracked_stopper s); [done|exact Et|]. intros id j. unfold to_cancel. rewrite Eph, Etodo. by left.
  - eapply (tracked_stopper (emit _ s)); [done|exact Et|]. intros id j. unfold to_cancel. rewrite Eph, Etodo. by left.
Qed.

(** Identifiers are only ever added. *)
Lemma step_ids s l s' : step s l = Some s' -> ids s `prefix_of` ids s'.
Proof.
  intros E. destruct l as [config|i|order|order|i|k o|k|k j o]; cbn [step] in E.
  - destruct (StartForward config s) as [s1|] eqn:Es; simplify_eq; [|done].
    apply StartForward_spec in Es as (cfg & -> & _ & _ & _ & ->). unfold ids. cbn [pf_afs]. rewrite fmap_app. by apply prefix_app_r.
  - simplify_eq. unfold StopForward. by destruct (pf_forwards s !! i).
  - by destruct (bool_decide _); simplify_eq.
  - destruct (bool_decide _); simplify_eq. unfold Close. by destruct (pf_closed s).
  - unfold stop_step in E. destruct (pf_stoppers s !! i) as [t|]; [|done]. cbn [mbind option_bind] in E.
    destruct (t_root t); [by simplify_eq|]. destruct (t_todo t) as [|[id k] rest]; [done|].
    destruct (pf_afs s !! k) as [a|] eqn:Ea; [|done]. cbn [mbind option_bind] in E.
    destruct (t_phase t); simplify_eq; try done;
      by (change (ids (with_stoppers _ ?S)) with (ids S); rewrite (ids_with_af s k a)).
  - unfold run_step in E. destruct (pf_afs s !! k) as [a|] eqn:Ea; [|done]. cbn [mbind option_bind] in E.
    destruct (a_pc a), o; try done; repeat case_match; simplify_eq; by erewrite ids_with_af by (exact Ea || done).
  - unfold watch_step in E. destruct (pf_afs s !! k) as [a|] eqn:Ea; [|done]. cbn [mbind option_bind] in E.
    destruct (_ && _); simplify_eq. by rewrite (ids_with_af s k a).
  - unfold conn_step in E. destruct (pf_afs s !! k) as [a|] eqn:Ea; [|done]. cbn [mbind option_bind] in E.
    destruct (a_conns a !! j) as [[c st]|]; [|done]. cbn [mbind option_bind] in E.
    destruct st, o; simplify_eq; by erewrite ids_with_af by (exact Ea || done).
Qed.

Lemma step_tracked s l s' : pf_ok s -> NoDup (ids s) -> tracked s -> step s l = Some s' -> tracked s'.
Proof.
  intros Hok Hn H E. destruct l as [config|i|order|order|i|k o|k|k j o]; cbn [step] in E.
  - destruct (StartForward config s) as [s1|] eqn:Es; simplify_eq; [|done].
    apply StartForward_spec in Es as (cfg & -> & _ & Hnone & _ & ->). intros k a Hk Hl Hc. cbn in *.
    apply lookup_app_Some in Hk as [Hk|[Hge Hk]].
    + destruct (H k a Hk Hl Hc) as [Hm|Ht]; [left|by right]. rewrite lookup_insert_ne; [done|]. congruence.
    + apply list_lookup_singleton_Some in Hk as [Hk <-]. left. cbn. rewrite lookup_insert_eq. f_equal. lia.
  - simplify_eq. unfold StopForward. destruct (pf_forwards s !! i) as [j|] eqn:Ej; [|done]. intros k a Hk Hl Hc. cbn in *.
    destruct (H k a Hk Hl Hc) as [Hm|(t & Ht & Hin)].
    + destruct (decide (ForwardID (a_config a) = i)) as [<-|Hne]; [right|left; by rewrite lookup_delete_ne].
      simplify_eq. eexists. split; [apply elem_of_app; right; by apply list_elem_of_singleton|]. cbn. by apply list_elem_of_singleton.
    + right. exists t. split; [|done]. apply elem_of_app. by left.
  - destruct (bool_decide _) eqn:Eo in E; simplify_eq. to_prop. by apply tracked_clear.
  - destruct (bool_decide _) eqn:Eo in E; simplify_eq. to_prop. unfold Close. destruct (pf_closed s); [done|]. by apply tracked_clear.
  - by eapply stop_step_tracked.
  - by eapply run_step_tracked.
  - unfold watch_step in E. destruct (pf_afs s !! k) as [a|] eqn:Ea; [|done]. cbn [mbind option_bind] in E.
    destruct (_ && _); simplify_eq. by apply (tracked_af s k a).
  - unfold conn_step in E. destruct (pf_afs s !! k) as [a|] eqn:Ea; [|done]. cbn [mbind option_bind] in E.
    destruct (a_conns a !! j) as [[c st]|]; [|done]. cbn [mbind option_bind] in E.
    destruct st, o; simplify_eq; by (eapply tracked_af; [exact H|exact Ea|done|done]).
Qed.

(** ** Reachable states *)

Definition new : PortForwarder := mkPF ∅ false false 0 [] [] [].
Definition reached (s : PortForwarder) : Prop := exists ls, run new ls = Some s.

Lemma run_ind (P : PortForwarder -> Prop) s ls s' :
  P s -> (forall s l s', P s -> step s l = Some s' -> P s') -> run s ls = Some s' -> P s'.
Proof.
  intros H0 Hs. revert s H0. induction ls as [|l ls IH]; intros s H0 E; cbn in E; [by simplify_eq|].
  destruct (step s l) as [s1|] eqn:E1; [|done]. apply (IH s1); [by eapply Hs|done].
Qed.

Lemma reached_ok s : reached s -> pf_ok s /\ balanced s /\ conns_ok s.
Proof.
  intros [ls E]. eapply (run_ind (fun s => pf_ok s /\ balanced s /\ conns_ok s)); [| |exact E].
  - split_and!; [constructor; cbn; try done; set_solver|by intros id|]. split; [done|]. intros c. cbn. lia.
  - intros s1 l s2 (H1 & H2 & H3) Est. split_and!; [by eapply step_pf_ok|by eapply step_balanced|by eapply step_conns].
Qed.
Lemma reached_tracked s : reached s -> NoDup (ids s) -> tracked s.
Proof.
  intros [ls E]. enough (pf_ok s /\ (NoDup (ids s) -> tracked s)) by tauto.
  eapply (run_ind (fun s => pf_ok s /\ (NoDup (ids s) -> tracked s))); [| |exact E].
  - split; [constructor; cbn; try done; set_solver|]. by intros _ k a.
  - intros s1 l s2 [H1 H2] Est. split; [by eapply step_pf_ok|]. intros Hn.
    assert (NoDup (ids s1)) as Hn1 by (destruct (step_ids _ _ _ Est) as [tl Htl]; rewrite Htl in Hn; by apply NoDup_app in Hn as [? _]).
    eapply step_tracked; eauto.
Qed.

(** ** Draining *)

(** What a goroutine or stopper has left to do, apart from connections not yet accepted. *)
Definition pc_work (p : pc) : nat :=
  match p with
  | PStart => 9 | PListen => 8 | PListened _ => 7 | PSet _ => 6 | PReady _ => 5 | PDial => 5
  | PAccept => 3 | PRemove => 2 | PNotify | PInvalid => 1 | PDone => 0
  end.
Definition conn_work (p : Z * conn_state) : nat := match p.2 with CShake => 3 | CDialing _ => 2 | COpen => 1 end.
Definition af_work (a : activeForward) : nat := pc_work (a_pc a) + Nat.b2n (a_watch a) + sum_list_with conn_work (a_conns a).
Definition phase_done (p : stop_phase) : nat := match p with TCancel => 0 | TClose => 1 | TWait => 2 | TNotify => 3 end.
Definition stopper_work (t : stopper) : nat := Nat.b2n (t_root t) + (4 * length (t_todo t) - phase_done (t_phase t)).
Definition work (s : PortForwarder) : nat := sum_list_with af_work (pf_afs s) + sum_list_with stopper_work (pf_stoppers s).

Definition internal (l : label) : bool :=
  match l with LStopper _ | LRun _ _ | LWatch _ | LConn _ _ _ => true | _ => false end.
Definition accepts (l : label) : bool := match l with LRun _ AcceptOk => true | _ => false end.

(** The steps that wait for nobody outside: those of the callers that are stopping forwards
    (their wait for connections has a timeout), of the goroutine that watches the context, and
    of a forward's goroutine between its calls; [Accept] on a closed listener returns an
    error at once.  Listening, accepting on an open listener, dialing, the SOCKS5 handshake and
    the bridge return when the network or a peer lets them. *)
Definition own (s : PortForwarder) (l : label) : bool :=
  match l with
  | LStopper _ | LWatch _ => true
  | LRun _ Go => true
  | LRun k AcceptErr => match pf_afs s !! k with Some a => negb (a_open a) | None => false end
  | _ => false
  end.
(** Finished, or in a call that waits for the network. *)
Definition outside (p : pc) : bool := match p with PDone | PListen | PDial => true | _ => false end.
Definition at_rest (s : PortForwarder) : Prop := forall l, own s l = true -> step s l = None.

Lemma work_af s S k a a' :
  pf_afs s !! k = Some a -> pf_afs S = pf_afs s -> pf_stoppers S = pf_stoppers s ->
  (work (with_af k a' S) + af_work a = work s + af_work a')%nat.
Proof. intros Hk Ha Ht. unfold work. cbn. rewrite Ha, Ht. pose proof (sum_list_insert af_work _ _ _ a' Hk). lia. Qed.
Lemma work_stopper s S i t t' :
  pf_stoppers s !! i = Some t -> pf_stoppers S = pf_stoppers s -> sum_list_with af_work (pf_afs S) = sum_list_with af_work (pf_afs s) ->
  (work (with_stoppers (<[i := t']> (pf_stoppers S)) S) + stopper_work t = work s + stopper_work t')%nat.
Proof. intros Hi Ht Ha. unfold work. cbn. rewrite Ha, Ht. pose proof (sum_list_insert stopper_work _ _ _ t' Hi). lia. Qed.

(** Every internal step does some of the work; accepting a connection makes at most three
    units of new work. *)
Lemma step_work s l s' :
  internal l = true -> step s l = Some s' -> (work s' + 1 <= work s + 4 * Nat.b2n (accepts l))%nat.
Proof.
  intros Hi E. destruct l as [config|i|order|order|i|k o|k|k j o]; try done; clear Hi; cbn [step] in E.
  - unfold stop_step in E. destruct (pf_stoppers s !! i) as [t|] eqn:Et; [|done]. cbn [mbind option_bind] in E.
    destruct (t_root t) eqn:Er.
    { simplify_eq. pose proof (work_stopper s (with_cancelled s) i t (mkStopper false (t_todo t) (t_phase t)) Et eq_refl eq_refl) as W.
      revert W. unfold stopper_work. rewrite Er. cbn [t_root t_todo t_phase Nat.b2n accepts]. lia. }
    destruct (t_todo t) as [|[id k] rest] eqn:Etodo; [done|].
    destruct (pf_afs s !! k) as [a|] eqn:Ea; [|done]. cbn [mbind option_bind] in E.
    assert (forall a', af_work a' = af_work a -> sum_list_with af_work (pf_afs (with_af k a' s)) = sum_list_with af_work (pf_afs s)) as Hsum
      by (intros a' Ha'; cbn; pose proof (sum_list_insert af_work _ _ _ a' Ea); lia).
    assert (stopper_work t = 4 * S (length rest) - phase_done (t_phase t))%nat as Hw by (unfold stopper_work; by rewrite Er, Etodo).
    destruct (t_phase t); simplify_eq.
    + pose proof (work_stopper s (with_af k (cancel_af a) s) i t (mkStopper false ((id, k) :: rest) TClose) Et eq_refl (Hsum (cancel_af a) eq_refl)) as W.
      unfold stopper_work at 2 in W. cbn in *. lia.
    + pose proof (work_stopper s (with_af k (closeListener a) s) i t (mkStopper false ((id, k) :: rest) TWait) Et eq_refl (Hsum (closeListener a) eq_refl)) as W.
      unfold stopper_work at 2 in W. cbn in *. lia.
    + pose proof (work_stopper s s i t (mkStopper false ((id, k) :: rest) TNotify) Et eq_refl eq_refl) as W.
      unfold stopper_work at 2 in W. cbn in *. lia.
    + pose proof (work_stopper s (emit [OnForwardStopped id] s) i t (mkStopper false rest TCancel) Et eq_refl eq_refl) as W.
      unfold stopper_work at 2 in W. cbn in *. lia.
  - unfold run_step in E. destruct (pf_afs s !! k) as [a|] eqn:Ea; [|done]. cbn [mbind option_bind] in E.
    assert (af_work a = pc_work (a_pc a) + Nat.b2n (a_watch a) + sum_list_with conn_work (a_conns a))%nat as Hw by done.
    destruct (a_pc a) eqn:Ep, o; try done; repeat case_match; simplify_eq.
    all: match goal with |- (work (with_af _ ?a' ?S) + _ <= _)%nat => pose proof (work_af s S k a a' Ea eq_refl eq_refl) as W end.
    all: unfold af_work at 2 in W; cbn in *; rewrite ?Ep in W; destruct (a_watch a); cbn in *; lia.
  - unfold watch_step in E. destruct (pf_afs s !! k) as [a|] eqn:Ea; [|done]. cbn [mbind option_bind] in E.
    destruct (a_watch a && ctxErr s a) eqn:Ew; simplify_eq. apply andb_true_iff in Ew as [Ew _].
    pose proof (work_af s s k a (watched false (closeListener a)) Ea eq_refl eq_refl) as W. unfold af_work in W. cbn in *. rewrite Ew in W. cbn in W. lia.
  - unfold conn_step in E. destruct (pf_afs s !! k) as [a|] eqn:Ea; [|done]. cbn [mbind option_bind] in E.
    destruct (a_conns a !! j) as [[c st]|] eqn:Ej; [|done]. cbn [mbind option_bind] in E.
    pose proof (sum_list_delete conn_work _ _ _ Ej) as Wd. pose proof (fun st' => sum_list_insert conn_work _ _ _ (c, st') Ej) as Wi.
    destruct st, o; simplify_eq;
      (match goal with |- (work (with_af _ ?a' ?S) + _ <= _)%nat => pose proof (work_af s S k a a' Ea eq_refl eq_refl) as W end;
       unfold af_work in W; cbn [a_pc a_watch a_conns with_conns] in W; try match type of W with context [<[_ := (_, ?st')]> _] => specialize (Wi st') end;
       cbn in *; lia).
Qed.

Lemma run_work s ls s' :
  forallb internal ls = true -> run s ls = Some s' ->
  (work s' + length ls <= work s + 4 * sum_list_with (fun l => Nat.b2n (accepts l)) ls)%nat.
Proof.
  revert s. induction ls as [|l ls IH]; intros s Hi E; cbn in *; [simplify_eq; lia|].
  apply andb_true_iff in Hi as [Hl Hls]. destruct (step s l) as [s1|] eqn:E1; [|done]. cbn in E.
  apply IH in E; [|done]. apply step_work in E1; [|done]. lia.
Qed.

(** The forwarder's context stays cancelled. *)
Lemma step_cancelled s l s' : pf_cancelled s = true -> step s l = Some s' -> pf_cancelled s' = true.
Proof.
  intros H E. destruct l as [config|i|order|order|i|k o|k|k j o]; cbn [step] in E.
  - destruct (StartForward config s) as [s1|] eqn:Es; simplify_eq; [|done].
    by apply StartForward_spec in Es as (cfg & -> & _ & _ & _ & ->).
  - simplify_eq. unfold StopForward. by destruct (pf_forwards s !! i).
  - by destruct (bool_decide _); simplify_eq.
  - destruct (bool_decide _); simplify_eq. unfold Close. by destruct (pf_closed s).
  - unfold stop_step in E. destruct (pf_stoppers s !! i) as [t|]; [|done]. cbn [mbind option_bind] in E.
    destruct (t_root t); [by simplify_eq|]. destruct (t_todo t) as [|[id k] rest]; [done|].
    destruct (pf_afs s !! k) as [a|]; [|done]. by destruct (t_phase t); cbn [mbind option_bind] in E; simplify_eq.
  - unfold run_step in E. destruct (pf_afs s !! k) as [a|]; [|done]. cbn [mbind option_bind] in E.
    by destruct (a_pc a), o; try done; repeat case_match; simplify_eq.
  - unfold watch_step in E. destruct (pf_afs s !! k) as [a|]; [|done]. cbn [mbind option_bind] in E.
    by destruct (_ && _); simplify_eq.
  - unfold conn_step in E. destruct (pf_afs s !! k) as [a|]; [|done]. cbn [mbind option_bind] in E.
    destruct (a_conns a !! j) as [[c st]|]; [|done]. by destruct st, o; cbn [mbind option_bind] in E; simplify_eq.
Qed.

Lemma watch_progress s k a : pf_cancelled s = true -> pf_afs s !! k = Some a -> a_watch a = true -> is_Some (watch_step s k).
Proof. intros Hc Hk Hw. unfold watch_step, ctxErr. rewrite Hk. cbn. rewrite Hw, Hc, orb_true_r. done. Qed.
Lemma stop_progress s i t :
  pf_ok s -> pf_stoppers s !! i = Some t -> t_root t = true \/ t_todo t <> [] -> is_Some (stop_step s i).
Proof.
  intros Hok Ht Hw. unfold stop_step. rewrite Ht. cbn [mbind option_bind]. destruct (t_root t) eqn:Er; [done|].
  destruct (t_todo t) as [|[id k] rest] eqn:Etodo; [by destruct Hw|].
  destruct (ok_todo _ Hok t id k) as (a & Ha & _); [by eapply list_elem_of_lookup_2|rewrite Etodo; left|].
  rewrite Ha. cbn [mbind option_bind]. by destruct (t_phase t).
Qed.

(** What is left when no such step is possible. *)
Lemma rest_stoppers s t : pf_ok s -> at_rest s -> t ∈ pf_stoppers s -> t_root t = false /\ t_todo t = [].
Proof.
  intros Hok Hr [i Hi]%list_elem_of_lookup_1. pose proof (Hr (LStopper i) eq_refl) as Hn. cbn [step] in Hn.
  pose proof (stop_progress s i t Hok Hi) as Hp. rewrite Hn in Hp.
  destruct (t_root t); [destruct (Hp (or_introl eq_refl)) as [? ?]; done|]. split; [done|].
  destruct (t_todo t); [done|]. destruct Hp as [? ?]; [by right|done].
Qed.
Lemma rest_forward s a :
  pf_ok s -> pf_cancelled s = true -> at_rest s -> a ∈ pf_afs s ->
  a_open a = false /\ a_watch a = false /\ outside (a_pc a) = true.
Proof.
  intros Hok Hc Hr Hin. pose proof (proj1 (Forall_forall _ _) (ok_afs _ Hok) a Hin) as [A1 A2].
  apply list_elem_of_lookup_1 in Hin as [k Hk].
  assert (a_watch a = false) as Hw.
  { destruct (a_watch a) eqn:E; [|done]. destruct (watch_progress s k a Hc Hk E) as [? Hx].
    pose proof (Hr (LWatch k) eq_refl) as Hn. cbn [step] in Hn. congruence. }
  assert (a_open a = true -> a_listener a = true \/ exists port, a_pc a = PListened port) as B1 by (intros H; destruct (A1 H) as [?|[? ?]]; eauto).
  assert (run_step s k Go = None) as Hgo by exact (Hr (LRun k Go) eq_refl).
  unfold run_step in Hgo. rewrite Hk in Hgo. cbn [mbind option_bind] in Hgo.
  assert (outside (a_pc a) = true \/ a_pc a = PAccept) as Hpc by (destruct (a_pc a); auto; discriminate).
  assert (a_open a = false) as Ho.
  { destruct (a_open a); [|done]. destruct (B1 eq_refl) as [Hl|[port Hl]]; [|destruct Hpc as [Hpc|Hpc]; by rewrite Hl in Hpc].
    apply A2 in Hl. rewrite Hw in Hl. destruct Hpc as [Hpc|Hpc]; destruct (a_pc a); naive_solver. }
  split_and!; [done..|]. destruct Hpc as [?|Hpc]; [done|]. exfalso.
  pose proof (Hr (LRun k AcceptErr)) as Hn. cbn [own step] in Hn. rewrite Hk, Ho in Hn. specialize (Hn eq_refl).
  unfold run_step in Hn. rewrite Hk in Hn. cbn [mbind option_bind] in Hn. rewrite Hpc in Hn. by destruct (ctxErr s a).
Qed.

(** ** The theorems *)

(** C28: callbacks are exact in every interleaving of calls, goroutines and network answers.
    For every identifier, the forwards that entered the map are those reported stopped (or
    discarded for an invalid direction), those still in the map and those whose notification
    is under way: nothing is reported stopped twice and nothing forgotten.  A connection
    identifier is reported open at most once, and the connections reported open but not
    closed are those with a handler. *)
Theorem forward_accounting s :
  reached s ->
  (forall id, counts (entered id) (pf_log s) = (counts (settled id) (pf_log s) + present id s + due id s)%nat) /\
  (forall c, (counts (conn_opened c) (pf_log s) <= 1)%nat /\
             counts (conn_opened c) (pf_log s) = (counts (conn_closed c) (pf_log s) + all_in_flight c false s)%nat).
Proof.
  intros (_ & Hb & _ & Hc)%reached_ok. split; [exact Hb|]. intros c. destruct (Hc c) as [H1 H2]. split; [|exact H1].
  unfold issued in H2. destruct (_ && _); cbn in H2; lia.
Qed.

(** A running forward can be stopped.  As long as no identifier is used for two forwards,
    every forward whose goroutine runs and whose context is not cancelled will have it
    cancelled after a call of [StopForward] with its identifier: by that call, or by one
    already under way. *)
Theorem forward_stoppable s k a :
  reached s -> NoDup (ids s) ->
  pf_afs s !! k = Some a -> live (a_pc a) = true -> a_cancelled a = false ->
  exists t, t ∈ pf_stoppers (StopForward (ForwardID (a_config a)) s) /\ (ForwardID (a_config a), k) ∈ to_cancel t.
Proof.
  intros Hr Hn Hk Hl Hc. destruct (reached_tracked s Hr Hn k a Hk Hl Hc) as [Hm|(t & Ht & Hin)]; unfold StopForward.
  - rewrite Hm. eexists. split; [apply elem_of_app; right; by apply list_elem_of_singleton|]. cbn. by apply list_elem_of_singleton.
  - exists t. split; [|done]. destruct (pf_forwards s !! _); [|done]. apply elem_of_app. by left.
Qed.

(** C27: [Close] depends on no peer.  Once it has cancelled the context, the goroutines and
    the callers that are stopping forwards take a bounded number of steps, up to four more
    for each connection still accepted; and when all have done what they can without an
    answer of the network, every call of [Close], [StopAll] and [StopForward] is over, the
    map is empty, no listener is open, every forward has been reported and none can
    be started.  What may remain are goroutines in a call of listen or dial that has not returned,
    and the connections, which [Close] leaves to their peers after five seconds. *)
Theorem close_needs_no_peer s ls s' :
  reached s -> pf_cancelled s = true -> forallb internal ls = true -> run s ls = Some s' ->
  (length ls <= work s + 4 * sum_list_with (fun l => Nat.b2n (accepts l)) ls)%nat /\
  (at_rest s' ->
   pf_forwards s' = ∅ /\ (forall t, t ∈ pf_stoppers s' -> t_root t = false /\ t_todo t = []) /\
   (forall a, a ∈ pf_afs s' -> a_open a = false /\ a_watch a = false /\ outside (a_pc a) = true) /\
   (forall id, counts (entered id) (pf_log s') = counts (settled id) (pf_log s')) /\
   (forall config, is_ok (StartForward config s') = false)).
Proof.
  intros [ls0 Hr] Hc Hi E.
  assert (pf_ok s' /\ balanced s') as [Hok Hb].
  { assert (reached s) as (H1 & H2 & _)%reached_ok by (by exists ls0). eapply (run_ind (fun s => pf_ok s /\ balanced s)); [done| |exact E].
    intros s1 l s2 [H3 H4] Est. split; [by eapply step_pf_ok|by eapply step_balanced]. }
  assert (pf_cancelled s' = true) as Hc' by (by eapply (run_ind (fun s => pf_cancelled s = true)); [exact Hc|exact step_cancelled|exact E]).
  assert (pf_closed s' = true) as Hcl by (by apply (ok_root _ Hok)).
  split; [apply run_work in E; [lia|done]|]. intros Hrest.
  pose proof (ok_closed _ Hok Hcl) as Hm. pose proof (fun t => rest_stoppers s' t Hok Hrest) as Qt.
  pose proof (fun a => rest_forward s' a Hok Hc' Hrest) as Qa. split_and!; [done..| |].
  - intros id. rewrite (Hb id). unfold present, due. rewrite Hm, lookup_empty, (bool_decide_false (is_Some None)) by (by intros [? [=]]).
    rewrite (sum_list_zero (due_stopper id)) by (intros t [_ Ht]%Qt; unfold due_stopper; by rewrite Ht).
    rewrite (sum_list_zero (due_af id)) by (intros a (_ & _ & Hp)%Qa; unfold due_af; by destruct (a_pc a)).
    cbn. lia.
  - intros [cfg|]; unfold StartForward; [|done]. destruct (bool_decide _); [done|]. destruct (_ && _); [done|]. by rewrite Hcl.
Qed.

(** ** Runs *)

Definition sample_config : ForwardConfig :=
  {| ForwardID := lit "web"; Direction := lit "local"; BindAddress := []; BindPort := 8080;
     TargetHost := lit "db.internal"; TargetPort := 5432; RecoverRemoteListener := false |}.
(** Forward [k] gets its listener and starts to accept. *)
Definition up (k : nat) : list label := [LRun k Go; LRun k (ListenOk 8080); LRun k Go; LRun k Go; LRun k Go].
Definition sample_run : list label := [LStart (Some sample_config)] ++ up 0 ++ [LRun 0 AcceptOk; LRun 0 DialOk].
Definition after (ls : list label) : PortForwarder := default new (run new ls).

Lemma forward_accounting_witness :
  counts (entered (lit "web")) (pf_log (after sample_run)) = 1%nat /\
  (counts (entered (lit "web")) (pf_log (after sample_run)) =
   counts (settled (lit "web")) (pf_log (after sample_run)) + present (lit "web") (after sample_run) + due (lit "web") (after sample_run))%nat.
Proof.
  split; [vm_compute; reflexivity|]. apply forward_accounting. exists sample_run. vm_compute. reflexivity.
Defined.

Lemma forward_stoppable_witness :
  exists t, t ∈ pf_stoppers (StopForward (lit "web") (after sample_run)) /\ (lit "web", 0%nat) ∈ to_cancel t.
Proof.
  assert (exists a, pf_afs (after sample_run) !! 0%nat = Some a /\ live (a_pc a) = true /\ a_cancelled a = false /\
                    ForwardID (a_config a) = lit "web") as (a & Ha & Hl & Hc & Hid)
    by (eexists; split; [vm_compute; reflexivity|]; split_and!; vm_compute; reflexivity).
  rewrite <- Hid. apply (forward_stoppable (after sample_run) 0 a); [exists sample_run; vm_compute; reflexivity| |done..].
  apply (bool_decide_eq_true_1 (NoDup (ids (after sample_run)))). vm_compute. reflexivity.
Defined.

Definition closing_run : list label := sample_run ++ [LClose [(lit "web", 0%nat)]; LStopper 0].
(** The forwarder does all it can; the connection's peers have not ended it. *)
Definition rest_run : list label :=
  [LStopper 0; LStopper 0; LWatch 0; LRun 0 AcceptErr; LStopper 0; LStopper 0].

Lemma close_needs_no_peer_witness :
  pf_cancelled (after closing_run) = true /\
  let s' := after (closing_run ++ rest_run) in
  run (after closing_run) rest_run = Some s' /\ pf_forwards s' = ∅ /\
  (forall a, a ∈ pf_afs s' -> a_open a = false /\ a_watch a = false /\ outside (a_pc a) = true) /\
  (a_conns <$> pf_afs s') = [[(1, COpen)]].
Proof.
  split; [vm_compute; reflexivity|]. cbv zeta.
  assert (run (after closing_run) rest_run = Some (after (closing_run ++ rest_run))) as E by (vm_compute; reflexivity).
  split; [exact E|].
  destruct (close_needs_no_peer (after closing_run) rest_run (after (closing_run ++ rest_run))) as (_ & H);
    [exists closing_run; vm_compute; reflexivity|vm_compute; reflexivity|reflexivity|exact E|].
  destruct H as (H1 & _ & H2 & _).
  - intros l Hl. destruct l as [| | | |[|i]|[|k] []|[|k]|]; cbn [own] in Hl;
      try match type of Hl with false = true => discriminate Hl end; clear Hl; vm_compute; reflexivity.
  - split; [exact H1|]. split; [exact H2|]. vm_compute. reflexivity.
Defined.

(** The restriction to unused identifiers in [forward_stoppable] is needed.  A local or
    dynamic forward that is stopped and started again while its first goroutine is still in
    [net.Listen]: the first goroutine finds the port taken by the second, and, since it does
    not look at its context after the error, takes the second forward out of the map and
    reports it stopped.  That forward accepts connections and [StopForward] no longer finds it. *)
Lemma restarted_forward_orphaned :
  let s := after ([LStart (Some sample_config); LRun 0 Go; LStop (lit "web"); LStart (Some sample_config)] ++ up 1 ++
                  [LRun 0 ListenErr; LRun 0 Go; LRun 0 Go; LStopper 0; LStopper 0; LStopper 0; LStopper 0]) in
  pf_forwards s = ∅ /\ StopForward (lit "web") s = s /\ counts (settled (lit "web")) (pf_log s) = 2%nat /\
  exists a, pf_afs s !! 1%nat = Some a /\ a_pc a = PAccept /\ a_open a = true /\ a_cancelled a = false.
Proof. vm_compute. split_and!; try reflexivity. eexists. split_and!; reflexivity. Qed.

(** A forward whose [Accept] fails is taken out of the map and reported stopped, but its
    listener stays open and its context is not cancelled: nothing closes the socket before
    [Close], and a restart of the forward finds its port in use. *)
Lemma accept_failure_keeps_listener :
  let s := after ([LStart (Some sample_config)] ++ up 0 ++ [LRun 0 AcceptErr; LRun 0 Go; LRun 0 Go]) in
  pf_forwards s = ∅ /\ StopForward (lit "web") s = s /\ watch_step s 0 = None /\
  counts (settled (lit "web")) (pf_log s) = 1%nat /\
  exists a, pf_afs s !! 0%nat = Some a /\ a_pc a = PDone /\ a_open a = true /\ a_cancelled a = false.
Proof. vm_compute. split_and!; try reflexivity. eexists. split_and!; reflexivity. Qed.

(** ** Taking over a remote listener *)

Section Recovery.
Context `{U : UnicodeTables}.

(** [remoteListenerWakeAddress] *)
Definition remoteListenerWakeAddress (address : bytes) : option bytes :=
  '(host, port) ← SplitHostPort address;
  let host' := if bool_decide (host = []) || bool_decide (host = lit "0.0.0.0") then lit "127.0.0.1"
               else if bool_decide (host = lit "::") then lit "::1" else host in
  Some (JoinHostPort host' port).

Inductive read_error := ReadEOF | ReadTimeout | ReadOther.
(** What [wakeRemoteListener] meets: whether the context is done, the text of a dial error,
    whether the deadline can be set, and the bytes and error of the one-byte read. *)
Record wake_env := { wk_ctxErr : bool; wk_dial : option bytes; wk_deadlineOk : bool; wk_n : Z; wk_err : option read_error }.

(** [wakeRemoteListener]: whether it returns no error, and the address dialed. *)
Definition wakeRemoteListener (w : wake_env) (address : bytes) : bool * list fwd_event :=
  if wk_ctxErr w then (false, [])
  else match remoteListenerWakeAddress address with
  | None => (false, [])
  | Some wakeAddress =>
      (match wk_dial w with
       | Some text => Contains (ToLower text) (lit "connection refused")
       | None =>
           if negb (wk_deadlineOk w) then false
           else if negb (wk_n w =? 0) then false
           else match wk_err w with Some ReadEOF | Some ReadTimeout | None => true | Some ReadOther => false end
       end, [CallDial true wakeAddress])
  end.

(** One round of the loop: the context at its head, the text of a listen error. *)
Record round := { rd_ctxErr : bool; rd_listen : option bytes; rd_wake : wake_env }.

(** [listenRemoteForward]: whether a listener is returned, [None] while the rounds given do
    not make it return, and the calls made. *)
Fixpoint listenRemoteForward (recover : bool) (address : bytes) (rounds : list round) : option bool * list fwd_event :=
  match rounds with
  | [] => (None, [])
  | r :: rounds' =>
      if rd_ctxErr r then (Some false, [])
      else match rd_listen r with
      | None => (Some true, [CallListen true address])
      | Some text =>
          if negb recover || negb (Contains (ToLower text) (lit "address already in use"))
          then (Some false, [CallListen true address])
          else
            let '(ok, calls) := wakeRemoteListener (rd_wake r) address in
            if negb ok then (Some false, CallListen true address :: calls)
            else let '(res, calls') := listenRemoteForward recover address rounds' in
                 (res, CallListen true address :: calls ++ calls')
      end
  end.

(** A forward that does not recover asks for its listener once and dials nothing.  One that
    recovers reports success only for a listener the server has just granted: the last call
    is the [Listen] that succeeded, and every round before it failed because the address
    was in use and was woken at the address the wildcard stands for. *)
Lemma listenRemoteForward_once address r rounds :
  rd_ctxErr r = false ->
  listenRemoteForward false address (r :: rounds) = (Some (bool_decide (rd_listen r = None)), [CallListen true address]).
Proof. intros H. cbn. rewrite H. by destruct (rd_listen r). Qed.

Lemma listenRemoteForward_granted recover address rounds calls :
  listenRemoteForward recover address rounds = (Some true, calls) ->
  exists before r after, rounds = before ++ r :: after /\ rd_listen r = None /\
    Forall (fun b => exists text, rd_listen b = Some text /\ Contains (ToLower text) (lit "address already in use") = true /\
                                  (wakeRemoteListener (rd_wake b) address).1 = true) before /\
    exists calls', calls = calls' ++ [CallListen true address] /\
      forall addr, CallDial true addr ∈ calls -> remoteListenerWakeAddress address = Some addr.
Proof.
  revert calls. induction rounds as [|r rounds IH]; intros calls E; [done|]. cbn [listenRemoteForward] in E.
  destruct (rd_ctxErr r); [done|]. destruct (rd_listen r) as [text|] eqn:El.
  - destruct (negb recover || _) eqn:Eu; [done|]. apply orb_false_iff in Eu as [_ Eu%negb_false_iff].
    destruct (wakeRemoteListener (rd_wake r) address) as [ok wcalls] eqn:Ew. destruct ok; [|done]. cbn [negb] in E.
    destruct (listenRemoteForward recover address rounds) as [res calls1] eqn:E1. simplify_eq.
    destruct (IH _ eq_refl) as (before & r1 & after & -> & Hn & Hf & calls' & -> & Hd).
    exists (r :: before), r1, after. split_and!; [done..| |].
    + constructor; [|done]. exists text. by rewrite Ew.
    + exists (CallListen true address :: wcalls ++ calls'). split; [cbn; by rewrite app_assoc|].
      intros addr [?|[Hin|Hin]%elem_of_app]%elem_of_cons; [done| |by apply Hd].
      revert Ew. unfold wakeRemoteListener. destruct (wk_ctxErr (rd_wake r)); [done|].
      destruct (remoteListenerWakeAddress address); [|done]. intros [= _ <-]. apply list_elem_of_singleton in Hin. congruence.
  - simplify_eq. exists [], r, rounds. split_and!; [done..|constructor|]. exists []. split; [done|]. set_solver.
Qed.
End Recovery.
