(* ===== verification/MarkerFilter.v ===== *)
(** * Discard markers in session output

    [discardMarkerFilter] and [forwardOutput] of src/iosbridge/transport.go: the server may
    leak markers (a magic prefix no UTF-8 text contains, then four index bytes, each possibly
    echoed as a caret pair) into the terminal output; the filter takes them out of a stream
    that arrives in arbitrary reads. *)

From S2P Require Import Prelude.

(** ** The filter *)

Definition discardMarkerMagic : bytes := [255; 192; 193; 255].

(** [consumeMarkerIndex] on what follows the magic: the raw bytes of [logical] index bytes,
    [None] when there is not enough data. *)
Fixpoint consume_index (logical : nat) (data : bytes) : option nat :=
  match logical with
  | O => Some 0%nat
  | S logical' =>
      match data with
      | [] => None
      | b :: rest =>
          match rest with
          | next :: rest' =>
              if (b =? 94) && (63 <=? next) && (next <=? 95)
              then (fun n => 2 + n)%nat <$> consume_index logical' rest'
              else (fun n => 1 + n)%nat <$> consume_index logical' rest
          | [] => (fun n => 1 + n)%nat <$> consume_index logical' rest
          end
      end
  end.
Definition consumeMarkerIndex (data : bytes) (pos : nat) : option nat := consume_index 4 (drop pos data).

(** The loop of [filter] from index [i] on: the bytes kept and what is held back.  [fuel]
    bounds the iterations, each of which consumes a byte. *)
Fixpoint filter_loop (fuel : nat) (data result : bytes) : bytes * bytes :=
  match fuel with
  | O => (result, [])
  | S fuel' =>
      match data with
      | [] => (result, [])
      | b :: rest =>
          if negb (b =? 255) then filter_loop fuel' rest (result ++ [b])
          else if len data <? 4 then
            if bool_decide (data `prefix_of` discardMarkerMagic) then (result, data)
            else filter_loop fuel' rest (result ++ [b])
          else if negb (bool_decide (take 4 data = discardMarkerMagic)) then filter_loop fuel' rest (result ++ [b])
          else match consumeMarkerIndex data 4 with
               | None => (result, data)
               | Some indexBytes => filter_loop fuel' (drop (4 + indexBytes) data) result
               end
      end
  end.

(** [filter]: the clean output and the new [partial]. *)
Definition filter_marker (partial data : bytes) : bytes * bytes :=
  if bool_decide (data = []) then ([], partial)
  else
    let data := partial ++ data in
    if negb (existsb (fun b => b =? 255) data) then (data, [])
    else filter_loop (length data) data [].

(** ** Forwarding *)

Inductive read_error := ReadEOF | ReadFailed.
(** [TSSHOutputCallback]. *)
Inductive out_event := OnOutput (data : bytes) | OnExit (code : Z) | OnError | OnClose.
(** An iteration of the loop: whether the session has been stopped, and the read. *)
Record out_read := { or_stopped : bool; or_data : bytes; or_err : option read_error }.

Fixpoint forwardOutput (exitCode : Z) (partial : bytes) (reads : list out_read) : list out_event :=
  match reads with
  | [] => []
  | r :: reads' =>
      if or_stopped r then []
      else
        let '(filtered, partial') :=
          if 0 <? len (or_data r) then filter_marker partial (or_data r) else ([], partial) in
        (if 0 <? len filtered then [OnOutput filtered] else []) ++
        match or_err r with
        | None => forwardOutput exitCode partial' reads'
        | Some ReadEOF => [OnExit exitCode]
        | Some ReadFailed => [OnError]
        end
  end.

(** ** One pass over a whole stream *)

Definition strip (s : bytes) : bytes * bytes := filter_loop (length s) s [].

Lemma consume_bound n : forall d m, consume_index n d = Some m -> (m <= length d)%nat.
Proof.
  induction n as [|n IH]; intros d m; cbn [consume_index]; [intros [= <-]; lia|].
  destruct d as [|b [|c d]]; [done| |].
  - destruct (consume_index n []) as [k|] eqn:E; [|done]. apply IH in E. intros [= <-]. cbn in *. lia.
  - destruct (_ && _).
    + destruct (consume_index n d) as [k|] eqn:E; [|done]. apply IH in E. intros [= <-]. cbn. lia.
    + destruct (consume_index n (c :: d)) as [k|] eqn:E; [|done]. apply IH in E. intros [= <-]. cbn in *. lia.
Qed.

(** More data does not change what an index consumed, unless the data ended in a caret. *)
Lemma consume_app n : forall d e m,
  consume_index n d = Some m -> last d <> Some 94 -> consume_index n (d ++ e) = Some m.
Proof.
  induction n as [|n IH]; intros d e m; cbn [consume_index]; [done|].
  destruct d as [|b [|c d]]; [done| |].
  - intros H Hl. destruct n; [|done]. injection H as <-. cbn. destruct e as [|x e]; [done|].
    destruct (b =? 94) eqn:Eb; [|done]. to_prop. subst. done.
  - intros H Hl. change ((b :: c :: d) ++ e) with (b :: c :: d ++ e). cbn iota beta.
    destruct (_ && _).
    + destruct (consume_index n d) as [k|] eqn:E; [|done].
      destruct d as [|x d]; [|rewrite (IH (x :: d) e k E Hl); done].
      destruct n; [|done]. injection E as <-. cbn in H. injection H as <-. done.
    + destruct (consume_index n (c :: d)) as [k|] eqn:E; [|done]. pose proof (IH (c :: d) e k E Hl) as Hk. cbn [app] in Hk. by rewrite Hk.
Qed.

(** The fuel is enough, and the accumulator only collects. *)
Lemma filter_loop_acc fuel : forall d r, (length d <= fuel)%nat ->
  filter_loop fuel d r = (r ++ (strip d).1, (strip d).2).
Proof.
  induction fuel as [fuel IH] using lt_wf_ind. intros d r Hf.
  assert (forall fuel' d r, (fuel' < fuel)%nat -> (length d <= fuel')%nat ->
            filter_loop fuel' d r = (r ++ (strip d).1, (strip d).2)) as IH' by (intros; by apply IH).
  unfold strip at 1 2. destruct fuel as [|fuel]; destruct d as [|b d]; cbn in Hf; try lia; [by rewrite app_nil_r..|].
  cbn [filter_loop length].
  assert (forall r, filter_loop fuel d (r ++ [b]) = (r ++ b :: (strip d).1, (strip d).2)) as Hstep
    by (intros; rewrite IH' by lia; by rewrite <- app_assoc).
  assert (filter_loop (length d) d ([] ++ [b]) = (b :: (strip d).1, (strip d).2)) as Hstep0
    by (rewrite IH' by lia; done).
  destruct (negb (b =? 255)); [by rewrite Hstep, Hstep0|].
  destruct (len (b :: d) <? 4).
  { destruct (bool_decide _); [by rewrite app_nil_r|]. by rewrite Hstep, Hstep0. }
  destruct (negb _); [by rewrite Hstep, Hstep0|].
  destruct (consumeMarkerIndex (b :: d) 4) as [n|]; [|by rewrite app_nil_r].
  rewrite !IH' by first [lia | rewrite length_drop; cbn [length]; lia]. done.
Qed.

Lemma strip_cons b d :
  strip (b :: d) =
    let pass := (b :: (strip d).1, (strip d).2) in
    if negb (b =? 255) then pass
    else if len (b :: d) <? 4 then
      if bool_decide (b :: d `prefix_of` discardMarkerMagic) then ([], b :: d) else pass
    else if negb (bool_decide (take 4 (b :: d) = discardMarkerMagic)) then pass
    else match consumeMarkerIndex (b :: d) 4 with
         | None => ([], b :: d)
         | Some n => strip (drop (4 + n) (b :: d))
         end.
Proof.
  unfold strip at 1. cbn [length filter_loop]. cbv zeta.
  assert (filter_loop (length d) d ([] ++ [b]) = (b :: (strip d).1, (strip d).2)) as -> by (by rewrite filter_loop_acc).
  destruct (negb (b =? 255)); [done|]. destruct (len (b :: d) <? 4); [done|]. destruct (negb _); [done|].
  destruct (consumeMarkerIndex (b :: d) 4) as [n|]; [|done].
  rewrite filter_loop_acc by (rewrite length_drop; cbn; lia). by destruct (strip _).
Qed.

Lemma strip_text d : existsb (fun b => b =? 255) d = false -> strip d = (d, []).
Proof.
  induction d as [|b d IH]; intros H; [done|]. cbn [existsb] in H. apply orb_false_iff in H as [Hb Hd].
  rewrite strip_cons, Hb. cbv zeta. cbn [negb]. by rewrite (IH Hd).
Qed.

Lemma filter_marker_strip partial d : d <> [] -> filter_marker partial d = strip (partial ++ d).
Proof.
  intros Hd. unfold filter_marker. rewrite bool_decide_false by done. cbv zeta.
  destruct (existsb _ _) eqn:E; cbn [negb]; [done|]. by rewrite strip_text.
Qed.

Lemma last_drop {A} (l : list A) n : (n < length l)%nat -> last (drop n l) = last l.
Proof.
  intros H. rewrite <- (take_drop n l) at 2. rewrite last_app.
  destruct (drop n l) as [|x l'] eqn:E; [|by destruct (last (x :: l')) eqn:E'; [|apply last_None in E']].
  apply (f_equal length) in E. rewrite length_drop in E. cbn in E. lia.
Qed.

Definition stripped_after (e : bytes) (p : bytes * bytes) : bytes * bytes :=
  (p.1 ++ (strip (p.2 ++ e)).1, (strip (p.2 ++ e)).2).

(** Cutting a stream where it does not end in a caret changes nothing. *)
Lemma strip_app d e : last d <> Some 94 -> strip (d ++ e) = stripped_after e (strip d).
Proof.
  remember (length d) as n eqn:Hn. revert d Hn. induction n as [n IH] using lt_wf_ind. intros d -> Hl.
  destruct d as [|b d]; [exact (surjective_pairing (strip e))|].
  assert (strip (b :: d) = ([], b :: d) -> strip ((b :: d) ++ e) = stripped_after e (strip (b :: d))) as Hheld
    by (intros ->; apply surjective_pairing).
  assert (strip (d ++ e) = stripped_after e (strip d)) as Hd.
  { apply (IH (length d)); [cbn; lia|done|]. destruct d; [done|exact Hl]. }
  assert ((b :: (strip (d ++ e)).1, (strip (d ++ e)).2) = stripped_after e (b :: (strip d).1, (strip d).2)) as Hpass
    by (by rewrite Hd).
  pose proof (strip_cons b d) as Es. pose proof (strip_cons b (d ++ e)) as Ese. cbv zeta in Es, Ese.
  change (b :: d ++ e) with ((b :: d) ++ e) in Ese.
  destruct (negb (b =? 255)); [by rewrite Es, Ese|].
  destruct (len (b :: d) <? 4) eqn:E4; to_prop; unfold len in E4.
  - destruct (bool_decide (b :: d `prefix_of` discardMarkerMagic)) eqn:Ep; to_prop; [by apply Hheld|].
    rewrite bool_decide_false in Ese by (intros Hp; apply Ep; etransitivity; [|exact Hp]; by apply prefix_app_r).
    rewrite Es, <- Hpass, Ese. destruct (len _ <? 4); [done|]. rewrite bool_decide_false; [done|].
    intros Ht. apply Ep. rewrite <- Ht, take_app, (take_ge (b :: d)) by lia. by eexists.
  - replace (len ((b :: d) ++ e) <? 4) with false in Ese
      by (symmetry; apply Z.ltb_ge; unfold len; rewrite length_app; lia).
    rewrite take_app_le in Ese by lia. destruct (negb _); [by rewrite Es, Ese|].
    destruct (consumeMarkerIndex (b :: d) 4) as [m|] eqn:Ec; [|by apply Hheld].
    unfold consumeMarkerIndex in *. rewrite drop_app_le in Ese by lia.
    pose proof (consume_bound _ _ _ Ec) as Hm. rewrite length_drop in Hm.
    rewrite (consume_app _ _ e _ Ec) in Ese.
    2:{ destruct (decide (4 < length (b :: d))%nat); [by rewrite last_drop|].
        rewrite drop_ge by lia. done. }
    rewrite Es, Ese, drop_app_le by lia. apply (IH (length (drop (4 + m) (b :: d)))); [rewrite length_drop; cbn; lia|done|].
    destruct (decide (4 + m < length (b :: d))%nat); [by rewrite last_drop|]. rewrite drop_ge by lia. done.
Qed.

(** What is held back is a marker that has not ended: filtering it alone holds all of it back. *)
Lemma strip_held d : strip (strip d).2 = ([], (strip d).2).
Proof.
  remember (length d) as n eqn:Hn. revert d Hn. induction n as [n IH] using lt_wf_ind. intros d ->.
  destruct d as [|b d]; [done|].
  assert (strip (strip d).2 = ([], (strip d).2)) as Hd by (apply (IH (length d)); cbn; [lia|done]).
  assert (strip (b :: d) = ([], b :: d) -> strip (strip (b :: d)).2 = ([], (strip (b :: d)).2)) as Hheld
    by (intros H; rewrite H; exact H).
  pose proof (strip_cons b d) as Es. cbv zeta in Es.
  destruct (negb (b =? 255)); [by rewrite Es|].
  destruct (len (b :: d) <? 4); [destruct (bool_decide _); [by apply Hheld|by rewrite Es]|].
  destruct (negb _); [by rewrite Es|].
  destruct (consumeMarkerIndex (b :: d) 4) as [m|]; [|by apply Hheld].
  rewrite Es. apply (IH (length (drop (4 + m) (b :: d)))); [rewrite length_drop; cbn; lia|done].
Qed.

(** ** Streams of text and markers *)

Inductive index_item := Raw (b : Z) | Echoed (c : Z).
Inductive stream_item := Text (t : bytes) | Marker (index : list index_item).

Definition index_bytes (i : index_item) : bytes := match i with Raw b => [b] | Echoed c => [94; c] end.
Definition item_bytes (i : stream_item) : bytes :=
  match i with Text t => t | Marker index => discardMarkerMagic ++ concat (map index_bytes index) end.
Definition item_text (i : stream_item) : bytes := match i with Text t => t | Marker _ => [] end.
Definition index_ok (i : index_item) : bool :=
  match i with Raw b => negb (b =? 94) | Echoed c => (63 <=? c) && (c <=? 95) end.
Definition item_ok (i : stream_item) : bool :=
  match i with
  | Text t => negb (existsb (fun b => b =? 255) t)
  | Marker index => (length index =? 4)%nat && forallb index_ok index
  end.

Lemma consume_items index e :
  forallb index_ok index = true ->
  consume_index (length index) (concat (map index_bytes index) ++ e) = Some (length (concat (map index_bytes index))).
Proof.
  induction index as [|i index IH]; [done|]. cbn [forallb]. intros H. to_prop.
  specialize (IH ltac:(done)). destruct i as [b|c]; cbn [length map index_bytes concat app] in *; cbn [index_ok] in *; to_prop.
  - cbn [consume_index]. replace (b =? 94) with false by lia. cbn [andb]. rewrite IH. by destruct (concat _ ++ e).
  - cbn [consume_index]. replace (63 <=? c) with true by lia. replace (c <=? 95) with true by lia. cbn. by rewrite IH.
Qed.

Lemma strip_text_app t e :
  existsb (fun b => b =? 255) t = false -> strip (t ++ e) = (t ++ (strip e).1, (strip e).2).
Proof.
  induction t as [|b t IH]; intros H; [apply surjective_pairing|]. cbn [existsb] in H. apply orb_false_iff in H as [Hb Ht].
  cbn [app]. rewrite strip_cons, Hb. cbv zeta. cbn [negb]. by rewrite (IH Ht).
Qed.

Lemma strip_marker index e :
  item_ok (Marker index) = true -> strip (item_bytes (Marker index) ++ e) = strip e.
Proof.
  cbn [item_ok]. intros H. to_prop.
  assert (length index = 4%nat) as Hl by done. pose proof (consume_items index e ltac:(done)) as Hc. rewrite Hl in Hc.
  cbn [item_bytes]. rewrite <- app_assoc. remember (concat (map index_bytes index)) as x.
  change (discardMarkerMagic ++ x ++ e) with (255 :: [192; 193; 255] ++ x ++ e). rewrite strip_cons. cbv zeta.
  change (negb (255 =? 255)) with false. cbv iota.
  replace (len (255 :: [192; 193; 255] ++ x ++ e) <? 4) with false by (symmetry; apply Z.ltb_ge; unfold len; cbn [length app]; lia).
  rewrite bool_decide_true by done. cbn [negb]. unfold consumeMarkerIndex.
  change (drop 4 (255 :: [192; 193; 255] ++ x ++ e)) with (x ++ e). rewrite Hc.
  change (drop (4 + length x) (255 :: [192; 193; 255] ++ x ++ e)) with (drop (length x) (x ++ e)).
  by rewrite drop_app_length.
Qed.

Lemma strip_items items :
  forallb item_ok items = true -> strip (concat (map item_bytes items)) = (concat (map item_text items), []).
Proof.
  induction items as [|i items IH]; [done|]. cbn [forallb map concat]. intros H. to_prop. specialize (IH ltac:(done)).
  destruct i as [t|index].
  - cbn [item_bytes item_text item_ok] in *. to_prop. rewrite strip_text_app, IH; [done|]. done.
  - rewrite strip_marker by done. by rewrite IH.
Qed.

(** ** Forwarding a stream cut into reads *)

Definition plain_read (d : bytes) : out_read := {| or_stopped := false; or_data := d; or_err := None |}.
Definition outputs (evs : list out_event) : bytes :=
  concat (map (fun ev => match ev with OnOutput d => d | _ => [] end) evs).

Lemma forward_chunks code chunks : forall p rest,
  strip p = ([], p) -> Forall (fun c => last c <> Some 94) chunks ->
  exists evs,
    forwardOutput code p (map plain_read chunks ++ rest) = evs ++ forwardOutput code (strip (p ++ concat chunks)).2 rest /\
    Forall (fun ev => exists d, ev = OnOutput d) evs /\
    outputs evs = (strip (p ++ concat chunks)).1.
Proof.
  induction chunks as [|c chunks IH]; intros p rest Hp Hc.
  { exists []. cbn [map concat app]. rewrite app_nil_r, Hp. done. }
  apply Forall_cons in Hc as [Hc Hcs]. cbn [map app forwardOutput plain_read or_stopped or_data or_err concat].
  destruct (bool_decide (c = [])) eqn:Ec; to_prop.
  { subst c. cbn [len length app]. destruct (IH p rest Hp Hcs) as (evs & E & Hf & Ho). exists evs. by rewrite <- E. }
  assert (0 <? len c = true) as -> by (destruct c; [done|]; apply Z.ltb_lt; unfold len; cbn [length]; lia).
  rewrite filter_marker_strip by done.
  assert (last (p ++ c) <> Some 94) as Hl by (rewrite last_app; destruct (last c) eqn:El; [done|by apply last_None in El]).
  pose proof (strip_app (p ++ c) (concat chunks) Hl) as Ha. rewrite <- app_assoc in Ha. rewrite Ha. clear Ha.
  pose proof (strip_held (p ++ c)) as Hh. destruct (strip (p ++ c)) as [f p']. unfold stripped_after. cbn [fst snd] in *.
  destruct (IH p' rest Hh Hcs) as (evs & E & Hf & Ho). rewrite E.
  exists ((if 0 <? len f then [OnOutput f] else []) ++ evs). rewrite app_assoc. split; [done|].
  destruct (0 <? len f) eqn:El; [|destruct f; [done|cbv in El; done]]. split; [constructor; eauto|].
  unfold outputs in *. cbn [app map concat]. by rewrite Ho.
Qed.

(** When the output of a session is text (any bytes but 0xFF) interleaved with discard
    markers, each index byte raw or echoed as a caret pair, and it is cut into reads in any way
    that never ends a read in a caret, what the forwarding loop hands to OnOutput, put together,
    is exactly the text: no marker byte leaks and no byte of the text is lost, held back or
    reordered, and the last callback is OnExit with the exit code. *)
Theorem markers_stripped code items chunks :
  forallb item_ok items = true ->
  concat chunks = concat (map item_bytes items) ->
  Forall (fun c => last c <> Some 94) chunks ->
  exists evs,
    forwardOutput code [] (map plain_read chunks ++ [{| or_stopped := false; or_data := []; or_err := Some ReadEOF |}])
      = evs ++ [OnExit code] /\
    Forall (fun ev => exists d, ev = OnOutput d) evs /\
    outputs evs = concat (map item_text items).
Proof.
  intros Hi Hc Hl.
  destruct (forward_chunks code chunks [] [{| or_stopped := false; or_data := []; or_err := Some ReadEOF |}] eq_refl Hl)
    as (evs & E & Hf & Ho).
  exists evs. rewrite E, Ho. cbn [app]. rewrite Hc, strip_items by done. done.
Qed.

Lemma markers_stripped_witness : exists evs,
  forwardOutput 3 [] (map plain_read [[104; 105; 255; 192]; [193; 255; 94]; [64; 0; 94; 65; 7; 33]] ++
                      [{| or_stopped := false; or_data := []; or_err := Some ReadEOF |}]) = evs ++ [OnExit 3] /\
  outputs evs = [104; 105; 33].
Proof.
  destruct (markers_stripped 3 [Text [104; 105]; Marker [Echoed 64; Raw 0; Echoed 65; Raw 7]; Text [33]]
              [[104; 105; 255; 192]; [193; 255]; [94; 64; 0; 94; 65; 7; 33]])
    as (evs & E & _ & Ho); [reflexivity|reflexivity|repeat constructor; discriminate|].
  exists evs. split; [|exact Ho]. rewrite <- E. reflexivity.
Defined.

(** A read that ends between the caret and the letter of the last index byte: the caret counts
    as a whole index byte and the letter is shown to the user. *)
Lemma split_pair_leaks :
  outputs (forwardOutput 0 [] (map plain_read [[255; 192; 193; 255; 0; 0; 1; 94]; [65]])) = [65] /\
  strip [255; 192; 193; 255; 0; 0; 1; 94; 65] = ([], []).
Proof. by split. Qed.

(** At the end of the stream the bytes held back are dropped: a last byte 0xFF never reaches
    the user. *)
Lemma held_tail_lost :
  forwardOutput 0 [] [{| or_stopped := false; or_data := [97; 255]; or_err := Some ReadEOF |}] = [OnOutput [97]; OnExit 0].
Proof. reflexivity. Qed.
