(* ===== verification/Transport.v ===== *)
(** * The transport of the iOS bridge and its sessions

    src/iosbridge/transport.go and relay_mtu.go: the connection parameters, what is handed to
    the UDP client, and the sessions with their callbacks.  A session is shared by the callers
    of its methods, by [Close] and by the goroutine of [forwardOutput]; their atomic sections
    are the steps of a machine, so that what is proved holds in every interleaving. *)

From S2P Require Import Prelude GoStrings MarkerFilter.

Local Open Scope go_scope.

(** ** Machine integers *)

(** The conversion to [int64]. *)
Definition i64 (z : Z) : Z := wrap 64 (z + 2 ^ 63) - 2 ^ 63.

Lemma i64_id z : MinInt64 <= z <= MaxInt64 -> i64 z = z.
Proof.
  unfold i64, wrap, MinInt64, MaxInt64. intros H. rewrite Z.mod_small; [lia|].
  change (2 ^ 64) with (2 * 2 ^ 63). lia.
Qed.

Lemma u64_i64 z : 0 <= z < 2 ^ 64 -> u64 (i64 z) = z.
Proof.
  intros H. unfold i64, wrap. destruct (decide (z < 2 ^ 63)) as [Hlt|Hge].
  - rewrite (Z.mod_small (z + 2 ^ 63)) by (change (2 ^ 64) with (2 * 2 ^ 63) in *; lia).
    rewrite Z.mod_small by lia. lia.
  - replace (z + 2 ^ 63) with ((z - 2 ^ 63) + 1 * 2 ^ 64) by (change (2 ^ 64) with (2 * 2 ^ 63); lia).
    rewrite Z.mod_add by done. rewrite (Z.mod_small (z - 2 ^ 63)) by (change (2 ^ 64) with (2 * 2 ^ 63) in *; lia).
    replace (z - 2 ^ 63 - 2 ^ 63) with (z + (-1) * 2 ^ 64) by (change (2 ^ 64) with (2 * 2 ^ 63); lia).
    rewrite Z.mod_add by done. rewrite Z.mod_small; lia.
Qed.

(** ** Connection parameters *)

Record TransportConfig := {
  Host : bytes; Port : Z; ServerVersion : bytes; Mode : bytes;
  KcpPass : bytes; KcpSalt : bytes;
  ServerCert : bytes; ClientCert : bytes; ClientKey : bytes;
  ProxyKey : bytes; ClientID : Z; ServerID : Z; ProxyMode : bytes;
  ConnectTimeoutSec : Z; AliveTimeoutSec : Z; HeartbeatTimeoutSec : Z;
  Mtu : Z; Debug : bool; DebugLabel : bytes }.

Definition NewTransportConfig : TransportConfig := {|
  Host := []; Port := 0; ServerVersion := []; Mode := []; KcpPass := []; KcpSalt := [];
  ServerCert := []; ClientCert := []; ClientKey := []; ProxyKey := []; ClientID := 0; ServerID := 0; ProxyMode := [];
  ConnectTimeoutSec := 30; AliveTimeoutSec := 24 * 3600; HeartbeatTimeoutSec := 3;
  Mtu := 0; Debug := false; DebugLabel := [] |}.

(** What the server prints when it is spawned, and what the client is given: the fields of
    [tsshd.ServerInfo] that the bridge reads and writes. *)
Record ServerInfo := {
  si_ServerVer : bytes; si_Port : Z; si_Mode : bytes; si_Pass : bytes; si_Salt : bytes;
  si_ServerCert : bytes; si_ClientCert : bytes; si_ClientKey : bytes;
  si_ProxyKey : bytes; si_ClientID : Z; si_ServerID : Z; si_ProxyMode : bytes; si_MTU : Z }.

Section Parse.
(** [json.Unmarshal] into the anonymous struct of [ParseTransportConfig]. *)
Context (Unmarshal : bytes -> option ServerInfo).

Definition ParseTransportConfig (jsonStr : bytes) : option TransportConfig :=
  match Unmarshal jsonStr with
  | None => None
  | Some raw =>
      if bool_decide (si_Mode raw = []) then None
      else if si_Port raw =? 0 then None
      else Some {|
        Host := Host NewTransportConfig; Port := si_Port raw; ServerVersion := si_ServerVer raw; Mode := si_Mode raw;
        KcpPass := si_Pass raw; KcpSalt := si_Salt raw;
        ServerCert := si_ServerCert raw; ClientCert := si_ClientCert raw; ClientKey := si_ClientKey raw;
        ProxyKey := si_ProxyKey raw; ClientID := i64 (si_ClientID raw); ServerID := i64 (si_ServerID raw);
        ProxyMode := si_ProxyMode raw;
        ConnectTimeoutSec := ConnectTimeoutSec NewTransportConfig;
        AliveTimeoutSec := AliveTimeoutSec NewTransportConfig;
        HeartbeatTimeoutSec := HeartbeatTimeoutSec NewTransportConfig;
        Mtu := si_MTU raw; Debug := Debug NewTransportConfig; DebugLabel := DebugLabel NewTransportConfig |}
  end.
End Parse.

(** [Validate]: the message, empty when the parameters are complete. *)
Definition Validate (c : TransportConfig) : bytes :=
  if bool_decide (Host c = []) then lit "host is required"
  else if (Port c <? 1) || (65535 <? Port c) then lit "port must be between 1 and 65535"
  else if negb (bool_decide (Mode c = lit "KCP")) && negb (bool_decide (Mode c = lit "QUIC")) then lit "mode must be KCP or QUIC"
  else if bool_decide (Mode c = lit "KCP") && (bool_decide (KcpPass c = []) || bool_decide (KcpSalt c = []))
       then lit "KCP mode requires Pass and Salt"
  else if bool_decide (Mode c = lit "QUIC") &&
          (bool_decide (ServerCert c = []) || bool_decide (ClientCert c = []) || bool_decide (ClientKey c = []))
       then lit "QUIC mode requires ServerCert, ClientCert, and ClientKey"
  else [].

Definition toServerInfo (c : TransportConfig) : ServerInfo := {|
  si_ServerVer := ServerVersion c; si_Port := Port c; si_Mode := Mode c; si_Pass := KcpPass c; si_Salt := KcpSalt c;
  si_ServerCert := ServerCert c; si_ClientCert := ClientCert c; si_ClientKey := ClientKey c;
  si_ProxyKey := ProxyKey c; si_ClientID := u64 (ClientID c); si_ServerID := u64 (ServerID c);
  si_ProxyMode := ProxyMode c; si_MTU := u16 (Mtu c) |}.
Definition with_MTU (mtu : Z) (i : ServerInfo) : ServerInfo := {|
  si_ServerVer := si_ServerVer i; si_Port := si_Port i; si_Mode := si_Mode i; si_Pass := si_Pass i; si_Salt := si_Salt i;
  si_ServerCert := si_ServerCert i; si_ClientCert := si_ClientCert i; si_ClientKey := si_ClientKey i;
  si_ProxyKey := si_ProxyKey i; si_ClientID := si_ClientID i; si_ServerID := si_ServerID i;
  si_ProxyMode := si_ProxyMode i; si_MTU := mtu |}.

(** [resolveRelayMTU], and what a jump transport offers to the target behind it. *)
Definition resolveRelayMTU (requested budget : Z) (mode : bytes) : option Z :=
  let requested := if requested <=? 0 then 1400 else requested in
  let mtu := Z.min requested budget in
  let check minimum := if (mtu <? minimum) || (65535 <? mtu) then None else Some mtu in
  if bool_decide (mode = lit "QUIC") then check 1200
  else if bool_decide (mode = lit "KCP") then check 100
  else None.

(** A jump transport as the target's connection sees it: [closed], whether it has a client, and
    the client's datagram size. *)
Record jump := { j_closed : bool; j_client : bool; j_maxDatagram : Z }.

Definition EffectiveRelayMTU (t : jump) (requested : Z) (mode : bytes) : option Z :=
  if j_closed t || negb (j_client t) then None else resolveRelayMTU requested (j_maxDatagram t) mode.

(** ** Connecting *)

Definition Second : Z := 1000000000.
Definition Hour : Z := 3600 * Second.
Definition timeout_or (sec dflt : Z) : Z := let d := i64 (sec * Second) in if d =? 0 then dflt else d.
(** Integer division of durations truncates towards zero. *)
Definition intervalTime (aliveTimeout heartbeatTimeout : Z) : Z :=
  Z.min (Z.quot aliveTimeout 10) (Z.quot (Z.min heartbeatTimeout (15 * Second)) 3).

(** [tsshd.UdpClientOptions], less the callbacks; [oo_tailnet] records the call of
    [useTailnetForTransport]. *)
Record UdpClientOptions := {
  oo_debugging : bool; oo_addr : bytes; oo_info : ServerInfo;
  oo_alive : Z; oo_interval : Z; oo_connect : Z; oo_heartbeat : Z;
  oo_proxy : bool; oo_tailnet : bool }.

Inductive connect_error :=
| ConfigRequired | InvalidConfig (msg : bytes) | JumpNotConnected | JumpBudget | MTUMismatch (mtu : Z)
| ConnectFailed | JumpClosedMeanwhile.

(** What [connectTransport] asks of the client, before it dials. *)
Definition connect_options (debugLogger : bool) (config : option TransportConfig) (proxy : option jump)
  : result connect_error UdpClientOptions :=
  match config with
  | None => Err ConfigRequired
  | Some c =>
      if negb (bool_decide (Validate c = [])) then Err (InvalidConfig (Validate c))
      else
        let info := toServerInfo c in
        let alive := timeout_or (AliveTimeoutSec c) (24 * Hour) in
        let heartbeat := timeout_or (HeartbeatTimeoutSec c) (3 * Second) in
        let opts info := {|
          oo_debugging := debugLogger || Debug c;
          oo_addr := JoinHostPort (Trim (Host c) (lit "[]")) (Itoa (Port c)); oo_info := info;
          oo_alive := alive; oo_interval := intervalTime alive heartbeat;
          oo_connect := timeout_or (ConnectTimeoutSec c) (30 * Second); oo_heartbeat := heartbeat;
          oo_proxy := bool_decide (is_Some proxy); oo_tailnet := bool_decide (proxy = None) |} in
        let final := if 0 <? Mtu c then with_MTU (u16 (Mtu c)) info else info in
        match proxy with
        | None => Ok (opts final)
        | Some p =>
            match EffectiveRelayMTU p (Mtu c) (Mode c) with
            | None => Err JumpBudget
            | Some mtu => if negb (Mtu c =? mtu) then Err (MTUMismatch mtu) else Ok (opts final)
            end
        end
  end.

(** [connectTransport]: [dial] is [tsshd.NewSshUdpClient], [closed_after] what [proxy.closed]
    reads once it has returned.  The boolean says whether a client that was made is detached. *)
Definition connectTransport (debugLogger : bool) (dial : UdpClientOptions -> bool)
    (config : option TransportConfig) (proxy : option jump) (closed_after : bool)
  : result connect_error UdpClientOptions * bool :=
  match connect_options debugLogger config proxy with
  | Err e => (Err e, false)
  | Ok opts =>
      if negb (dial opts) then (Err ConnectFailed, false)
      else if bool_decide (is_Some proxy) && closed_after then (Err JumpClosedMeanwhile, true)
      else (Ok opts, false)
  end.
Definition ConnectTransport debugLogger dial config := connectTransport debugLogger dial config None false.
Definition ConnectTransportViaProxy debugLogger dial config (proxy : option jump) closed_after
  : result connect_error UdpClientOptions * bool :=
  match proxy with
  | None => (Err JumpNotConnected, false)
  | Some p =>
      if j_closed p || negb (j_client p) then (Err JumpNotConnected, false)
      else connectTransport debugLogger dial config (Some p) closed_after
  end.

(** [shouldPauseReconnect]: the pauser's reason, when there is a pauser. *)
Definition shouldPauseReconnect (pauser : option bytes) : bool * bytes :=
  match pauser with
  | None => (false, [])
  | Some reason => (negb (bool_decide (reason = [])), reason)
  end.

(** [IsTimeout]. *)
Definition IsTimeout (c : TransportConfig) (lastActive now : Z) : bool :=
  if lastActive <=? 0 then false
  else
    let heartbeatMs := i64 (HeartbeatTimeoutSec c * 1000) in
    let heartbeatMs := if heartbeatMs <=? 0 then 3000 else heartbeatMs in
    heartbeatMs <? i64 (now - lastActive).

(** *** What reaches the client *)

Definition with_Host (h : bytes) (c : TransportConfig) : TransportConfig := {|
  Host := h; Port := Port c; ServerVersion := ServerVersion c; Mode := Mode c; KcpPass := KcpPass c; KcpSalt := KcpSalt c;
  ServerCert := ServerCert c; ClientCert := ClientCert c; ClientKey := ClientKey c; ProxyKey := ProxyKey c;
  ClientID := ClientID c; ServerID := ServerID c; ProxyMode := ProxyMode c;
  ConnectTimeoutSec := ConnectTimeoutSec c; AliveTimeoutSec := AliveTimeoutSec c; HeartbeatTimeoutSec := HeartbeatTimeoutSec c;
  Mtu := Mtu c; Debug := Debug c; DebugLabel := DebugLabel c |}.

(** The integer fields a server of this program can print. *)
Definition info_ok (i : ServerInfo) : Prop :=
  0 <= si_ClientID i < 2 ^ 64 /\ 0 <= si_ServerID i < 2 ^ 64 /\ 0 <= si_MTU i < 2 ^ 16.

Lemma connect_options_info dl c p opts :
  connect_options dl (Some c) p = Ok opts -> Validate c = [] /\ oo_info opts = toServerInfo c.
Proof.
  unfold connect_options. destruct (bool_decide (Validate c = [])) eqn:Ev; [|done]. cbn [negb]. cbv zeta.
  assert ((if 0 <? Mtu c then with_MTU (u16 (Mtu c)) (toServerInfo c) else toServerInfo c) = toServerInfo c) as Hi
    by (by destruct (0 <? Mtu c)).
  to_prop. destruct p as [p|]; [|intros [= <-]; by cbn; rewrite Hi].
  destruct (EffectiveRelayMTU p (Mtu c) (Mode c)); [|done]. destruct (negb _); [done|]. intros [= <-]. by cbn; rewrite Hi.
Qed.

Lemma Validate_spec c :
  Validate c = [] ->
  Host c <> [] /\ 1 <= Port c <= 65535 /\
  (Mode c = lit "KCP" /\ KcpPass c <> [] /\ KcpSalt c <> [] \/
   Mode c = lit "QUIC" /\ ServerCert c <> [] /\ ClientCert c <> [] /\ ClientKey c <> []).
Proof.
  unfold Validate. destruct (bool_decide (Host c = [])) eqn:Eh; [done|].
  destruct (_ || _) eqn:Ep; [done|]. to_prop.
  destruct (bool_decide (Mode c = lit "KCP")) eqn:Ek; to_prop.
  - cbn [negb andb]. destruct (_ || _) eqn:E1; [done|]. to_prop. intros _. split; [done|]. split; [lia|]. by left.
  - cbn [negb andb]. destruct (bool_decide (Mode c = lit "QUIC")) eqn:Eq; [|done]. to_prop. cbn [negb andb].
    destruct (_ || _) eqn:E1; [done|]. to_prop. intros _. split; [done|]. split; [lia|]. by right.
Qed.

(** Connection parameters survive the bridge: what the server printed (any 64-bit client and
    server identifiers, which pass through int64 fields, and any 16-bit MTU) is exactly what the UDP
    client is given, once the host is filled in and the connection is made; and a connection is
    only attempted when the port is a port, the mode is known and its credentials are there. *)
Theorem server_info_roundtrip Unmarshal json raw c host dl p opts :
  Unmarshal json = Some raw -> info_ok raw ->
  ParseTransportConfig Unmarshal json = Some c ->
  connect_options dl (Some (with_Host host c)) p = Ok opts ->
  oo_info opts = raw /\ 1 <= si_Port raw <= 65535 /\
  (si_Mode raw = lit "KCP" /\ si_Pass raw <> [] /\ si_Salt raw <> [] \/
   si_Mode raw = lit "QUIC" /\ si_ServerCert raw <> [] /\ si_ClientCert raw <> [] /\ si_ClientKey raw <> []).
Proof.
  intros Hu (Hc & Hs & Hm) Hp Ho. unfold ParseTransportConfig in Hp. rewrite Hu in Hp.
  destruct (bool_decide _); [done|]. destruct (si_Port raw =? 0); [done|]. injection Hp as <-.
  apply connect_options_info in Ho as [Hv ->]. split.
  { unfold toServerInfo, with_Host. cbn. rewrite !u64_i64 by done. unfold wrap. rewrite Z.mod_small by done. by destruct raw. }
  apply Validate_spec in Hv as (_ & Hport & Hmode). split; [exact Hport|exact Hmode].
Qed.

Definition example_info : ServerInfo := {|
  si_ServerVer := lit "1.0"; si_Port := 61001; si_Mode := lit "KCP"; si_Pass := lit "aa"; si_Salt := lit "bb";
  si_ServerCert := []; si_ClientCert := []; si_ClientKey := []; si_ProxyKey := lit "cc";
  si_ClientID := 2 ^ 64 - 2; si_ServerID := 7; si_ProxyMode := []; si_MTU := 1300 |}.

Lemma server_info_roundtrip_witness :
  exists c opts,
    ParseTransportConfig (fun _ => Some example_info) [] = Some c /\ ClientID c = -2 /\
    connect_options false (Some (with_Host (lit "h") c)) None = Ok opts /\
    oo_info opts = example_info /\ oo_addr opts = lit "h:61001".
Proof.
  destruct (ParseTransportConfig (fun _ => Some example_info) []) as [c|] eqn:Ec; [|vm_compute in Ec; discriminate].
  destruct (connect_options false (Some (with_Host (lit "h") c)) None) as [opts|] eqn:Eo.
  2:{ vm_compute in Ec. injection Ec as <-. vm_compute in Eo. discriminate. }
  exists c, opts. split; [reflexivity|].
  pose proof (server_info_roundtrip (fun _ => Some example_info) [] example_info c (lit "h") false None opts
                eq_refl ltac:(vm_compute; intuition congruence) Ec Eo) as (Hi & _).
  vm_compute in Ec. injection Ec as <-. split; [reflexivity|]. split; [exact Eo|]. split; [exact Hi|].
  vm_compute in Eo. injection Eo as <-. reflexivity.
Defined.

(** *** The packet size of a relayed connection *)

Definition relay_minimum (mode : bytes) : Z := if bool_decide (mode = lit "QUIC") then 1200 else 100.

Lemma resolveRelayMTU_Some requested budget mode m :
  resolveRelayMTU requested budget mode = Some m ->
  (mode = lit "QUIC" \/ mode = lit "KCP") /\ relay_minimum mode <= m <= 65535 /\ m <= budget /\
  m <= (if requested <=? 0 then 1400 else requested) /\ resolveRelayMTU m budget mode = Some m.
Proof.
  unfold resolveRelayMTU, relay_minimum. cbv zeta.
  generalize (if requested <=? 0 then 1400 else requested) as q. intros q.
  destruct (bool_decide (mode = lit "QUIC")) eqn:Eq; [|destruct (bool_decide (mode = lit "KCP")) eqn:Ek; [|done]].
  all: destruct (_ || _) eqn:E; [done|]; intros [= <-]; to_prop.
  all: replace (_ <=? 0) with false by lia; rewrite <- Z.min_assoc, Z.min_id.
  all: replace (_ || _) with false by lia.
  all: repeat split; [naive_solver|lia..].
Qed.

(** The packet size of a connection relayed by a jump host is agreed: the size the jump
    transport announces for the target's command line is accepted when the target is then
    connected with it, is what the client is given (no truncation to 16 bits), fits in the jump
    transport's datagrams and is enough for the mode; no other size is accepted; and a
    relayed connection goes through the jump host's client, never to Tailscale or directly. *)
Theorem relay_mtu_agreed dl c p :
  Validate c = [] ->
  ((exists requested, EffectiveRelayMTU p requested (Mode c) = Some (Mtu c)) <->
   (exists opts, connect_options dl (Some c) (Some p) = Ok opts)) /\
  (forall opts, connect_options dl (Some c) (Some p) = Ok opts ->
     si_MTU (oo_info opts) = Mtu c /\ relay_minimum (Mode c) <= Mtu c <= Z.min 65535 (j_maxDatagram p) /\
     oo_proxy opts = true /\ oo_tailnet opts = false /\ j_closed p = false /\ j_client p = true).
Proof.
  intros Hv.
  assert (forall opts, connect_options dl (Some c) (Some p) = Ok opts ->
            EffectiveRelayMTU p (Mtu c) (Mode c) = Some (Mtu c) /\ oo_proxy opts = true /\ oo_tailnet opts = false) as Hok.
  { intros opts. unfold connect_options. rewrite bool_decide_true by done. cbn [negb]. cbv zeta.
    destruct (EffectiveRelayMTU p (Mtu c) (Mode c)) as [m|]; [|done]. destruct (Mtu c =? m) eqn:Em; [|done].
    to_prop. subst m. intros [= <-]. done. }
  split; [split|].
  - intros (r & Hr). unfold EffectiveRelayMTU in Hr. destruct (j_closed p || negb (j_client p)) eqn:Ej; [done|].
    apply resolveRelayMTU_Some in Hr as (_ & _ & _ & _ & Hr).
    unfold connect_options, EffectiveRelayMTU. rewrite bool_decide_true by done. cbn [negb]. cbv zeta.
    rewrite Ej, Hr, Z.eqb_refl. eauto.
  - intros (opts & Ho). exists (Mtu c). by apply Hok in Ho as [? _].
  - intros opts Ho. destruct (Hok _ Ho) as (He & Hp & Ht). apply connect_options_info in Ho as [_ Hi].
    unfold EffectiveRelayMTU in He. destruct (j_closed p) eqn:E1; [done|]. destruct (j_client p) eqn:E2; [|done].
    apply resolveRelayMTU_Some in He as (_ & Hm & Hb & _).
    assert (100 <= relay_minimum (Mode c)) by (unfold relay_minimum; destruct (bool_decide _); lia).
    rewrite Hi. cbn [toServerInfo si_MTU]. unfold wrap. rewrite Z.mod_small by (change (2 ^ 16) with 65536; lia).
    repeat split; try done; lia.
Qed.

Definition example_config : TransportConfig := {|
  Host := lit "t"; Port := 61001; ServerVersion := []; Mode := lit "QUIC"; KcpPass := []; KcpSalt := [];
  ServerCert := lit "a"; ClientCert := lit "b"; ClientKey := lit "c"; ProxyKey := []; ClientID := 1; ServerID := 2; ProxyMode := [];
  ConnectTimeoutSec := 30; AliveTimeoutSec := 86400; HeartbeatTimeoutSec := 3; Mtu := 1250; Debug := false; DebugLabel := [] |}.

Lemma relay_mtu_agreed_witness :
  exists opts,
    connect_options false (Some example_config) (Some {| j_closed := false; j_client := true; j_maxDatagram := 1250 |}) = Ok opts /\
    si_MTU (oo_info opts) = 1250.
Proof.
  destruct (relay_mtu_agreed false example_config {| j_closed := false; j_client := true; j_maxDatagram := 1250 |} eq_refl) as [[H _] H2].
  destruct H as [opts Ho]; [exists 0; reflexivity|]. exists opts. split; [exact Ho|]. apply (H2 opts Ho).
Defined.

(** Without a jump host nothing bounds the packet size: what does not fit 16 bits is cut. *)
Lemma direct_mtu_truncated dl c opts :
  connect_options dl (Some c) None = Ok opts -> si_MTU (oo_info opts) = Mtu c mod 65536.
Proof. intros H. apply connect_options_info in H as [_ ->]. done. Qed.
