(* ===== verification/Handles.v ===== *)
(** * Channel handles of the iOS transport

    src/iosbridge/streamlocal.go, dial.go, dialunix.go and exec.go: the app holds remote
    connections and commands by number; the transport keeps a table per kind, filled by
    dials, accept loops and [startExec], emptied by the app's close calls and by
    [Transport.Close].  Every call and goroutine is a thread, a step one section of it
    between lock operations and blocking calls, and a label says which thread moves and
    what the network answered.  The counters are 64-bit; they are taken as unbounded. *)

From S2P Require Import Prelude GoStrings.

(** ** State *)

(** The two tables: connections ([streamLocalChannels]) and commands ([execChannels]). *)
Inductive kind := KConn | KExec.
#[export] Instance kind_eq_dec : EqDecision kind.
Proof. solve_decision. Defined.

(** Where an object came from: a dial or an exec of the app, or an accept loop. *)
Inductive origin := Opened | Accepted.
Record object := mkObj { o_open : bool; o_origin : origin }.

(** A handle table: the map ([None] is Go's nil map), the last number given out, the objects,
    and whether [closeAllStreamLocal] or [closeAllExec] has emptied it. *)
Record table := mkTable { h_map : option (gmap Z nat); h_next : Z; h_objs : list object; h_drained : bool }.

(** [streamLocalForwarder]. *)
Record forwarder := mkFwd { f_path : bytes; f_listening : bool; f_stopped : bool }.

(** The threads, by the next section they will run. *)
Inductive thread :=
(* DialTCP, DialUnix and OpenExec: the guards, the blocking call, then registration *)
| Open (k : kind) (arg_ok : bool) | OpenWait (k : kind) | ExecSetup (o : nat)
| Got (k : kind) (o : nat) | Reg (k : kind) (o : nat) (ref : Z) | Recheck (k : kind) (ref : Z)
(* StreamLocalClose and ExecClose, and the close of the object they took out *)
| CloseRef (k : kind) (ref : Z) | CloseObj (k : kind) (o : nat)
(* EnableStreamLocalForwarding, its accept loop, DisableStreamLocalForwarding *)
| Enable (path : bytes) | EnableListen (path : bytes) (retry : bool) | EnablePoke (path : bytes)
| EnableSet (f : nat)
| Accept (f : nat) | AcceptGot (f o : nat) | AcceptReg (f o : nat) (ref : Z)
| Disable (path : bytes) | FwdClose (f : nat)
(* Transport.Close *)
| Close | CloseSession | CloseDrain | CloseFwds (fs os : list nat) | CloseObjs (k : kind) (os : list nat)
| CloseExecDrain | CloseClient
| Returned (ref : option Z) | Panicked.

Record transport := mkT {
  t_closed : bool;
  t_fwds : option (gmap bytes nat); t_fwdrs : list forwarder;
  t_tables : kind -> table;
  t_accepted : list Z;          (* calls of OnAccept *)
  t_client : bool;              (* the client has not been closed *)
  t_threads : list thread }.

Definition empty_table : table := mkTable None 0 [] false.
Definition new_transport : transport := mkT false None [] (fun _ => empty_table) [] true [].

Definition set_table k v (s : transport) : transport :=
  mkT (t_closed s) (t_fwds s) (t_fwdrs s) (fun k' => if bool_decide (k' = k) then v else t_tables s k') (t_accepted s) (t_client s) (t_threads s).
Definition set_thread (i : nat) th (s : transport) : transport :=
  mkT (t_closed s) (t_fwds s) (t_fwdrs s) (t_tables s) (t_accepted s) (t_client s) (<[i := th]> (t_threads s)).
Definition add_thread th (s : transport) : transport :=
  mkT (t_closed s) (t_fwds s) (t_fwdrs s) (t_tables s) (t_accepted s) (t_client s) (t_threads s ++ [th]).
Definition set_fwds m (s : transport) : transport :=
  mkT (t_closed s) m (t_fwdrs s) (t_tables s) (t_accepted s) (t_client s) (t_threads s).
Definition set_fwdrs l (s : transport) : transport :=
  mkT (t_closed s) (t_fwds s) l (t_tables s) (t_accepted s) (t_client s) (t_threads s).
Definition set_closed (s : transport) : transport :=
  mkT true (t_fwds s) (t_fwdrs s) (t_tables s) (t_accepted s) (t_client s) (t_threads s).
Definition on_accept ref (s : transport) : transport :=
  mkT (t_closed s) (t_fwds s) (t_fwdrs s) (t_tables s) (t_accepted s ++ [ref]) (t_client s) (t_threads s).
Definition close_client (s : transport) : transport :=
  mkT (t_closed s) (t_fwds s) (t_fwdrs s) (t_tables s) (t_accepted s) false (t_threads s).

(** ** Operations on a table *)

Definition add_object (org : origin) (t : table) : table :=
  mkTable (h_map t) (h_next t) (h_objs t ++ [mkObj true org]) (h_drained t).
Definition close_object (o : nat) (t : table) : table :=
  mkTable (h_map t) (h_next t) (alter (fun x => mkObj false (o_origin x)) o (h_objs t)) (h_drained t).
(** [atomic.AddInt64(&t.nextStreamLocalRef, 1)]. *)
Definition next_ref (t : table) : table := mkTable (h_map t) (h_next t + 1) (h_objs t) (h_drained t).
(** The locked part of [registerStreamLocalChannel] and of [startExec]. *)
Definition register (ref : Z) (o : nat) (t : table) : table :=
  mkTable (Some (<[ref := o]> (default ∅ (h_map t)))) (h_next t) (h_objs t) (h_drained t).
Definition lookup_handle (ref : Z) (t : table) : option nat := default ∅ (h_map t) !! ref.
(** The locked part of [StreamLocalClose] and [ExecClose]; a delete from a nil map does nothing. *)
Definition take_handle (ref : Z) (t : table) : table := mkTable (delete ref <$> h_map t) (h_next t) (h_objs t) (h_drained t).
(** The locked part of [closeAllStreamLocal] and [closeAllExec]: the values, and the nil map. *)
Definition drain (t : table) : list nat * table :=
  ((map_to_list (default ∅ (h_map t))).*2, mkTable None (h_next t) (h_objs t) true).

(** ** Steps *)

Inductive answer := Yes | No | InUse.

(** Thread [i] goes on with [th]; [upd] changes the table of a kind. *)
Definition go (i : nat) (th : thread) (s : transport) : option transport := Some (set_thread i th s).
Definition upd (k : kind) (f : table -> table) (s : transport) : transport := set_table k (f (t_tables s k)) s.

(** [DialTCP], [DialUnix], [openExec] and [startExec] from their guards on: the blocking call of
    the client, the pipes and the start of a command, the registration, and the second look
    at [closed]. *)
Definition open_step (i : nat) (a : answer) (th : thread) (s : transport) : option transport :=
  match th with
  | Open k arg_ok => if t_closed s || negb arg_ok then go i (Returned None) s else go i (OpenWait k) s
  | OpenWait k =>
      match a with
      | Yes => let o := length (h_objs (t_tables s k)) in
               go i (match k with KConn => Got KConn o | KExec => ExecSetup o end) (upd k (add_object Opened) s)
      | _ => go i (Returned None) s
      end
  | ExecSetup o =>
      match a with
      | Yes => go i (Got KExec o) s
      | _ => go i (Returned None) (upd KExec (close_object o) s)
      end
  | Got k o => go i (Reg k o (h_next (t_tables s k) + 1)) (upd k next_ref s)
  | Reg k o ref => go i (Recheck k ref) (upd k (register ref o) s)
  | Recheck k ref => if t_closed s then go i (CloseRef k ref) s else go i (Returned (Some ref)) s
  | _ => None
  end.

(** [StreamLocalClose] and [ExecClose]. *)
Definition close_ref_step (i : nat) (th : thread) (s : transport) : option transport :=
  match th with
  | CloseRef k ref =>
      match lookup_handle ref (t_tables s k) with
      | None => go i (Returned None) s
      | Some o => go i (CloseObj k o) (upd k (take_handle ref) s)
      end
  | CloseObj k o => go i (Returned None) (upd k (close_object o) s)
  | _ => None
  end.

(** [streamLocalForwarder.close]. *)
Definition fwd_close (f : nat) (s : transport) : transport :=
  set_fwdrs (alter (fun x => mkFwd (f_path x) false true) f (t_fwdrs s)) s.

(** [EnableStreamLocalForwarding], with the retry for a path that is still bound. *)
Definition enable_step (i : nat) (a : answer) (th : thread) (s : transport) : option transport :=
  match th with
  | Enable path =>
      if t_closed s then go i (Returned None) s
      else if bool_decide (is_Some (default ∅ (t_fwds s) !! path)) then go i (Returned None) (set_fwds (Some (default ∅ (t_fwds s))) s)
      else go i (EnableListen path false) (set_fwds (Some (default ∅ (t_fwds s))) s)
  | EnableListen path retry =>
      match a with
      | Yes => go i (EnableSet (length (t_fwdrs s))) (set_fwdrs (t_fwdrs s ++ [mkFwd path true false]) s)
      | InUse => if retry then go i (Returned None) s else go i (EnablePoke path) s
      | No => go i (Returned None) s
      end
  | EnablePoke path =>
      match a with Yes => go i (EnableListen path true) s | _ => go i (Returned None) s end
  | EnableSet f =>
      match t_fwds s, t_fwdrs s !! f with
      | Some m, Some x => Some (add_thread (Accept f) (set_thread i (Returned None) (set_fwds (Some (<[f_path x := f]> m)) s)))
      | _, _ => go i Panicked s            (* assignment to an entry of a nil map *)
      end
  | _ => None
  end.

(** [acceptLoop], with [registerStreamLocalChannel]. *)
Definition accept_step (i : nat) (a : answer) (th : thread) (s : transport) : option transport :=
  match th with
  | Accept f =>
      match a, t_fwdrs s !! f with
      | Yes, Some x =>
          if f_listening x then go i (AcceptGot f (length (h_objs (t_tables s KConn)))) (upd KConn (add_object Accepted) s) else None
      | No, Some _ => go i (Returned None) s
      | _, _ => None
      end
  | AcceptGot f o => go i (AcceptReg f o (h_next (t_tables s KConn) + 1)) (upd KConn next_ref s)
  | AcceptReg f o ref => go i (Accept f) (on_accept ref (upd KConn (register ref o) s))
  | _ => None
  end.

(** [DisableStreamLocalForwarding]. *)
Definition disable_step (i : nat) (th : thread) (s : transport) : option transport :=
  match th with
  | Disable path =>
      match default ∅ (t_fwds s) !! path with
      | None => go i (Returned None) s
      | Some f => go i (FwdClose f) (set_fwds (delete path <$> t_fwds s) s)
      end
  | FwdClose f => go i (Returned None) (fwd_close f s)
  | _ => None
  end.

(** [Transport.Close]: the flag, the session, [closeAllStreamLocal], [closeAllExec], the client. *)
Definition transport_close_step (i : nat) (th : thread) (s : transport) : option transport :=
  match th with
  | Close => if t_closed s then go i (Returned None) s else go i CloseSession (set_closed s)
  | CloseSession => go i CloseDrain s
  | CloseDrain =>
      go i (CloseFwds (map_to_list (default ∅ (t_fwds s))).*2 (drain (t_tables s KConn)).1)
        (set_fwds None (upd KConn (fun t => (drain t).2) s))
  | CloseFwds [] os => go i (CloseObjs KConn os) s
  | CloseFwds (f :: fs) os => go i (CloseFwds fs os) (fwd_close f s)
  | CloseObjs k [] => go i (match k with KConn => CloseExecDrain | KExec => CloseClient end) s
  | CloseObjs k (o :: os) => go i (CloseObjs k os) (upd k (close_object o) s)
  | CloseExecDrain => go i (CloseObjs KExec (drain (t_tables s KExec)).1) (upd KExec (fun t => (drain t).2) s)
  | CloseClient => go i (Returned None) (close_client s)
  | _ => None
  end.

(** Thread [i] runs its next section; [a] is what the network answers where it is asked. *)
Definition thread_step (i : nat) (a : answer) (s : transport) : option transport :=
  match t_threads s !! i with
  | None => None
  | Some th =>
      match th with
      | Open _ _ | OpenWait _ | ExecSetup _ | Got _ _ | Reg _ _ _ | Recheck _ _ => open_step i a th s
      | CloseRef _ _ | CloseObj _ _ => close_ref_step i th s
      | Enable _ | EnableListen _ _ | EnablePoke _ | EnableSet _ => enable_step i a th s
      | Accept _ | AcceptGot _ _ | AcceptReg _ _ _ => accept_step i a th s
      | Disable _ | FwdClose _ => disable_step i th s
      | Close | CloseSession | CloseDrain | CloseFwds _ _ | CloseObjs _ _ | CloseExecDrain | CloseClient => transport_close_step i th s
      | Returned _ | Panicked => None
      end
  end.

(** The calls of the app. *)
Definition entry (th : thread) : bool :=
  match th with Open _ _ | CloseRef _ _ | Enable _ | Disable _ | Close => true | _ => false end.

Inductive handle_label := Call (th : thread) | Run (i : nat) (a : answer).
Definition handle_step (l : handle_label) (s : transport) : option transport :=
  match l with
  | Call th => if entry th then Some (add_thread th s) else None
  | Run i a => thread_step i a s
  end.
Fixpoint handle_run (ls : list handle_label) (s : transport) : option transport :=
  match ls with
  | [] => Some s
  | l :: ls' => match handle_step l s with Some s' => handle_run ls' s' | None => None end
  end.

(** The calls that open something, with the guards on their arguments. *)
Definition DialTCP_args (host : bytes) (port : Z) : bool := negb (bool_decide (host = [])) && negb ((port <=? 0) || (65535 <? port)).
Definition DialTCP_target (host : bytes) (port : Z) : bytes := JoinHostPort host (Itoa port).
Definition DialTCP (host : bytes) (port : Z) : thread := Open KConn (DialTCP_args host port).
Definition DialUnix_args (remotePath : bytes) : bool := negb (bool_decide (remotePath = [])).
Definition DialUnix (remotePath : bytes) : thread := Open KConn (DialUnix_args remotePath).
Definition OpenExec_args (command : bytes) : bool := negb (bool_decide (command = [])).
Definition OpenExec (command : bytes) : thread := Open KExec (OpenExec_args command).
Definition OpenExecPTY_args (command term : bytes) (rows cols : Z) : bool :=
  negb (bool_decide (term = []) || (rows <? 1) || (65535 <? rows) || (cols <? 1) || (65535 <? cols)) && OpenExec_args command.

Definition OpenExecPTY (command term : bytes) (rows cols : Z) : thread := Open KExec (OpenExecPTY_args command term rows cols).

(** What the reads of a channel return: [None] data is end of stream. *)
Definition readExecStream (maxBytes : Z) (data : bytes) (eof : bool) (failed : bool) : result bool (option bytes) :=
  if maxBytes <=? 0 then Ok None
  else if 0 <? len data then Ok (Some data)
  else if eof then Ok None
  else if failed then Err true else Ok None.

(** ** Who holds an object *)

(** The objects a thread has in hand: those it will register, hand out or close. *)
Definition owned (k : kind) (th : thread) : list nat :=
  match th with
  | Got k' o | Reg k' o _ | CloseObj k' o => if bool_decide (k' = k) then [o] else []
  | ExecSetup o => if bool_decide (k = KExec) then [o] else []
  | AcceptGot _ o | AcceptReg _ o _ => if bool_decide (k = KConn) then [o] else []
  | CloseFwds _ os => if bool_decide (k = KConn) then os else []
  | CloseObjs k' os => if bool_decide (k' = k) then os else []
  | _ => []
  end.
Definition handles (t : table) : list nat := (map_to_list (default ∅ (h_map t))).*2.
Definition holders (k : kind) (s : transport) : list nat :=
  concat (owned k <$> t_threads s) ++ handles (t_tables s k).
Definition open_object (t : table) (o : nat) : bool := match h_objs t !! o with Some x => o_open x | None => false end.

(** Every open object is held exactly once, and nothing closed is held. *)
Definition held_once (k : kind) (s : transport) : Prop :=
  NoDup (holders k s) /\ forall o, open_object (t_tables s k) o = true <-> o ∈ holders k s.

(** The numbers given out and not yet in the table. *)
Definition pending_ref (k : kind) (th : thread) : option Z :=
  match th with
  | Reg k' _ ref => if bool_decide (k' = k) then Some ref else None
  | AcceptReg _ _ ref => if bool_decide (k = KConn) then Some ref else None
  | _ => None
  end.
Definition refs_fresh (k : kind) (s : transport) : Prop :=
  (forall ref, is_Some (lookup_handle ref (t_tables s k)) -> ref <= h_next (t_tables s k)) /\
  (forall i th ref, t_threads s !! i = Some th -> pending_ref k th = Some ref ->
     ref <= h_next (t_tables s k) /\ lookup_handle ref (t_tables s k) = None) /\
  (forall i j th th' ref, t_threads s !! i = Some th -> t_threads s !! j = Some th' ->
     pending_ref k th = Some ref -> pending_ref k th' = Some ref -> i = j).

(** The part of [holders] that is not thread [i]. *)
Lemma holders_thread k i th s : t_threads s !! i = Some th ->
  forall S th', t_threads S = <[i := th']> (t_threads s) ->
  holders k S ≡ₚ owned k th' ++ (concat (owned k <$> delete i (t_threads s)) ++ handles (t_tables S k)).
Proof.
  intros Hi S th' HS. unfold holders. rewrite HS, app_assoc. f_equiv.
  rewrite <- (take_drop_middle _ _ _ Hi) at 1. rewrite insert_app_r_alt; rewrite length_take_le by (apply lookup_lt_Some in Hi; lia); [|lia].
  rewrite Nat.sub_diag. cbn. rewrite fmap_app, concat_app. cbn.
  rewrite delete_take_drop, fmap_app, concat_app. rewrite app_assoc, (Permutation_app_comm (concat _)), <- app_assoc. done.
Qed.

Lemma holders_thread_self k i th s : t_threads s !! i = Some th ->
  holders k s ≡ₚ owned k th ++ (concat (owned k <$> delete i (t_threads s)) ++ handles (t_tables s k)).
Proof. intros Hi. apply (holders_thread k i th s Hi s th). by rewrite list_insert_id. Qed.

Section Moves.
Context (k : kind) (i : nat) (th th' : thread) (s S : transport).
Context (Hi : t_threads s !! i = Some th) (HS : t_threads S = <[i := th']> (t_threads s)).

(** Objects move between the thread and the table. *)
Lemma held_move :
  held_once k s -> h_objs (t_tables S k) = h_objs (t_tables s k) ->
  owned k th' ++ handles (t_tables S k) ≡ₚ owned k th ++ handles (t_tables s k) -> held_once k S.
Proof.
  intros [Hn Ho] Hobj Hp.
  assert (holders k S ≡ₚ holders k s) as Hh.
  { rewrite (holders_thread k i th s Hi S th' HS), (holders_thread_self k i th s Hi).
    rewrite (Permutation_app_comm (concat _)), app_assoc, Hp, <- app_assoc, (Permutation_app_comm (concat _) (handles (t_tables s k))). done. }
  split; [by rewrite Hh|]. intros o. rewrite Hh, <- Ho. unfold open_object. by rewrite Hobj.
Qed.

(** A new object, in the hands of the thread. *)
Lemma held_add org :
  held_once k s -> h_objs (t_tables S k) = h_objs (t_tables s k) ++ [mkObj true org] ->
  owned k th' ++ handles (t_tables S k) ≡ₚ length (h_objs (t_tables s k)) :: owned k th ++ handles (t_tables s k) -> held_once k S.
Proof.
  intros [Hn Ho] Hobj Hp.
  assert (holders k S ≡ₚ length (h_objs (t_tables s k)) :: holders k s) as Hh.
  { rewrite (holders_thread k i th s Hi S th' HS), (holders_thread_self k i th s Hi).
    rewrite (Permutation_app_comm (concat _)), app_assoc, Hp. cbn. by rewrite <- app_assoc, (Permutation_app_comm (handles (t_tables s k))). }
  assert (open_object (t_tables s k) (length (h_objs (t_tables s k))) = false) as Hfresh
    by (unfold open_object; by rewrite lookup_ge_None_2).
  split.
  - rewrite Hh. apply NoDup_cons. split; [|done]. rewrite <- Ho. by rewrite Hfresh.
  - intros o. rewrite Hh, elem_of_cons, <- Ho. unfold open_object in *. rewrite Hobj.
    destruct (decide (o = length (h_objs (t_tables s k)))) as [->|Hne].
    + rewrite list_lookup_middle by done. cbn. naive_solver.
    + destruct (decide (o < length (h_objs (t_tables s k)))%nat).
      * rewrite lookup_app_l by done. naive_solver.
      * rewrite !lookup_ge_None_2 by (rewrite ?length_app; cbn; lia). naive_solver.
Qed.

(** An object in hand is closed. *)
Lemma held_close o :
  held_once k s -> h_objs (t_tables S k) = alter (fun x => mkObj false (o_origin x)) o (h_objs (t_tables s k)) ->
  owned k th ++ handles (t_tables s k) ≡ₚ o :: owned k th' ++ handles (t_tables S k) -> held_once k S.
Proof.
  intros [Hn Ho] Hobj Hp.
  assert (holders k s ≡ₚ o :: holders k S) as Hh.
  { rewrite (holders_thread k i th s Hi S th' HS), (holders_thread_self k i th s Hi).
    rewrite (Permutation_app_comm (concat _)), app_assoc, Hp. cbn. by rewrite <- app_assoc, (Permutation_app_comm (handles (t_tables S k))). }
  rewrite Hh in Hn. apply NoDup_cons in Hn as [Hno Hn]. split; [done|]. intros o'.
  unfold open_object in *. rewrite Hobj. specialize (Ho o'). rewrite Hh, elem_of_cons in Ho.
  destruct (decide (o' = o)) as [->|Hne].
  - rewrite list_lookup_alter_eq. destruct (h_objs (t_tables s k) !! o) as [x|]; cbn; naive_solver.
  - rewrite list_lookup_alter_ne by done. naive_solver.
Qed.

Lemma refs_move :
  refs_fresh k s -> h_next (t_tables s k) <= h_next (t_tables S k) ->
  (forall ref, is_Some (lookup_handle ref (t_tables S k)) ->
     is_Some (lookup_handle ref (t_tables s k)) \/ pending_ref k th = Some ref) ->
  (pending_ref k th' = None \/
   pending_ref k th' = Some (h_next (t_tables s k) + 1) /\ h_next (t_tables S k) = h_next (t_tables s k) + 1) ->
  refs_fresh k S.
Proof.
  intros (H1 & H2 & H3) Hn Hl Hp.
  assert (forall ref, is_Some (lookup_handle ref (t_tables S k)) -> ref <= h_next (t_tables s k)) as Hle.
  { intros ref Hr. destruct (Hl ref Hr) as [Hr'|Hr']; [by apply H1|by apply (H2 i th ref Hi)]. }
  assert (forall j x ref, t_threads S !! j = Some x -> pending_ref k x = Some ref ->
            j = i /\ ref = h_next (t_tables s k) + 1 /\ h_next (t_tables S k) = h_next (t_tables s k) + 1 \/
            j <> i /\ t_threads s !! j = Some x) as Hthreads.
  { intros j x ref Hx Hr. rewrite HS in Hx. destruct (decide (j = i)) as [->|Hne].
    - rewrite list_lookup_insert_eq in Hx by (by eapply lookup_lt_Some). injection Hx as <-. left. destruct Hp as [Hp|[Hp Hp']]; [congruence|].
      split; [done|]. rewrite Hp in Hr. by injection Hr as <-.
    - rewrite list_lookup_insert_ne in Hx by done. by right. }
  split; [|split].
  - intros ref Hr. apply Hle in Hr. lia.
  - intros j x ref Hx Hr. destruct (Hthreads _ _ _ Hx Hr) as [(-> & -> & Hnn)|[Hne Hx']].
    + split; [lia|]. apply eq_None_not_Some. intros Hs. apply Hle in Hs. lia.
    + destruct (H2 j x ref Hx' Hr) as [Hle' Hnone]. split; [lia|]. apply eq_None_not_Some. intros Hs.
      destruct (Hl ref Hs) as [Hs'|Hs']; [rewrite Hnone in Hs'; by destruct Hs'|]. apply Hne. by eapply (H3 j i x th ref).
  - intros j j' x x' ref Hx Hx' Hr Hr'.
    destruct (Hthreads _ _ _ Hx Hr) as [(-> & -> & _)|[Hne Hxs]], (Hthreads _ _ _ Hx' Hr') as [(-> & ? & _)|[Hne' Hxs']]; subst; try done.
    + destruct (H2 _ _ _ Hxs' Hr'). lia.
    + destruct (H2 _ _ _ Hxs Hr). lia.
    + by eapply H3.
Qed.
End Moves.

Lemma handles_register ref o t : lookup_handle ref t = None -> handles (register ref o t) ≡ₚ o :: handles t.
Proof. intros H. unfold handles, register, lookup_handle in *. cbn [h_map default from_option id]. by rewrite (map_to_list_insert _ _ _ H). Qed.

Lemma handles_take ref o t : lookup_handle ref t = Some o -> handles t ≡ₚ o :: handles (take_handle ref t).
Proof.
  unfold handles, take_handle, lookup_handle. destruct (h_map t) as [m|] eqn:E; [|done]. cbn [default h_map]. intros H. cbn.
  by rewrite <- (map_to_list_delete m ref o H).
Qed.

Lemma lookup_take ref ref' t :
  lookup_handle ref' (take_handle ref t) = if bool_decide (ref' = ref) then None else lookup_handle ref' t.
Proof.
  unfold take_handle, lookup_handle. destruct (h_map t) as [m|]; cbn; [|by destruct (bool_decide _)].
  destruct (bool_decide (ref' = ref)) eqn:E; to_prop; [subst; apply lookup_delete_eq|by rewrite lookup_delete_ne].
Qed.

Lemma lookup_register ref ref' o t :
  lookup_handle ref' (register ref o t) = if bool_decide (ref' = ref) then Some o else lookup_handle ref' t.
Proof.
  unfold register, lookup_handle. cbn. destruct (bool_decide (ref' = ref)) eqn:E; to_prop; [subst; by rewrite lookup_insert_eq|by rewrite lookup_insert_ne].
Qed.

(** What both invariants say of one kind. *)
Definition sound (k : kind) (s : transport) : Prop := held_once k s /\ refs_fresh k s.

(** A step of a thread that leaves the table of a kind alone. *)
Lemma sound_same k i th th' s S :
  t_threads s !! i = Some th -> t_threads S = <[i := th']> (t_threads s) ->
  t_tables S k = t_tables s k -> owned k th' = owned k th -> pending_ref k th' = None -> sound k s -> sound k S.
Proof.
  intros Hi HS Ht Ho Hp [Hh Hr]. split.
  - apply (held_move k i th th' s S Hi HS Hh); by rewrite Ht, ?Ho.
  - apply (refs_move k i th th' s S Hi HS Hr); [by rewrite Ht|intros ref; rewrite Ht; auto|by left].
Qed.

Lemma sound_add k i th th' s S org :
  t_threads s !! i = Some th -> t_threads S = <[i := th']> (t_threads s) ->
  t_tables S k = add_object org (t_tables s k) -> owned k th = [] -> owned k th' = [length (h_objs (t_tables s k))] ->
  pending_ref k th' = None -> sound k s -> sound k S.
Proof.
  intros Hi HS Ht Ho Ho' Hp [Hh Hr]. split.
  - apply (held_add k i th th' s S Hi HS org Hh); rewrite Ht; [done|]. by rewrite Ho, Ho'.
  - apply (refs_move k i th th' s S Hi HS Hr); rewrite ?Ht; [done|auto|by left].
Qed.

Lemma sound_close k i th th' s S o :
  t_threads s !! i = Some th -> t_threads S = <[i := th']> (t_threads s) ->
  t_tables S k = close_object o (t_tables s k) -> owned k th = o :: owned k th' -> pending_ref k th' = None -> sound k s -> sound k S.
Proof.
  intros Hi HS Ht Ho Hp [Hh Hr]. split.
  - apply (held_close k i th th' s S Hi HS o Hh); rewrite Ht; [done|]. by rewrite Ho.
  - apply (refs_move k i th th' s S Hi HS Hr); rewrite ?Ht; [done|auto|by left].
Qed.

Lemma sound_number k i th th' s S o :
  t_threads s !! i = Some th -> t_threads S = <[i := th']> (t_threads s) ->
  t_tables S k = next_ref (t_tables s k) -> owned k th = [o] -> owned k th' = [o] ->
  pending_ref k th' = Some (h_next (t_tables s k) + 1) -> sound k s -> sound k S.
Proof.
  intros Hi HS Ht Ho Ho' Hp [Hh Hr]. split.
  - apply (held_move k i th th' s S Hi HS Hh); rewrite Ht; [done|]. by rewrite Ho, Ho'.
  - apply (refs_move k i th th' s S Hi HS Hr); rewrite ?Ht; [cbn; lia|auto|by right].
Qed.

Lemma sound_register k i th th' s S o ref :
  t_threads s !! i = Some th -> t_threads S = <[i := th']> (t_threads s) ->
  t_tables S k = register ref o (t_tables s k) -> owned k th = [o] -> owned k th' = [] ->
  pending_ref k th = Some ref -> pending_ref k th' = None -> sound k s -> sound k S.
Proof.
  intros Hi HS Ht Ho Ho' Hp Hp' [Hh Hr]. pose proof Hr as (_ & Hr2 & _). destruct (Hr2 i th ref Hi Hp) as [_ Hnone]. split.
  - apply (held_move k i th th' s S Hi HS Hh); rewrite Ht; [done|]. by rewrite Ho, Ho', handles_register.
  - apply (refs_move k i th th' s S Hi HS Hr); rewrite ?Ht; [done| |by left].
    intros ref'. rewrite lookup_register. destruct (bool_decide (ref' = ref)) eqn:E; to_prop; [subst; auto|auto].
Qed.

Lemma sound_take k i th th' s S o ref :
  t_threads s !! i = Some th -> t_threads S = <[i := th']> (t_threads s) ->
  lookup_handle ref (t_tables s k) = Some o ->
  t_tables S k = take_handle ref (t_tables s k) -> owned k th = [] -> owned k th' = [o] -> pending_ref k th' = None ->
  sound k s -> sound k S.
Proof.
  intros Hi HS Hl Ht Ho Ho' Hp [Hh Hr]. split.
  - apply (held_move k i th th' s S Hi HS Hh); rewrite Ht; [done|]. rewrite Ho, Ho'. cbn. by rewrite <- handles_take.
  - apply (refs_move k i th th' s S Hi HS Hr); rewrite ?Ht; [done| |by left].
    intros ref'. rewrite lookup_take. destruct (bool_decide _); [by intros []|auto].
Qed.

Lemma sound_drain k i th th' s S :
  t_threads s !! i = Some th -> t_threads S = <[i := th']> (t_threads s) ->
  t_tables S k = (drain (t_tables s k)).2 -> owned k th = [] -> owned k th' = (drain (t_tables s k)).1 -> pending_ref k th' = None ->
  sound k s -> sound k S.
Proof.
  intros Hi HS Ht Ho Ho' Hp [Hh Hr]. split.
  - apply (held_move k i th th' s S Hi HS Hh); rewrite Ht; [done|]. rewrite Ho, Ho'. cbn [drain fst snd app].
    change (handles (mkTable None _ _ _)) with (@nil nat). by rewrite app_nil_r.
  - apply (refs_move k i th th' s S Hi HS Hr); rewrite ?Ht; [done| |by left]. intros ref. cbn. by intros [].
Qed.

Lemma sound_add_thread k th s : owned k th = [] -> pending_ref k th = None -> sound k s -> sound k (add_thread th s).
Proof.
  intros Ho Hp [[Hn Hh] (H1 & H2 & H3)].
  assert (holders k (add_thread th s) = holders k s) as Hhs.
  { unfold holders. cbn. rewrite fmap_app, concat_app. cbn. by rewrite Ho, !app_nil_r. }
  assert (forall j x ref, t_threads (add_thread th s) !! j = Some x -> pending_ref k x = Some ref -> t_threads s !! j = Some x) as Hj.
  { intros j x ref. cbn. intros Hx Hr. apply lookup_app_Some in Hx as [?|[_ Hx]]; [done|].
    apply list_lookup_singleton_Some in Hx as [_ <-]. congruence. }
  split; [split|split; [|split]].
  - by rewrite Hhs.
  - by rewrite Hhs.
  - done.
  - eauto.
  - eauto 10.
Qed.

Ltac sound_step Hi Hs := first
  [ eapply sound_same; [exact Hi|reflexivity|reflexivity|reflexivity|reflexivity|exact Hs]
  | eapply sound_add; [exact Hi|reflexivity|reflexivity|reflexivity|reflexivity|reflexivity|exact Hs]
  | eapply sound_close; [exact Hi|reflexivity|reflexivity|reflexivity|reflexivity|exact Hs]
  | eapply sound_number; [exact Hi|reflexivity|reflexivity|reflexivity|reflexivity|reflexivity|exact Hs]
  | eapply sound_register; [exact Hi|reflexivity|reflexivity|reflexivity|reflexivity|reflexivity|reflexivity|exact Hs]
  | eapply sound_take; [exact Hi|reflexivity|eassumption|reflexivity|reflexivity|reflexivity|reflexivity|exact Hs]
  | eapply sound_drain; [exact Hi|reflexivity|reflexivity|reflexivity|reflexivity|reflexivity|exact Hs] ].

Lemma thread_step_sound k i a s s' : sound k s -> thread_step i a s = Some s' -> sound k s'.
Proof.
  intros Hs H. unfold thread_step in H. destruct (t_threads s !! i) as [th|] eqn:Hi; [|done].
  destruct th as [k' arg_ok|k'|o|k' o|k' o ref|k' ref|k' ref|k' o|path|path retry|path|f|f|f o|f o ref|path|f| | | |fs os|k' os| | |r|];
    try discriminate H;
    cbn [open_step close_ref_step enable_step accept_step disable_step transport_close_step] in H; unfold go, upd, fwd_close in H.
  - destruct (_ || _); injection H as <-; sound_step Hi Hs.
  - destruct a; injection H as <-; [|sound_step Hi Hs..]. destruct k, k'; sound_step Hi Hs.
  - destruct a; injection H as <-; destruct k; sound_step Hi Hs.
  - injection H as <-. destruct k, k'; sound_step Hi Hs.
  - injection H as <-. destruct k, k'; sound_step Hi Hs.
  - destruct (t_closed s); injection H as <-; sound_step Hi Hs.
  - destruct (lookup_handle ref (t_tables s k')) eqn:El; injection H as <-; [|sound_step Hi Hs]. destruct k, k'; sound_step Hi Hs.
  - injection H as <-. destruct k, k'; sound_step Hi Hs.
  - destruct (t_closed s); [|destruct (bool_decide _)]; injection H as <-; sound_step Hi Hs.
  - destruct a; [| |destruct retry]; injection H as <-; sound_step Hi Hs.
  - destruct a; injection H as <-; sound_step Hi Hs.
  - destruct (t_fwds s); [destruct (t_fwdrs s !! f)|]; injection H as <-; [|sound_step Hi Hs..].
    apply sound_add_thread; [done..|]. sound_step Hi Hs.
  - destruct a; [|destruct (t_fwdrs s !! f); [|done]|done]; [|injection H as <-; sound_step Hi Hs].
    destruct (t_fwdrs s !! f) as [x|]; [|done]. destruct (f_listening x); [|done]. injection H as <-. destruct k; sound_step Hi Hs.
  - injection H as <-. destruct k; sound_step Hi Hs.
  - injection H as <-. destruct k; sound_step Hi Hs.
  - destruct (default ∅ (t_fwds s) !! path); injection H as <-; sound_step Hi Hs.
  - injection H as <-; sound_step Hi Hs.
  - destruct (t_closed s); injection H as <-; sound_step Hi Hs.
  - injection H as <-; sound_step Hi Hs.
  - injection H as <-. destruct k; sound_step Hi Hs.
  - destruct fs; injection H as <-; destruct k; sound_step Hi Hs.
  - destruct os; injection H as <-; destruct k, k'; sound_step Hi Hs.
  - injection H as <-. destruct k; sound_step Hi Hs.
  - injection H as <-; sound_step Hi Hs.
Qed.

Lemma handle_step_sound k l s s' : sound k s -> handle_step l s = Some s' -> sound k s'.
Proof.
  intros Hs H. destruct l as [th|i a]; [|by eapply thread_step_sound]. cbn in H. destruct (entry th) eqn:E; [|done].
  injection H as <-. apply sound_add_thread; [by destruct th..|done].
Qed.

Lemma new_transport_sound k : sound k new_transport.
Proof.
  split; [split|split; [|split]]; try done; [constructor|..].
  - intros o. by split; [|intros ?%elem_of_nil].
  - by intros ref [].
Qed.

Lemma handle_run_ind (P : transport -> Prop) ls : forall s s',
  (forall l s s', P s -> handle_step l s = Some s' -> P s') -> P s -> handle_run ls s = Some s' -> P s'.
Proof.
  induction ls as [|l ls IH]; intros s s' Hstep Hp H; cbn in H; [by injection H as <-|].
  destruct (handle_step l s) as [s1|] eqn:E; [|done]. eauto.
Qed.

(** ** Closing the transport *)

Definition unwinding (k : kind) (ref : Z) (th : thread) : Prop := th = Recheck k ref \/ th = CloseRef k ref.
Definition origin_of (k : kind) (s : transport) (o : nat) : option origin := o_origin <$> h_objs (t_tables s k) !! o.

(** After the table of a kind has been emptied, a handle that is in it again belongs to a caller
    that is about to take it out, or to an accepted connection. *)
Definition late_handles (k : kind) (s : transport) : Prop :=
  h_drained (t_tables s k) = true ->
  t_closed s = true /\
  forall ref o, lookup_handle ref (t_tables s k) = Some o ->
    origin_of k s o = Some Accepted \/ exists j th, t_threads s !! j = Some th /\ unwinding k ref th.

(** What the progress of a thread says about the tables. *)
Definition thread_ok (s : transport) (th : thread) : Prop :=
  match th with
  | AcceptGot _ o | AcceptReg _ o _ => origin_of KConn s o = Some Accepted
  | CloseSession | CloseDrain => t_closed s = true
  | CloseFwds _ _ | CloseExecDrain | CloseObjs KConn _ => h_drained (t_tables s KConn) = true
  | CloseObjs KExec _ | CloseClient => h_drained (t_tables s KConn) = true /\ h_drained (t_tables s KExec) = true
  | _ => True
  end.
Definition closing_inv (s : transport) : Prop :=
  (forall k, late_handles k s) /\ (forall i th, t_threads s !! i = Some th -> thread_ok s th) /\
  (t_client s = false -> h_drained (t_tables s KConn) = true /\ h_drained (t_tables s KExec) = true).

(** Nothing a thread knows is undone. *)
Definition grows (s S : transport) : Prop :=
  (t_closed s = true -> t_closed S = true) /\
  (forall k, h_drained (t_tables s k) = true -> h_drained (t_tables S k) = true) /\
  (forall k o org, origin_of k s o = Some org -> origin_of k S o = Some org).

Lemma thread_ok_grows s S th : grows s S -> thread_ok s th -> thread_ok S th.
Proof. intros (H1 & H2 & H3) H. destruct th as [| | | | | | | | | | | | | | | | | | | | |[]| | | |]; cbn in *; naive_solver. Qed.

Lemma late_move k i th th' s S :
  t_threads s !! i = Some th -> t_threads S = <[i := th']> (t_threads s) -> grows s S ->
  late_handles k s ->
  (h_drained (t_tables S k) = true -> h_drained (t_tables s k) = true /\
    forall ref o, lookup_handle ref (t_tables S k) = Some o ->
      (lookup_handle ref (t_tables s k) = Some o /\ (unwinding k ref th -> unwinding k ref th')) \/
      unwinding k ref th' \/ origin_of k S o = Some Accepted) ->
  late_handles k S.
Proof.
  intros Hi HS (Hg1 & _ & Hg3) Hl Hk Hd. destruct (Hk Hd) as [Hd' Hlook]. destruct (Hl Hd') as [Hc Hh]. split; [auto|].
  assert (t_threads S !! i = Some th') as Hi' by (rewrite HS; apply list_lookup_insert_eq; by eapply lookup_lt_Some).
  intros ref o Ho. destruct (Hlook ref o Ho) as [[Ho' Hu]|[Hu|Hu]]; [|right; eauto|auto].
  destruct (Hh ref o Ho') as [Hacc|(j & x & Hx & Hux)]; [auto|]. right.
  destruct (decide (j = i)) as [->|Hne]; [exists i, th'; split; [done|]; apply Hu; congruence|].
  exists j, x. split; [|done]. rewrite HS. by rewrite list_lookup_insert_ne.
Qed.

Lemma closing_move i th th' s S :
  t_threads s !! i = Some th -> t_threads S = <[i := th']> (t_threads s) -> grows s S -> closing_inv s ->
  (forall k, late_handles k S) -> thread_ok S th' -> (t_client S = false -> t_client s = false \/ thread_ok s CloseClient) -> closing_inv S.
Proof.
  intros Hi HS Hg (Hl & Ht & Hc) Hl' Ht' Hc'. split; [done|]. split.
  - intros j x Hx. rewrite HS in Hx. apply list_lookup_insert_Some in Hx as [(-> & <- & _)|[_ Hx]]; [done|].
    eapply thread_ok_grows; eauto.
  - intros Hcl. destruct Hg as (_ & Hg & _). destruct (Hc' Hcl) as [H|[H1 H2]]; [destruct (Hc H)|]; auto.
Qed.

(** The handles of a table are objects. *)
Lemma handle_object k s ref o : sound k s -> lookup_handle ref (t_tables s k) = Some o -> open_object (t_tables s k) o = true.
Proof.
  intros [[_ Hh] _] Hl. apply Hh. unfold holders. apply elem_of_app. right. unfold handles, lookup_handle in *.
  apply list_elem_of_fmap. exists (ref, o). split; [done|]. by apply elem_of_map_to_list.
Qed.

Definition table_grows (t t' : table) : Prop :=
  (h_drained t = true -> h_drained t' = true) /\
  forall o org, o_origin <$> h_objs t !! o = Some org -> o_origin <$> h_objs t' !! o = Some org.

Lemma add_object_grows org t : table_grows t (add_object org t).
Proof.
  split; [done|]. intros o org' H. cbn. apply fmap_Some in H as (x & Hx & ->). by rewrite (lookup_app_l_Some _ _ _ _ Hx).
Qed.
Lemma close_object_grows o t : table_grows t (close_object o t).
Proof.
  split; [done|]. intros o' org H. cbn. rewrite list_lookup_alter. destruct (decide (o = o')); [|done].
  subst o'. destruct (h_objs t !! o); cbn in *; congruence.
Qed.
Lemma drain_grows t : table_grows t (drain t).2.
Proof. by split. Qed.

Lemma grows_table k v s th i : table_grows (t_tables s k) v -> grows s (set_thread i th (set_table k v s)).
Proof.
  intros [H1 H2]. split; [done|]. unfold origin_of. cbn. split; intros k'; destruct (bool_decide (k' = k)) eqn:E; to_prop; subst; auto.
Qed.

Ltac late_same Hi Hg Hl :=
  intros k; eapply late_move; [exact Hi|reflexivity|first [apply Hg|done]|apply Hl|];
  destruct k; (intros Hd; split; [exact Hd|]; intros ref' o' Ho; left; split; [exact Ho|intros [Hu|Hu]; discriminate Hu]).

(** A step that is not one of a registration or a removal. *)
Ltac closing_same Hi Hinv Hl Hg :=
  eapply closing_move; [exact Hi|reflexivity|first [apply Hg|done]|exact Hinv|late_same Hi Hg Hl| |by left].

Lemma closing_add_thread th s : thread_ok s th -> closing_inv s -> closing_inv (add_thread th s).
Proof.
  intros Hth (Hl & Ht & Hc). split; [|split; [|done]].
  - intros k Hd. destruct (Hl k Hd) as [Hcl Hh]. split; [done|]. intros ref o Ho. destruct (Hh ref o Ho) as [Ha|(j & x & Hx & Hu)]; [by left|].
    right. exists j, x. split; [|done]. cbn. by apply lookup_app_l_Some.
  - intros i x Hx. cbn in Hx. apply lookup_app_Some in Hx as [Hx|[_ Hx]]; [by apply (Ht i x)|].
    apply list_lookup_singleton_Some in Hx as [_ <-]. done.
Qed.

(** [closeAllStreamLocal] and [closeAllExec]. *)
Lemma late_drain k i th th' s S :
  t_threads s !! i = Some th -> t_threads S = <[i := th']> (t_threads s) -> (forall k' r, ~ unwinding k' r th) ->
  (forall k', t_tables S k' = if bool_decide (k' = k) then (drain (t_tables s k)).2 else t_tables s k') ->
  t_closed S = t_closed s -> t_closed s = true -> (forall k', late_handles k' s) ->
  forall k', late_handles k' S.
Proof.
  intros Hi HS Hnu HT HC Hcl Hl k'. assert (Hg : grows s S).
  { split; [congruence|]. unfold origin_of. split; intros k0; rewrite HT; destruct (bool_decide (k0 = k)) eqn:E; to_prop; subst; done. }
  destruct (bool_decide (k' = k)) eqn:Ek; to_prop.
  - subst k'. intros _. split; [congruence|]. intros ref o. rewrite HT, bool_decide_true by done. done.
  - eapply late_move; [exact Hi|exact HS|exact Hg|apply Hl|]. rewrite HT, bool_decide_false by done.
    intros Hd. split; [done|]. intros ref o Ho. left. split; [done|]. intros Hu. by apply Hnu in Hu.
Qed.

Lemma late_register k i th th' s o ref :
  t_threads s !! i = Some th -> late_handles k s -> (forall r, ~ unwinding k r th) ->
  (unwinding k ref th' \/ origin_of k s o = Some Accepted) ->
  forall k', late_handles k' s -> (forall r, unwinding k' r th -> unwinding k' r th') ->
  late_handles k' (set_thread i th' (set_table k (register ref o (t_tables s k)) s)).
Proof.
  intros Hi Hl Hnu Hor k' Hl' Hu.
  assert (Hg : grows s (set_thread i th' (set_table k (register ref o (t_tables s k)) s))) by (by apply grows_table).
  eapply late_move; [exact Hi|reflexivity|exact Hg|exact Hl'|]. cbn. destruct (bool_decide (k' = k)) eqn:Ek; to_prop.
  - subst k'. intros Hd. split; [exact Hd|]. intros r x. rewrite lookup_register.
    destruct (bool_decide (r = ref)) eqn:Er; to_prop; [subst|intros Hx; left; split; [done|apply Hu]].
    intros [= ->]. right. destruct Hor as [Hor|Hor]; [by left|right]. unfold origin_of. cbn. by rewrite bool_decide_true.
  - intros Hd. split; [done|]. intros r x Hx. left. split; [done|apply Hu].
Qed.

Lemma thread_step_closing i a s s' : (forall k, sound k s) -> closing_inv s -> thread_step i a s = Some s' -> closing_inv s'.
Proof.
  intros Hs Hinv H. pose proof Hinv as (Hl & Ht & Hc). unfold thread_step in H.
  destruct (t_threads s !! i) as [th|] eqn:Hi; [|done]. specialize (Ht i th Hi).
  assert (forall th', grows s (set_thread i th' s)) as Hg0 by done.
  destruct th as [k' arg_ok|k'|o|k' o|k' o ref|k' ref|k' ref|k' o|path|path retry|path|f|f|f o|f o ref|path|f| | | |fs os|k' os| | |r|];
    try discriminate H;
    cbn [open_step close_ref_step enable_step accept_step disable_step transport_close_step] in H; unfold go, upd, fwd_close in H.
  - destruct (_ || _); injection H as <-; closing_same Hi Hinv Hl Hg0; done.
  - destruct a; injection H as <-; [|closing_same Hi Hinv Hl Hg0; done..].
    assert (Hg := grows_table k' _ s (match k' with KConn => Got KConn (length (h_objs (t_tables s k'))) | KExec => ExecSetup (length (h_objs (t_tables s k'))) end) i (add_object_grows Opened (t_tables s k'))).
    destruct k'; closing_same Hi Hinv Hl Hg; done.
  - destruct a; injection H as <-; [closing_same Hi Hinv Hl Hg0; done|..].
    all: assert (Hg := grows_table KExec _ s (Returned None) i (close_object_grows o (t_tables s KExec))).
    all: closing_same Hi Hinv Hl Hg; done.
  - injection H as <-.
    assert (Hg : grows s (set_thread i (Reg k' o (h_next (t_tables s k') + 1)) (set_table k' (next_ref (t_tables s k')) s)))
      by (by apply grows_table).
    destruct k'; closing_same Hi Hinv Hl Hg; done.
  - injection H as <-. eapply closing_move; [exact Hi|reflexivity|by apply grows_table|exact Hinv| |done|by left].
    intros k. eapply late_register; [exact Hi|apply Hl|by intros r [?|?]|left; by left|apply Hl|by intros r [?|?]].
  - destruct (t_closed s) eqn:Ecl; injection H as <-.
    + eapply closing_move; [exact Hi|reflexivity|apply Hg0|exact Hinv| |done|by left]. intros k.
      eapply late_move; [exact Hi|reflexivity|apply Hg0|apply Hl|]. intros Hd. split; [done|]. intros r x Hx. left. split; [done|].
      intros [[= <- <-]|?]; [by right|done].
    + eapply closing_move; [exact Hi|reflexivity|apply Hg0|exact Hinv| |done|by left]. intros k Hd. cbn in Hd. destruct (Hl k Hd). congruence.
  - destruct (lookup_handle ref (t_tables s k')) as [o|] eqn:El; injection H as <-.
    + assert (Hg : grows s (set_thread i (CloseObj k' o) (set_table k' (take_handle ref (t_tables s k')) s))) by (by apply grows_table).
      eapply closing_move; [exact Hi|reflexivity|exact Hg|exact Hinv| |done|by left]. intros k.
      eapply late_move; [exact Hi|reflexivity|exact Hg|apply Hl|]. cbn. destruct (bool_decide (k = k')) eqn:Ek; to_prop.
      * subst k'. intros Hd. split; [exact Hd|]. intros r x. rewrite lookup_take.
        destruct (bool_decide (r = ref)) eqn:Er; to_prop; [done|]. intros Hx. left. split; [done|]. intros [?|[= ->]]; done.
      * intros Hd. split; [done|]. intros r x Hx. left. split; [done|]. intros [?|[= -> ->]]; done.
    + eapply closing_move; [exact Hi|reflexivity|apply Hg0|exact Hinv| |done|by left]. intros k.
      eapply late_move; [exact Hi|reflexivity|apply Hg0|apply Hl|]. intros Hd. split; [done|]. intros r x Hx. left. split; [done|].
      intros [?|[= -> ->]]; [done|]. cbn in Hx. congruence.
  - injection H as <-. assert (Hg := grows_table k' _ s (Returned None) i (close_object_grows o (t_tables s k'))).
    destruct k'; closing_same Hi Hinv Hl Hg; done.
  - destruct (t_closed s); [|destruct (bool_decide _)]; injection H as <-; closing_same Hi Hinv Hl Hg0; done.
  - destruct a; [| |destruct retry]; injection H as <-; closing_same Hi Hinv Hl Hg0; done.
  - destruct a; injection H as <-; closing_same Hi Hinv Hl Hg0; done.
  - destruct (t_fwds s) as [m|]; [destruct (t_fwdrs s !! f) as [x|]|]; injection H as <-; [|closing_same Hi Hinv Hl Hg0; done..].
    apply closing_add_thread; [done|]. closing_same Hi Hinv Hl Hg0. done.
  - destruct a; [|destruct (t_fwdrs s !! f); [|done]|done]; [|injection H as <-; closing_same Hi Hinv Hl Hg0; done].
    destruct (t_fwdrs s !! f) as [x|]; [|done]. destruct (f_listening x); [|done]. injection H as <-.
    assert (Hg := grows_table KConn _ s (AcceptGot f (length (h_objs (t_tables s KConn)))) i (add_object_grows Accepted (t_tables s KConn))).
    closing_same Hi Hinv Hl Hg.
    change (o_origin <$> (h_objs (t_tables s KConn) ++ [mkObj true Accepted]) !! length (h_objs (t_tables s KConn)) = Some Accepted).
    by rewrite list_lookup_middle.
  - injection H as <-.
    assert (Hg : grows s (set_thread i (AcceptReg f o (h_next (t_tables s KConn) + 1)) (set_table KConn (next_ref (t_tables s KConn)) s)))
      by (by apply grows_table).
    closing_same Hi Hinv Hl Hg; done.
  - injection H as <-. assert (Hg : grows s (set_thread i (Accept f) (set_table KConn (register ref o (t_tables s KConn)) s))) by (by apply grows_table).
    eapply closing_move; [exact Hi|reflexivity|exact Hg|exact Hinv| |done|by left].
    intros k. eapply (late_register KConn i _ (Accept f)); [exact Hi|apply Hl|by intros r [?|?]|by right|apply Hl|by intros r [?|?]].
  - destruct (default ∅ (t_fwds s) !! path); injection H as <-; closing_same Hi Hinv Hl Hg0; done.
  - injection H as <-; closing_same Hi Hinv Hl Hg0; done.
  - destruct (t_closed s); injection H as <-; [closing_same Hi Hinv Hl Hg0; done|].
    assert (Hg : grows s (set_thread i CloseSession (set_closed s))) by done. closing_same Hi Hinv Hl Hg. done.
  - injection H as <-; closing_same Hi Hinv Hl Hg0; done.
  - injection H as <-. eapply closing_move; [exact Hi|reflexivity| |exact Hinv| |done|by left].
    + split; [done|]. unfold origin_of. split; intros k; cbn; destruct (bool_decide (k = KConn)) eqn:E; to_prop; subst; done.
    + eapply (late_drain KConn i); [exact Hi|reflexivity|by intros k r [?|?]|done|done|exact Ht|exact Hl].
  - destruct fs; injection H as <-; closing_same Hi Hinv Hl Hg0; done.
  - destruct os as [|o os]; injection H as <-; [destruct k'; closing_same Hi Hinv Hl Hg0; done|].
    assert (Hg := grows_table k' _ s (CloseObjs k' os) i (close_object_grows o (t_tables s k'))).
    destruct k'; closing_same Hi Hinv Hl Hg; done.
  - injection H as <-. destruct (Hl KConn Ht) as [Hcl _]. eapply closing_move; [exact Hi|reflexivity| |exact Hinv| |done|by left].
    + apply grows_table, drain_grows.
    + eapply (late_drain KExec i); [exact Hi|reflexivity|by intros k r [?|?]|done|done|exact Hcl|exact Hl].
  - injection H as <-. eapply closing_move; [exact Hi|reflexivity|done|exact Hinv|late_same Hi Hg0 Hl|done|by right].
Qed.

Definition reached (s : transport) : Prop := exists ls, handle_run ls new_transport = Some s.

Lemma reached_inv s : reached s -> (forall k, sound k s) /\ closing_inv s.
Proof.
  intros [ls H]. revert H. apply (handle_run_ind (fun s => (forall k, sound k s) /\ closing_inv s)).
  - intros l s1 s2 [Hs Hc] H. split; [intros k; by eapply handle_step_sound|].
    destruct l as [th|i a]; [|by eapply thread_step_closing]. cbn in H. destruct (entry th) eqn:E; [|done]. injection H as <-.
    apply closing_add_thread; [by destruct th|done].
  - split; [apply new_transport_sound|]. split; [by intros k|split; [done|done]].
Qed.

(** ** What the tables promise *)

(** C30: In every interleaving of dials, execs, accept loops, close calls and Transport.Close,
    each open connection or command is held exactly once, by one entry of its table or by one
    caller that is about to register or close it, and nothing that has been closed is held:
    no number given to the app names a closed object, no two numbers name the same object,
    and nothing is closed twice or lost. *)
Theorem handles_sound s k : reached s -> held_once k s /\
  (forall ref ref' o, lookup_handle ref (t_tables s k) = Some o -> lookup_handle ref' (t_tables s k) = Some o -> ref = ref') /\
  (forall ref o, lookup_handle ref (t_tables s k) = Some o -> open_object (t_tables s k) o = true).
Proof.
  intros H. destruct (reached_inv s H) as [Hs _]. specialize (Hs k). split; [apply Hs|]. split; [|intros ref o; by apply handle_object].
  intros ref ref' o H1 H2. destruct Hs as [[Hn _] _]. unfold holders in Hn. apply NoDup_app in Hn as (_ & _ & Hn).
  unfold handles, lookup_handle in *. apply elem_of_map_to_list in H1, H2.
  apply list_elem_of_lookup_1 in H1 as [i1 H1], H2 as [i2 H2].
  assert (i1 = i2) as <- by (eapply NoDup_lookup; [exact Hn|by rewrite list_lookup_fmap, H1|by rewrite list_lookup_fmap, H2]).
  congruence.
Qed.

Definition dial_and_close : list handle_label :=
  [Call (Open KConn true); Run 0 No; Run 0 Yes; Run 0 No; Call (Open KExec true); Run 1 No; Run 1 Yes; Run 1 Yes; Run 0 No; Run 0 No;
   Call (CloseRef KConn 1); Run 2 No].

Lemma handles_sound_witness : exists s, handle_run dial_and_close new_transport = Some s /\
  t_threads s = [Returned (Some 1); Got KExec 0; CloseObj KConn 0] /\ held_once KConn s /\ open_object (t_tables s KConn) 0 = true.
Proof.
  destruct (handle_run dial_and_close new_transport) as [s|] eqn:E; [|vm_compute in E; discriminate].
  pose proof (handles_sound s KConn (ex_intro _ _ E)) as [H _]. exists s. split; [reflexivity|].
  assert (t_threads s = [Returned (Some 1); Got KExec 0; CloseObj KConn 0]) as Ht by (vm_compute in E; injection E as <-; reflexivity).
  split; [exact Ht|]. split; [exact H|]. apply (proj2 H 0%nat). unfold holders. rewrite Ht. apply elem_of_app. left. cbn. constructor.
Defined.

(** A thread that has nothing left to do, or waits for a connection. *)
Definition at_rest (th : thread) : bool := match th with Returned _ | Panicked | Accept _ => true | _ => false end.

(** C19: Transport.Close lets go of everything the app opened: once it has closed the client and all other
    calls have returned, every connection of DialTCP and DialUnix and every command of OpenExec
    is closed, however its dial, its registration and the emptying of the table interleaved. *)
Theorem close_releases_opened s k o :
  reached s -> t_client s = false -> Forall (fun th => at_rest th = true) (t_threads s) ->
  origin_of k s o = Some Opened -> open_object (t_tables s k) o = false.
Proof.
  intros Hr Hcl Hrest Ho. destruct (reached_inv s Hr) as [Hs (Hl & _ & Hc)].
  destruct (open_object (t_tables s k) o) eqn:E; [|done]. exfalso.
  destruct (Hs k) as [[_ Hh] _]. apply Hh in E. unfold holders in E. apply elem_of_app in E as [E|E].
  - apply list_elem_of_In, in_concat in E as (l & Hin & Hol). apply list_elem_of_In in Hin, Hol. apply list_elem_of_fmap in Hin as (th & -> & Hth).
    rewrite Forall_forall in Hrest. specialize (Hrest th Hth). destruct th; try done; by apply elem_of_nil in Hol.
  - assert (h_drained (t_tables s k) = true) as Hd by (destruct (Hc Hcl), k; done).
    destruct (Hl k Hd) as [_ Hlate]. unfold handles in E. apply list_elem_of_fmap in E as ([ref o'] & -> & Hin).
    apply elem_of_map_to_list in Hin. destruct (Hlate ref o' Hin) as [Ha|(j & th & Hth & Hu)]; [cbn in *; congruence|].
    apply (Forall_lookup_1 _ _ _ _ Hrest) in Hth. by destruct Hu as [->| ->].
Qed.

(** A dial that registers after the table has been emptied is unwound. *)
Definition late_dial : list handle_label :=
  [Call (Open KConn true); Run 0 No; Run 0 Yes; Call Close] ++ replicate 8 (Run 1 No) ++ replicate 5 (Run 0 No).

Lemma close_releases_opened_witness : exists s,
  handle_run late_dial new_transport = Some s /\ t_threads s = [Returned None; Returned None] /\
  open_object (t_tables s KConn) 0 = false.
Proof.
  destruct (handle_run late_dial new_transport) as [s|] eqn:E; [|vm_compute in E; discriminate].
  assert (t_threads s = [Returned None; Returned None] /\ t_client s = false /\ origin_of KConn s 0 = Some Opened) as (H1 & H2 & H3)
    by (vm_compute in E; injection E as <-; repeat split).
  exists s. split; [reflexivity|]. split; [exact H1|].
  apply (close_releases_opened s KConn 0 (ex_intro _ _ E) H2); [rewrite H1; repeat constructor|exact H3].
Defined.

(** An accept loop does not look at [closed] again: a connection accepted before Close and
    registered after it is entered in a new table and announced, and nothing closes it. *)
Definition late_accept : list handle_label :=
  [Call (Enable (lit "/s")); Run 0 No; Run 0 Yes; Run 0 No; Run 1 Yes; Call Close] ++ replicate 9 (Run 2 No) ++ [Run 1 No; Run 1 No; Run 1 No].
Lemma accepted_after_close_leaks : exists s, handle_run late_accept new_transport = Some s /\
  t_client s = false /\ Forall (fun th => at_rest th = true) (t_threads s) /\ t_accepted s = [1] /\
  open_object (t_tables s KConn) 0 = true.
Proof.
  destruct (handle_run late_accept new_transport) as [s|] eqn:E; vm_compute in E; [|discriminate].
  injection E as <-. eexists. split; [reflexivity|]. repeat split; repeat constructor.
Qed.

(** Enabling a forward while the transport is closed writes to the map that Close has set to nil. *)
Definition enable_during_close : list handle_label :=
  [Call (Enable (lit "/s")); Run 0 No; Run 0 Yes; Call Close; Run 1 No; Run 1 No; Run 1 No; Run 0 No].
Lemma enable_during_close_panics : exists s, handle_run enable_during_close new_transport = Some s /\ t_threads s !! 0%nat = Some Panicked.
Proof.
  destruct (handle_run enable_during_close new_transport) as [s|] eqn:E; vm_compute in E; [|discriminate].
  injection E as <-. eexists. split; reflexivity.
Qed.
