(* ===== verification/TcpForward.v ===== *)
(** * TCP flows of the netstack

    [handleTCPForward] of src/vpntunnel/netstack.go: admission by the flow semaphore, the
    dial before accepting that IPv6 gets, the endpoint, and the two bridging loops.  A
    flow is the trace of what it does to the resources it shares; Go's deferred calls
    are a stack that runs when the handler returns, whichever way it returns. *)

From S2P Require Import Prelude GoStrings.

Definition maxActiveTCPFlows : Z := 256.

(** ** The handler *)

Inductive action :=
| AcquireSlot | ReleaseSlot                  (* [sem] *)
| CapacityDrop                               (* [stats.tcpCapacityDrop] *)
| Complete (rst : bool)                      (* [r.Complete] *)
| CancelCtx                                  (* [connCancel] *)
| DialRemote | CloseRemote                   (* a connection to the destination *)
| CreateEndpoint | CloseEndpoint
| ConnOpened | ConnClosed                    (* [stats.connOpenedTCP], [connClosedTCP] *)
| AddFlow | RemoveFlow                       (* [env.flows] *)
| Serve                                      (* [serveCapturedFlow] *)
| RecordRaw (up down : Z) (failed : bool).   (* [recordRawTunnel] *)
#[export] Instance action_eq_dec : EqDecision action.
Proof. solve_decision. Defined.

(** How waiting for a slot ends. *)
Inductive admission := Granted | TimedOut | ShutDown.

(** What [serveCapturedFlow] does to the flow's resources: it may call the [dial] closure any
    number of times (decideTLS, then relayPeeked again), each time with its own luck; it closes
    connections it got, and the client, whose connection is the endpoint.  Which it does
    when is mitm.go's ([Mitm], [ProxyH1]) and arbitrary here. *)
Inductive served := SDial (ok : bool) | SCloseRemote | SCloseClient.

(** What a flow meets. *)
Record tcp_env := {
  te_slotFree : bool;          (* a slot is free at once *)
  te_wait : admission;         (* otherwise, after waiting *)
  te_v6 : bool;
  te_dialsIPv6 : bool;
  te_dialOk : bool;            (* the destination can be dialed *)
  te_endpointOk : bool;
  te_capture : bool;           (* there is a capture environment *)
  te_peek : bool;              (* and the flow is to be captured *)
  te_served : list served;     (* then what serving it does *)
  te_up : Z;
  te_down : Z
}.

(** The handler so far: its trace, whether [preDialed] still holds a connection, and the
    deferred calls, last pushed first. *)
Inductive deferred := D (a : action) | DClosePre.
Record prog := mkProg { pg_trace : list action; pg_pre : bool; pg_defers : list deferred }.
Definition act (a : list action) (p : prog) : prog := mkProg (pg_trace p ++ a) (pg_pre p) (pg_defers p).
Definition defer (d : deferred) (p : prog) : prog := mkProg (pg_trace p) (pg_pre p) (d :: pg_defers p).
Definition set_pre (b : bool) (p : prog) : prog := mkProg (pg_trace p) b (pg_defers p).

Definition run_deferred (p : prog) (d : deferred) : prog :=
  match d with
  | D a => act [a] p
  | DClosePre => if pg_pre p then act [CloseRemote] p else p
  end.
(** Returning runs the deferred calls. *)
Definition return_ (p : prog) : list action := pg_trace (fold_left run_deferred (pg_defers p) p).

(** The [dial] closure: the connection dialed before, or a new one; [None] is an error. *)
Definition dial (e : tcp_env) (p : prog) : option prog :=
  if pg_pre p then Some (set_pre false p)
  else if te_dialOk e then Some (act [DialRemote] p) else None.

(** One action of the capture code; the number counts the connections it holds. *)
Definition serve_one (st : prog * Z) (x : served) : prog * Z :=
  let '(p, n) := st in
  match x with
  | SDial ok => if pg_pre p then (set_pre false p, n + 1) else if ok then (act [DialRemote] p, n + 1) else (p, n)
  | SCloseRemote => (act [CloseRemote] p, n - 1)
  | SCloseClient => (act [CloseEndpoint] p, n)
  end.

(** From the accepted endpoint on. *)
Definition serve_flow (e : tcp_env) (p : prog) : list action :=
  let p := defer (D CloseEndpoint) (act [CreateEndpoint; Complete false] p) in
  let p := defer (D ConnClosed) (act [ConnOpened] p) in
  let p := if te_capture e then defer (D RemoveFlow) (act [AddFlow] p) else p in
  if te_peek e && te_capture e then
    return_ (fold_left serve_one (te_served e) (act [Serve] p, 0)).1
  else match dial e p with
  | None => return_ (act [RecordRaw 0 0 true] p)
  | Some p =>
      let p := defer (D (RecordRaw (te_up e) (te_down e) false)) p in
      return_ (act [CancelCtx; CloseRemote] p)
  end.

(** Past the semaphore. *)
Definition accept_flow (e : tcp_env) (p : prog) : list action :=
  let p := defer (D CancelCtx) p in
  let finish p :=
    let p := defer DClosePre p in
    if te_endpointOk e then serve_flow e p else return_ (act [Complete true] p) in
  if te_v6 e then
    if te_dialsIPv6 e && te_dialOk e then finish (set_pre true (act [DialRemote] p))
    else return_ (act [Complete true] p)
  else finish p.

Definition handleTCPForward (e : tcp_env) : list action :=
  let start := mkProg [] false [] in
  let admitted := accept_flow e (defer (D ReleaseSlot) (act [AcquireSlot] start)) in
  if te_slotFree e then admitted
  else match te_wait e with
  | Granted => admitted
  | ShutDown => return_ (act [Complete true] start)
  | TimedOut => return_ (act [CapacityDrop; Complete true] start)
  end.

(** ** Bridging *)

(** The answer of [ep.Write]: how much it took, and its error.  [WouldBlock] carries
    whether the wait for room ended with room (or with the context). *)
Inductive write_error := WouldBlock (room : bool) | WriteFailed.
Record write_result := { wr_n : Z; wr_err : option write_error }.
(** How a bridging loop ends. *)
Inductive bridge_end := AllDone | Stopped | Waiting.

(** The inner loop of the remote-to-netstack direction: [data] until all of it is
    written; [Waiting] is the endpoint not having answered yet. *)
Fixpoint write_all (script : list write_result) (data out : bytes) : bytes * list write_result * bridge_end :=
  if bool_decide (data = []) then (out, script, AllDone)
  else match script with
  | [] => (out, [], Waiting)
  | w :: script' =>
      let n := Z.to_nat (wr_n w) in
      let data' := if 0 <? wr_n w then drop n data else data in
      let out' := if 0 <? wr_n w then out ++ take n data else out in
      match wr_err w with
      | None => write_all script' data' out'
      | Some (WouldBlock true) => write_all script' data' out'
      | Some (WouldBlock false) | Some WriteFailed => (out', script', Stopped)
      end
  end.

(** The remote-to-netstack loop: one element per [remote.Read], with whether it also
    returned an error.  The result is what the device got, [bytesDown], and how the loop ended. *)
Fixpoint download (reads : list (bytes * bool)) (script : list write_result) (out : bytes) (down : Z)
    : bytes * Z * bridge_end :=
  match reads with
  | [] => (out, down, Waiting)
  | (data, err) :: reads' =>
      if 0 <? len data then
        match write_all script data out with
        | (out', script', AllDone) =>
            if err : bool then (out', down + len data, AllDone) else download reads' script' out' (down + len data)
        | (out', _, r) => (out', down + len data, r)
        end
      else if err then (out, down, AllDone) else download reads' script out down
  end.

(** The netstack-to-remote loop: one element per read of the endpoint, and whether the
    write to the remote succeeds. *)
Fixpoint upload (reads : list (bytes * bool)) (out : bytes) (up : Z) : bytes * Z :=
  match reads with
  | [] => (out, up)
  | (data, ok) :: reads' =>
      if 0 <? len data then if ok : bool then upload reads' (out ++ data) (up + len data) else (out, up)
      else upload reads' out up
  end.

(** ** Resources *)

Definition count_of (f : action -> bool) (t : list action) : Z := len (filter (fun a => f a = true) t).
Definition balanced (f g : action -> bool) (t : list action) : Prop := count_of f t = count_of g t /\ count_of f t <= 1.
Definition is_action (a b : action) : bool := bool_decide (a = b).
Definition is_complete (a : action) : bool := match a with Complete _ => true | _ => false end.

(** Whether the flow is handed to the capture code, and how many connections that has got
    from [dial] and not closed when it returns. *)
Definition captured (e : tcp_env) : bool :=
  (te_slotFree e || match te_wait e with Granted => true | _ => false end) &&
  (negb (te_v6 e) || te_dialsIPv6 e && te_dialOk e) && te_endpointOk e && te_peek e && te_capture e.
Definition left_open (e : tcp_env) : Z :=
  if captured e then (fold_left serve_one (te_served e) (mkProg [] (te_v6 e) [], 0)).2 else 0.

(** The same facts as a test of the trace. *)
Definition balanced_b (f g : action -> bool) (t : list action) : bool := (count_of f t =? count_of g t) && (count_of f t <=? 1).
Fixpoint dialed_first (t : list action) : bool :=
  match t with
  | [] => true
  | DialRemote :: _ => true
  | Complete false :: _ => false
  | _ :: t' => dialed_first t'
  end.
(** What the handler takes and gives back itself, whoever serves the flow. *)
Definition check_own (v6 : bool) (t : list action) : bool :=
  balanced_b (is_action AcquireSlot) (is_action ReleaseSlot) t &&
  balanced_b (is_action ConnOpened) (is_action ConnClosed) t &&
  balanced_b (is_action AddFlow) (is_action RemoveFlow) t &&
  (count_of is_complete t =? 1) &&
  (count_of (is_action (Complete false)) t =? count_of (is_action CreateEndpoint) t) &&
  (negb (existsb (is_action AcquireSlot) t) || match last t with Some ReleaseSlot => true | _ => false end) &&
  (negb v6 || dialed_first t).
Definition check_rest (t : list action) : bool :=
  balanced_b (is_action CreateEndpoint) (is_action CloseEndpoint) t && balanced_b (is_action DialRemote) (is_action CloseRemote) t.

Lemma check_uncaptured e :
  captured e = false -> check_own (te_v6 e) (handleTCPForward e) && check_rest (handleTCPForward e) = true.
Proof. destruct e as [[] [] [] [] [] [] [] [] served up down]; intros H; try discriminate H; reflexivity. Qed.

Lemma count_app f a b : count_of f (a ++ b) = count_of f a + count_of f b.
Proof. unfold count_of. by rewrite filter_app, len_app. Qed.
Lemma count_cons f a t : count_of f (a :: t) = (if f a then 1 else 0) + count_of f t.
Proof.
  unfold count_of. destruct (f a) eqn:E; [rewrite filter_cons_True, len_cons by done; lia|].
  rewrite filter_cons_False by (by rewrite E). lia.
Qed.

Lemma count_nil f : count_of f [] = 0.
Proof. done. Qed.
(** Counts of a trace with a known part. *)
Ltac counted :=
  rewrite ?count_app, ?count_cons, ?count_nil;
  repeat match goal with
  | |- context [is_action ?a ?b] => let v := eval vm_compute in (is_action a b) in change (is_action a b) with v
  end; cbn [Z.b2z pg_pre set_pre act]; try lia.

(** The actions the capture code has on the trace. *)
Definition remote_or_client (a : action) : Prop := a = DialRemote \/ a = CloseRemote \/ a = CloseEndpoint.
Lemma count_served f ext :
  Forall remote_or_client ext -> f DialRemote = false -> f CloseRemote = false -> f CloseEndpoint = false -> count_of f ext = 0.
Proof.
  intros H A B D. induction H as [|a t Ha _ IH]; [done|]. rewrite count_cons, IH. by destruct Ha as [->|[->| ->]]; rewrite ?A, ?B, ?D.
Qed.

(** Serving only adds such actions, keeps the deferred calls, and holds what it dialed and
    did not close, the connection dialed before accepting included. *)
Lemma serve_spec xs : forall p n q m, exists ext p' n',
  fold_left serve_one xs (p, n) = (p', n') /\ pg_trace p' = pg_trace p ++ ext /\ pg_defers p' = pg_defers p /\
  Forall remote_or_client ext /\ 0 <= count_of (is_action CloseEndpoint) ext /\
  n' - n = count_of (is_action DialRemote) ext - count_of (is_action CloseRemote) ext + Z.b2z (pg_pre p) - Z.b2z (pg_pre p') /\
  (pg_pre q = pg_pre p -> (fold_left serve_one xs (q, m)).2 - m = n' - n).
Proof.
  induction xs as [|x xs IH]; intros p n q m.
  { exists [], p, n. rewrite app_nil_r. split_and!; try done; unfold count_of; cbn; [lia|intros _; lia]. }
  assert (exists e1 p1 n1, serve_one (p, n) x = (p1, n1) /\ pg_trace p1 = pg_trace p ++ e1 /\ pg_defers p1 = pg_defers p /\
    Forall remote_or_client e1 /\ 0 <= count_of (is_action CloseEndpoint) e1 /\
    n1 - n = count_of (is_action DialRemote) e1 - count_of (is_action CloseRemote) e1 + Z.b2z (pg_pre p) - Z.b2z (pg_pre p1) /\
    (pg_pre q = pg_pre p -> pg_pre (serve_one (q, m) x).1 = pg_pre p1 /\ (serve_one (q, m) x).2 - m = n1 - n))
    as (e1 & p1 & n1 & E1 & T1 & D1 & F1 & C1 & N1 & Q1).
  { assert (Forall remote_or_client [DialRemote] /\ Forall remote_or_client [CloseRemote] /\ Forall remote_or_client [CloseEndpoint])
      as (R1 & R2 & R3) by (repeat split; constructor; unfold remote_or_client; auto).
    destruct x as [ok| |]; cbn [serve_one].
    - destruct (pg_pre p) eqn:Ep; [|destruct ok].
      + exists [], (set_pre false p), (n + 1). rewrite app_nil_r. split_and!; try done; [counted|].
        intros ->. cbn. split; [done|lia].
      + exists [DialRemote], (act [DialRemote] p), (n + 1). split_and!; try done; [rewrite ?Ep; counted; rewrite ?Ep; counted|].
        intros Eq. rewrite Eq. cbn. split; [congruence|lia].
      + exists [], p, n. rewrite app_nil_r. split_and!; try done; [rewrite ?Ep; counted|]. intros Eq. rewrite Eq. cbn. split; [congruence|lia].
    - exists [CloseRemote], (act [CloseRemote] p), (n - 1). split_and!; try done; [counted|].
      cbn. intros ->. split; [done|lia].
    - exists [CloseEndpoint], (act [CloseEndpoint] p), n. split_and!; try done; [counted|].
      cbn. intros ->. split; [done|lia]. }
  cbn [fold_left]. rewrite E1. destruct (serve_one (q, m) x) as [q1 m1] eqn:Eq1.
  destruct (IH p1 n1 q1 m1) as (e2 & p2 & n2 & E2 & T2 & D2 & F2 & C2 & N2 & Q2).
  exists (e1 ++ e2), p2, n2. split_and!; [done|by rewrite T2, T1, app_assoc|congruence|by apply Forall_app| | |].
  - rewrite count_app. lia.
  - rewrite !count_app. lia.
  - intros Hq. destruct (Q1 Hq) as [Q1a Q1b]. cbn in Q1a, Q1b. specialize (Q2 Q1a). lia.
Qed.

(** The trace of a captured flow around what serving it did. *)
Definition captured_trace (v6 : bool) (ext : list action) (pre : bool) : list action :=
  [AcquireSlot] ++ (if v6 then [DialRemote] else []) ++ [CreateEndpoint; Complete false; ConnOpened; AddFlow; Serve] ++ ext ++
  [RemoveFlow; ConnClosed; CloseEndpoint] ++ (if pre then [CloseRemote] else []) ++ [CancelCtx; ReleaseSlot].
Lemma captured_shape e :
  captured e = true ->
  exists ext pre, handleTCPForward e = captured_trace (te_v6 e) ext pre /\ Forall remote_or_client ext /\
    0 <= count_of (is_action CloseEndpoint) ext /\
    left_open e = count_of (is_action DialRemote) ext - count_of (is_action CloseRemote) ext + Z.b2z (te_v6 e) - Z.b2z pre.
Proof.
  intros Hc. unfold left_open. rewrite Hc.
  set (p0 := mkProg ([AcquireSlot] ++ (if te_v6 e then [DialRemote] else []) ++ [CreateEndpoint; Complete false; ConnOpened; AddFlow; Serve])
               (te_v6 e) [D RemoveFlow; D ConnClosed; D CloseEndpoint; DClosePre; D CancelCtx; D ReleaseSlot]).
  destruct (serve_spec (te_served e) p0 0 (mkProg [] (te_v6 e) []) 0) as (ext & p' & n' & E & T & Dd & F & C & N & Q).
  exists ext, (pg_pre p'). split_and!; [|done|done|rewrite Z.sub_0_r in N; specialize (Q eq_refl); rewrite !Z.sub_0_r in Q; cbn [pg_pre] in N; by rewrite Q].
  assert (handleTCPForward e = return_ (fold_left serve_one (te_served e) (p0, 0)).1) as ->.
  { subst p0. clear - Hc. destruct e as [[] [] [] [] [] [] [] [] served up down]; try discriminate Hc; reflexivity. }
  rewrite E. cbn [fst]. unfold return_, captured_trace. rewrite Dd. subst p0. cbn [pg_trace pg_defers] in *.
  destruct p' as [tr pre df]. cbn [pg_trace pg_pre] in *. subst tr. destruct pre; cbn; rewrite <- ?app_assoc; destruct (te_v6 e); reflexivity.
Qed.

Lemma balanced_b_spec f g t : balanced_b f g t = true -> balanced f g t.
Proof. unfold balanced_b, balanced. intros H. to_prop. done. Qed.

Lemma dialed_first_spec t :
  dialed_first t = true -> Complete false ∈ t -> exists pre post, t = pre ++ DialRemote :: post /\ Complete false ∈ post.
Proof.
  induction t as [|a t IH]; [set_solver|]. intros Hd Hin.
  destruct (decide (a = DialRemote)) as [->|Ha]; [exists [], t; set_solver|].
  assert (a <> Complete false) as Hc by (by intros ->).
  destruct IH as (pre & post & -> & Hp); [by destruct a as [| | |[]| | | | | | | | | | | ]|set_solver|].
  by exists (a :: pre), post.
Qed.

(** What the capture code does changes none of the handler's own counts. *)
Lemma captured_counts f v6 ext pre :
  Forall remote_or_client ext -> f DialRemote = false -> f CloseRemote = false -> f CloseEndpoint = false ->
  count_of f (captured_trace v6 ext pre) = count_of f (captured_trace false [] false).
Proof.
  intros H A B D. unfold captured_trace. rewrite !count_app, (count_served f ext) by done.
  destruct v6, pre; rewrite ?count_cons, ?count_nil, ?A, ?B, ?D; lia.
Qed.
Lemma check_captured v6 ext pre : Forall remote_or_client ext -> check_own v6 (captured_trace v6 ext pre) = true.
Proof.
  intros H. unfold check_own, balanced_b. 
  rewrite (captured_counts (is_action AcquireSlot)), (captured_counts (is_action ReleaseSlot)), (captured_counts (is_action ConnOpened)),
    (captured_counts (is_action ConnClosed)), (captured_counts (is_action AddFlow)), (captured_counts (is_action RemoveFlow)),
    (captured_counts is_complete), (captured_counts (is_action (Complete false))), (captured_counts (is_action CreateEndpoint)) by done.
  assert (last (captured_trace v6 ext pre) = Some ReleaseSlot) as -> by (unfold captured_trace; rewrite !app_assoc, last_app; done).
  destruct v6; reflexivity.
Qed.

(** C39: a TCP flow gives back everything it takes, on every path through the handler,
    early returns included: the slot, its statistics and its flow registration are each
    taken at most once and returned as often as taken, the slot last of all; the request is
    completed exactly once, with a handshake exactly when an endpoint was made, and that is
    closed; an IPv6 flow is accepted only once its destination has been dialed.  A flow
    that is not captured dials at most once and closes what it dialed, and its endpoint once.
    A flow handed to the capture code may be dialed any number of times and have its endpoint
    closed again: the connections not closed at the end are exactly those the capture code
    got and did not close, the one dialed before accepting included. *)
Theorem tcp_flow_resources e :
  let t := handleTCPForward e in
  balanced (is_action AcquireSlot) (is_action ReleaseSlot) t /\
  balanced (is_action ConnOpened) (is_action ConnClosed) t /\
  balanced (is_action AddFlow) (is_action RemoveFlow) t /\
  count_of is_complete t = 1 /\
  count_of (is_action (Complete false)) t = count_of (is_action CreateEndpoint) t /\
  count_of (is_action CreateEndpoint) t <= count_of (is_action CloseEndpoint) t /\
  count_of (is_action DialRemote) t = count_of (is_action CloseRemote) t + left_open e /\
  (captured e = false ->
   balanced (is_action CreateEndpoint) (is_action CloseEndpoint) t /\ balanced (is_action DialRemote) (is_action CloseRemote) t) /\
  (AcquireSlot ∈ t -> last t = Some ReleaseSlot) /\
  (te_v6 e = true -> Complete false ∈ t -> exists pre post, t = pre ++ DialRemote :: post /\ Complete false ∈ post).
Proof.
  cbv zeta.
  assert (check_own (te_v6 e) (handleTCPForward e) = true /\
    count_of (is_action CreateEndpoint) (handleTCPForward e) <= count_of (is_action CloseEndpoint) (handleTCPForward e) /\
    count_of (is_action DialRemote) (handleTCPForward e) = count_of (is_action CloseRemote) (handleTCPForward e) + left_open e /\
    (captured e = false -> check_rest (handleTCPForward e) = true)) as (H & He & Hd & Hu).
  { destruct (captured e) eqn:Hc.
    - destruct (captured_shape e Hc) as (ext & pre & -> & F & C & L). rewrite L. split_and!; [by apply check_captured| | |done].
      + unfold captured_trace. rewrite !count_app, (count_served (is_action CreateEndpoint) ext) by done.
        destruct (te_v6 e), pre; counted.
      + unfold captured_trace. rewrite !count_app. destruct (te_v6 e), pre; counted.
    - pose proof (check_uncaptured e Hc) as Hk. apply andb_true_iff in Hk as [Hk1 Hk2]. pose proof Hk2 as Hk3.
      unfold check_rest in Hk3. apply andb_true_iff in Hk3 as [[B1 _]%balanced_b_spec [B2 _]%balanced_b_spec].
      unfold left_open. rewrite Hc. split_and!; [done|lia|lia|done]. }
  revert H He Hd Hu. generalize (handleTCPForward e). intros t H He Hd Hu. unfold check_own, check_rest in *.
  repeat match goal with H : _ && _ = true |- _ => apply andb_true_iff in H as [H ?] end.
  split_and!; try (by apply balanced_b_spec); try (by apply Z.eqb_eq); try done.
  - intros Hc. apply Hu in Hc. apply andb_true_iff in Hc as [? ?]. split; by apply balanced_b_spec.
  - intros Hin. destruct (existsb _ t) eqn:E; [|apply existsb_False in E; rewrite Forall_forall in E].
    + destruct (last t) as [[]|]; done.
    + specialize (E _ Hin). unfold is_action in E. by rewrite bool_decide_true in E.
  - intros Hv Hin. apply dialed_first_spec; [|done]. by destruct (te_v6 e).
Qed.

(** An IPv6 flow under capture whose upstream refuses TLS: the connection dialed before accepting is
    closed, a second one is dialed to pass the flow through, and the client is closed by
    the capture code and by the handler. *)
Lemma capture_dials_twice :
  let t := handleTCPForward {| te_slotFree := true; te_wait := Granted; te_v6 := true; te_dialsIPv6 := true; te_dialOk := true;
             te_endpointOk := true; te_capture := true; te_peek := true;
             te_served := [SDial true; SCloseRemote; SDial true; SCloseRemote; SCloseClient]; te_up := 0; te_down := 0 |} in
  count_of (is_action DialRemote) t = 2 /\ count_of (is_action CloseRemote) t = 2 /\ count_of (is_action CloseEndpoint) t = 2.
Proof. by vm_compute. Qed.

(** ** The bridge loses nothing *)

Lemma write_all_spec script : forall data out,
  exists sent rest, data = sent ++ rest /\
    match write_all script data out with
    | (out', _, AllDone) => out' = out ++ data /\ rest = []
    | (out', _, _) => out' = out ++ sent
    end.
Proof.
  induction script as [|w script IH]; intros data out; cbn [write_all].
  { case_bool_decide; [subst; exists [], []; split; [done|]; by rewrite app_nil_r|].
    exists [], data. split; [done|]. by rewrite app_nil_r. }
  case_bool_decide; [subst; exists [], []; split; [done|]; by rewrite app_nil_r|].
  set (data' := if 0 <? wr_n w then _ else data). set (out' := if 0 <? wr_n w then _ else out).
  assert (exists d, data = d ++ data' /\ out' = out ++ d) as (d & Hd & Ho).
  { subst data' out'. destruct (0 <? wr_n w); [eexists; by rewrite take_drop|]. exists []. by rewrite app_nil_r. }
  assert (exists sent rest, data = sent ++ rest /\
    match write_all script data' out' with
    | (out'', _, AllDone) => out'' = out ++ data /\ rest = [] | (out'', _, _) => out'' = out ++ sent end) as Hrec.
  { destruct (IH data' out') as (sent & rest & Hs & Hm). exists (d ++ sent), rest.
    split; [by rewrite <- app_assoc, <- Hs|]. destruct (write_all script data' out') as [[o sc] []].
    - destruct Hm as [-> ->]. split; [|done]. by rewrite Ho, <- app_assoc, <- Hd.
    - by rewrite Hm, Ho, <- app_assoc.
    - by rewrite Hm, Ho, <- app_assoc. }
  destruct (wr_err w) as [[[]|]|]; try done; by exists d, data'.
Qed.

(** A write that makes progress and does not fail. *)
Definition progress (w : write_result) : Prop :=
  1 <= wr_n w /\ match wr_err w with None | Some (WouldBlock true) => True | _ => False end.

Lemma write_all_progress script : forall data out,
  Forall progress script -> (length data <= length script)%nat ->
  exists used left, script = used ++ left /\ (length used <= length data)%nat /\
    write_all script data out = (out ++ data, left, AllDone).
Proof.
  induction script as [|w script IH]; intros data out Hp Hl; cbn [write_all].
  { destruct data; [|cbn in Hl; lia]. rewrite bool_decide_true, app_nil_r by done. by exists [], []. }
  case_bool_decide; [subst; rewrite app_nil_r; by exists [], (w :: script)|].
  apply Forall_cons in Hp as [[Hn He] Hp]. rewrite (proj2 (Z.ltb_lt 0 (wr_n w))) by lia.
  assert (0 < length data)%nat by (destruct data; cbn; [done|lia]).
  destruct (IH (drop (Z.to_nat (wr_n w)) data) (out ++ take (Z.to_nat (wr_n w)) data)) as (used & left & -> & Hu & Hw);
    [done|rewrite length_drop; cbn in Hl; lia|].
  exists (w :: used), left. split; [done|]. split; [rewrite length_drop in Hu; cbn; lia|].
  rewrite Hw, <- app_assoc, take_drop. by destruct (wr_err w) as [[[]|]|].
Qed.

Lemma empty_read (d : bytes) : (0 <? len d) = false -> d = [].
Proof. destruct d; [done|]. rewrite len_cons. intros E. pose proof (len_nonneg d). to_prop. lia. Qed.

Lemma download_prefix reads : forall script out down, exists sent rest,
  concat (map fst reads) = sent ++ rest /\ (download reads script out down).1.1 = out ++ sent.
Proof.
  induction reads as [|[d err] reads IH]; intros script out down; cbn [download map concat fst].
  { exists [], []. split; [done|]. by rewrite app_nil_r. }
  destruct (0 <? len d) eqn:E.
  - destruct (write_all_spec script d out) as (sent & rest & Hd & Hw).
    destruct (write_all script d out) as [[o sc] []]; cbn [fst].
    + destruct Hw as [-> ->]. destruct err; [by exists d, (concat (map fst reads))|].
      destruct (IH sc (out ++ d) (down + len d)) as (s2 & r2 & Hc & ->). exists (d ++ s2), r2. by rewrite Hc, <- !app_assoc.
    + exists sent, (rest ++ concat (map fst reads)). rewrite Hd, <- app_assoc. done.
    + exists sent, (rest ++ concat (map fst reads)). rewrite Hd, <- app_assoc. done.
  - apply empty_read in E as ->. destruct err; [|apply IH].
    exists [], (concat (map fst reads)). split; [done|]. by rewrite app_nil_r.
Qed.

Lemma download_all data reads : forall script out down,
  Forall (fun r => r.2 = false) reads -> Forall progress script ->
  (length (concat (map fst reads) ++ data) <= length script)%nat ->
  download (reads ++ [(data, true)]) script out down =
  (out ++ concat (map fst reads) ++ data, down + len (concat (map fst reads) ++ data), AllDone).
Proof.
  induction reads as [|[d err] reads IH]; intros script out down Hr Hp Hl; cbn [app map concat fst download] in *.
  - destruct (0 <? len data) eqn:E.
    + by destruct (write_all_progress script data out Hp) as (used & left & -> & _ & ->).
    + apply empty_read in E as ->. by rewrite app_nil_r, len_nil, Z.add_0_r.
  - apply Forall_cons in Hr as [Herr Hr]. cbn in Herr. subst err.
    rewrite <- app_assoc, length_app in Hl. destruct (0 <? len d) eqn:E.
    + destruct (write_all_progress script d out Hp) as (used & left & -> & Hu & ->); [lia|].
      apply Forall_app in Hp as [_ Hp]. rewrite (length_app used left) in Hl. rewrite IH by (done || lia).
      rewrite <- !app_assoc, (len_app d). f_equal. f_equal. lia.
    + apply empty_read in E as ->. apply IH; [done..|]. cbn in Hl. lia.
Qed.

(** C40: the download direction delivers.  Whatever the sizes of the reads, of the partial
    writes and of the waits for buffer space, the device has received a prefix of
    what the remote sent, in order; and when the endpoint keeps taking data and the
    remote ends, the loop ends having delivered every byte, with the byte count
    exact. *)
Theorem tcp_download_delivers reads script data :
  (exists sent rest, concat (map fst reads) = sent ++ rest /\ (download reads script [] 0).1.1 = sent) /\
  (Forall (fun r => r.2 = false) reads -> Forall progress script ->
   (length (concat (map fst reads) ++ data) <= length script)%nat ->
   download (reads ++ [(data, true)]) script [] 0 =
   (concat (map fst reads) ++ data, len (concat (map fst reads) ++ data), AllDone)).
Proof. split; [apply (download_prefix reads script [] 0)|apply (download_all data reads script [] 0)]. Qed.

(** Two reads, the second with the end of the stream; the endpoint takes the bytes two
    at a time and once runs out of room. *)
Lemma tcp_download_delivers_witness :
  let script := [{| wr_n := 2; wr_err := None |}; {| wr_n := 1; wr_err := Some (WouldBlock true) |};
                 {| wr_n := 2; wr_err := None |}; {| wr_n := 2; wr_err := None |}; {| wr_n := 2; wr_err := None |}] in
  download ([([1; 2; 3], false)] ++ [([4; 5], true)]) script [] 0 = ([1; 2; 3; 4; 5], 5, AllDone).
Proof.
  apply (proj2 (tcp_download_delivers [([1; 2; 3], false)]
    [{| wr_n := 2; wr_err := None |}; {| wr_n := 1; wr_err := Some (WouldBlock true) |};
     {| wr_n := 2; wr_err := None |}; {| wr_n := 2; wr_err := None |}; {| wr_n := 2; wr_err := None |}] [4; 5])).
  - repeat constructor.
  - repeat constructor; cbn; lia.
  - cbn. lia.
Defined.
