(* ===== verification/TailnetPath.v ===== *)
(** * The Tailscale packet path

    src/vpntunnel/tailnetpath.go: every packet from the device goes to Tailscale, to our
    own network stack or nowhere; DNS queries to 100.100.100.100 are answered, forwarded
    or handed to Tailscale; the flows our stack terminates leave over SSH, the tailnet or
    directly; and the routes and DNS domains the OS is given.  What is sent where is a
    list of effects; the peers' answers are arguments of the operations. *)

From S2P Require Import Prelude GoStrings NetIP HostMatch Routing FakeIP IPPacket DNSMessage Flows UDPForwarder.

(** 100.100.100.100 and fd7a:115c:a1e0::53 *)
Definition quad100 : Addr := A4 (100 * 2 ^ 24 + 100 * 2 ^ 16 + 100 * 2 ^ 8 + 100).
Definition quad100v6 : Addr := A6 (64890 * 2 ^ 112 + 4444 * 2 ^ 96 + 41440 * 2 ^ 80 + 83) [].
Definition caEndpointAddr : Addr := A4 (10 * 2 ^ 24 + 1).
Definition tailnetMTU : Z := 1280.
Definition tailnetDNSInFlight : Z := 64.
Definition fakeIPTTL : Z := 1.
Definition RCodeServerFailure : Z := 2.

Record tailnetNetState := {
  tn_addrs : list Prefix;
  tn_routes : list Prefix;
  tn_dnsServers : list Addr;
  tn_match : list bytes;
  tn_search : list bytes;
  tn_allDomains : bool
}.

(** [routesContain] and [isTailnetName]; the nil receiver is [None]. *)
Definition routesContain (s : option tailnetNetState) (ip : Addr) : bool :=
  match s with Some s => existsb (fun p => PContains p (Unmap ip)) (tn_routes s) | None => false end.
Definition isTailnetName (s : option tailnetNetState) (name : bytes) : bool :=
  match s with
  | Some s => existsb (fun d => bool_decide (d = []) || bool_decide (name = d) || HasSuffix name ([46] ++ d)) (tn_match s)
  | None => false
  end.

(** The SSH egress: an identity, and whether it carries UDP. *)
Record egressDialers := { eg_id : Z; eg_udp : bool }.
(** What this file decides about the stack it owns. *)
Record tunnelStack := { sk_blockQUIC : bool; sk_dnsViaTCP : bool }.

Record tailnetPath := mkPath {
  tp_table : routeTable;
  tp_fake : fakeIPPool;
  tp_directIPs : recentIPs;
  tp_egressOn : bool;
  tp_egress : option egressDialers;
  tp_egressQUIC : bool;
  tp_upstream : list bytes;
  tp_backend : bool;
  tp_state : option tailnetNetState;
  tp_inFlight : Z;
  tp_closed : bool;
  tp_capturing : bool;
  tp_servesCA : bool;
  tp_linkConns : Z;
  tp_stack : option tunnelStack;
  tp_stackErr : bool;
  tp_bytes : Z * Z;
  tp_unrouted : Z;
  tp_dns : Z * Z * Z
}.
(** Setters for the fields that change on the packet path. *)
Definition set_fake (p : tailnetPath) (f : fakeIPPool) : tailnetPath :=
  mkPath (tp_table p) f (tp_directIPs p) (tp_egressOn p) (tp_egress p) (tp_egressQUIC p) (tp_upstream p) (tp_backend p)
    (tp_state p) (tp_inFlight p) (tp_closed p) (tp_capturing p) (tp_servesCA p) (tp_linkConns p) (tp_stack p)
    (tp_stackErr p) (tp_bytes p) (tp_unrouted p) (tp_dns p).
Definition set_direct (p : tailnetPath) (l : recentIPs) : tailnetPath :=
  mkPath (tp_table p) (tp_fake p) l (tp_egressOn p) (tp_egress p) (tp_egressQUIC p) (tp_upstream p) (tp_backend p)
    (tp_state p) (tp_inFlight p) (tp_closed p) (tp_capturing p) (tp_servesCA p) (tp_linkConns p) (tp_stack p)
    (tp_stackErr p) (tp_bytes p) (tp_unrouted p) (tp_dns p).
Definition set_egress (p : tailnetPath) (e : option egressDialers) (quic : bool) : tailnetPath :=
  mkPath (tp_table p) (tp_fake p) (tp_directIPs p) (tp_egressOn p) e quic (tp_upstream p) (tp_backend p)
    (tp_state p) (tp_inFlight p) (tp_closed p) (tp_capturing p) (tp_servesCA p) (tp_linkConns p) (tp_stack p)
    (tp_stackErr p) (tp_bytes p) (tp_unrouted p) (tp_dns p).
Definition set_env (p : tailnetPath) (backend : bool) (st : option tailnetNetState) : tailnetPath :=
  mkPath (tp_table p) (tp_fake p) (tp_directIPs p) (tp_egressOn p) (tp_egress p) (tp_egressQUIC p) (tp_upstream p) backend
    st (tp_inFlight p) (tp_closed p) (tp_capturing p) (tp_servesCA p) (tp_linkConns p) (tp_stack p)
    (tp_stackErr p) (tp_bytes p) (tp_unrouted p) (tp_dns p).
Definition set_inFlight (p : tailnetPath) (n : Z) : tailnetPath :=
  mkPath (tp_table p) (tp_fake p) (tp_directIPs p) (tp_egressOn p) (tp_egress p) (tp_egressQUIC p) (tp_upstream p) (tp_backend p)
    (tp_state p) n (tp_closed p) (tp_capturing p) (tp_servesCA p) (tp_linkConns p) (tp_stack p)
    (tp_stackErr p) (tp_bytes p) (tp_unrouted p) (tp_dns p).
Definition set_closed (p : tailnetPath) : tailnetPath :=
  mkPath (tp_table p) (tp_fake p) (tp_directIPs p) (tp_egressOn p) (tp_egress p) (tp_egressQUIC p) (tp_upstream p) (tp_backend p)
    (tp_state p) (tp_inFlight p) true (tp_capturing p) (tp_servesCA p) (tp_linkConns p) (tp_stack p)
    (tp_stackErr p) (tp_bytes p) (tp_unrouted p) (tp_dns p).
Definition set_capture (p : tailnetPath) (capturing servesCA : bool) : tailnetPath :=
  mkPath (tp_table p) (tp_fake p) (tp_directIPs p) (tp_egressOn p) (tp_egress p) (tp_egressQUIC p) (tp_upstream p) (tp_backend p)
    (tp_state p) (tp_inFlight p) (tp_closed p) capturing servesCA (tp_linkConns p) (tp_stack p)
    (tp_stackErr p) (tp_bytes p) (tp_unrouted p) (tp_dns p).
Definition set_link (p : tailnetPath) (n : Z) : tailnetPath :=
  mkPath (tp_table p) (tp_fake p) (tp_directIPs p) (tp_egressOn p) (tp_egress p) (tp_egressQUIC p) (tp_upstream p) (tp_backend p)
    (tp_state p) (tp_inFlight p) (tp_closed p) (tp_capturing p) (tp_servesCA p) n (tp_stack p)
    (tp_stackErr p) (tp_bytes p) (tp_unrouted p) (tp_dns p).
Definition set_stack (p : tailnetPath) (s : option tunnelStack) (err : bool) : tailnetPath :=
  mkPath (tp_table p) (tp_fake p) (tp_directIPs p) (tp_egressOn p) (tp_egress p) (tp_egressQUIC p) (tp_upstream p) (tp_backend p)
    (tp_state p) (tp_inFlight p) (tp_closed p) (tp_capturing p) (tp_servesCA p) (tp_linkConns p) s
    err (tp_bytes p) (tp_unrouted p) (tp_dns p).
(** The counters: bytes in and out, unrouted packets, and DNS answers faked, forwarded
    and failed. *)
Definition count (p : tailnetPath) (bytesIn bytesOut unrouted fake fwd failed : Z) : tailnetPath :=
  let '(bi, bo) := tp_bytes p in
  let '(f1, f2, f3) := tp_dns p in
  mkPath (tp_table p) (tp_fake p) (tp_directIPs p) (tp_egressOn p) (tp_egress p) (tp_egressQUIC p) (tp_upstream p) (tp_backend p)
    (tp_state p) (tp_inFlight p) (tp_closed p) (tp_capturing p) (tp_servesCA p) (tp_linkConns p) (tp_stack p)
    (tp_stackErr p) (bi + bytesIn, bo + bytesOut) (tp_unrouted p + unrouted) (f1 + fake, f2 + fwd, f3 + failed).

(** A query being resolved off the packet path, and where its answer goes. *)
Record dnsForward := {
  df_q : dnsQuestion;
  df_query : bytes;
  df_viaSSH : bool;
  df_remember : bool;
  df_server : AddrPort;
  df_client : AddrPort
}.

Inductive effect :=
| ToTailscale (pkt : bytes)                 (* [backend.deliver] *)
| ToStack (pkt : bytes) (family : Z)        (* [tunnelStack.injectPacket] *)
| Emit (pkt : bytes) (family : Z)           (* queued for the provider *)
| Claimed (pkt : bytes)                     (* taken by the tailnet link *)
| ObserveDNS (msg : bytes)                  (* [observeDNSResponse] *)
| Forward (f : dnsForward).                 (* the goroutine of [forwardDNS] *)

Inductive dnsDestination := dnsToTailscale | dnsFakeAnswer | dnsViaSSH | dnsDirect.
Inductive egressKind := egressDirect | egressSSH | egressTailnet.
#[export] Instance dnsDestination_eq_dec : EqDecision dnsDestination.
Proof. solve_decision. Defined.
#[export] Instance egressKind_eq_dec : EqDecision egressKind.
Proof. solve_decision. Defined.

Section Path.
Context `{U : UnicodeTables} {C : DNSCodec}.

(** [netip.AddrPortFrom(a, 53).String()] *)
Definition dnsServerString (a : Addr) : bytes :=
  if Is4 a then AddrString a ++ lit ":53" else [91] ++ AddrString a ++ lit "]:53".

Definition newTailnetPath (socks5 : bytes) (dnsServers : list bytes) (routing : routingConfigJSON) (tsshEgress : bool)
    : tailnetPath :=
  let egressOn := negb (bool_decide (socks5 = [])) || tsshEgress in
  let ups := omap (fun s => dnsServerString <$> ParseAddr (TrimSpace s)) dnsServers in
  mkPath (compileRouteTable routing egressOn) newFakeIPPool (newRecentIPs directIPMemory) egressOn
    (if bool_decide (socks5 = []) then None else Some {| eg_id := 0; eg_udp := false |}) false
    (if bool_decide (ups = []) then [lit "1.1.1.1:53"; lit "8.8.8.8:53"] else ups)
    false None 0 false false false 0 None false (0, 0) 0 (0, 0, 0).

(** [setEgress]: also the identity of the old egress, which is closed. *)
Definition setEgress (p : tailnetPath) (e : option egressDialers) (quic : bool) : tailnetPath * option Z :=
  let p1 := set_egress p e quic in
  (set_stack p1 (match tp_stack p with
                 | Some s => Some {| sk_blockQUIC := negb quic; sk_dnsViaTCP := sk_dnsViaTCP s |}
                 | None => None
                 end) (tp_stackErr p),
   eg_id <$> tp_egress p).

Definition setState (p : tailnetPath) (s : option tailnetNetState) : tailnetPath := set_env p (tp_backend p) s.
Definition setBackend (p : tailnetPath) (running : bool) : tailnetPath := set_env p running (tp_state p).

Definition toTailscale (p : tailnetPath) (pkt : bytes) : list effect := if tp_backend p then [ToTailscale pkt] else [].

(** [observeQuad100Reply] *)
Definition observeQuad100Reply (pkt : bytes) : list effect :=
  if (len pkt <? 30) || negb (Z.shiftr (at_ pkt 0) 4 =? 4) || negb (at_ pkt 9 =? ipProtoUDP)
     || negb (bool_decide (take 4 (drop 12 pkt) = As4 quad100))
  then []
  else match parseIPPacket pkt with
       | Some info => if pi_srcPort info =? 53 then [ObserveDNS (udpPayload info)] else []
       | None => []
       end.

(** [emit]; [claims] tells whether the tailnet link takes the packet. *)
Definition emit (p : tailnetPath) (claims : bool) (pkt : bytes) : tailnetPath * list effect :=
  if (0 <? tp_linkConns p) && claims then (p, [Claimed pkt])
  else
    let seen := if tp_capturing p then observeQuad100Reply pkt else [] in
    let family := if (0 <? len pkt) && (Z.shiftr (at_ pkt 0) 4 =? 6) then 30 else 2 in
    (count p (len pkt) 0 0 0 0 0, seen ++ (if tp_closed p then [] else [Emit pkt family])).

(** ** Demultiplexing *)

Definition toStack (p : tailnetPath) (dst0 : Addr) (st : option tailnetNetState) : bool :=
  let dst := Unmap dst0 in
  if tp_egressOn p && PContains fakeIPPrefix dst then true
  else match matchIP (Some (tp_table p)) dst with
       | routeSSH => true
       | routeDirect => negb (routesContain st dst)
       | routeNone => if routesContain st dst then false else rt_sendAllViaSSH (tp_table p) && Is4 dst
       end.

Definition captureToStack (p : tailnetPath) (info : ipPacketInfo) (st : option tailnetNetState) : bool :=
  if bool_decide (pi_dst info = caEndpointAddr) && (pi_proto info =? ipProtoTCP) && (pi_dstPort info =? 80) && tp_servesCA p
  then true
  else if negb (tp_capturing p) then false
  else if routesContain st (pi_dst info) then pi_proto info =? ipProtoTCP
  else true.

(** [ensureStack]; [ok] tells whether gVisor starts. *)
Definition ensureStack (p : tailnetPath) (ok : bool) : tailnetPath * option tunnelStack :=
  match tp_stack p with
  | Some s => (p, Some s)
  | None =>
      if tp_stackErr p || tp_closed p then (p, None)
      else if ok then
        let s := {| sk_blockQUIC := tp_egressOn p && negb (tp_egressQUIC p); sk_dnsViaTCP := rt_sendAllViaSSH (tp_table p) |} in
        (set_stack p (Some s) false, Some s)
      else (set_stack p None true, None)
  end.

(** ** DNS *)

Definition dnsRoute (p : tailnetPath) (q : option dnsQuestion) (st : option tailnetNetState) : dnsDestination * bool :=
  match q with
  | None => (dnsToTailscale, false)
  | Some q =>
      if isTailnetName st (dq_name q) then (dnsToTailscale, false)
      else match matchHost (Some (tp_table p)) (dq_name q) with
           | routeSSH => (dnsFakeAnswer, false)
           | routeDirect => (dnsDirect, rt_sendAllViaSSH (tp_table p))
           | routeNone =>
               if match st with Some s => tn_allDomains s | None => false end then (dnsToTailscale, false)
               else if rt_sendAllViaSSH (tp_table p) then (dnsViaSSH, false)
               else (dnsDirect, false)
           end
  end.

Definition fakeAnswer (p : tailnetPath) (q : dnsQuestion) : tailnetPath * option bytes :=
  let p1 := count p 0 0 0 1 0 0 in
  if negb (q_Type (dq_q q) =? TypeA) then (p1, dnsAnswer q RCodeSuccess None fakeIPTTL)
  else let '(a, f) := assign (tp_fake p) (dq_name q) in (set_fake p1 f, dnsAnswer q RCodeSuccess (Some a) fakeIPTTL).

(** The [reply] closure of [handleDNS] *)
Definition reply (p : tailnetPath) (server client : AddrPort) (msg : option bytes) : tailnetPath * list effect :=
  match msg with Some m => emit p false (buildUDPPacket server client m) | None => (p, []) end.

Definition forwardDNS (p : tailnetPath) (q : dnsQuestion) (info : ipPacketInfo) (viaSSH remember : bool)
    : tailnetPath * list effect :=
  if tailnetDNSInFlight <=? tp_inFlight p then (count p 0 0 0 0 0 1, [])
  else (count (set_inFlight p (tp_inFlight p + 1)) 0 0 0 0 1 0,
        [Forward {| df_q := q; df_query := udpPayload info; df_viaSSH := viaSSH; df_remember := remember;
                    df_server := {| ap_addr := pi_dst info; ap_port := pi_dstPort info |};
                    df_client := {| ap_addr := pi_src info; ap_port := pi_srcPort info |} |}]).

Definition remember_all (p : tailnetPath) (resp : bytes) : tailnetPath :=
  set_direct p (fold_left ri_add (dnsAnswerAddrs resp) (tp_directIPs p)).

(** The goroutine of [forwardDNS], once [exchangeDNS] has returned. *)
Definition finishForward (p : tailnetPath) (f : dnsForward) (resp : option bytes) : tailnetPath * list effect :=
  let p1 := set_inFlight p (tp_inFlight p - 1) in
  match resp with
  | None => reply (count p1 0 0 0 0 0 1) (df_server f) (df_client f) (dnsAnswer (df_q f) RCodeServerFailure None 0)
  | Some r => reply (if df_remember f then remember_all p1 r else p1) (df_server f) (df_client f) (Some r)
  end.

(** The switch of [handleDNS] on the route of the query. *)
Definition routeQuery (p : tailnetPath) (info : ipPacketInfo) (pkt : bytes) (st : option tailnetNetState)
    : tailnetPath * list effect :=
  let q := parseDNSQuery (udpPayload info) in
  match q, dnsRoute p q st with
  | Some q, (dnsFakeAnswer, _) =>
      let '(p1, m) := fakeAnswer p q in
      reply p1 {| ap_addr := pi_dst info; ap_port := pi_dstPort info |} {| ap_addr := pi_src info; ap_port := pi_srcPort info |} m
  | Some q, (dnsViaSSH, _) => forwardDNS p q info true false
  | Some q, (dnsDirect, remember) => forwardDNS p q info false remember
  | _, _ => (p, toTailscale p pkt)
  end.

Definition handleDNS (p : tailnetPath) (blocking : bool) (info : ipPacketInfo) (pkt : bytes) (st : option tailnetNetState)
    : tailnetPath * list effect :=
  if tp_capturing p then
    match interceptDNSQuery blocking (udpPayload info) with
    | Some answer =>
        reply p {| ap_addr := pi_dst info; ap_port := pi_dstPort info |} {| ap_addr := pi_src info; ap_port := pi_srcPort info |}
          (Some answer)
    | None => routeQuery p info pkt st
    end
  else routeQuery p info pkt st.

(** [exchangeDNS]: the servers in turn, until one answers or the context is done;
    [ask] is one exchange, [expired i] whether the context is done after the [i]th.
    Over SSH nothing is asked while no egress is attached. *)
Inductive dnsTransport := tcpOverSSH | tcpDirect | udpDirect.
Fixpoint exchange_loop (servers : list bytes) (ask : bytes -> option bytes) (expired : nat -> bool) (i : nat) : option bytes :=
  match servers with
  | [] => None
  | s :: servers' =>
      match ask s with
      | Some r => Some r
      | None => if expired i then None else exchange_loop servers' ask expired (S i)
      end
  end.
Definition exchangeDNS (p : tailnetPath) (viaSSH overTCP : bool) (ask : dnsTransport -> bytes -> option bytes)
    (expired : nat -> bool) : option bytes :=
  exchange_loop (tp_upstream p)
    (fun server => if viaSSH then match tp_egress p with Some _ => ask tcpOverSSH server | None => None end
                   else if overTCP then ask tcpDirect server else ask udpDirect server)
    expired 0.

(** [dnsExchangeUDP]; [dial] is what the server sends back, datagram by datagram. *)
Definition dnsExchangeUDP (dial : option (bytes -> list bytes)) (query : bytes) : option bytes :=
  peer ← dial;
  find (fun d => (2 <=? len d) && (2 <=? len query) && (at_ d 0 =? at_ query 0) && (at_ d 1 =? at_ query 1))
    (map (take (Z.to_nat udpBufferSize)) (peer query)).

(** [resolveDNS], the TCP path.  [ask] is one exchange of the query;
    [tailscale] is what Tailscale's resolver answers. *)
Definition resolveDNS (p : tailnetPath) (blocking : bool) (query : bytes) (ask : dnsTransport -> bytes -> option bytes)
    (expired : nat -> bool) (tailscale : option bytes) : tailnetPath * option bytes :=
  match (if tp_capturing p then interceptDNSQuery blocking query else None) with
  | Some answer => (p, Some answer)
  | None =>
      let q := parseDNSQuery query in
      let failed p1 :=
        (count p1 0 0 0 0 0 1, match q with Some q => dnsAnswer q RCodeServerFailure None 0 | None => None end) in
      match q, dnsRoute p q (tp_state p) with
      | Some q, (dnsFakeAnswer, _) => fakeAnswer p q
      | Some _, ((dnsViaSSH | dnsDirect) as route, remember) =>
          let p1 := count p 0 0 0 0 1 0 in
          match exchangeDNS p (bool_decide (route = dnsViaSSH)) true ask expired with
          | Some r => (if remember then remember_all p1 r else p1, Some r)
          | None => failed p1
          end
      | _, _ => match tailscale with Some r => (p, Some r) | None => failed p end
      end
  end.

(** The packet path; [stackOk] tells whether gVisor starts if it has to. *)
Definition toOwnStack (p : tailnetPath) (stackOk : bool) (data : bytes) (family : Z) : tailnetPath * list effect :=
  let '(p1, s) := ensureStack p stackOk in
  (p1, match s with Some _ => [ToStack data family] | None => [] end).
Definition injectPacket (p : tailnetPath) (blocking stackOk : bool) (data : bytes) (family : Z) : tailnetPath * list effect :=
  match parseIPPacket data with
  | None => (p, [])
  | Some info =>
      let st := tp_state p in
      if (pi_proto info =? ipProtoUDP) && (pi_dstPort info =? 53)
         && (bool_decide (pi_dst info = quad100) || bool_decide (pi_dst info = quad100v6))
      then handleDNS (count p 0 (len data) 0 0 0 0) blocking info data st
      else if tp_egressOn p && (pi_proto info =? ipProtoTCP) && (pi_dstPort info =? 53) && bool_decide (pi_dst info = quad100)
      then toOwnStack p stackOk data family
      else if toStack p (pi_dst info) st || captureToStack p info st then toOwnStack p stackOk data family
      else if routesContain st (pi_dst info) then (count p 0 (len data) 0 0 0 0, toTailscale p data)
      else (count p 0 0 1 0 0 0, [])
  end.

(** [serveDNSOverTCP]: the loop on the bytes the client sends.  [answer] is
    [resolveDNS] with what the [i]th exchange meets.  The two framing reads are
    [io.ReadFull] on the stream; the result is the path and the bytes sent back. *)
Definition tcpFrame (msg : bytes) : bytes := be_put 2 (len msg) ++ msg.
Fixpoint serve_tcp_loop (fuel : nat) (answer : nat -> tailnetPath -> bytes -> tailnetPath * option bytes)
    (p : tailnetPath) (i : nat) (input out : bytes) : tailnetPath * bytes :=
  match fuel with
  | O => (p, out)
  | S fuel' =>
      if len input <? 2 then (p, out)
      else
        let n := be_get (take 2 input) in
        let rest := drop 2 input in
        if len rest <? n then (p, out)
        else
          let '(p1, resp) := answer i p (take (Z.to_nat n) rest) in
          match resp with
          | None => (p1, out)
          | Some r => serve_tcp_loop fuel' answer p1 (S i) (drop (Z.to_nat n) rest) (out ++ tcpFrame r)
          end
  end.
(** Every turn but the last takes at least two bytes. *)
Definition serveDNSOverTCP (answer : nat -> tailnetPath -> bytes -> tailnetPath * option bytes) (p : tailnetPath) (input : bytes)
    : tailnetPath * bytes :=
  serve_tcp_loop (S (length input)) answer p 0 input [].

(** ** Egress of the flows our stack terminates *)

Definition viaSSH (p : tailnetPath) (ip : Addr) : bool :=
  if negb (tp_egressOn p) then false
  else match matchIP (Some (tp_table p)) ip with
       | routeSSH => true
       | routeDirect => false
       | routeNone => rt_sendAllViaSSH (tp_table p) && negb (ri_contains (tp_directIPs p) ip)
       end.
Definition egressFor (p : tailnetPath) (ip : Addr) : egressKind :=
  if tp_egressOn p && bool_decide (matchIP (Some (tp_table p)) ip = routeSSH) then egressSSH
  else if routesContain (tp_state p) ip then egressTailnet
  else if viaSSH p ip then egressSSH
  else egressDirect.

(** Where [routedDialer] sends a flow; [None] is an error. *)
Inductive dialTarget := ServeDNS | OverSSH (egress : Z) (addr : bytes) | OverTailnet (dst : AddrPort) | Direct (addr : bytes).

Definition egressTCP (p : tailnetPath) (addr : bytes) : option dialTarget :=
  e ← tp_egress p; Some (OverSSH (eg_id e) addr).
Definition egressUDP (p : tailnetPath) (addr : bytes) : option dialTarget :=
  e ← tp_egress p; if eg_udp e then Some (OverSSH (eg_id e) addr) else None.

Definition DialTCP (p : tailnetPath) (addr : bytes) : option dialTarget :=
  '(host, port) ← SplitHostPort addr;
  ip ← ParseAddr host;
  if bool_decide (ip = quad100) && bool_decide (port = lit "53") then Some ServeDNS
  else match pool_host (tp_fake p) ip with
  | Some name => if negb (tp_egressOn p) then None else egressTCP p (JoinHostPort name port)
  | None =>
      match egressFor p ip with
      | egressSSH => egressTCP p addr
      | egressTailnet =>
          match ParseUint port 10 16 with
          | Ok portNum => Some (OverTailnet {| ap_addr := ip; ap_port := portNum |})
          | Err _ => None
          end
      | egressDirect => Some (Direct addr)
      end
  end.

Definition DialUDP (p : tailnetPath) (addr : bytes) : option dialTarget :=
  '(host, port) ← SplitHostPort addr;
  ip ← ParseAddr host;
  match pool_host (tp_fake p) ip with
  | Some name => egressUDP p (JoinHostPort name port)
  | None =>
      match egressFor p ip with
      | egressSSH => egressUDP p addr
      | egressTailnet => None
      | egressDirect => Some (Direct addr)
      end
  end.

Definition dialsIPv6 (p : tailnetPath) (host : bytes) : bool :=
  match ParseAddr host with
  | None => false
  | Some ip =>
      match pool_host (tp_fake p) ip with
      | Some _ => false
      | None => negb (bool_decide (egressFor p ip = egressSSH))
      end
  end.

(** ** Re-dialing tailnet hosts *)

(** The source address [dialTailnet] picks: the node's first of the right family. *)
Definition tailnetSource (st : tailnetNetState) (dst : Addr) : option Addr :=
  find (fun a => IsValid a && eqb (Is4 a) (Is4 dst)) (map p_ip (tn_addrs st)).

(** [dialTailnet] up to the dial, which may block; the flags tell whether the netstack and
    its link are there.  The connection is counted before it is dialed, from the source
    address that is the result. *)
Definition dialTailnet_begin (p : tailnetPath) (dst : AddrPort) (stackOk linkOk : bool) : tailnetPath * option Addr :=
  match st ← tp_state p; tailnetSource st (ap_addr dst) with
  | None => (p, None)
  | Some src =>
      match ensureStack p stackOk with
      | (p1, None) => (p1, None)
      | (p1, Some _) => if negb linkOk then (p1, None) else (set_link p1 (tp_linkConns p1 + 1), Some src)
      end
  end.
(** What follows the dial. *)
Definition dialTailnet_end (p : tailnetPath) (dialOk : bool) : tailnetPath :=
  if dialOk then p else set_link p (tp_linkConns p - 1).

(** [linkConn.Close]; [done] tells whether the connection's [once] has run. *)
Definition linkConn_Close (p : tailnetPath) (done : bool) : tailnetPath * bool :=
  if done then (p, true) else (set_link p (tp_linkConns p - 1), true).

(** ** Capture and shutdown *)

Definition retireStack (p : tailnetPath) : tailnetPath := set_stack p None (tp_stackErr p).

(** [refreshCapture], given [captureBlocking()], [captureServesCA()] and the flows of
    the capture environment; also the endpoints it resets. *)
Definition refreshCapture (p : tailnetPath) (capturing servesCA : bool) (flows : option flowRegistry)
    : tailnetPath * option flowRegistry * list Z :=
  if tp_capturing p && negb capturing then
    let st := tp_state p in
    let '(flows', aborted) :=
      match flows with
      | Some r => let '(r', ids) := abortMatching r (fun dst => negb (toStack p dst st)) in (Some r', ids)
      | None => (None, [])
      end in
    let p1 := set_capture p false servesCA in
    (if negb (tp_egressOn p) then retireStack p1 else p1, flows', aborted)
  else (set_capture p capturing servesCA, flows, []).

(** [close]: cancelling the context, then dropping the netstack under [stackMu], then taking
    the egress, whose identity is the result and which is closed. *)
Definition path_drop (p : tailnetPath) : tailnetPath := set_stack p None (tp_stackErr p).
Definition path_egress (p : tailnetPath) : tailnetPath * option Z :=
  (set_egress p None (tp_egressQUIC p), eg_id <$> tp_egress p).
(** The three when nothing comes between them. *)
Definition path_close (p : tailnetPath) : tailnetPath * option Z := path_egress (path_drop (set_closed p)).
End Path.

(** ** What the OS is given *)

Record tunnelNetworkSettings := {
  ns_IPv4Addresses : list bytes;
  ns_IPv4Routes : list bytes;
  ns_IPv4Excluded : list bytes;
  ns_IPv6Addresses : list bytes;
  ns_IPv6Routes : list bytes;
  ns_DNSServers : list bytes;
  ns_MatchDomains : list bytes;
  ns_SearchDomains : list bytes;
  ns_FullTunnel : bool;
  ns_MTU : Z
}.
Definition placeholderTunnelAddr : bytes := lit "10.0.0.2".

(** The [add] and [addRoute] closures. *)
Definition add_new (dst : list bytes) (v : bytes) : list bytes := if bool_decide (v ∈ dst) then dst else dst ++ [v].
Definition addRoute (r : list bytes * list bytes) (pfx : Prefix) : list bytes * list bytes :=
  if Is4 (p_ip pfx) then (add_new r.1 (PrefixString pfx), r.2) else (r.1, add_new r.2 (PrefixString pfx)).

Definition addAddr (r : list bytes * list bytes) (a : Prefix) : list bytes * list bytes :=
  if Is4 (p_ip a) then (add_new r.1 (AddrString (p_ip a)), r.2) else (r.1, add_new r.2 (AddrString (p_ip a))).

(** The parts of [networkSettings]: routes of the tailnet and the SSH rules, the
    full-tunnel and capture overrides, the exclusions and the match domains. *)
Section Settings.
Context `{U : UnicodeTables}.

Definition ruleRoutes (p : tailnetPath) (st : tailnetNetState) : list bytes * list bytes :=
  let routes := fold_left addRoute (tn_routes st) ([], []) in
  if tp_egressOn p then
    let r := fold_left addRoute (prefixes (Some (tp_table p)) routeSSH) routes in
    if bool_decide (dnsDomains (Some (tp_table p)) routeSSH = []) then r else addRoute r fakeIPPrefix
  else routes.

Definition settingsRoutes (p : tailnetPath) (st : tailnetNetState) (v6 : list bytes) : list bytes * list bytes :=
  let routes := ruleRoutes p st in
  let routes := if rt_sendAllViaSSH (tp_table p) then ([lit "0.0.0.0/0"], routes.2) else routes in
  let routes := if tp_servesCA p then addRoute routes (PrefixFrom caEndpointAddr 32) else routes in
  if tp_capturing p then ([lit "0.0.0.0/0"], if bool_decide (v6 = []) then routes.2 else [lit "::/0"])
  else routes.

Definition excludable (st : tailnetNetState) (pfx : Prefix) : bool :=
  Is4 (p_ip pfx) && negb (existsb (Overlaps pfx) (tn_routes st)).
Definition settingsExcluded (p : tailnetPath) (st : tailnetNetState) : list bytes :=
  if tp_capturing p || negb (rt_sendAllViaSSH (tp_table p)) then []
  else fold_left (fun l pfx => if excludable st pfx then add_new l (PrefixString pfx) else l)
         (directExclusions (Some (tp_table p))) [].

Definition settingsMatch (p : tailnetPath) (st : tailnetNetState) : list bytes :=
  let match_ := fold_left add_new (dnsDomains (Some (tp_table p)) routeSSH) (tn_match st) in
  if rt_sendAllViaSSH (tp_table p) || tp_capturing p || tn_allDomains st || bool_decide ([] ∈ match_) then [[]] else match_.

Definition networkSettings (p : tailnetPath) : tunnelNetworkSettings :=
  let '(v4, v6) := match tp_state p with Some st => fold_left addAddr (tn_addrs st) ([], []) | None => ([], []) end in
  let v4 := if bool_decide (v4 = []) then [placeholderTunnelAddr] else v4 in
  match tp_state p with
  | None => Build_tunnelNetworkSettings v4 [] [] v6 [] [] [] [] false tailnetMTU
  | Some st =>
      if bool_decide (tn_addrs st = []) then Build_tunnelNetworkSettings v4 [] [] v6 [] [] [] [] false tailnetMTU
      else
        let routes := settingsRoutes p st v6 in
        let match_ := settingsMatch p st in
        Build_tunnelNetworkSettings v4 routes.1 (settingsExcluded p st) v6 routes.2
          (if bool_decide (match_ = []) then [] else [AddrString quad100])
          match_
          (if bool_decide (match_ = []) then [] else tn_search st)
          (rt_sendAllViaSSH (tp_table p)) tailnetMTU
  end.
End Settings.

Record tailnetStats := { ts_Unrouted : Z; ts_DNSFake : Z; ts_DNSFwd : Z; ts_DNSFailed : Z; ts_Netstack : bool }.
Definition statsSnapshot (p : tailnetPath) : tailnetStats :=
  let '(fake, fwd, failed) := tp_dns p in
  {| ts_Unrouted := tp_unrouted p; ts_DNSFake := fake; ts_DNSFwd := fwd; ts_DNSFailed := failed;
     ts_Netstack := match tp_stack p with Some _ => true | None => false end |}.

(** ** What operations leave alone *)

Section PathFacts.
Context `{U : UnicodeTables} {C : DNSCodec}.

(** The table, the pool, the DNS slots and the link count of a path. *)
Definition core (p : tailnetPath) := (tp_table p, tp_egressOn p, tp_fake p, tp_inFlight p, tp_linkConns p).
(** A path that is cancelled and has no netstack. *)
Definition quiet (p : tailnetPath) : Prop := tp_closed p = true /\ tp_stack p = None.
Definition frame (p p' : tailnetPath) : Prop :=
  core p' = core p /\ tp_closed p' = tp_closed p /\ tp_stack p' = tp_stack p.

Lemma count_frame p a b c d e g : frame p (count p a b c d e g).
Proof. unfold count, frame. by destruct (tp_bytes p), (tp_dns p) as [[? ?] ?]. Qed.
Lemma count_state p a b c d e g :
  tp_state (count p a b c d e g) = tp_state p /\ tp_egress (count p a b c d e g) = tp_egress p /\
  tp_capturing (count p a b c d e g) = tp_capturing p /\ tp_directIPs (count p a b c d e g) = tp_directIPs p.
Proof. unfold count. by destruct (tp_bytes p), (tp_dns p) as [[? ?] ?]. Qed.
Lemma emit_frame p claims pkt : frame p (emit p claims pkt).1.
Proof. unfold emit. destruct (_ && claims); [done|]. apply count_frame. Qed.
Lemma reply_frame p server client msg : frame p (reply p server client msg).1.
Proof. unfold reply. destruct msg; [apply emit_frame|done]. Qed.
Lemma remember_frame p resp : frame p (remember_all p resp).
Proof. done. Qed.
Lemma frame_trans p q r : frame p q -> frame q r -> frame p r.
Proof. intros (A & B & D) (A' & B' & D'). unfold frame. by rewrite A', B', D'. Qed.
Lemma frame_quiet p q : frame p q -> quiet p -> quiet q.
Proof. unfold frame, quiet. intros (_ & -> & ->). done. Qed.

Lemma ensureStack_core p ok : core (ensureStack p ok).1 = core p /\ (quiet p -> quiet (ensureStack p ok).1).
Proof.
  unfold ensureStack. destruct (tp_stack p) eqn:E; [done|].
  destruct (tp_stackErr p || tp_closed p) eqn:H; [done|]. to_prop.
  destruct ok; cbn; split; try done; intros [Hc _]; congruence.
Qed.
Lemma ensureStack_cancel p ok : tp_closed (ensureStack p ok).1 = tp_closed p.
Proof. unfold ensureStack. destruct (tp_stack p); [done|]. destruct (_ || _); [done|]. by destruct ok. Qed.
Lemma ensureStack_closed p ok : quiet p -> (ensureStack p ok).2 = None.
Proof. intros [Hc Hq]. unfold ensureStack. by rewrite Hq, Hc, orb_true_r. Qed.

(** [fakeAnswer] only touches the pool, by assigning the name. *)
Lemma fakeAnswer_core p q :
  (fakeAnswer p q).1 =
    set_fake (count p 0 0 0 1 0 0)
      (if q_Type (dq_q q) =? TypeA then (assign (tp_fake p) (dq_name q)).2 else tp_fake p).
Proof.
  unfold fakeAnswer. destruct (q_Type (dq_q q) =? TypeA); cbn [negb].
  - by destruct (assign (tp_fake p) (dq_name q)).
  - cbn [fst]. unfold count. by destruct (tp_bytes p), (tp_dns p) as [[? ?] ?].
Qed.
(** A name the SSH rules take is not the empty name. *)
Lemma matchHost_nonempty t name : matchHost (Some t) name <> routeNone -> name <> [].
Proof. intros H ->. by apply H. Qed.

Definition forwards (es : list effect) : list dnsForward :=
  omap (fun e => match e with Forward f => Some f | _ => None end) es.

Lemma forwards_app a b : forwards (a ++ b) = forwards a ++ forwards b.
Proof. apply omap_app. Qed.
Lemma observe_forwards pkt : forwards (observeQuad100Reply pkt) = [].
Proof. unfold observeQuad100Reply. repeat case_match; done. Qed.
Lemma emit_forwards p claims pkt : forwards (emit p claims pkt).2 = [].
Proof.
  unfold emit. destruct (_ && claims); [done|]. cbn [snd]. rewrite forwards_app.
  destruct (tp_capturing p); rewrite ?observe_forwards; by destruct (tp_closed p).
Qed.
Lemma reply_forwards p server client msg : forwards (reply p server client msg).2 = [].
Proof. unfold reply. destruct msg; [apply emit_forwards|done]. Qed.
End PathFacts.

(** ** The path as a step relation *)

Section PathRuns.
Context `{U : UnicodeTables} {C : DNSCodec}.

(** What became of a re-dial to a tailnet host, and how far a call of [close] has come. *)
Inductive linkStage := LDialing | LOpen | LClosed.
Inductive closeStage := CCancelled | CDropped | CClosed.
#[export] Instance linkStage_eq_dec : EqDecision linkStage.
Proof. solve_decision. Defined.
#[export] Instance closeStage_eq_dec : EqDecision closeStage.
Proof. solve_decision. Defined.
Definition link_done (c : linkStage) : bool := match c with LClosed => true | _ => false end.

(** A path with the forwards under way, the re-dials made and the calls of [close]. *)
Record pathRun := { pr_path : tailnetPath; pr_forwards : list dnsForward; pr_links : list linkStage; pr_close : list closeStage }.

Inductive pstep : pathRun -> pathRun -> Prop :=
| ps_inject p fs ls cl blocking stackOk data family :
    pstep {| pr_path := p; pr_forwards := fs; pr_links := ls; pr_close := cl |}
          {| pr_path := (injectPacket p blocking stackOk data family).1;
             pr_forwards := fs ++ forwards (injectPacket p blocking stackOk data family).2; pr_links := ls; pr_close := cl |}
| ps_finish p fs1 f fs2 ls cl resp :
    pstep {| pr_path := p; pr_forwards := fs1 ++ f :: fs2; pr_links := ls; pr_close := cl |}
          {| pr_path := (finishForward p f resp).1; pr_forwards := fs1 ++ fs2; pr_links := ls; pr_close := cl |}
| ps_resolve p fs ls cl blocking query ask expired tailscale :
    pstep {| pr_path := p; pr_forwards := fs; pr_links := ls; pr_close := cl |}
          {| pr_path := (resolveDNS p blocking query ask expired tailscale).1; pr_forwards := fs; pr_links := ls; pr_close := cl |}
| ps_emit p fs ls cl claims pkt :
    pstep {| pr_path := p; pr_forwards := fs; pr_links := ls; pr_close := cl |}
          {| pr_path := (emit p claims pkt).1; pr_forwards := fs; pr_links := ls; pr_close := cl |}
| ps_setEgress p fs ls cl e quic :
    pstep {| pr_path := p; pr_forwards := fs; pr_links := ls; pr_close := cl |}
          {| pr_path := (setEgress p e quic).1; pr_forwards := fs; pr_links := ls; pr_close := cl |}
| ps_setState p fs ls cl st :
    pstep {| pr_path := p; pr_forwards := fs; pr_links := ls; pr_close := cl |}
          {| pr_path := setState p st; pr_forwards := fs; pr_links := ls; pr_close := cl |}
| ps_setBackend p fs ls cl b :
    pstep {| pr_path := p; pr_forwards := fs; pr_links := ls; pr_close := cl |}
          {| pr_path := setBackend p b; pr_forwards := fs; pr_links := ls; pr_close := cl |}
| ps_refresh p fs ls cl capturing servesCA flows :
    pstep {| pr_path := p; pr_forwards := fs; pr_links := ls; pr_close := cl |}
          {| pr_path := (refreshCapture p capturing servesCA flows).1.1; pr_forwards := fs; pr_links := ls; pr_close := cl |}
| ps_dial p fs ls cl dst s l :
    pstep {| pr_path := p; pr_forwards := fs; pr_links := ls; pr_close := cl |}
          {| pr_path := (dialTailnet_begin p dst s l).1; pr_forwards := fs;
             pr_links := match (dialTailnet_begin p dst s l).2 with Some _ => ls ++ [LDialing] | None => ls end; pr_close := cl |}
| ps_dialed p fs ls1 ls2 cl ok :
    pstep {| pr_path := p; pr_forwards := fs; pr_links := ls1 ++ LDialing :: ls2; pr_close := cl |}
          {| pr_path := dialTailnet_end p ok; pr_forwards := fs;
             pr_links := ls1 ++ (if ok then LOpen else LClosed) :: ls2; pr_close := cl |}
| ps_linkClose p fs ls1 c ls2 cl :
    c <> LDialing ->
    pstep {| pr_path := p; pr_forwards := fs; pr_links := ls1 ++ c :: ls2; pr_close := cl |}
          {| pr_path := (linkConn_Close p (link_done c)).1; pr_forwards := fs; pr_links := ls1 ++ LClosed :: ls2; pr_close := cl |}
| ps_cancel p fs ls cl :
    pstep {| pr_path := p; pr_forwards := fs; pr_links := ls; pr_close := cl |}
          {| pr_path := set_closed p; pr_forwards := fs; pr_links := ls; pr_close := cl |}
| ps_close p fs ls cl :
    pstep {| pr_path := p; pr_forwards := fs; pr_links := ls; pr_close := cl |}
          {| pr_path := set_closed p; pr_forwards := fs; pr_links := ls; pr_close := cl ++ [CCancelled] |}
| ps_drop p fs ls cl1 cl2 :
    pstep {| pr_path := p; pr_forwards := fs; pr_links := ls; pr_close := cl1 ++ CCancelled :: cl2 |}
          {| pr_path := path_drop p; pr_forwards := fs; pr_links := ls; pr_close := cl1 ++ CDropped :: cl2 |}
| ps_egress p fs ls cl1 cl2 :
    pstep {| pr_path := p; pr_forwards := fs; pr_links := ls; pr_close := cl1 ++ CDropped :: cl2 |}
          {| pr_path := (path_egress p).1; pr_forwards := fs; pr_links := ls; pr_close := cl1 ++ CClosed :: cl2 |}.

(** The re-dials that are under way or whose connection is not closed. *)
Definition open_links (ls : list linkStage) : Z := len (filter (fun c => c <> LClosed) ls).
(** A call of [close] is past the part under [stackMu]. *)
Definition dropped (cl : list closeStage) : Prop := Exists (fun c => c <> CCancelled) cl.

Record path_ok (routing : routingConfigJSON) (on : bool) (r : pathRun) : Prop := {
  po_on : tp_egressOn (pr_path r) = on;
  po_table : tp_table (pr_path r) = compileRouteTable routing on;
  po_pool : pool_ok (tp_fake (pr_path r));
  po_inFlight : tp_inFlight (pr_path r) = len (pr_forwards r);
  po_cap : len (pr_forwards r) <= tailnetDNSInFlight;
  po_links : tp_linkConns (pr_path r) = open_links (pr_links r);
  po_cancelled : pr_close r <> [] -> tp_closed (pr_path r) = true;
  po_quiet : dropped (pr_close r) -> tp_stack (pr_path r) = None
}.
Lemma po_quiet_path routing on r : path_ok routing on r -> dropped (pr_close r) -> quiet (pr_path r).
Proof. intros H Hd. split; [|by apply (po_quiet _ _ _ H)]. apply (po_cancelled _ _ _ H). intros E. rewrite E in Hd. by apply Exists_nil in Hd. Qed.

(** A step that keeps the core of the path. *)
Lemma core_ok routing on p p' fs ls cl :
  path_ok routing on {| pr_path := p; pr_forwards := fs; pr_links := ls; pr_close := cl |} ->
  core p' = core p -> (tp_closed p = true -> tp_closed p' = true) -> (quiet p -> quiet p') ->
  path_ok routing on {| pr_path := p'; pr_forwards := fs; pr_links := ls; pr_close := cl |}.
Proof.
  intros Hok Hc Hx Hq. pose proof (po_quiet_path _ _ _ Hok) as Hp. destruct Hok as [H1 H2 H3 H4 H5 H6 H7 H8]. unfold core in Hc. cbn in *.
  injection Hc as E1 E2 E3 E4 E5. constructor; cbn; rewrite ?E1, ?E2, ?E3, ?E4, ?E5; try done; [by auto|]. intros Hd. by apply Hq, Hp.
Qed.
Lemma frame_ok routing on p p' fs ls cl :
  path_ok routing on {| pr_path := p; pr_forwards := fs; pr_links := ls; pr_close := cl |} -> frame p p' ->
  path_ok routing on {| pr_path := p'; pr_forwards := fs; pr_links := ls; pr_close := cl |}.
Proof.
  intros Hok Hf. eapply core_ok; [done|apply Hf| |by apply frame_quiet]. destruct Hf as (_ & -> & _). done.
Qed.

Lemma fakeAnswer_ok routing on p fs ls cl q :
  path_ok routing on {| pr_path := p; pr_forwards := fs; pr_links := ls; pr_close := cl |} -> dq_name q <> [] ->
  path_ok routing on {| pr_path := (fakeAnswer p q).1; pr_forwards := fs; pr_links := ls; pr_close := cl |}.
Proof.
  intros Hok Hn. rewrite fakeAnswer_core.
  pose proof (frame_ok _ _ _ _ _ _ _ Hok (count_frame p 0 0 0 1 0 0)) as [H1 H2 H3 H4 H5 H6 H7 H8].
  constructor; [exact H1|exact H2| |exact H4|exact H5|exact H6|exact H7|exact H8]. cbn [pr_path set_fake tp_fake].
  destruct (_ =? _); [apply assign_ok; [done|]|]; apply (po_pool _ _ _ Hok).
Qed.

Lemma dnsRoute_fake p q st r : dnsRoute p (Some q) st = (dnsFakeAnswer, r) -> dq_name q <> [].
Proof.
  unfold dnsRoute. destruct (isTailnetName st (dq_name q)); [done|].
  pose proof (matchHost_nonempty (tp_table p) (dq_name q)) as Hn.
  destruct (matchHost _ _); [|intros _; by apply Hn|done].
  by repeat case_match.
Qed.

(** A query that is forwarded takes one slot. *)
Lemma forwardDNS_ok routing on p fs ls cl q info v r :
  path_ok routing on {| pr_path := p; pr_forwards := fs; pr_links := ls; pr_close := cl |} ->
  path_ok routing on {| pr_path := (forwardDNS p q info v r).1;
                        pr_forwards := fs ++ forwards (forwardDNS p q info v r).2; pr_links := ls; pr_close := cl |}.
Proof.
  intros Hok. unfold forwardDNS. destruct (tailnetDNSInFlight <=? tp_inFlight p) eqn:E; to_prop.
  - cbn. rewrite app_nil_r. eapply frame_ok; [done|apply count_frame].
  - destruct Hok as [H1 H2 H3 H4 H5 H6 H7 H8].
    set (p1 := set_inFlight p (tp_inFlight p + 1)).
    eapply (frame_ok _ _ p1); [|apply count_frame]. cbn [fst snd forwards omap list_omap].
    constructor; cbn in *; try done; rewrite len_app, len_cons, len_nil; lia.
Qed.

Lemma reply_ok routing on p fs ls cl server client m :
  path_ok routing on {| pr_path := p; pr_forwards := fs; pr_links := ls; pr_close := cl |} ->
  path_ok routing on {| pr_path := (reply p server client m).1;
                        pr_forwards := fs ++ forwards (reply p server client m).2; pr_links := ls; pr_close := cl |}.
Proof. intros Hok. rewrite reply_forwards, app_nil_r. eapply frame_ok; [done|apply reply_frame]. Qed.

Lemma toTailscale_ok routing on p q fs ls cl pkt :
  path_ok routing on {| pr_path := p; pr_forwards := fs; pr_links := ls; pr_close := cl |} ->
  path_ok routing on {| pr_path := p; pr_forwards := fs ++ forwards (toTailscale q pkt); pr_links := ls; pr_close := cl |}.
Proof. unfold toTailscale. by destruct (tp_backend q); cbn; rewrite app_nil_r. Qed.

Lemma routeQuery_ok routing on p fs ls cl info pkt st :
  path_ok routing on {| pr_path := p; pr_forwards := fs; pr_links := ls; pr_close := cl |} ->
  path_ok routing on {| pr_path := (routeQuery p info pkt st).1;
                        pr_forwards := fs ++ forwards (routeQuery p info pkt st).2; pr_links := ls; pr_close := cl |}.
Proof.
  intros Hok. unfold routeQuery. destruct (parseDNSQuery (udpPayload info)) as [q|]; [|by apply toTailscale_ok].
  destruct (dnsRoute p (Some q) st) as [d r] eqn:Er. destruct d; [by apply toTailscale_ok| |by apply forwardDNS_ok..].
  apply dnsRoute_fake in Er. pose proof (fakeAnswer_ok _ _ _ _ _ _ q Hok Er) as Hf.
  destruct (fakeAnswer p q) as [p1 m]. by apply reply_ok.
Qed.

Lemma handleDNS_ok routing on p fs ls cl blocking info pkt st :
  path_ok routing on {| pr_path := p; pr_forwards := fs; pr_links := ls; pr_close := cl |} ->
  path_ok routing on {| pr_path := (handleDNS p blocking info pkt st).1;
                        pr_forwards := fs ++ forwards (handleDNS p blocking info pkt st).2; pr_links := ls; pr_close := cl |}.
Proof.
  intros Hok. unfold handleDNS. destruct (tp_capturing p); [|by apply routeQuery_ok].
  destruct (interceptDNSQuery _ _); [by apply reply_ok|by apply routeQuery_ok].
Qed.

Lemma toOwnStack_ok routing on p fs ls cl stackOk data family :
  path_ok routing on {| pr_path := p; pr_forwards := fs; pr_links := ls; pr_close := cl |} ->
  path_ok routing on {| pr_path := (toOwnStack p stackOk data family).1;
                        pr_forwards := fs ++ forwards (toOwnStack p stackOk data family).2; pr_links := ls; pr_close := cl |}.
Proof.
  intros Hok. unfold toOwnStack. destruct (ensureStack_core p stackOk) as [Hc Hq].
  destruct (ensureStack p stackOk) as [p1 s] eqn:Es.
  assert (forwards match s with Some _ => [ToStack data family] | None => [] end = []) as E by (by destruct s).
  cbn [fst snd] in *. rewrite E, app_nil_r. eapply core_ok; [done|done| |done]. intros Hcl. by rewrite <- (ensureStack_cancel p stackOk), Es in Hcl.
Qed.

Lemma injectPacket_ok routing on p fs ls cl blocking stackOk data family :
  path_ok routing on {| pr_path := p; pr_forwards := fs; pr_links := ls; pr_close := cl |} ->
  path_ok routing on {| pr_path := (injectPacket p blocking stackOk data family).1;
                        pr_forwards := fs ++ forwards (injectPacket p blocking stackOk data family).2; pr_links := ls; pr_close := cl |}.
Proof.
  intros Hok. assert (forall a b c d e g, path_ok routing on {| pr_path := count p a b c d e g; pr_forwards := fs; pr_links := ls; pr_close := cl |})
    as Hcount by (intros; eapply frame_ok; [done|apply count_frame]).
  unfold injectPacket. destruct (parseIPPacket data) as [info|]; [|cbn; by rewrite app_nil_r].
  destruct ((_ =? ipProtoUDP) && _ && _); [by apply handleDNS_ok|].
  destruct (tp_egressOn p && _ && _ && _); [by apply toOwnStack_ok|].
  destruct (_ || _); [by apply toOwnStack_ok|].
  destruct (routesContain _ _); [apply toTailscale_ok, Hcount|].
  cbn [snd forwards omap list_omap]. rewrite app_nil_r. apply Hcount.
Qed.

Lemma finishForward_ok routing on p fs1 f fs2 ls cl resp :
  path_ok routing on {| pr_path := p; pr_forwards := fs1 ++ f :: fs2; pr_links := ls; pr_close := cl |} ->
  path_ok routing on {| pr_path := (finishForward p f resp).1; pr_forwards := fs1 ++ fs2; pr_links := ls; pr_close := cl |}.
Proof.
  intros [H1 H2 H3 H4 H5 H6 H7 H8]. cbn in *. rewrite len_app, len_cons in *.
  assert (path_ok routing on {| pr_path := set_inFlight p (tp_inFlight p - 1); pr_forwards := fs1 ++ fs2; pr_links := ls; pr_close := cl |}) as Hok
    by (constructor; cbn; rewrite ?len_app; done || lia).
  unfold finishForward. destruct resp as [r|].
  - destruct (df_remember f); (eapply frame_ok; [exact Hok|]); [|apply reply_frame].
    eapply frame_trans; [apply remember_frame|apply reply_frame].
  - eapply frame_ok; [exact Hok|]. eapply frame_trans; [apply count_frame|apply reply_frame].
Qed.

Lemma resolveDNS_ok routing on p fs ls cl blocking query ask expired tailscale :
  path_ok routing on {| pr_path := p; pr_forwards := fs; pr_links := ls; pr_close := cl |} ->
  path_ok routing on {| pr_path := (resolveDNS p blocking query ask expired tailscale).1; pr_forwards := fs; pr_links := ls; pr_close := cl |}.
Proof.
  intros Hok. assert (forall q a b c d e g, frame p q -> path_ok routing on {| pr_path := count q a b c d e g; pr_forwards := fs; pr_links := ls; pr_close := cl |})
    as Hcount by (intros; eapply frame_ok; [done|]; eapply frame_trans; [done|apply count_frame]).
  assert (frame p (count p 0 0 0 0 1 0)) as Hf by apply count_frame.
  assert (forall (r : bool) b, path_ok routing on
    {| pr_path := if r then remember_all (count p 0 0 0 0 1 0) b else count p 0 0 0 0 1 0; pr_forwards := fs; pr_links := ls; pr_close := cl |}) as Hsent.
  { intros r b. eapply frame_ok; [done|]. destruct r; [|done]. eapply frame_trans; [done|apply remember_frame]. }
  unfold resolveDNS. destruct (if tp_capturing p then _ else None) as [a|]; [done|].
  destruct (parseDNSQuery query) as [q|] eqn:Eq.
  - destruct (dnsRoute p (Some q) (tp_state p)) as [d r] eqn:Er. destruct d.
    + destruct tailscale; [done|]. by apply Hcount.
    + apply dnsRoute_fake in Er. by apply fakeAnswer_ok.
    + destruct (exchangeDNS _ _ _ _ _); [|by apply Hcount]. by apply Hsent.
    + destruct (exchangeDNS _ _ _ _ _); [|by apply Hcount]. by apply Hsent.
  - destruct tailscale; [done|]. by apply Hcount.
Qed.

(** The link count follows the re-dials. *)
Lemma open_links_app a b : open_links (a ++ b) = open_links a + open_links b.
Proof. unfold open_links. rewrite filter_app, len_app. done. Qed.
Lemma open_links_cons c ls : open_links (c :: ls) = (if link_done c then 0 else 1) + open_links ls.
Proof.
  unfold open_links. destruct c; cbn [link_done]; [rewrite filter_cons_True, len_cons by done; lia..|].
  rewrite filter_cons_False by naive_solver. lia.
Qed.

Lemma dial_ok routing on p fs ls cl dst s l :
  path_ok routing on {| pr_path := p; pr_forwards := fs; pr_links := ls; pr_close := cl |} ->
  path_ok routing on {| pr_path := (dialTailnet_begin p dst s l).1; pr_forwards := fs;
    pr_links := match (dialTailnet_begin p dst s l).2 with Some _ => ls ++ [LDialing] | None => ls end; pr_close := cl |}.
Proof.
  intros Hok. unfold dialTailnet_begin. destruct (_ ≫= _) as [src|]; [|done].
  destruct (ensureStack_core p s) as [Hc Hq].
  pose proof (core_ok _ _ _ _ _ _ _ Hok Hc ltac:(by rewrite ensureStack_cancel) Hq) as Hok1. destruct (ensureStack p s) as [p1 [k|]]; [|done].
  cbn [fst snd] in *. destruct l; [|done]. destruct Hok1 as [H1 H2 H3 H4 H5 H6 H7 H8]. cbn in H6.
  constructor; try done; cbn. rewrite open_links_app, open_links_cons. change (open_links []) with 0. cbn [link_done]. lia.
Qed.
Lemma dialed_ok routing on p fs ls1 ls2 cl ok :
  path_ok routing on {| pr_path := p; pr_forwards := fs; pr_links := ls1 ++ LDialing :: ls2; pr_close := cl |} ->
  path_ok routing on {| pr_path := dialTailnet_end p ok; pr_forwards := fs;
    pr_links := ls1 ++ (if ok then LOpen else LClosed) :: ls2; pr_close := cl |}.
Proof.
  intros [H1 H2 H3 H4 H5 H6 H7 H8]. unfold dialTailnet_end. cbn in H6. rewrite open_links_app, open_links_cons in H6. cbn [link_done] in H6.
  destruct ok; constructor; try done; cbn; rewrite open_links_app, open_links_cons; cbn [link_done]; lia.
Qed.

Lemma linkClose_ok routing on p fs ls1 c ls2 cl :
  path_ok routing on {| pr_path := p; pr_forwards := fs; pr_links := ls1 ++ c :: ls2; pr_close := cl |} ->
  path_ok routing on {| pr_path := (linkConn_Close p (link_done c)).1; pr_forwards := fs;
                        pr_links := ls1 ++ LClosed :: ls2; pr_close := cl |}.
Proof.
  intros [H1 H2 H3 H4 H5 H6 H7 H8]. unfold linkConn_Close. cbn in H6. rewrite open_links_app, open_links_cons in H6.
  destruct (link_done c); constructor; try done; cbn; rewrite open_links_app, open_links_cons; cbn [link_done]; lia.
Qed.

(** The steps of [close]. *)
Lemma dropped_mid c cl1 cl2 : dropped (cl1 ++ c :: cl2) <-> c <> CCancelled \/ dropped (cl1 ++ cl2).
Proof. unfold dropped. rewrite !Exists_app, Exists_cons. tauto. Qed.
Lemma close_ok routing on p fs ls cl :
  path_ok routing on {| pr_path := p; pr_forwards := fs; pr_links := ls; pr_close := cl |} ->
  path_ok routing on {| pr_path := set_closed p; pr_forwards := fs; pr_links := ls; pr_close := cl ++ [CCancelled] |}.
Proof.
  intros [H1 H2 H3 H4 H5 H6 H7 H8]. constructor; try done. cbn in *. intros Hd. apply H8.
  apply dropped_mid in Hd as [Hd|Hd]; [done|]. by rewrite app_nil_r in Hd.
Qed.
Lemma drop_ok routing on p fs ls cl1 cl2 :
  path_ok routing on {| pr_path := p; pr_forwards := fs; pr_links := ls; pr_close := cl1 ++ CCancelled :: cl2 |} ->
  path_ok routing on {| pr_path := path_drop p; pr_forwards := fs; pr_links := ls; pr_close := cl1 ++ CDropped :: cl2 |}.
Proof.
  intros [H1 H2 H3 H4 H5 H6 H7 H8]. constructor; try done. cbn in *. intros _. apply H7, not_eq_sym, app_cons_not_nil.
Qed.
Lemma egress_ok routing on p fs ls cl1 cl2 :
  path_ok routing on {| pr_path := p; pr_forwards := fs; pr_links := ls; pr_close := cl1 ++ CDropped :: cl2 |} ->
  path_ok routing on {| pr_path := (path_egress p).1; pr_forwards := fs; pr_links := ls; pr_close := cl1 ++ CClosed :: cl2 |}.
Proof.
  intros [H1 H2 H3 H4 H5 H6 H7 H8]. constructor; try done; cbn in *.
  - intros _. apply H7, not_eq_sym, app_cons_not_nil.
  - intros _. apply H8, dropped_mid. by left.
Qed.

Lemma refreshCapture_core p c s flows :
  core (refreshCapture p c s flows).1.1 = core p /\ (quiet p -> quiet (refreshCapture p c s flows).1.1).
Proof.
  unfold refreshCapture. destruct (tp_capturing p && negb c); [|done].
  destruct (match flows with Some r => _ | None => _ end) as [fl ids]. cbn [fst]. unfold quiet. by destruct (tp_egressOn p); split; [..|intros [? ?]].
Qed.

Lemma refreshCapture_cancel p c s flows : tp_closed (refreshCapture p c s flows).1.1 = tp_closed p.
Proof.
  unfold refreshCapture. destruct (tp_capturing p && negb c); [|done].
  destruct (match flows with Some r => _ | None => _ end) as [fl ids]. cbn [fst]. by destruct (tp_egressOn p).
Qed.

Lemma pstep_ok routing on r r' : pstep r r' -> path_ok routing on r -> path_ok routing on r'.
Proof.
  intros Hst Hok. destruct Hst.
  - by apply injectPacket_ok.
  - by apply finishForward_ok.
  - by apply resolveDNS_ok.
  - eapply frame_ok; [done|apply emit_frame].
  - eapply core_ok; [done|done|done|]. unfold quiet. cbn. intros [H1 H2]. by rewrite H2.
  - by eapply core_ok.
  - by eapply core_ok.
  - destruct (refreshCapture_core p capturing servesCA flows) as [Hc Hq']. eapply core_ok; [done|done| |done].
    by rewrite refreshCapture_cancel.
  - by apply dial_ok.
  - by apply dialed_ok.
  - by apply linkClose_ok.
  - eapply core_ok; [done|done|done|]. by intros [_ H2].
  - by apply close_ok.
  - by apply drop_ok.
  - by apply egress_ok.
Qed.

Lemma newTailnetPath_ok socks5 servers routing tssh :
  path_ok routing (negb (bool_decide (socks5 = [])) || tssh)
    {| pr_path := newTailnetPath socks5 servers routing tssh; pr_forwards := []; pr_links := []; pr_close := [] |}.
Proof.
  constructor; cbn [pr_path pr_forwards pr_links pr_close]; try done.
  - apply newFakeIPPool_ok.
Qed.

Lemma reachable_ok socks5 servers routing tssh r :
  rtc pstep {| pr_path := newTailnetPath socks5 servers routing tssh; pr_forwards := []; pr_links := []; pr_close := [] |} r ->
  path_ok routing (negb (bool_decide (socks5 = [])) || tssh) r.
Proof.
  intros Hr. pose proof (newTailnetPath_ok socks5 servers routing tssh) as Hok.
  induction Hr; [done|]. eauto using pstep_ok.
Qed.
End PathRuns.
