(* ===== verification/TailnetPolicy.v ===== *)
(** * What the Tailscale packet path promises

    The policy theorems of src/vpntunnel/tailnetpath.go, on the model of TailnetPath:
    the state invariant of every run, the agreement of the demultiplexer with the
    dialer, the routes and DNS domains the OS is given against where traffic must go,
    where DNS queries may end up, and DNS over TCP. *)

From S2P Require Import Prelude GoStrings NetIP HostMatch Routing FakeIP IPPacket DNSMessage Flows UDPForwarder TailnetPath.

Section Policy.
Context `{U : UnicodeTables} {C : DNSCodec}.

(** ** Runs *)

Definition start_run (socks5 : bytes) (servers : list bytes) (routing : routingConfigJSON) (tssh : bool) : pathRun :=
  {| pr_path := newTailnetPath socks5 servers routing tssh; pr_forwards := []; pr_links := []; pr_close := [] |}.

(** C16: in every run of the packet path, however packets, answers, re-dials, capture
    changes and shutdown interleave: the routing table stays the one compiled for the
    configured egress, the fake-address pool stays consistent, the DNS slots in use
    are exactly the forwards under way and at most 64, the link count is the number
    of re-dials under way plus that of link connections not yet closed, so that the
    replies of a handshake are claimed too, a path on which [close] was called is cancelled,
    and once a call of [close] is past [stackMu] there is no netstack and none is made again. *)
Theorem path_invariant socks5 servers routing tssh r :
  rtc pstep (start_run socks5 servers routing tssh) r ->
  let p := pr_path r in
  tp_table p = compileRouteTable routing (tp_egressOn p) /\
  pool_ok (tp_fake p) /\
  tp_inFlight p = len (pr_forwards r) /\ len (pr_forwards r) <= tailnetDNSInFlight /\
  tp_linkConns p = open_links (pr_links r) /\
  (pr_close r <> [] -> tp_closed p = true) /\
  (dropped (pr_close r) -> tp_stack p = None /\ forall ok, (ensureStack p ok).2 = None).
Proof.
  intros Hr. apply reachable_ok in Hr as Hok. pose proof (po_quiet_path _ _ _ Hok) as Hq.
  destruct Hok as [H1 H2 H3 H4 H5 H6 H7 H8]. cbv zeta. rewrite H1. split_and!; try done.
  intros Hc. split; [by apply H8|]. intros ok. by apply ensureStack_closed, Hq.
Qed.

(** ** Demultiplexer and dialer *)

Lemma matchIP_Unmap t ip : matchIP t (Unmap ip) = matchIP t ip.
Proof.
  unfold matchIP. destruct t; [|done]. rewrite Unmap_idemp.
  replace (IsValid (Unmap ip)) with (IsValid ip); [done|]. unfold Unmap. by destruct ip; repeat case_match.
Qed.
Lemma routesContain_Unmap st ip : routesContain st (Unmap ip) = routesContain st ip.
Proof. unfold routesContain. by rewrite Unmap_idemp. Qed.

Lemma matchIP_ssh_on routing on ip : matchIP (Some (compileRouteTable routing on)) ip = routeSSH -> on = true.
Proof.
  destruct on; [done|]. unfold matchIP. destruct (negb _); [done|].
  destruct (find _ _) as [rule|]; [|done]. by destruct (r_action rule).
Qed.
Lemma sendAll_on routing on : rt_sendAllViaSSH (compileRouteTable routing on) = true -> on = true.
Proof. cbn. intros H. by to_prop. Qed.

(** The flow-level agreement: outside the fake range, what goes to our stack is never
    dialed over the tailnet, and what stays raw on a tailnet route would have been. *)
Lemma toStack_agrees routing p ip :
  tp_table p = compileRouteTable routing (tp_egressOn p) ->
  (toStack p ip (tp_state p) = true -> PContains fakeIPPrefix (Unmap ip) = false -> egressFor p ip <> egressTailnet) /\
  (toStack p ip (tp_state p) = false -> routesContain (tp_state p) ip = true -> egressFor p ip = egressTailnet).
Proof.
  intros Ht. unfold toStack, egressFor. rewrite matchIP_Unmap, routesContain_Unmap. split.
  - intros Hs Hf. rewrite Hf, andb_false_r in Hs.
    destruct (matchIP (Some (tp_table p)) ip) eqn:Em.
    + rewrite bool_decide_false by done. rewrite andb_false_r.
      destruct (routesContain (tp_state p) ip); [done|]. by destruct (viaSSH p ip).
    + assert (tp_egressOn p = true) as -> by (rewrite Ht in Em; by apply matchIP_ssh_on in Em). by rewrite bool_decide_true.
    + rewrite bool_decide_false by done. rewrite andb_false_r.
      destruct (routesContain (tp_state p) ip); [done|]. by destruct (viaSSH p ip).
  - intros Hs Hr. rewrite Hr in *. destruct (_ && PContains _ _); [done|].
    destruct (matchIP (Some (tp_table p)) ip); [|done|]; by rewrite bool_decide_false, andb_false_r.
Qed.

Lemma toOwnStack_effects p ok data family e :
  e ∈ (toOwnStack p ok data family).2 -> e = ToStack data family.
Proof. unfold toOwnStack. destruct (ensureStack p ok) as [? [?|]]; set_solver. Qed.

(** C36: the demultiplexer and the dialer agree, on every packet that is not DNS for
    100.100.100.100: a packet is handed raw to Tailscale only if its flow would leave
    over the tailnet; and a flow our stack terminates would be dialed over the
    tailnet only for a fake address, the certificate endpoint or a TCP flow under
    capture.  So tailnet UDP never reaches the dialer that refuses it, and without
    capture tailnet traffic never leaves WireGuard. *)
Theorem demux_agrees socks5 servers routing tssh r blocking ok data family info :
  rtc pstep (start_run socks5 servers routing tssh) r ->
  let p := pr_path r in
  let es := (injectPacket p blocking ok data family).2 in
  parseIPPacket data = Some info ->
  (pi_dstPort info =? 53) && (bool_decide (pi_dst info = quad100) || bool_decide (pi_dst info = quad100v6)) = false ->
  (forall pkt, ToTailscale pkt ∈ es -> pkt = data /\ egressFor p (pi_dst info) = egressTailnet) /\
  (forall pkt fam, ToStack pkt fam ∈ es -> egressFor p (pi_dst info) = egressTailnet ->
     PContains fakeIPPrefix (Unmap (pi_dst info)) = true \/
     pi_proto info = ipProtoTCP /\
     (tp_capturing p = true \/ pi_dst info = caEndpointAddr /\ pi_dstPort info = 80 /\ tp_servesCA p = true)).
Proof.
  intros Hr p es Hp Hdns. apply reachable_ok in Hr as [H1 H2 _ _ _ _ _]. fold p in H1, H2. rewrite <- H1 in H2.
  destruct (toStack_agrees routing p (pi_dst info) H2) as [Hs Hn].
  subst es. unfold injectPacket. rewrite Hp, <- andb_assoc, Hdns, andb_false_r.
  assert ((pi_dstPort info =? 53) && bool_decide (pi_dst info = quad100) = false) as Hq.
  { destruct (pi_dstPort info =? 53); [|done]. cbn [andb] in *. by apply orb_false_iff in Hdns as [-> _]. }
  rewrite <- (andb_assoc _ (pi_dstPort info =? 53)), Hq, andb_false_r.
  destruct (toStack p (pi_dst info) (tp_state p)) eqn:Et; cbn [orb].
  { split; [intros ? [=]%toOwnStack_effects|]. intros ? ? _ He. left.
    destruct (PContains fakeIPPrefix _) eqn:F; [done|]. by destruct (Hs eq_refl eq_refl). }
  destruct (captureToStack p info (tp_state p)) eqn:Ec.
  { split; [intros ? [=]%toOwnStack_effects|]. intros ? ? _ He. right.
    unfold captureToStack in Ec. destruct (_ && tp_servesCA p) eqn:Eca; [to_prop; auto|].
    destruct (tp_capturing p); [|done]. cbn [negb] in Ec.
    destruct (routesContain (tp_state p) (pi_dst info)) eqn:R; [to_prop; auto|].
    unfold egressFor in He. rewrite R in He. by repeat case_match. }
  destruct (routesContain (tp_state p) (pi_dst info)) eqn:R.
  - split; [|unfold toTailscale; destruct (tp_backend p); set_solver].
    intros pkt Hin. split; [unfold toTailscale in Hin; destruct (tp_backend p); set_solver|]. by apply Hn.
  - split; set_solver.
Qed.

(** ** What the OS is told *)

Lemma add_new_elem l v x : x ∈ add_new l v <-> x ∈ l \/ x = v.
Proof. unfold add_new. case_bool_decide; set_solver. Qed.

Definition routes_of (r : list bytes * list bytes) (v4 : bool) : list bytes := if v4 then r.1 else r.2.

Lemma addRoute_elem r q x v4 :
  x ∈ routes_of (addRoute r q) v4 <-> x ∈ routes_of r v4 \/ (x = PrefixString q /\ Is4 (p_ip q) = v4).
Proof.
  unfold addRoute, routes_of. destruct (Is4 (p_ip q)), v4; cbn; rewrite ?add_new_elem; naive_solver.
Qed.
Lemma addRoutes_elem l r x v4 :
  x ∈ routes_of (fold_left addRoute l r) v4 <->
  x ∈ routes_of r v4 \/ exists q, q ∈ l /\ x = PrefixString q /\ Is4 (p_ip q) = v4.
Proof.
  revert r. induction l as [|q l IH]; intros r; cbn [fold_left]; [set_solver|].
  rewrite IH, addRoute_elem. set_solver.
Qed.

(** An address some listed route contains: the prefix is one whose address and length are in
    range, as every prefix the OS reads out of the text is. *)
Definition routed (rs : list bytes) (ip : Addr) : Prop :=
  exists q, good_prefix q /\ PrefixString q ∈ rs /\ PContains q ip = true.

Lemma PContains_family q ip : PContains q ip = true -> Is4 (p_ip q) = Is4 ip.
Proof. unfold PContains. destruct (negb _ || _), (p_ip q), ip; done. Qed.

Lemma routed_all rs ip v4 :
  wf_addr ip -> hasZone ip = false -> IsValid ip = true -> Is4 ip = v4 ->
  (if v4 then lit "0.0.0.0/0" else lit "::/0") ∈ rs -> routed rs ip.
Proof.
  intros Hw Hz Hv <- Hin. destruct ip as [|v|v z]; [done|..]; cbn in *.
  - exists {| p_ip := A4 0; p_bits1 := 1 |}. split; [by vm_compute|]. split; [exact Hin|]. unfold PContains, Bits. cbn.
    rewrite Z.lxor_0_r, Z.shiftr_div_pow2 by lia. change (32 - (1 - 1)) with 32. by rewrite Z.div_small.
  - exists {| p_ip := A6 0 []; p_bits1 := 1 |}. split; [by vm_compute|]. split; [exact Hin|]. unfold PContains, Bits. cbn. rewrite Hz. cbn.
    rewrite Z.lxor_0_r, Z.shiftr_div_pow2 by lia. change (128 - (1 - 1)) with 128. rewrite Z.div_small; [done|]. apply Hw.
Qed.

Lemma ruleRoutes_elem p st q v4 :
  Is4 (p_ip q) = v4 ->
  q ∈ tn_routes st \/ (tp_egressOn p = true /\ q ∈ prefixes (Some (tp_table p)) routeSSH) ->
  PrefixString q ∈ routes_of (ruleRoutes p st) v4.
Proof.
  intros Hf Hq. unfold ruleRoutes. destruct (tp_egressOn p); [|rewrite addRoutes_elem; naive_solver].
  assert (PrefixString q ∈ routes_of (fold_left addRoute (prefixes (Some (tp_table p)) routeSSH)
            (fold_left addRoute (tn_routes st) ([], []))) v4) as Hin by (rewrite !addRoutes_elem; naive_solver).
  destruct (bool_decide _); [done|]. rewrite addRoute_elem. auto.
Qed.

(** Past the overrides every route of the rules is still there, or one that covers all. *)
Lemma settingsRoutes_elem p st v6 x v4 :
  x ∈ routes_of (ruleRoutes p st) v4 ->
  (if v4 then lit "0.0.0.0/0" else lit "::/0") ∈ routes_of (settingsRoutes p st v6) v4 \/
  x ∈ routes_of (settingsRoutes p st v6) v4.
Proof.
  intros Hx. unfold settingsRoutes.
  set (r1 := if rt_sendAllViaSSH (tp_table p) then ([lit "0.0.0.0/0"], (ruleRoutes p st).2) else ruleRoutes p st).
  set (r2 := if tp_servesCA p then addRoute r1 (PrefixFrom caEndpointAddr 32) else r1).
  assert ((if v4 then lit "0.0.0.0/0" else lit "::/0") ∈ routes_of r2 v4 \/ x ∈ routes_of r2 v4) as H2.
  { assert ((if v4 then lit "0.0.0.0/0" else lit "::/0") ∈ routes_of r1 v4 \/ x ∈ routes_of r1 v4) as H1
      by (subst r1; destruct (rt_sendAllViaSSH _), v4; cbn; set_solver).
    subst r2. destruct (tp_servesCA p); [rewrite !addRoute_elem; naive_solver|done]. }
  destruct (tp_capturing p); [|done]. destruct v4; cbn; [left; set_solver|].
  case_bool_decide; [done|]. left. set_solver.
Qed.
Lemma settingsRoutes_full p st v6 :
  rt_sendAllViaSSH (tp_table p) = true -> lit "0.0.0.0/0" ∈ (settingsRoutes p st v6).1.
Proof.
  intros E. change (lit "0.0.0.0/0" ∈ routes_of (settingsRoutes p st v6) true). unfold settingsRoutes. rewrite E.
  generalize (lit "0.0.0.0/0"). intros z. destruct (tp_capturing p); [cbn; set_solver|].
  destruct (tp_servesCA p); [rewrite addRoute_elem; left|]; cbn; set_solver.
Qed.

Lemma networkSettings_eq p st :
  tp_state p = Some st -> tn_addrs st <> [] ->
  exists v6, ns_IPv4Routes (networkSettings p) = (settingsRoutes p st v6).1 /\
    ns_IPv6Routes (networkSettings p) = (settingsRoutes p st v6).2 /\
    ns_IPv4Excluded (networkSettings p) = settingsExcluded p st /\
    ns_MatchDomains (networkSettings p) = settingsMatch p st /\
    (settingsMatch p st <> [] -> ns_DNSServers (networkSettings p) = [AddrString quad100]).
Proof.
  intros E Ha. unfold networkSettings. rewrite E. destruct (fold_left addAddr _ _) as [a4 a6].
  rewrite (bool_decide_false (tn_addrs st = [])) by done. exists a6. cbn. split_and!; try done.
  intros Hm. by rewrite bool_decide_false.
Qed.

Lemma matchIP_prefix t ip :
  matchIP (Some t) ip = routeSSH -> exists q, q ∈ prefixes (Some t) routeSSH /\ PContains q (Unmap ip) = true.
Proof.
  unfold matchIP. destruct (negb (IsValid ip)); [done|].
  destruct (find _ _) as [rule|] eqn:E; [|done]. intros He.
  apply find_split in E as (pre & post & E & Hm & _). unfold rule_matchIP in Hm. to_prop.
  exists (r_prefix rule). split; [|done]. unfold prefixes. rewrite list_elem_of_omap.
  exists rule. split; [rewrite E; set_solver|]. rewrite H. by rewrite bool_decide_true.
Qed.

Lemma prefixes_good routing on a q : q ∈ prefixes (Some (compileRouteTable routing on)) a -> good_prefix q.
Proof.
  unfold prefixes. rewrite list_elem_of_omap. intros (rule & Hr & H). destruct (_ && _); [|done]. injection H as <-.
  by eapply table_rule_good.
Qed.
Lemma directExclusions_good routing on q :
  q ∈ directExclusions (Some (compileRouteTable routing on)) -> good_prefix q.
Proof.
  intros Hq. destruct (directExclusions_loop_split _ _ _ _ Hq) as (pre & rule & post & E & <- & _).
  eapply table_rule_good. rewrite E. set_solver.
Qed.

Lemma excluded_elem p st x :
  x ∈ settingsExcluded p st ->
  rt_sendAllViaSSH (tp_table p) = true /\
  exists q, x = PrefixString q /\ q ∈ directExclusions (Some (tp_table p)) /\ excludable st q = true.
Proof.
  unfold settingsExcluded. destruct (tp_capturing p || _) eqn:E; [set_solver|]. to_prop.
  assert (forall l acc, x ∈ fold_left (fun l pfx => if excludable st pfx then add_new l (PrefixString pfx) else l) l acc ->
            x ∈ acc \/ exists q, x = PrefixString q /\ q ∈ l /\ excludable st q = true) as Hf.
  { induction l as [|q l IH]; intros acc Hx; cbn in Hx; [auto|]. apply IH in Hx.
    destruct (excludable st q) eqn:Eq; [rewrite add_new_elem in Hx|]; set_solver. }
  intros Hx. split; [done|]. apply Hf in Hx as [?|?]; [set_solver|done].
Qed.

(** A flow that must not leave directly is on a tailnet route, under an SSH rule, or
    caught by the full tunnel. *)
Lemma egressFor_reason routing p st ip :
  tp_table p = compileRouteTable routing (tp_egressOn p) -> tp_state p = Some st -> Unmap ip = ip ->
  egressFor p ip <> egressDirect ->
  (exists q, PContains q ip = true /\ (q ∈ tn_routes st \/ tp_egressOn p = true /\ q ∈ prefixes (Some (tp_table p)) routeSSH)) \/
  rt_sendAllViaSSH (tp_table p) = true.
Proof.
  intros Ht Hst Hu He. unfold egressFor, viaSSH in He. rewrite Hst in He.
  destruct (tp_egressOn p && bool_decide (matchIP (Some (tp_table p)) ip = routeSSH)) eqn:E1.
  { apply andb_true_iff in E1 as [Hon Hm]. apply bool_decide_eq_true, matchIP_prefix in Hm as (q & Hq & Hc). rewrite Hu in Hc. left. eauto 6. }
  destruct (routesContain (Some st) ip) eqn:E2.
  { left. cbn in E2. rewrite Hu in E2. apply existsb_exists in E2 as (q & Hq & Hc). apply list_elem_of_In in Hq. eauto. }
  right. destruct (tp_egressOn p); [|done]. cbn [negb] in He.
  destruct (matchIP (Some (tp_table p)) ip); [| |done].
  - by destruct (rt_sendAllViaSSH (tp_table p)).
  - by rewrite bool_decide_true in E1.
Qed.

(** C2: what the OS is told never lets protected traffic bypass the tunnel.  Once logged
    in (the state has addresses, and routes with addresses and lengths in range), take an
    address whose flows must leave over SSH or the tailnet; for an IPv6 address, outside a
    full tunnel, which is IPv4 only.  A route given to the OS contains it, and no prefix in
    range whose text is among the exclusions does. *)
Theorem settings_no_leak socks5 servers routing tssh r st ip :
  rtc pstep (start_run socks5 servers routing tssh) r ->
  let p := pr_path r in
  let s := networkSettings p in
  tp_state p = Some st -> tn_addrs st <> [] -> Forall good_prefix (tn_routes st) ->
  wf_addr ip -> IsValid ip = true -> hasZone ip = false -> Unmap ip = ip ->
  egressFor p ip <> egressDirect -> Is4 ip = true \/ rt_sendAllViaSSH (tp_table p) = false ->
  routed (if Is4 ip then ns_IPv4Routes s else ns_IPv6Routes s) ip /\
  forall q, good_prefix q -> PrefixString q ∈ ns_IPv4Excluded s -> PContains q ip = false.
Proof.
  intros Hr p s Hst Ha Hwr Hw Hv Hz Hu He Hfam. apply reachable_ok in Hr as [H1 H2 _ _ _ _ _]. fold p in H1, H2.
  rewrite <- H1 in H2. subst s. destruct (networkSettings_eq p st Hst Ha) as (v6 & E4 & E6 & Ex & _).
  rewrite E4, E6, Ex. rewrite Forall_forall in Hwr. split.
  - change (routed (routes_of (settingsRoutes p st v6) (Is4 ip)) ip).
    destruct (egressFor_reason routing p st ip H2 Hst Hu He) as [(q & Hc & Hq)|Hall].
    + pose proof (PContains_family _ _ Hc) as Hf.
      destruct (settingsRoutes_elem p st v6 (PrefixString q) (Is4 ip)) as [Hin|Hin];
        [by apply ruleRoutes_elem|by apply (routed_all _ _ (Is4 ip))|]. exists q. split; [|done].
      destruct Hq as [Hq|[_ Hq]]; [by apply Hwr|]. rewrite H2 in Hq. by apply prefixes_good in Hq.
    + destruct Hfam as [Hf|Hf]; [|congruence].
      apply (routed_all _ _ true); try done. rewrite Hf. by apply settingsRoutes_full.
  - intros q' Hg Hx. apply not_true_iff_false. intros Hc. apply excluded_elem in Hx as (Hall & q & Eq & Hq & Hex).
    rewrite H2 in Hall. apply sendAll_on in Hall. rewrite H2, Hall in Hq.
    pose proof (directExclusions_good _ _ _ Hq) as Hwq. destruct (directExclusions_loop_split _ _ _ _ Hq) as (_ & _ & _ & _ & _ & Hvq & _).
    unfold excludable in Hex. to_prop. rewrite (PrefixString_inj4 q q' ip) in Hc by done.
    apply He. destruct (excluded_direct routing q ip Hq) as [Hd _]; [by rewrite Hu|].
    unfold egressFor, viaSSH. rewrite H2, Hall, Hd, Hst. cbn [andb negb]. rewrite bool_decide_false by done.
    replace (routesContain (Some st) ip) with false; [done|].
    symmetry. cbn. rewrite Hu. apply not_true_iff_false. intros (o & Ho & Hoc)%existsb_exists.
    apply list_elem_of_In in Ho. assert (Overlaps q o = true) as Hov.
    { eapply contains_overlaps; eauto; [apply Hwq|by apply Hwr]. }
    apply existsb_False in H0. rewrite Forall_forall in H0. rewrite H0 in Hov by done. done.
Qed.

(** ** Names *)

Lemma add_news_elem l acc x : x ∈ fold_left add_new l acc <-> x ∈ acc \/ x ∈ l.
Proof.
  revert acc. induction l as [|v l IH]; intros acc; cbn; [set_solver|]. rewrite IH, add_new_elem. set_solver.
Qed.

(** The OS sends the tunnel every query it has to see: unless the path would resolve
    a name plainly with the upstream servers, the name is covered by a match domain
    given to the OS together with 100.100.100.100 as the resolver. *)
Theorem settings_dns_complete p st q :
  tp_state p = Some st -> tn_addrs st <> [] ->
  normHost (dq_name q) = dq_name q -> STAR ∉ dq_name q -> HasSuffix (dq_name q) (lit ".") = false ->
  dnsRoute p (Some q) (Some st) <> (dnsDirect, false) ->
  ns_DNSServers (networkSettings p) = [AddrString quad100] /\
  exists d, d ∈ ns_MatchDomains (networkSettings p) /\ covers d (dq_name q).
Proof.
  intros Hst Ha Hn Hstar Hdot Hr. destruct (networkSettings_eq p st Hst Ha) as (v6 & _ & _ & _ & Em & Es).
  rewrite Em. assert (exists d, d ∈ settingsMatch p st /\ covers d (dq_name q)) as Hd.
  { unfold settingsMatch. destruct (rt_sendAllViaSSH (tp_table p) || tp_capturing p || tn_allDomains st || _) eqn:Eall.
    { exists []. split; [set_solver|by left]. }
    to_prop. unfold dnsRoute in Hr. rewrite H1, H in Hr.
    destruct (isTailnetName (Some st) (dq_name q)) eqn:Et.
    { cbn in Et. apply existsb_exists in Et as (d & Hd & Hm). apply list_elem_of_In in Hd. exists d.
      split; [apply add_news_elem; auto|]. unfold covers. to_prop. destruct Hm as [Hm|Hm]; [|auto].
      to_prop. destruct Hm as [Hm|Hm]; apply bool_decide_eq_true in Hm; auto. }
    destruct (matchHost (Some (tp_table p)) (dq_name q)) eqn:Eh; [done| |done].
    destruct (dnsDomains_covers (tp_table p) (dq_name q) routeSSH) as (d & Hd & Hc); try done; [by rewrite Hn..|].
    rewrite Hn in Hc. exists d. split; [apply add_news_elem; auto|done]. }
  split; [|done]. apply Es. destruct Hd as (d & Hin & _). intros E. rewrite E in Hin. set_solver.
Qed.

(** Where the route of a query can lead. *)
Lemma dnsRoute_cases p q st :
  match dnsRoute p (Some q) st with
  | (dnsToTailscale, _) => isTailnetName st (dq_name q) = true \/
      matchHost (Some (tp_table p)) (dq_name q) = routeNone /\ match st with Some s => tn_allDomains s | None => false end = true
  | (dnsFakeAnswer, _) => isTailnetName st (dq_name q) = false /\ matchHost (Some (tp_table p)) (dq_name q) = routeSSH
  | (dnsViaSSH, r) => isTailnetName st (dq_name q) = false /\ matchHost (Some (tp_table p)) (dq_name q) = routeNone /\
      rt_sendAllViaSSH (tp_table p) = true /\ r = false
  | (dnsDirect, r) => isTailnetName st (dq_name q) = false /\ r = bool_decide (rt_sendAllViaSSH (tp_table p) = true) /\
      (matchHost (Some (tp_table p)) (dq_name q) = routeDirect \/
       matchHost (Some (tp_table p)) (dq_name q) = routeNone /\ rt_sendAllViaSSH (tp_table p) = false)
  end.
Proof.
  unfold dnsRoute. destruct (isTailnetName st (dq_name q)); [auto|].
  destruct (matchHost _ _); [|done|].
  - destruct (match st with Some s => _ | None => _ end); [auto|].
    destruct (rt_sendAllViaSSH _); [done|]. rewrite bool_decide_false by done. auto.
  - destruct (rt_sendAllViaSSH _); [rewrite bool_decide_true by done|rewrite bool_decide_false by done]; auto.
Qed.

Lemma reply_effects p server client m e :
  e ∈ (reply p server client m).2 ->
  match e with ToTailscale _ | Forward _ | ToStack _ _ => False | _ => True end.
Proof.
  unfold reply, emit, observeQuad100Reply. destruct m; [|set_solver]. destruct (_ && _); [set_solver|]. cbn [snd].
  rewrite elem_of_app. intros [H|H]; [|destruct (tp_closed p); set_solver].
  repeat (case_match; try set_solver).
Qed.
Lemma forwardDNS_effects p q info v r e :
  e ∈ (forwardDNS p q info v r).2 ->
  exists f, e = Forward f /\ df_viaSSH f = v /\ df_remember f = r /\ df_query f = udpPayload info.
Proof. unfold forwardDNS. destruct (_ <=? _); cbn; [set_solver|]. intros ->%list_elem_of_singleton. eauto. Qed.

(** What leaves the path for a query comes from its route. *)
Lemma handleDNS_sends p blocking info pkt st e :
  e ∈ (handleDNS p blocking info pkt st).2 ->
  match e with ToTailscale _ | Forward _ => e ∈ (routeQuery p info pkt st).2 | _ => True end.
Proof.
  unfold handleDNS. destruct (tp_capturing p); [|by destruct e].
  destruct (interceptDNSQuery _ _); [intros H%reply_effects; by destruct e|by destruct e].
Qed.
Lemma routeQuery_sends p info pkt st q e :
  parseDNSQuery (udpPayload info) = Some q -> e ∈ (routeQuery p info pkt st).2 ->
  match e with
  | ToTailscale _ => exists r, dnsRoute p (Some q) st = (dnsToTailscale, r)
  | Forward f => df_query f = udpPayload info /\ dnsRoute p (Some q) st = (if df_viaSSH f then dnsViaSSH else dnsDirect, df_remember f) \/
      df_query f = udpPayload info /\ df_viaSSH f = true /\ df_remember f = false /\ exists r, dnsRoute p (Some q) st = (dnsViaSSH, r)
  | _ => True
  end.
Proof.
  intros Hq. unfold routeQuery. rewrite Hq. destruct (dnsRoute p (Some q) st) as [[] r].
  - unfold toTailscale. destruct (tp_backend p); [intros ->%list_elem_of_singleton; eauto|set_solver].
  - destruct (fakeAnswer p q). intros H%reply_effects. by destruct e.
  - intros (f & -> & ? & ? & ?)%forwardDNS_effects. right. eauto.
  - intros (f & -> & -> & -> & ->)%forwardDNS_effects. auto.
Qed.

Lemma exchange_loop_ext l f g expired i :
  (forall s, f s = g s) -> exchange_loop l f expired i = exchange_loop l g expired i.
Proof. intros Heq. revert i. induction l as [|x l IH]; intros i; cbn; [done|]. by rewrite Heq, IH. Qed.

(** C9: DNS does not leak, over UDP or TCP.  A query is forwarded upstream only if it is
    neither a tailnet name nor under an SSH rule, and in a full tunnel only over SSH
    unless a direct rule takes it, in which case its answers are remembered as
    direct; it is handed to Tailscale only for tailnet names or when the tailnet
    resolves everything no rule takes.  On the TCP path the answer for a tailnet or
    SSH-rule name does not depend on the upstream servers, and in a full tunnel the
    answer for a name without a rule depends on them only as asked over SSH. *)
Theorem dns_no_leak p blocking info pkt st q query q' ask1 ask2 expired tailscale :
  parseDNSQuery (udpPayload info) = Some q -> parseDNSQuery query = Some q' ->
  let es := (handleDNS p blocking info pkt st).2 in
  let act := matchHost (Some (tp_table p)) (dq_name q) in
  let act' := matchHost (Some (tp_table p)) (dq_name q') in
  (forall f, Forward f ∈ es -> df_query f = udpPayload info /\ isTailnetName st (dq_name q) = false /\ act <> routeSSH /\
     (rt_sendAllViaSSH (tp_table p) = true -> df_viaSSH f = true \/ act = routeDirect /\ df_remember f = true)) /\
  (forall b, ToTailscale b ∈ es -> isTailnetName st (dq_name q) = true \/
     act = routeNone /\ match st with Some s => tn_allDomains s | None => false end = true) /\
  (isTailnetName (tp_state p) (dq_name q') = true \/ act' = routeSSH \/
   (rt_sendAllViaSSH (tp_table p) = true /\ act' = routeNone /\ forall s, ask1 tcpOverSSH s = ask2 tcpOverSSH s) ->
   resolveDNS p blocking query ask1 expired tailscale = resolveDNS p blocking query ask2 expired tailscale).
Proof.
  intros Hq Hq' es act act'. pose proof (dnsRoute_cases p q st) as Hc. split_and!.
  - intros f Hf%handleDNS_sends. apply (routeQuery_sends _ _ _ _ q) in Hf; [|done].
    destruct Hf as [[Hd Hr]|(Hd & Hv & _ & r & Hr)]; rewrite Hr in Hc.
    + split; [done|]. destruct (df_viaSSH f); [destruct Hc as (? & Ha & _ & _); subst act; rewrite Ha; auto|].
      destruct Hc as (? & -> & Hact). split_and!; [done|subst act; by destruct Hact as [->|[-> _]]|].
      intros Hall. right. rewrite bool_decide_true by done. destruct Hact as [?|[_ ?]]; [done|congruence].
    + destruct Hc as (? & Ha & _ & _). subst act. rewrite Ha. auto.
  - intros b Hb%handleDNS_sends. apply (routeQuery_sends _ _ _ _ q) in Hb as [r Hr]; [|done]. by rewrite Hr in Hc.
  - intros Hcase. unfold resolveDNS. destruct (if tp_capturing p then _ else None); [done|]. rewrite Hq'.
    pose proof (dnsRoute_cases p q' (tp_state p)) as Hc'. subst act'.
    destruct (dnsRoute p (Some q') (tp_state p)) as [d r]. destruct d; [done|done| |].
    + destruct Hc' as (Ht & Ha & _ & _).
      assert (forall s, ask1 tcpOverSSH s = ask2 tcpOverSSH s) as Heq
        by (destruct Hcase as [?|[?|(_ & _ & ?)]]; [congruence..|done]).
      unfold exchangeDNS. rewrite bool_decide_true by done.
      rewrite (exchange_loop_ext _ _ (fun server => match tp_egress p with Some _ => ask2 tcpOverSSH server | None => None end));
        [done|]. intros s. by rewrite Heq.
    + exfalso. destruct Hc' as (Ht & _ & Hact). destruct Hcase as [?|[?|(? & ? & _)]]; [congruence| |];
        destruct Hact as [?|[? ?]]; congruence.
Qed.

(** ** DNS over TCP *)

Lemma lor_bytes a b : is_byte a -> is_byte b -> Z.lor (Z.shiftl a 8) b = a * 256 + b.
Proof.
  unfold is_byte. intros Ha Hb. assert (Z.land (Z.shiftl a 8) b = 0) as Hl.
  { rewrite Z.land_comm. rewrite <- (Z.mod_small b (2 ^ 8)) by lia. rewrite <- Z.land_ones by lia.
    apply Z.bits_inj'. intros n Hn. rewrite !Z.land_spec, Z.bits_0, Z.shiftl_spec by lia.
    destruct (Z.ltb_spec n 8); [rewrite (Z.testbit_neg_r a) by lia; by rewrite andb_false_r|].
    rewrite Z.ones_spec_high by lia. by rewrite andb_false_r. }
  rewrite <- Z.lxor_lor, <- Z.add_nocarry_lxor by done. rewrite Z.shiftl_mul_pow2 by lia. done.
Qed.

Lemma tcpQuery_frame q : tcpQuery q = tcpFrame q.
Proof.
  unfold tcpQuery, tcpFrame. f_equal. cbn [be_put]. f_equal; [|f_equal].
  - by rewrite Z.shiftr_div_pow2.
  - change 255 with (Z.ones 8). rewrite Z.land_ones by lia. unfold wrap. change (256 ^ Z.of_nat 0) with 1. by rewrite Z.div_1_r.
Qed.

Lemma frame_len (q : bytes) : len q < 65536 -> be_get (be_put 2 (len q)) = len q.
Proof. intros H. rewrite be_get_put. apply Z.mod_small. pose proof (len_nonneg q). lia. Qed.

(** What a client that sends these queries in turn should get back. *)
Fixpoint stream_answers (answer : nat -> tailnetPath -> bytes -> tailnetPath * option bytes) (p : tailnetPath) (i : nat)
    (qs : list bytes) : tailnetPath * list bytes :=
  match qs with
  | [] => (p, [])
  | q :: qs' =>
      match answer i p q with
      | (p1, None) => (p1, [])
      | (p1, Some r) => let '(p2, rs) := stream_answers answer p1 (S i) qs' in (p2, r :: rs)
      end
  end.

(** An unfinished frame. *)
Definition partial_frame (t : bytes) : Prop := len t < 2 \/ len (drop 2 t) < be_get (take 2 t).

Lemma serve_tcp_frames answer qs : forall fuel p i tail out,
  Forall (fun q => len q < 65536) qs -> partial_frame tail -> (length qs < fuel)%nat ->
  serve_tcp_loop fuel answer p i (concat (map tcpFrame qs) ++ tail) out =
  (let '(p', rs) := stream_answers answer p i qs in (p', out ++ concat (map tcpFrame rs))).
Proof.
  induction qs as [|q qs IH]; intros [|fuel] p i tail out Hq Ht Hf; cbn [length] in Hf; try lia; cbn [map concat].
  - cbn. rewrite app_nil_r. destruct (len tail <? 2) eqn:E; [done|]. to_prop.
    destruct Ht as [Ht|Ht]; [lia|]. by rewrite (proj2 (Z.ltb_lt _ _) Ht).
  - apply Forall_cons in Hq as [Hq Hqs]. unfold tcpFrame at 1. rewrite <- !app_assoc. cbn [serve_tcp_loop stream_answers].
    set (rest := concat _ ++ tail). rewrite take_app_length', drop_app_length' by (by rewrite length_be_put).
    rewrite frame_len by done. pose proof (len_nonneg rest) as Hr0. pose proof (len_nonneg q) as Hq0.
    rewrite (proj2 (Z.ltb_ge _ _)) by (rewrite !len_app; unfold len at 1; rewrite length_be_put; lia).
    rewrite (proj2 (Z.ltb_ge _ _)) by (rewrite len_app; lia).
    rewrite take_app_length', drop_app_length' by (unfold len; lia).
    destruct (answer i p q) as [p1 [r|]]; [|by rewrite app_nil_r].
    subst rest. rewrite IH by (done || lia). destruct (stream_answers answer p1 (S i) qs) as [p2 rs]. cbn [map concat]. by rewrite <- app_assoc.
Qed.

Lemma frames_length qs : (length qs <= length (concat (map tcpFrame qs)))%nat.
Proof. induction qs as [|q qs IH]; cbn [map concat length]; [lia|]. unfold tcpFrame at 1. rewrite !length_app, length_be_put. lia. Qed.

Lemma serve_frames answer p qs tail :
  Forall (fun q => len q < 65536) qs -> partial_frame tail ->
  serveDNSOverTCP answer p (concat (map tcpFrame qs) ++ tail) =
  (let '(p', rs) := stream_answers answer p 0 qs in (p', concat (map tcpFrame rs))).
Proof.
  intros Hq Ht. unfold serveDNSOverTCP. apply serve_tcp_frames; [done..|].
  rewrite length_app. pose proof (frames_length qs). lia.
Qed.

(** DNS over TCP keeps its framing.  The server loop answers every framed query of a
    stream in order, whatever unfinished frame follows, until one has no answer; and
    the client's exchange with it, however its reads are cut, returns exactly the
    answer to its query, or fails when there is none or it exceeds 16 KiB. *)
Theorem dns_tcp_exchange answer p qs tail q (cut : bytes -> list bytes) :
  Forall (fun q => len q < 65536) qs -> partial_frame tail ->
  len q < 65536 -> (forall s, concat (cut s) = s) ->
  match (answer 0%nat p q).2 with Some r => len r < 65536 | None => True end ->
  (serveDNSOverTCP answer p (concat (map tcpFrame qs) ++ tail) =
   (let '(p', rs) := stream_answers answer p 0 qs in (p', concat (map tcpFrame rs)))) /\
  dnsExchangeTCP (Some (fun w => cut (serveDNSOverTCP answer p w).2)) q =
  match (answer 0%nat p q).2 with Some r => if udpBufferSize <? len r then None else Some r | None => None end.
Proof.
  intros Hqs Ht Hq Hcut Hr. split; [by apply serve_frames|].
  unfold dnsExchangeTCP. cbn [mbind option_bind]. rewrite tcpQuery_frame.
  assert ((serveDNSOverTCP answer p (tcpFrame q)).2 = match (answer 0%nat p q).2 with Some r => tcpFrame r | None => [] end) as Hs.
  { pose proof (serve_frames answer p [q] []) as H. cbn [map concat] in H. rewrite !app_nil_r in H.
    rewrite H; [|by constructor|left; by cbn]. cbn. destruct (answer 0%nat p q) as [p1 [r|]]; cbn; [by rewrite app_nil_r|done]. }
  pose proof (readFull_spec (cut (serveDNSOverTCP answer p (tcpFrame q)).2) 2 []) as R1.
  rewrite Hcut in R1. rewrite Hs in *. destruct (answer 0%nat p q) as [p1 [r|]]; cbn [snd] in *; [|by rewrite R1].
  pose proof (len_nonneg r) as Hr0. clear Hs. unfold tcpFrame in *. change (Z.to_nat 2) with 2%nat in R1.
  rewrite len_app, (proj2 (Z.ltb_ge _ _)), take_app_length', drop_app_length' in R1
    by (unfold len at 1; rewrite length_be_put; lia) || by rewrite length_be_put.
  destruct R1 as (rest & -> & Er). cbn [mbind option_bind app]. unfold at_. cbn [be_put lookup list_lookup default]. unfold id.
  rewrite lor_bytes by apply wf_u8. pose proof (frame_len r Hr) as Hfl. cbn [be_put be_get] in Hfl.
  rewrite !len_cons, len_nil in Hfl. change (256 ^ (1 + 0)) with 256 in Hfl. change (256 ^ 0) with 1 in Hfl.
  replace (u8 _ * 256 + u8 _) with (len r) by lia. destruct (udpBufferSize <? len r); [done|].
  pose proof (readFull_spec rest (len r) []) as R2. rewrite Er, Z.ltb_irrefl in R2.
  destruct R2 as (rest2 & -> & _). cbn. f_equal. apply take_ge. unfold len. lia.
Qed.
End Policy.

(** ** From a DNS query to a dial *)

(** The pool's addresses print and parse back, and are plain hosts. *)
Definition pool_string_ok (i : Z) : bool :=
  let a := A4 (198 * 2 ^ 24 + 18 * 2 ^ 16 + 2 + i) in
  bool_decide (ParseAddr (AddrString a) = Some a) && negb (bool_decide (a = quad100)) &&
  negb (ContainsByte (AddrString a) 58) && negb (ContainsByte (AddrString a) 91) && negb (ContainsByte (AddrString a) 93) &&
  PContains fakeIPPrefix a.
Lemma pool_strings : forallb pool_string_ok (seqZ 0 fakeIPCapacity) = true.
Proof. vm_compute. reflexivity. Qed.

Lemma pool_string i :
  0 <= i < fakeIPCapacity ->
  let a := A4 (198 * 2 ^ 24 + 18 * 2 ^ 16 + 2 + i) in
  ParseAddr (AddrString a) = Some a /\ a <> quad100 /\ 58 ∉ AddrString a /\ 91 ∉ AddrString a /\ 93 ∉ AddrString a /\
  PContains fakeIPPrefix a = true.
Proof.
  intros Hi a. pose proof pool_strings as H. rewrite forallb_True, Forall_forall in H.
  specialize (H i ltac:(apply elem_of_seqZ; lia)). unfold pool_string_ok in H. fold a in H.
  apply andb_true_iff in H as [H Hf]. apply andb_true_iff in H as [H H93]. apply andb_true_iff in H as [H H91].
  apply andb_true_iff in H as [H H58]. apply andb_true_iff in H as [Hp Hq].
  apply negb_true_iff in H93, H91, H58, Hq. rewrite ContainsByte_false in H93, H91, H58.
  apply bool_decide_eq_true in Hp. apply bool_decide_eq_false in Hq. done.
Qed.

Section EndToEnd.
Context `{U : UnicodeTables} {C : DNSCodec} {L : DNSCodecLaws C}.

(** Dialing an address that stands for a name dials the name, over SSH. *)
Lemma dial_fake p i name e port :
  pool_ok (tp_fake p) -> fp_byHost (tp_fake p) !! name = Some i -> 0 <= i < fakeIPCapacity ->
  tp_egressOn p = true -> tp_egress p = Some e -> 0 <= port ->
  DialTCP p (JoinHostPort (AddrString (pool_addr (tp_fake p) i)) (Itoa port)) =
  Some (OverSSH (eg_id e) (JoinHostPort name (Itoa port))).
Proof.
  intros Hok Hi Hb Hon He Hport. pose proof (pool_host_addr _ _ _ Hok Hi) as Hh.
  rewrite pool_addr_value, (pok_base _ Hok) in * by done.
  destruct (pool_string i Hb) as (Hp & Hq & H58 & H91 & H93 & _).
  unfold DialTCP. rewrite SplitHostPort_Join by (done || by apply Itoa_plain). cbn [mbind option_bind].
  rewrite Hp. cbn [mbind option_bind]. rewrite bool_decide_false by done. cbn [andb].
  rewrite Hh, Hon. cbn [negb]. unfold egressTCP. by rewrite He.
Qed.

(** What [assign] hands out, and where the pool finds it again. *)
Lemma assign_slot f name :
  pool_ok f -> name <> [] ->
  exists i, 0 <= i < fakeIPCapacity /\ fp_byHost (assign f name).2 !! name = Some i /\
    (assign f name).1 = A4 (198 * 2 ^ 24 + 18 * 2 ^ 16 + 2 + i) /\
    pool_addr (assign f name).2 i = (assign f name).1 /\ pool_ok (assign f name).2.
Proof.
  intros Hok Hn. pose proof (assign_ok f name Hn Hok) as Hok'. destruct (assign_addr f name) as (i & Hi & Ha).
  destruct (rok_index _ _ (pok_ring _ Hok') name i Hi) as (Hb & _). cbn in Hb. exists i.
  split_and!; [by apply Hb..|done| |done|done]. rewrite Ha, pool_addr_value, (pok_base _ Hok') by done. done.
Qed.

(** The path past the answer: only the pool and the counters have moved. *)
Definition after_answer (p : tailnetPath) (name data : bytes) : tailnetPath :=
  set_fake (count (count p 0 (len data) 0 0 0 0) 0 0 0 1 0 0) (assign (tp_fake p) name).2.

Lemma ssh_query_packet p blocking ok data family info q msg :
  tp_capturing p = false -> parseIPPacket data = Some info ->
  pi_proto info = ipProtoUDP -> pi_dstPort info = 53 -> pi_dst info = quad100 ->
  parseDNSQuery (udpPayload info) = Some q -> q_Type (dq_q q) = TypeA ->
  isTailnetName (tp_state p) (dq_name q) = false -> matchHost (Some (tp_table p)) (dq_name q) = routeSSH ->
  dnsAnswer q RCodeSuccess (Some (assign (tp_fake p) (dq_name q)).1) fakeIPTTL = Some msg ->
  injectPacket p blocking ok data family =
  emit (after_answer p (dq_name q) data) false
    (buildUDPPacket {| ap_addr := quad100; ap_port := 53 |} {| ap_addr := pi_src info; ap_port := pi_srcPort info |} msg).
Proof.
  intros Hcap Hp Hproto Hport Hdst Hq Hty Htn Hm Hmsg. unfold injectPacket. rewrite Hp, Hproto, Hport, Hdst.
  rewrite !Z.eqb_refl, bool_decide_true by done. cbn [andb orb]. unfold after_answer.
  destruct (count_frame p 0 (len data) 0 0 0 0) as (Hcore & _). injection Hcore as Etab _ Efake _ _.
  destruct (count_state p 0 (len data) 0 0 0 0) as (_ & _ & Ecap & _).
  set (p0 := count p 0 (len data) 0 0 0 0) in *. unfold handleDNS. rewrite Ecap, Hcap. unfold routeQuery. rewrite Hq.
  unfold dnsRoute. rewrite Htn, Etab, Hm. unfold fakeAnswer. rewrite Hty, Z.eqb_refl, Efake. cbn [negb].
  destruct (assign (tp_fake p) (dq_name q)) as [a f]. cbn [fst snd] in *. unfold reply. by rewrite Hmsg, Hdst, Hport.
Qed.

Lemma emit_quiet p pkt :
  tp_capturing p = false -> tp_closed p = false -> exists fam, (emit p false pkt).2 = [Emit pkt fam].
Proof. intros E1 E2. unfold emit. rewrite andb_false_r, E1, E2. eexists. reflexivity. Qed.

(** C1: an SSH rule works end to end.  When the device asks 100.100.100.100 for the
    address of a name under an SSH rule, the answer that goes back to it carries
    exactly one address, a fake one; packets to that address go to our stack,
    whatever the tailnet routes; and connecting to it, on any port, dials the name
    itself over the SSH egress. *)
Theorem ssh_name_end_to_end socks5 servers routing tssh r e blocking ok data family info q :
  rtc pstep (start_run socks5 servers routing tssh) r ->
  let p := pr_path r in
  tp_egressOn p = true -> tp_egress p = Some e -> tp_capturing p = false -> tp_closed p = false ->
  parseIPPacket data = Some info -> pi_proto info = ipProtoUDP -> pi_dstPort info = 53 -> pi_dst info = quad100 ->
  parseDNSQuery (udpPayload info) = Some q -> q_Type (dq_q q) = TypeA ->
  isTailnetName (tp_state p) (dq_name q) = false -> matchHost (Some (tp_table p)) (dq_name q) = routeSSH ->
  exists a, forall msg, dnsAnswer q RCodeSuccess (Some a) fakeIPTTL = Some msg ->
  let '(p', es) := injectPacket p blocking ok data family in
  let pkt := buildUDPPacket {| ap_addr := quad100; ap_port := 53 |} {| ap_addr := pi_src info; ap_port := pi_srcPort info |} msg in
  (exists fam, es = [Emit pkt fam]) /\ dnsAnswerAddrs msg = [a] /\
  (forall st, toStack p' a st = true) /\
  (forall port, 0 <= port -> DialTCP p' (JoinHostPort (AddrString a) (Itoa port)) =
                             Some (OverSSH (eg_id e) (JoinHostPort (dq_name q) (Itoa port)))).
Proof.
  intros Hr p Hon He Hcap Hcl Hp Hproto Hport Hdst Hq Hty Htn Hm. apply reachable_ok in Hr as [_ _ Hpool _ _ _ _ _]. fold p in Hpool.
  assert (dq_name q <> []) as Hn by (eapply matchHost_nonempty; by rewrite Hm).
  destruct (assign_slot (tp_fake p) (dq_name q) Hpool Hn) as (i & Hb & Hi & Ha & Hpa & Hok').
  exists (assign (tp_fake p) (dq_name q)).1. intros msg Hmsg.
  destruct (pool_string i Hb) as (_ & _ & _ & _ & _ & Hfake). rewrite <- Ha in Hfake.
  rewrite (ssh_query_packet p blocking ok data family info q msg) by done.
  assert (tp_fake (after_answer p (dq_name q) data) = (assign (tp_fake p) (dq_name q)).2 /\
          tp_egressOn (after_answer p (dq_name q) data) = true /\ tp_egress (after_answer p (dq_name q) data) = Some e /\
          tp_capturing (after_answer p (dq_name q) data) = false /\ tp_closed (after_answer p (dq_name q) data) = false)
    as (Ef & Eon & Ee & Ecap & Ecl)
    by (unfold after_answer, count; by destruct (tp_bytes p), (tp_dns p) as [[? ?] ?]).
  set (p1 := after_answer p (dq_name q) data) in *. clearbody p1. set (pkt := buildUDPPacket _ _ _).
  destruct (emit_quiet p1 pkt Ecap Ecl) as [fam Hes]. destruct (emit_frame p1 false pkt) as (Hcore & _).
  assert (tp_egress (emit p1 false pkt).1 = tp_egress p1) as Ee'.
  { unfold emit. destruct (_ && false); [done|]. apply count_state. }
  destruct (emit p1 false pkt) as [p' es]. cbn [fst snd] in *. injection Hcore as _ Eon' Ef' _ _.
  split_and!; [by exists fam| | |].
  - rewrite Ha in *. apply (answer_read_back q RCodeSuccess _ fakeIPTTL msg); [unfold fakeIPCapacity in Hb; lia|done|done].
  - intros st. unfold toStack. rewrite Eon', Eon. rewrite Ha. cbn [Unmap]. rewrite <- Ha, Hfake. done.
  - intros port Hp0. rewrite <- Hpa, <- Ef, <- Ef'. apply dial_fake; rewrite ?Ef', ?Ef; try done; congruence.
Qed.
End EndToEnd.

(** ** Witnesses *)

#[local] Existing Instance caseless_tables.
#[local] Existing Instance RefCodec.codec.

(** A full tunnel over a SOCKS proxy, before and after the tailnet is up. *)
Definition sample_start : pathRun := start_run (lit "127.0.0.1:1080") [lit "9.9.9.9"] sample_routing false.
Definition sample_netstate : tailnetNetState := {|
  tn_addrs := [{| p_ip := A4 (100 * 2 ^ 24 + 64 * 2 ^ 16 + 7); p_bits1 := 33 |}];
  tn_routes := [{| p_ip := A4 (100 * 2 ^ 24 + 64 * 2 ^ 16); p_bits1 := 11 |}];
  tn_dnsServers := [quad100];
  tn_match := [lit "tail1.ts.net"];
  tn_search := [lit "tail1.ts.net"];
  tn_allDomains := false |}.
Definition sample_up : pathRun :=
  {| pr_path := setState (pr_path sample_start) (Some sample_netstate); pr_forwards := []; pr_links := []; pr_close := [] |}.

Lemma sample_up_reachable : rtc pstep sample_start sample_up.
Proof. apply rtc_once. exact (ps_setState (pr_path sample_start) [] [] [] (Some sample_netstate)). Defined.

Definition tailnet_host : Addr := A4 (100 * 2 ^ 24 + 64 * 2 ^ 16 + 9).
(** A TCP segment from the device to port 443 of the host. *)
Definition sample_segment : bytes :=
  [69; 0; 0; 40; 0; 0; 0; 0; 64; 6; 0; 0; 100; 64; 0; 7] ++ As4 tailnet_host ++ be_put 2 40000 ++ be_put 2 443 ++ replicate 16 0.
Definition no_packet : ipPacketInfo :=
  {| pi_src := AZero; pi_dst := AZero; pi_proto := 0; pi_l4 := []; pi_srcPort := 0; pi_dstPort := 0; pi_hasL4Ports := false |}.
Definition sample_segment_info : ipPacketInfo := default no_packet (parseIPPacket sample_segment).

(** A query of the device for a name under an SSH rule. *)
Definition ssh_question : Question := {| q_Name := lit "git.corp.example.com."; q_Type := TypeA; q_Class := ClassINET |}.
Definition ssh_query : bytes := default [] (RefCodec.finish (dq_header sample_question, [ssh_question], [])).
Definition ssh_packet : bytes :=
  buildUDPPacket {| ap_addr := A4 (10 * 2 ^ 24 + 2); ap_port := 40000 |} {| ap_addr := quad100; ap_port := 53 |} ssh_query.
Definition ssh_info : ipPacketInfo := default no_packet (parseIPPacket ssh_packet).
Definition ssh_dq : dnsQuestion := {| dq_header := dq_header sample_question; dq_q := ssh_question; dq_name := lit "git.corp.example.com" |}.

(** A query for a name under no rule, resolved over SSH in a full tunnel. *)
Definition other_question : Question := {| q_Name := lit "www.example.org."; q_Type := TypeA; q_Class := ClassINET |}.
Definition other_query : bytes := default [] (RefCodec.finish (dq_header sample_question, [other_question], [])).
Definition other_packet : bytes :=
  buildUDPPacket {| ap_addr := A4 (10 * 2 ^ 24 + 2); ap_port := 40001 |} {| ap_addr := quad100; ap_port := 53 |} other_query.

(** A busy run: a name is faked, another query is forwarded, one re-dial has its
    connection and a second one is under way while the path is being closed. *)
Definition busy_dst : AddrPort := {| ap_addr := tailnet_host; ap_port := 443 |}.
Definition busy_faked : tailnetPath := (injectPacket (pr_path sample_up) false true ssh_packet 2).1.
Definition busy_asked : tailnetPath := (injectPacket busy_faked false true other_packet 2).1.
Definition busy_dialed : tailnetPath := (dialTailnet_begin busy_asked busy_dst true true).1.
Definition busy_dialing : tailnetPath := (dialTailnet_begin (dialTailnet_end busy_dialed true) busy_dst true true).1.
Definition busy_forwards : list dnsForward := forwards (injectPacket busy_faked false true other_packet 2).2.
Definition busy_run : pathRun :=
  {| pr_path := path_drop (set_closed busy_dialing); pr_forwards := busy_forwards; pr_links := [LOpen; LDialing]; pr_close := [CDropped] |}.

(** The steps of such a run, from any path. *)
Lemma busy_steps p0 p1 p2 p3 p4 fs dst d1 d2 :
  p1 = (injectPacket p0 false true d1 2).1 -> forwards (injectPacket p0 false true d1 2).2 = [] ->
  p2 = (injectPacket p1 false true d2 2).1 -> fs = forwards (injectPacket p1 false true d2 2).2 ->
  p3 = (dialTailnet_begin p2 dst true true).1 -> is_Some (dialTailnet_begin p2 dst true true).2 ->
  p4 = (dialTailnet_begin (dialTailnet_end p3 true) dst true true).1 ->
  is_Some (dialTailnet_begin (dialTailnet_end p3 true) dst true true).2 ->
  rtc pstep {| pr_path := p0; pr_forwards := []; pr_links := []; pr_close := [] |}
            {| pr_path := path_drop (set_closed p4); pr_forwards := fs; pr_links := [LOpen; LDialing]; pr_close := [CDropped] |}.
Proof.
  intros E1 F1 E2 F2 E3 [a3 F3] E4 [a4 F4].
  pose proof (ps_inject p0 [] [] [] false true d1 2) as S1. rewrite F1, <- E1 in S1.
  pose proof (ps_inject p1 [] [] [] false true d2 2) as S2. rewrite <- F2, <- E2 in S2.
  pose proof (ps_dial p2 fs [] [] dst true true) as S3. rewrite F3, <- E3 in S3.
  pose proof (ps_dialed p3 fs [] [] [] true) as S4.
  pose proof (ps_dial (dialTailnet_end p3 true) fs [LOpen] [] dst true true) as S5. rewrite F4, <- E4 in S5.
  pose proof (ps_close p4 fs [LOpen; LDialing] []) as S6.
  pose proof (ps_drop (set_closed p4) fs [LOpen; LDialing] [] []) as S7.
  eapply rtc_l; [exact S1|]. eapply rtc_l; [exact S2|]. eapply rtc_l; [exact S3|]. eapply rtc_l; [exact S4|].
  eapply rtc_l; [exact S5|]. eapply rtc_l; [exact S6|]. apply rtc_once, S7.
Qed.

Lemma busy_run_reachable : rtc pstep sample_start busy_run.
Proof.
  etrans; [exact sample_up_reachable|].
  apply (busy_steps _ busy_faked busy_asked busy_dialed busy_dialing busy_forwards busy_dst ssh_packet other_packet);
    [reflexivity|vm_compute; reflexivity|reflexivity|reflexivity|reflexivity| |reflexivity|].
  - apply (bool_decide_unpack _). vm_compute. exact I.
  - apply (bool_decide_unpack _). vm_compute. exact I.
Qed.

Lemma path_invariant_witness :
  rtc pstep sample_start busy_run /\
  let p := pr_path busy_run in
  (tp_table p = compileRouteTable sample_routing (tp_egressOn p) /\
   pool_ok (tp_fake p) /\
   tp_inFlight p = len (pr_forwards busy_run) /\ len (pr_forwards busy_run) <= tailnetDNSInFlight /\
   tp_linkConns p = open_links (pr_links busy_run) /\
   (pr_close busy_run <> [] -> tp_closed p = true) /\
   (dropped (pr_close busy_run) -> tp_stack p = None /\ forall ok, (ensureStack p ok).2 = None)) /\
  tp_inFlight p = 1 /\ tp_linkConns p = 2 /\ dropped (pr_close busy_run).
Proof.
  split; [exact busy_run_reachable|]. split.
  - exact (path_invariant (lit "127.0.0.1:1080") [lit "9.9.9.9"] sample_routing false busy_run busy_run_reachable).
  - split; [vm_compute; reflexivity|]. split; [vm_compute; reflexivity|]. by left.
Defined.

Lemma demux_agrees_witness :
  let p := pr_path sample_up in
  let es := (injectPacket p false true sample_segment 2).2 in
  (forall pkt, ToTailscale pkt ∈ es -> pkt = sample_segment /\ egressFor p (pi_dst sample_segment_info) = egressTailnet) /\
  (forall pkt fam, ToStack pkt fam ∈ es -> egressFor p (pi_dst sample_segment_info) = egressTailnet ->
     PContains fakeIPPrefix (Unmap (pi_dst sample_segment_info)) = true \/
     pi_proto sample_segment_info = ipProtoTCP /\
     (tp_capturing p = true \/
      pi_dst sample_segment_info = caEndpointAddr /\ pi_dstPort sample_segment_info = 80 /\ tp_servesCA p = true)).
Proof.
  apply (demux_agrees (lit "127.0.0.1:1080") [lit "9.9.9.9"] sample_routing false sample_up false true sample_segment 2
           sample_segment_info sample_up_reachable); vm_compute; reflexivity.
Defined.

Lemma settings_no_leak_witness :
  let p := pr_path sample_up in
  let s := networkSettings p in
  egressFor p tailnet_host = egressTailnet /\ ns_IPv4Excluded s = [lit "192.168.0.0/16"] /\
  routed (ns_IPv4Routes s) tailnet_host /\
  forall q, good_prefix q -> PrefixString q ∈ ns_IPv4Excluded s -> PContains q tailnet_host = false.
Proof.
  split; [vm_compute; reflexivity|]. split; [vm_compute; reflexivity|].
  apply (settings_no_leak (lit "127.0.0.1:1080") [lit "9.9.9.9"] sample_routing false sample_up sample_netstate tailnet_host
           sample_up_reachable).
  - vm_compute. reflexivity.
  - discriminate.
  - constructor; [|constructor]. unfold good_prefix, wf_prefix. cbn. lia.
  - unfold wf_addr, tailnet_host. lia.
  - reflexivity.
  - reflexivity.
  - reflexivity.
  - vm_compute. discriminate.
  - left. reflexivity.
Defined.

Lemma settings_dns_complete_witness :
  ns_DNSServers (networkSettings (pr_path sample_up)) = [AddrString quad100] /\
  exists d, d ∈ ns_MatchDomains (networkSettings (pr_path sample_up)) /\ covers d (dq_name ssh_dq).
Proof.
  apply (settings_dns_complete (pr_path sample_up) sample_netstate ssh_dq); try (vm_compute; reflexivity).
  - discriminate.
  - rewrite <- IndexByte_none. vm_compute. reflexivity.
  - vm_compute. discriminate.
Defined.

Lemma dns_no_leak_witness :
  let p := pr_path sample_up in
  let es := (handleDNS p false ssh_info ssh_packet None).2 in
  parseDNSQuery (udpPayload ssh_info) = Some ssh_dq /\
  (forall f, Forward f ∈ es -> df_query f = udpPayload ssh_info /\ isTailnetName None (dq_name ssh_dq) = false /\
     matchHost (Some (tp_table p)) (dq_name ssh_dq) <> routeSSH /\
     (rt_sendAllViaSSH (tp_table p) = true ->
      df_viaSSH f = true \/ matchHost (Some (tp_table p)) (dq_name ssh_dq) = routeDirect /\ df_remember f = true)).
Proof.
  assert (parseDNSQuery (udpPayload ssh_info) = Some ssh_dq) as Hq by (vm_compute; reflexivity).
  split; [exact Hq|].
  exact (proj1 (dns_no_leak (pr_path sample_up) false ssh_info ssh_packet None ssh_dq ssh_query ssh_dq
           (fun _ _ => None) (fun _ _ => Some []) (fun _ => false) None Hq ltac:(vm_compute; reflexivity))).
Defined.

Lemma dns_tcp_exchange_witness :
  let answer := fun (i : nat) (p : tailnetPath) (q : bytes) => (p, Some (q ++ [Z.of_nat i])) in
  let p := pr_path sample_up in
  serveDNSOverTCP answer p (concat (map tcpFrame [[1; 2]; [3]]) ++ [0]) = (p, concat (map tcpFrame [[1; 2; 0]; [3; 1]])) /\
  dnsExchangeTCP (Some (fun w => [(serveDNSOverTCP answer p w).2])) [7] = Some [7; 0].
Proof.
  apply (dns_tcp_exchange (fun i p q => (p, Some (q ++ [Z.of_nat i]))) (pr_path sample_up) [[1; 2]; [3]] [0] [7]
           (fun s => [s])).
  - repeat constructor.
  - left. reflexivity.
  - reflexivity.
  - intros s. apply app_nil_r.
  - reflexivity.
Defined.

Lemma ssh_name_end_to_end_witness :
  let p := pr_path sample_start in
  parseDNSQuery (udpPayload ssh_info) = Some ssh_dq /\
  exists a, forall msg, dnsAnswer ssh_dq RCodeSuccess (Some a) fakeIPTTL = Some msg ->
  let '(p', es) := injectPacket p false true ssh_packet 2 in
  let pkt := buildUDPPacket {| ap_addr := quad100; ap_port := 53 |} {| ap_addr := pi_src ssh_info; ap_port := pi_srcPort ssh_info |} msg in
  (exists fam, es = [Emit pkt fam]) /\ dnsAnswerAddrs msg = [a] /\
  (forall st, toStack p' a st = true) /\
  (forall port, 0 <= port -> DialTCP p' (JoinHostPort (AddrString a) (Itoa port)) =
                             Some (OverSSH 0 (JoinHostPort (dq_name ssh_dq) (Itoa port)))).
Proof.
  assert (parseDNSQuery (udpPayload ssh_info) = Some ssh_dq) as Hq by (vm_compute; reflexivity).
  split; [exact Hq|].
  refine (ssh_name_end_to_end (L := RefCodec.codec_laws) (lit "127.0.0.1:1080") [lit "9.9.9.9"] sample_routing false sample_start
            {| eg_id := 0; eg_udp := false |} false true ssh_packet 2 ssh_info ssh_dq (rtc_refl _ _) _ _ _ _ _ _ _ _ Hq _ _ _);
    vm_compute; reflexivity.
Defined.
