(* ===== verification/Relay.v ===== *)
(** * Tunnel configuration and relays

    src/vpntunnel/config.go, relay.go and [connectTSSH] of bridge.go: the tunnel's
    configuration, what is handed to the UDP client, and the relays, which own a client and
    the relay it was reached through.  Clients and relays are shared by reference, so they
    live in a store and are named by identity; [relay_mtu.go] is the same text as
    iosbridge's, modelled in Transport. *)

From S2P Require Import Prelude GoStrings Transport.

Local Open Scope go_scope.

(** ** Configuration *)

Record VPNTunnelConfig := mkVPN {
  vc_TransportType : bytes;
  vc_TSSHRelayRequired : bool;
  vc_TSSHHost : bytes; vc_TSSHPort : Z; vc_TSSHMode : bytes; vc_TSSHServerVer : bytes;
  vc_TSSHPass : bytes; vc_TSSHSalt : bytes;
  vc_TSSHServerCert : bytes; vc_TSSHClientCert : bytes; vc_TSSHClientKey : bytes;
  vc_TSSHProxyKey : bytes; vc_TSSHClientID : Z; vc_TSSHServerID : Z;
  vc_SOCKS5Address : bytes;
  vc_DirectBoundInterface : Z;
  vc_TSSHMTU : Z;
  vc_ConnectTimeoutSec : Z;
  vc_DNSServers : list bytes; vc_ExcludedRoutes : list bytes;
  vc_MTU : Z;
  vc_BlockQUIC : bool
}.
Definition set_MTU (c : VPNTunnelConfig) (mtu : Z) (blockQUIC : bool) : VPNTunnelConfig :=
  mkVPN (vc_TransportType c) (vc_TSSHRelayRequired c) (vc_TSSHHost c) (vc_TSSHPort c) (vc_TSSHMode c)
    (vc_TSSHServerVer c) (vc_TSSHPass c) (vc_TSSHSalt c) (vc_TSSHServerCert c) (vc_TSSHClientCert c)
    (vc_TSSHClientKey c) (vc_TSSHProxyKey c) (vc_TSSHClientID c) (vc_TSSHServerID c) (vc_SOCKS5Address c)
    (vc_DirectBoundInterface c) (vc_TSSHMTU c) (vc_ConnectTimeoutSec c) (vc_DNSServers c) (vc_ExcludedRoutes c)
    mtu blockQUIC.
Definition set_ClientID (c : VPNTunnelConfig) (id : Z) : VPNTunnelConfig :=
  mkVPN (vc_TransportType c) (vc_TSSHRelayRequired c) (vc_TSSHHost c) (vc_TSSHPort c) (vc_TSSHMode c)
    (vc_TSSHServerVer c) (vc_TSSHPass c) (vc_TSSHSalt c) (vc_TSSHServerCert c) (vc_TSSHClientCert c)
    (vc_TSSHClientKey c) (vc_TSSHProxyKey c) id (vc_TSSHServerID c) (vc_SOCKS5Address c)
    (vc_DirectBoundInterface c) (vc_TSSHMTU c) (vc_ConnectTimeoutSec c) (vc_DNSServers c) (vc_ExcludedRoutes c)
    (vc_MTU c) (vc_BlockQUIC c).

Inductive tunnel_error :=
| EParse | EBadTransport (t : bytes)                       (* ParseConfig *)
| ERunning | EUnsupported (t : bytes) | ENeedSocks | EStack (* StartTunnelWithRelay *)
| ERelayClosed | ERelayBudget | ERelayMTU (mtu : Z) | ERelayRequired | ENotTSSH | ENoParent
| EConnect (addr : bytes)
| ENotBuilt | EWrongTransport (t : bytes) | ETailscaleConfig | ENoStore | EEngine
| ENotRunning | ENoEgress.

(** In nanoseconds. *)
Definition connectTimeout (c : VPNTunnelConfig) : Z :=
  if (vc_ConnectTimeoutSec c <? 1) || (120 <? vc_ConnectTimeoutSec c) then 30 * Second
  else vc_ConnectTimeoutSec c * Second.

Definition known_transports : list bytes := [lit "ssh"; lit "tssh"; lit "direct"; lit "tailscale"].

(** ** Clients and relays *)

(** A connected [tsshd.SshUdpClient]: the packet size and mode it was given, the payload
    its datagrams carry ([GetMaxDatagramSize]) and the client it was reached through. *)
Record client := mkClient {
  cl_mtu : Z; cl_mode : bytes; cl_budget : Z; cl_proxy : option nat; cl_open : bool
}.
Record Relay := mkRelay { r_client : option nat; r_parent : option nat; r_closed : bool }.

(** The store; [h_closed] logs the calls of [client.Close]. *)
Record heap := mkHeap {
  h_clients : gmap nat client;
  h_relays : gmap nat Relay;
  h_next : nat;
  h_closed : list nat
}.
Definition init_heap : heap := mkHeap ∅ ∅ 1 [].

Definition shut_client (c : client) : client := mkClient (cl_mtu c) (cl_mode c) (cl_budget c) (cl_proxy c) false.
Definition close_client (h : heap) (c : nat) : heap :=
  mkHeap (alter shut_client c (h_clients h)) (h_relays h) (h_next h) (h_closed h ++ [c]).
Definition close_client_opt (h : heap) (c : option nat) : heap :=
  match c with Some c => close_client h c | None => h end.
Definition mark_closed (r : Relay) : Relay := mkRelay (r_client r) (r_parent r) true.
Definition add_client (h : heap) (c : client) : heap :=
  mkHeap (<[h_next h := c]> (h_clients h)) (h_relays h) (S (h_next h)) (h_closed h).
Definition add_relay (h : heap) (r : Relay) : heap :=
  mkHeap (h_clients h) (<[h_next h := r]> (h_relays h)) (S (h_next h)) (h_closed h).

(** [Relay.Close], to the first relay; [None] is the nil receiver. *)
Fixpoint close_chain (fuel : nat) (h : heap) (r : option nat) : heap :=
  match fuel, r with
  | S fuel', Some i =>
      match h_relays h !! i with
      | Some rl =>
          if r_closed rl then h
          else
            let h1 := mkHeap (h_clients h) (<[i := mark_closed rl]> (h_relays h)) (h_next h) (h_closed h) in
            close_chain fuel' (close_client_opt h1 (r_client rl)) (r_parent rl)
      | None => h
      end
  | _, _ => h
  end.
(** A parent is made before its child, so the identity bounds the depth. *)
Definition Close (h : heap) (r : option nat) : heap :=
  match r with Some i => close_chain (S i) h (Some i) | None => h end.

Definition connectedClient (h : heap) (r : option nat) : result tunnel_error (nat * client) :=
  match r ≫= fun i => h_relays h !! i with
  | Some rl =>
      if r_closed rl then Err ERelayClosed
      else match r_client rl with
           | Some c => match h_clients h !! c with Some cl => Ok (c, cl) | None => Err ERelayClosed end
           | None => Err ERelayClosed
           end
  | None => Err ERelayClosed
  end.

Definition EffectiveMTU (h : heap) (r : option nat) (requested : Z) (mode : bytes) : result tunnel_error Z :=
  let! c := connectedClient h r in
  match resolveRelayMTU requested (cl_budget c.2) mode with Some mtu => Ok mtu | None => Err ERelayBudget end.

(** [connectTSSH]: the options, and the client when [dial] ([tsshd.NewSshUdpClient])
    succeeds with a datagram payload. *)
Definition tssh_options (debugLogger : bool) (cfg : VPNTunnelConfig) (proxy : option nat) : UdpClientOptions :=
  let host := TrimSuffix (TrimPrefix (vc_TSSHHost cfg) [91]) [93] in
  {| oo_debugging := debugLogger; oo_addr := JoinHostPort host (Itoa (vc_TSSHPort cfg));
     oo_info := {| si_ServerVer := vc_TSSHServerVer cfg; si_Port := vc_TSSHPort cfg; si_Mode := vc_TSSHMode cfg;
                   si_Pass := vc_TSSHPass cfg; si_Salt := vc_TSSHSalt cfg; si_ServerCert := vc_TSSHServerCert cfg;
                   si_ClientCert := vc_TSSHClientCert cfg; si_ClientKey := vc_TSSHClientKey cfg;
                   si_ProxyKey := vc_TSSHProxyKey cfg; si_ClientID := vc_TSSHClientID cfg;
                   si_ServerID := vc_TSSHServerID cfg; si_ProxyMode := [];
                   si_MTU := if 0 <? vc_TSSHMTU cfg then u16 (vc_TSSHMTU cfg) else 0 |};
     oo_alive := 24 * Hour; oo_interval := 1 * Second; oo_connect := connectTimeout cfg; oo_heartbeat := 3 * Second;
     oo_proxy := bool_decide (is_Some proxy); oo_tailnet := false |}.

Section Config.
(** [json.Unmarshal] into [VPNTunnelConfig], the debug logger, and the tsshd client: the
    size of its datagrams when it connects. *)
Context (Unmarshal : bytes -> option VPNTunnelConfig) (debugLogger : bool).
Context (dial : UdpClientOptions -> option Z).

Definition ParseConfig (configJSON : bytes) : result tunnel_error VPNTunnelConfig :=
  match Unmarshal configJSON with
  | None => Err EParse
  | Some cfg =>
      if bool_decide (vc_TransportType cfg ∈ known_transports) then Ok cfg else Err (EBadTransport (vc_TransportType cfg))
  end.

Definition connectTSSH (h : heap) (cfg : VPNTunnelConfig) (proxy : option nat) : result tunnel_error (nat * heap) :=
  let opts := tssh_options debugLogger cfg proxy in
  match dial opts with
  | None => Err (EConnect (oo_addr opts))
  | Some budget =>
      Ok (h_next h, add_client h (mkClient (si_MTU (oo_info opts)) (si_Mode (oo_info opts)) budget proxy true))
  end.

(** The checks of a connection through a relay, the same in [prepareRelay],
    [StartTunnelWithRelay] and [TailscaleAttachTSSH]: the client to go through. *)
Definition through_relay (h : heap) (cfg : VPNTunnelConfig) (relay : option nat) : result tunnel_error (option nat) :=
  match relay with
  | None => Ok None
  | Some _ =>
      let! c := connectedClient h relay in
      let! mtu := EffectiveMTU h relay (vc_TSSHMTU cfg) (vc_TSSHMode cfg) in
      if mtu =? vc_TSSHMTU cfg then Ok (Some c.1) else Err (ERelayMTU mtu)
  end.

Definition prepareRelay (h : heap) (configJSON : bytes) (parent : option nat) : result tunnel_error (nat * heap) :=
  let! cfg := ParseConfig configJSON in
  if negb (bool_decide (vc_TransportType cfg = lit "tssh")) then Err ENotTSSH
  else
    let cfg := set_ClientID cfg 0 in
    let! proxy := through_relay h cfg parent in
    let! r := connectTSSH h cfg proxy in
    Ok (h_next r.2, add_relay r.2 (mkRelay (Some r.1) parent false)).
Definition PrepareRelay (h : heap) (configJSON : bytes) : result tunnel_error (nat * heap) :=
  prepareRelay h configJSON None.
Definition PrepareRelayVia (h : heap) (configJSON : bytes) (parent : option nat) : result tunnel_error (nat * heap) :=
  match parent with None => Err ENoParent | Some _ => prepareRelay h configJSON parent end.

End Config.

(** ** Well-formed stores *)

Definition relay_closed (h : heap) (i : nat) : Prop := exists r, h_relays h !! i = Some r /\ r_closed r = true.
Definition client_open (h : heap) (c : nat) : Prop := exists cl, h_clients h !! c = Some cl /\ cl_open cl = true.
(** [i] is [j] or was reached through it. *)
Inductive via (h : heap) : nat -> nat -> Prop :=
| via_refl i : via h i i
| via_parent i r p j : h_relays h !! i = Some r -> r_parent r = Some p -> via h p j -> via h i j.

(** The smallest packet a transport mode works with. *)
Definition min_packet (mode : bytes) : Z := if bool_decide (mode = lit "QUIC") then 1200 else 100.

(** Every relay owns a client of its own, which is open as long as the relay is; a closed
    relay has closed its parent, except that [Close] may still have to close [e]; and the
    packets of a client fit the datagrams of the client they travel through. *)
Record wf_heap_but (e : option nat) (h : heap) : Prop := {
  wh_fresh : forall i, (h_next h <= i)%nat -> h_clients h !! i = None /\ h_relays h !! i = None;
  wh_parent : forall i r p, h_relays h !! i = Some r -> r_parent r = Some p -> (p < i)%nat /\ is_Some (h_relays h !! p);
  wh_client : forall i r, h_relays h !! i = Some r -> exists c, r_client r = Some c /\ is_Some (h_clients h !! c);
  wh_owner : forall i j r s, h_relays h !! i = Some r -> h_relays h !! j = Some s -> r_client r = r_client s -> i = j;
  wh_state : forall i r c, h_relays h !! i = Some r -> r_client r = Some c -> client_open h c <-> r_closed r = false;
  wh_down : forall i r p, h_relays h !! i = Some r -> r_closed r = true -> r_parent r = Some p -> e = Some p \/ relay_closed h p;
  wh_mtu : forall c cl q, h_clients h !! c = Some cl -> cl_proxy cl = Some q ->
             exists cq, h_clients h !! q = Some cq /\ min_packet (cl_mode cl) <= cl_mtu cl <= cl_budget cq
}.
Abbreviation wf_heap := (wf_heap_but None).

Lemma wf_init_heap : wf_heap init_heap.
Proof. constructor; cbn; intros *; rewrite ?lookup_empty; naive_solver. Qed.

Lemma shut_client_open h c d : client_open (close_client h c) d <-> client_open h d /\ d <> c.
Proof.
  unfold client_open, close_client. cbn. destruct (decide (d = c)) as [->|Hd].
  - rewrite lookup_alter_eq. split; [|naive_solver]. intros (cl & (cl0 & H0 & ->)%fmap_Some_1 & Ho). by cbn in Ho.
  - rewrite lookup_alter_ne by done. naive_solver.
Qed.

Lemma alter_shut_lookup (m : gmap nat client) c d cl' :
  alter shut_client c m !! d = Some cl' ->
  exists cl, m !! d = Some cl /\ cl_mtu cl' = cl_mtu cl /\ cl_mode cl' = cl_mode cl /\
             cl_budget cl' = cl_budget cl /\ cl_proxy cl' = cl_proxy cl.
Proof.
  destruct (decide (d = c)) as [->|Hd]; [rewrite lookup_alter_eq|rewrite lookup_alter_ne by done].
  - intros (cl & H0 & ->)%fmap_Some. eauto 10.
  - eauto 10.
Qed.
Lemma alter_shut_is_Some (m : gmap nat client) c d cl :
  m !! d = Some cl -> exists cl', alter shut_client c m !! d = Some cl' /\ cl_budget cl' = cl_budget cl.
Proof.
  destruct (decide (d = c)) as [->|Hd]; [rewrite lookup_alter_eq|rewrite lookup_alter_ne by done].
  - intros ->. cbn. eauto.
  - eauto.
Qed.

(** Closing a client no relay owns keeps the store well formed. *)
Lemma wf_close_client h c :
  wf_heap h -> (forall i r, h_relays h !! i = Some r -> r_client r <> Some c) -> wf_heap (close_client h c).
Proof.
  intros [Hf Hp Hc Ho Hs Hd Hm] Hno. constructor; cbn; intros *.
  - intros Hi. destruct (Hf i Hi) as [H1 H2]. split; [|done].
    destruct (decide (i = c)) as [->|]; [by rewrite lookup_alter_eq, H1|by rewrite lookup_alter_ne].
  - eauto.
  - intros Hr. destruct (Hc _ _ Hr) as (d & Hd1 & cl & Hd2). exists d. split; [done|].
    destruct (alter_shut_is_Some _ c _ _ Hd2) as (? & -> & _). done.
  - eauto.
  - intros Hr Hcl. rewrite shut_client_open, (Hs _ _ _ Hr Hcl). split; [naive_solver|].
    intros Hcd. split; [done|]. intros ->. by apply (Hno _ _ Hr).
  - eauto.
  - intros (cl0 & H0 & -> & -> & _ & ->)%alter_shut_lookup Hq. destruct (Hm _ _ _ H0 Hq) as (cq & H1 & H2).
    destruct (alter_shut_is_Some _ c _ _ H1) as (cq' & Hl & Hb). exists cq'. rewrite Hb. done.
Qed.

(** One hop of [Close]. *)
Definition hop (h : heap) (i : nat) (rl : Relay) : heap :=
  close_client_opt (mkHeap (h_clients h) (<[i := mark_closed rl]> (h_relays h)) (h_next h) (h_closed h)) (r_client rl).

Lemma hop_relays h i rl : h_relays (hop h i rl) = <[i := mark_closed rl]> (h_relays h).
Proof. unfold hop. by destruct (r_client rl). Qed.

Lemma hop_lookup h i rl j r' :
  h_relays h !! i = Some rl -> h_relays (hop h i rl) !! j = Some r' ->
  exists r, h_relays h !! j = Some r /\ r_client r' = r_client r /\ r_parent r' = r_parent r /\
            (r' = r \/ j = i).
Proof.
  intros Hi. rewrite hop_relays. destruct (decide (j = i)) as [->|Hj].
  - rewrite lookup_insert_eq. intros [= <-]. exists rl. cbn. auto.
  - rewrite lookup_insert_ne by done. eauto 8.
Qed.

Lemma hop_via h i rl a b :
  h_relays h !! i = Some rl -> via (hop h i rl) a b -> via h a b.
Proof.
  intros Hi. induction 1 as [|k r p j Hk Hp _ IH]; [constructor|].
  destruct (hop_lookup _ _ _ _ _ Hi Hk) as (r0 & H0 & _ & Hpar & _).
  econstructor; [exact H0|by rewrite <- Hpar|exact IH].
Qed.

(** The first half of one hop: marking [i] closed and closing its client. *)
Lemma wf_hop h e i rl :
  wf_heap_but e h -> (e = None \/ e = Some i) -> h_relays h !! i = Some rl -> r_closed rl = false ->
  wf_heap_but (r_parent rl) (hop h i rl).
Proof.
  intros [Hf Hp Hc Ho Hs Hd Hm] He Hi Hcl.
  destruct (Hc _ _ Hi) as (c & Hrc & clc & Hclc).
  assert (Hclients : h_clients (hop h i rl) = alter shut_client c (h_clients h)) by (unfold hop; by rewrite Hrc).
  constructor.
  - intros k Hk. rewrite Hclients, hop_relays.
    assert (Hk' : (h_next h <= k)%nat) by (unfold hop in Hk; by rewrite Hrc in Hk).
    destruct (Hf k Hk') as [H1 H2]. split.
    + destruct (decide (k = c)) as [->|]; [by rewrite lookup_alter_eq, H1|by rewrite lookup_alter_ne].
    + rewrite lookup_insert_ne; [done|]. intros ->. congruence.
  - intros k r p Hk Hpar. destruct (hop_lookup _ _ _ _ _ Hi Hk) as (r0 & H0 & _ & E & _). rewrite E in Hpar.
    destruct (Hp _ _ _ H0 Hpar) as [Hlt Hs']. split; [done|]. rewrite hop_relays.
    rewrite lookup_insert_is_Some. destruct (decide (i = p)); auto.
  - intros k r Hk. destruct (hop_lookup _ _ _ _ _ Hi Hk) as (r0 & H0 & E & _ & _). rewrite E.
    destruct (Hc _ _ H0) as (d & Hd1 & cl & Hd2). exists d. split; [done|]. rewrite Hclients.
    destruct (alter_shut_is_Some _ c _ _ Hd2) as (? & -> & _). done.
  - intros k j r s Hk Hj E. destruct (hop_lookup _ _ _ _ _ Hi Hk) as (r0 & H0 & E0 & _ & _).
    destruct (hop_lookup _ _ _ _ _ Hi Hj) as (s0 & H1 & E1 & _ & _). eapply Ho; [exact H0|exact H1|congruence].
  - intros k r d Hk Hrd.
    assert (Hopen : client_open (hop h i rl) d <-> client_open h d /\ d <> c).
    { unfold hop. rewrite Hrc. cbn [close_client_opt]. rewrite shut_client_open. done. }
    rewrite Hopen. destruct (hop_lookup _ _ _ _ _ Hi Hk) as (r0 & H0 & E0 & _ & _).
    rewrite E0 in Hrd. rewrite (Hs _ _ _ H0 Hrd). rewrite hop_relays in Hk. destruct (decide (k = i)) as [->|Hki].
    + rewrite lookup_insert_eq in Hk. injection Hk as <-. cbn. simplify_eq. naive_solver.
    + rewrite lookup_insert_ne in Hk by done. assert (r0 = r) as -> by congruence. split; [naive_solver|].
      intros Hf0. split; [done|]. intros ->. apply Hki. eapply Ho; [exact H0|exact Hi|congruence].
  - assert (Hmark : forall p, relay_closed h p \/ p = i -> relay_closed (hop h i rl) p).
    { intros p Hpc. unfold relay_closed. rewrite hop_relays. destruct (decide (p = i)) as [->|Hpi].
      - rewrite lookup_insert_eq. eexists. split; [done|done].
      - rewrite lookup_insert_ne by done. by destruct Hpc. }
    intros k r p Hk Hrc' Hpar. destruct (hop_lookup _ _ _ _ _ Hi Hk) as (r0 & H0 & _ & E & [->|Hki]).
    + destruct (Hd _ _ _ H0 Hrc' Hpar) as [Hep|Hcp]; right; apply Hmark; [|by left].
      right. destruct He; congruence.
    + subst k. rewrite hop_relays, lookup_insert_eq in Hk. injection Hk as <-. left. exact Hpar.
  - intros d cl q. rewrite Hclients. intros (cl0 & H0 & -> & -> & _ & ->)%alter_shut_lookup Hq.
    destruct (Hm _ _ _ H0 Hq) as (cq & H1 & H2).
    destruct (alter_shut_is_Some _ c _ _ H1) as (cq' & Hl & Hb). exists cq'. rewrite Hb. done.
Qed.

Lemma wf_but_weaken h e : wf_heap h -> wf_heap_but e h.
Proof. intros [Hf Hp Hc Ho Hs Hd Hm]. constructor; try done. intros i r p Hi Hr Hpar. destruct (Hd _ _ _ Hi Hr Hpar); [done|auto]. Qed.
Lemma wf_but_closed h i : wf_heap_but (Some i) h -> relay_closed h i -> wf_heap h.
Proof.
  intros [Hf Hp Hc Ho Hs Hd Hm] Hi. constructor; try done. intros k r p Hk Hr Hpar. right.
  destruct (Hd _ _ _ Hk Hr Hpar) as [[= <-]|]; done.
Qed.

(** What closing a chain may change: only relays and clients of the chain, and these only
    from open to closed. *)
Record closes (h h' : heap) (i : nat) : Prop := {
  cl_next : h_next h' = h_next h;
  cl_frame : forall j, ~ via h i j -> h_relays h' !! j = h_relays h !! j;
  cl_relays : forall j r, h_relays h !! j = Some r ->
                exists r', h_relays h' !! j = Some r' /\ r_client r' = r_client r /\ r_parent r' = r_parent r /\
                           (r_closed r = true -> r_closed r' = true);
  cl_back : forall j r', h_relays h' !! j = Some r' ->
                exists r, h_relays h !! j = Some r /\ r_client r' = r_client r /\ r_parent r' = r_parent r;
  cl_clients : forall c, (forall j r, via h i j -> h_relays h !! j = Some r -> r_client r <> Some c) ->
                h_clients h' !! c = h_clients h !! c;
  cl_log : h_closed h `prefix_of` h_closed h'
}.
Lemma closes_refl h i : closes h h i.
Proof. constructor; eauto 10. Qed.

Lemma closes_hop h h' i rl :
  h_relays h !! i = Some rl ->
  match r_parent rl with Some p => closes (hop h i rl) h' p | None => h' = hop h i rl end ->
  closes h h' i.
Proof.
  intros Hi H'.
  assert (Hn : h_next (hop h i rl) = h_next h) by (unfold hop; by destruct (r_client rl)).
  assert (Hc : forall c, r_client rl <> Some c -> h_clients (hop h i rl) !! c = h_clients h !! c).
  { intros c Hc. unfold hop. destruct (r_client rl) as [d|]; [|done]. cbn. apply lookup_alter_ne. congruence. }
  assert (Hr : forall j r, h_relays h !! j = Some r -> exists r', h_relays (hop h i rl) !! j = Some r' /\
               r_client r' = r_client r /\ r_parent r' = r_parent r /\ (r_closed r = true -> r_closed r' = true)).
  { intros j r Hj. rewrite hop_relays. destruct (decide (j = i)) as [->|Hji].
    - rewrite lookup_insert_eq. assert (r = rl) as -> by congruence. eexists. split; [done|]. done.
    - rewrite lookup_insert_ne by done. eauto. }
  assert (Hb : forall j r', h_relays (hop h i rl) !! j = Some r' -> exists r, h_relays h !! j = Some r /\
               r_client r' = r_client r /\ r_parent r' = r_parent r).
  { intros j r' Hj. destruct (hop_lookup _ _ _ _ _ Hi Hj) as (r & ? & ? & ? & _). eauto. }
  assert (Hfr : forall j, ~ via h i j -> h_relays (hop h i rl) !! j = h_relays h !! j).
  { intros j Hj. rewrite hop_relays, lookup_insert_ne; [done|]. intros ->. apply Hj. constructor. }
  assert (Hlog : h_closed h `prefix_of` h_closed (hop h i rl)).
  { unfold hop. destruct (r_client rl); cbn; [by apply prefix_app_r|done]. }
  destruct (r_parent rl) as [p|] eqn:Hpar.
  - assert (Hvia : forall j, via (hop h i rl) p j -> via h i j).
    { intros j Hj. econstructor; [exact Hi|exact Hpar|]. by eapply hop_via. }
    destruct H' as [H1 H2 H3 H4 H5 H6]. constructor; [congruence| | | | |by etransitivity].
    + intros j Hj. rewrite H2, Hfr; auto.
    + intros j r Hj. destruct (Hr _ _ Hj) as (r1 & A1 & A2 & A3 & A4).
      destruct (H3 _ _ A1) as (r2 & B1 & B2 & B3 & B4). exists r2. repeat split; [done|congruence|congruence|auto].
    + intros j r' Hj. destruct (H4 _ _ Hj) as (r1 & A1 & A2 & A3). destruct (Hb _ _ A1) as (r & B1 & B2 & B3).
      exists r. repeat split; [done|congruence|congruence].
    + intros c Hno. rewrite H5; [apply Hc, (Hno i); [constructor|done]|].
      intros j r Hj Hjr. destruct (Hb _ _ Hjr) as (r0 & B1 & -> & _). eapply Hno; [by apply Hvia|done].
  - subst h'. constructor; auto. intros c Hno. apply Hc, (Hno i); [constructor|done].
Qed.

Lemma close_chain_spec fuel : forall h i,
  (i < fuel)%nat -> wf_heap_but (Some i) h -> is_Some (h_relays h !! i) ->
  wf_heap (close_chain fuel h (Some i)) /\ relay_closed (close_chain fuel h (Some i)) i /\
  closes h (close_chain fuel h (Some i)) i.
Proof.
  induction fuel as [|n IH]; intros h i Hlt Hwf [rl Hi]; [lia|].
  cbn [close_chain]. rewrite Hi. destruct (r_closed rl) eqn:Hcl.
  - assert (Hci : relay_closed h i) by (exists rl; done).
    split; [by eapply wf_but_closed|]. split; [done|]. apply closes_refl.
  - change (close_client_opt _ (r_client rl)) with (hop h i rl).
    pose proof (wf_hop _ _ _ _ Hwf (or_intror eq_refl) Hi Hcl) as Hw1.
    assert (Hci : relay_closed (hop h i rl) i).
    { exists (mark_closed rl). rewrite hop_relays, lookup_insert_eq. done. }
    destruct (r_parent rl) as [p|] eqn:Hpar.
    + destruct (wh_parent _ _ Hwf _ _ _ Hi Hpar) as [Hpi Hps].
      destruct (IH (hop h i rl) p) as (A1 & A2 & A3); [lia|done| |].
      { rewrite hop_relays, lookup_insert_is_Some. destruct (decide (i = p)); auto. }
      split; [done|]. split.
      * destruct Hci as (r1 & B1 & B2). destruct (cl_relays _ _ _ A3 _ _ B1) as (r2 & C1 & _ & _ & C2).
        exists r2. auto.
      * apply (closes_hop _ _ _ _ Hi). by rewrite Hpar.
    + destruct n; cbn [close_chain]; (split; [exact Hw1|split; [done|apply (closes_hop _ _ _ _ Hi); by rewrite Hpar]]).
Qed.

Lemma Close_spec h i :
  wf_heap h -> is_Some (h_relays h !! i) ->
  wf_heap (Close h (Some i)) /\ relay_closed (Close h (Some i)) i /\ closes h (Close h (Some i)) i.
Proof. intros Hwf Hi. apply close_chain_spec; [lia|by apply wf_but_weaken|done]. Qed.

Lemma closed_via h i j : wf_heap h -> via h i j -> relay_closed h i -> relay_closed h j.
Proof.
  intros Hwf. induction 1 as [|i r p j Hi Hp _ IH]; [done|]. intros (r' & Hr' & Hc). assert (r' = r) as -> by congruence.
  apply IH. by destruct (wh_down _ _ Hwf _ _ _ Hi Hc Hp).
Qed.

Lemma closes_via h h' i a b : closes h h' i -> via h a b -> via h' a b.
Proof.
  intros Hc. induction 1 as [|k r p j Hk Hp _ IH]; [constructor|].
  destruct (cl_relays _ _ _ Hc _ _ Hk) as (r' & H1 & _ & H2 & _). eapply via_parent; [exact H1|by rewrite H2|exact IH].
Qed.

(** ** Connecting through a relay *)

Lemma resolveRelayMTU_bounds requested budget mode m :
  resolveRelayMTU requested budget mode = Some m -> min_packet mode <= m <= budget /\ m <= 65535.
Proof.
  unfold resolveRelayMTU, min_packet. destruct (bool_decide (mode = lit "QUIC")).
  - destruct (_ || _) eqn:E; [done|]. intros [= <-]. to_prop. lia.
  - destruct (bool_decide (mode = lit "KCP")); [|done].
    destruct (_ || _) eqn:E; [done|]. intros [= <-]. to_prop. lia.
Qed.

Lemma through_relay_spec h cfg relay proxy :
  through_relay h cfg relay = Ok proxy ->
  match relay with
  | None => proxy = None
  | Some i => exists r q cq, h_relays h !! i = Some r /\ r_closed r = false /\ r_client r = Some q /\ proxy = Some q /\
                h_clients h !! q = Some cq /\
                min_packet (vc_TSSHMode cfg) <= vc_TSSHMTU cfg <= cl_budget cq /\ vc_TSSHMTU cfg <= 65535
  end.
Proof.
  unfold through_relay, EffectiveMTU. destruct relay as [i|]; [|congruence].
  unfold connectedClient. cbn [mbind option_bind]. destruct (h_relays h !! i) as [r|] eqn:Hi; [|done].
  destruct (r_closed r) eqn:Hr; [done|]. destruct (r_client r) as [q|] eqn:Hq; [|done].
  destruct (h_clients h !! q) as [cq|] eqn:Hcq; [|done]. cbn [rbind fst snd].
  destruct (resolveRelayMTU _ _ _) as [m|] eqn:Hm; [|done]. cbn [rbind].
  destruct (Z.eqb_spec m (vc_TSSHMTU cfg)) as [->|]; [|done]. intros [= <-].
  apply resolveRelayMTU_bounds in Hm as [H1 H2]. exists r, q, cq. done.
Qed.

Lemma min_packet_pos mode : 100 <= min_packet mode.
Proof. unfold min_packet. destruct (bool_decide _); lia. Qed.

(** A new client, its packets bounded by the client it goes through. *)
Lemma wf_add_client h cl :
  wf_heap h ->
  (forall q, cl_proxy cl = Some q ->
     exists cq, h_clients h !! q = Some cq /\ min_packet (cl_mode cl) <= cl_mtu cl <= cl_budget cq) ->
  wf_heap (add_client h cl).
Proof.
  intros Hwf Hcl. destruct (wh_fresh _ _ Hwf (h_next h) (Nat.le_refl _)) as [Hn _].
  destruct Hwf as [Hf Hp Hc Ho Hs Hd Hm].
  assert (Hne : forall c, is_Some (h_clients h !! c) -> c <> h_next h) by (intros c [? ?] ->; congruence).
  constructor; cbn; intros *.
  - intros Hi. destruct (Hf i) as [H1 H2]; [lia|]. split; [|done]. rewrite lookup_insert_ne; [done|lia].
  - eauto.
  - intros Hr. destruct (Hc _ _ Hr) as (d & Hd1 & Hd2). exists d. split; [done|].
    by rewrite lookup_insert_ne by (intros <-; by apply (Hne (h_next h))).
  - eauto.
  - intros Hr Hrc. rewrite <- (Hs _ _ _ Hr Hrc). destruct (Hc _ _ Hr) as (d & Hd1 & Hd2).
    assert (d = c) as -> by congruence. unfold client_open. cbn. by rewrite lookup_insert_ne by (intros <-; by apply (Hne (h_next h))).
  - eauto.
  - destruct (decide (c = h_next h)) as [->|Hcn].
    + rewrite lookup_insert_eq. intros [= <-] Hq. destruct (Hcl _ Hq) as (cq & H1 & H2). exists cq.
      rewrite lookup_insert_ne; [done|]. intros <-. congruence.
    + rewrite lookup_insert_ne by done. intros H0 Hq. destruct (Hm _ _ _ H0 Hq) as (cq & H1 & H2). exists cq.
      rewrite lookup_insert_ne; [done|]. intros <-. congruence.
Qed.

(** A relay that takes over a client no relay owns. *)
Lemma wf_add_relay h c parent :
  wf_heap h -> client_open h c -> (forall i r, h_relays h !! i = Some r -> r_client r <> Some c) ->
  (forall p, parent = Some p -> is_Some (h_relays h !! p)) ->
  wf_heap (add_relay h (mkRelay (Some c) parent false)).
Proof.
  intros Hwf Hco Hno Hpar. destruct (wh_fresh _ _ Hwf (h_next h) (Nat.le_refl _)) as [_ Hn].
  destruct Hwf as [Hf Hp Hc Ho Hs Hd Hm].
  assert (Hlt : forall p, is_Some (h_relays h !! p) -> (p < h_next h)%nat).
  { intros p [r Hr]. destruct (decide (h_next h <= p)%nat) as [H|]; [|lia]. destruct (Hf _ H). congruence. }
  constructor; cbn; intros *.
  - intros Hi. destruct (Hf i) as [H1 H2]; [lia|]. split; [done|]. rewrite lookup_insert_ne; [done|lia].
  - destruct (decide (i = h_next h)) as [->|Hi]; [rewrite lookup_insert_eq|rewrite lookup_insert_ne by done].
    + intros [= <-] Hq. split; [by apply Hlt, Hpar|]. rewrite lookup_insert_is_Some. destruct (decide (h_next h = p)); auto.
    + intros Hr Hq. destruct (Hp _ _ _ Hr Hq) as [? ?]. split; [done|].
      rewrite lookup_insert_is_Some. destruct (decide (h_next h = p)); auto.
  - destruct (decide (i = h_next h)) as [->|Hi]; [rewrite lookup_insert_eq|rewrite lookup_insert_ne by done; eauto].
    intros [= <-]. exists c. split; [done|]. destruct Hco as (cl & -> & _). done.
  - destruct (decide (i = h_next h)) as [->|Hi]; destruct (decide (j = h_next h)) as [->|Hj];
      rewrite ?lookup_insert_eq, ?lookup_insert_ne by done; intros Hi1 Hj1 E; simplify_eq; eauto.
    + cbn in E. exfalso. by eapply Hno; [exact Hj1|].
    + cbn in E. exfalso. by eapply Hno; [exact Hi1|].
  - destruct (decide (i = h_next h)) as [->|Hi]; [rewrite lookup_insert_eq|rewrite lookup_insert_ne by done].
    + intros [= <-] [= <-]. cbn. split; [done|]. intros _. exact Hco.
    + apply Hs.
  - destruct (decide (i = h_next h)) as [->|Hi]; [rewrite lookup_insert_eq|rewrite lookup_insert_ne by done].
    + intros [= <-]. done.
    + intros Hr Hrc Hq. right. destruct (Hd _ _ _ Hr Hrc Hq) as [|(r' & H1 & H2)]; [done|]. exists r'. cbn.
      rewrite lookup_insert_ne; [done|]. intros <-. congruence.
  - eauto.
Qed.

Section Connect.
Context (Unmarshal : bytes -> option VPNTunnelConfig) (debugLogger : bool).
Context (dial : UdpClientOptions -> option Z).

(** A client made by [connectTSSH]: fresh, open and owned by no relay. *)
Lemma connectTSSH_spec h cfg relay proxy c h' :
  wf_heap h -> through_relay h cfg relay = Ok proxy -> connectTSSH debugLogger dial h cfg proxy = Ok (c, h') ->
  wf_heap h' /\ c = h_next h /\ h_next h' = S c /\ h_relays h' = h_relays h /\ h_clients h !! c = None /\
  (forall d, d <> c -> h_clients h' !! d = h_clients h !! d) /\ client_open h' c /\
  (forall i r, h_relays h !! i = Some r -> r_client r <> Some c).
Proof.
  intros Hwf Ht. unfold connectTSSH. destruct (dial _) as [budget|]; [|done]. intros [= <- <-].
  destruct (wh_fresh _ _ Hwf (h_next h) (Nat.le_refl _)) as [Hn _].
  split_and!; try done.
  - apply wf_add_client; [done|]. cbn. intros q ->. apply through_relay_spec in Ht.
    destruct relay as [i|]; [|done]. destruct Ht as (r & q' & cq & _ & _ & _ & [= <-] & Hcq & Hb & H16).
    exists cq. split; [done|]. pose proof (min_packet_pos (vc_TSSHMode cfg)).
    rewrite (proj2 (Z.ltb_lt 0 _)) by lia. unfold wrap. rewrite Z.mod_small by lia. lia.
  - intros d Hd. cbn. by rewrite lookup_insert_ne.
  - eexists. cbn. rewrite lookup_insert_eq. done.
  - intros i r Hr E. destruct (wh_client _ _ Hwf _ _ Hr) as (d & Hd & [? ?]). congruence.
Qed.

Lemma prepareRelay_spec h json parent i h' :
  wf_heap h -> prepareRelay Unmarshal debugLogger dial h json parent = Ok (i, h') ->
  exists c, wf_heap h' /\ c = h_next h /\ i = S c /\ h_next h' = S i /\
    h_relays h' = <[i := mkRelay (Some c) parent false]> (h_relays h) /\ h_relays h !! i = None /\
    h_clients h !! c = None /\
    (forall d, d <> c -> h_clients h' !! d = h_clients h !! d) /\ client_open h' c /\
    (forall p, parent = Some p -> exists r, h_relays h !! p = Some r /\ r_closed r = false).
Proof.
  intros Hwf. unfold prepareRelay. destruct (ParseConfig _ json) as [cfg0|]; [|done]. cbn [rbind].
  destruct (negb _); [done|]. destruct (through_relay h (set_ClientID cfg0 0) parent) as [proxy|] eqn:Ht; [|done]. cbn [rbind].
  destruct (connectTSSH _ _ h _ proxy) as [[c h1]|] eqn:Hc; [|done]. cbn [rbind fst snd]. intros [= <- <-].
  destruct (connectTSSH_spec _ _ _ _ _ _ Hwf Ht Hc) as (W & E1 & E2 & E3 & E4 & E5 & E6 & E7).
  assert (Hpar : forall p, parent = Some p -> exists r, h_relays h !! p = Some r /\ r_closed r = false).
  { intros p ->. apply through_relay_spec in Ht as (r & ? & ? & ? & ? & _). eauto. }
  exists c. split_and!; try done; cbn; rewrite ?E2, ?E3; try done.
  - apply wf_add_relay; [done|done|by rewrite E3|]. intros p Hp. rewrite E3. destruct (Hpar p Hp) as (r & -> & _). done.
  - apply (wh_fresh _ _ Hwf). lia.
Qed.
End Connect.
