(* ===== verification/Tunnel.v ===== *)
(** * Starting and stopping the tunnel

    src/vpntunnel/bridge.go, tailnet_api.go and stats.go: the package's global tunnel, the
    clients, relays and Tailscale path it owns, and the capture controller it starts and
    stops.  [globalMu] makes each operation one step; [TailscaleAttachTSSH] connects without
    holding it and is modelled in its two halves. *)

From S2P Require Import Prelude GoStrings NetIP HostMatch Routing Http1 Rewrite Recorder Flows DNSCache Capture.
From S2P Require Import UDPForwarder DNSMessage TailnetPath Transport Relay.

Local Open Scope go_scope.

Definition minTunMTU : Z := 1280.
Definition minQUICPayload : Z := 1200.
Definition tailnetHeapLimitBytes : Z := 30 * 1024 * 1024.
Definition tailnetSSHHeapLimitBytes : Z := 26 * 1024 * 1024.
Definition tailnetGCPercent : Z := 75.

(** ** Counters *)

Definition i32 (z : Z) : Z := wrap 32 (z + 2 ^ 31) - 2 ^ 31.

Record tunnelStats := mkStats {
  bytesIn : Z; bytesOut : Z;
  activeConns : Z; totalConns : Z; activeTCPConns : Z; activeUDPConns : Z;
  tcpCapacityDrops : Z; udpCapacityDrops : Z; udpRejects : Z
}.
Definition new_stats : tunnelStats := mkStats 0 0 0 0 0 0 0 0 0.
Definition addBytesIn (s : tunnelStats) (n : Z) : tunnelStats :=
  mkStats (i64 (bytesIn s + n)) (bytesOut s) (activeConns s) (totalConns s) (activeTCPConns s) (activeUDPConns s)
    (tcpCapacityDrops s) (udpCapacityDrops s) (udpRejects s).
Definition addBytesOut (s : tunnelStats) (n : Z) : tunnelStats :=
  mkStats (bytesIn s) (i64 (bytesOut s + n)) (activeConns s) (totalConns s) (activeTCPConns s) (activeUDPConns s)
    (tcpCapacityDrops s) (udpCapacityDrops s) (udpRejects s).
Definition connOpenedTCP (s : tunnelStats) : tunnelStats :=
  mkStats (bytesIn s) (bytesOut s) (i32 (activeConns s + 1)) (i64 (totalConns s + 1)) (i32 (activeTCPConns s + 1))
    (activeUDPConns s) (tcpCapacityDrops s) (udpCapacityDrops s) (udpRejects s).
Definition connClosedTCP (s : tunnelStats) : tunnelStats :=
  mkStats (bytesIn s) (bytesOut s) (i32 (activeConns s - 1)) (totalConns s) (i32 (activeTCPConns s - 1))
    (activeUDPConns s) (tcpCapacityDrops s) (udpCapacityDrops s) (udpRejects s).
Definition connOpenedUDP (s : tunnelStats) : tunnelStats :=
  mkStats (bytesIn s) (bytesOut s) (i32 (activeConns s + 1)) (i64 (totalConns s + 1)) (activeTCPConns s)
    (i32 (activeUDPConns s + 1)) (tcpCapacityDrops s) (udpCapacityDrops s) (udpRejects s).
Definition connClosedUDP (s : tunnelStats) : tunnelStats :=
  mkStats (bytesIn s) (bytesOut s) (i32 (activeConns s - 1)) (totalConns s) (activeTCPConns s)
    (i32 (activeUDPConns s - 1)) (tcpCapacityDrops s) (udpCapacityDrops s) (udpRejects s).
Definition tcpCapacityDrop (s : tunnelStats) : tunnelStats :=
  mkStats (bytesIn s) (bytesOut s) (activeConns s) (totalConns s) (activeTCPConns s) (activeUDPConns s)
    (i64 (tcpCapacityDrops s + 1)) (udpCapacityDrops s) (udpRejects s).
Definition udpCapacityDrop (s : tunnelStats) : tunnelStats :=
  mkStats (bytesIn s) (bytesOut s) (activeConns s) (totalConns s) (activeTCPConns s) (activeUDPConns s)
    (tcpCapacityDrops s) (i64 (udpCapacityDrops s + 1)) (udpRejects s).
Definition udpRejected (s : tunnelStats) : tunnelStats :=
  mkStats (bytesIn s) (bytesOut s) (activeConns s) (totalConns s) (activeTCPConns s) (activeUDPConns s)
    (tcpCapacityDrops s) (udpCapacityDrops s) (i64 (udpRejects s + 1)).

(** ** The packet engine *)

Inductive dialer := TsshDialer (c : nat) | Socks5Dialer (addr : bytes) | DirectDialer (boundIf : Z).

(** [tunnelStack], as far as it is decided when it is made; [ns_link] is the MTU given to
    the link endpoint, [ns_moderate] whether receive buffers may grow. *)
Record netstack := {
  ns_mtu : Z; ns_link : Z; ns_moderate : bool;
  ns_tcpDial : dialer; ns_udpDial : option dialer; ns_udpFwd : udpForwarder
}.
(** [newTunnelStack]; [ok] says whether gVisor took the NIC and the buffer options. *)
Definition newTunnelStack (cfg : VPNTunnelConfig) (tcpDial : dialer) (udpDial : option dialer) (budget : Z) (ok : bool)
    : option netstack :=
  let mtu := if vc_MTU cfg <=? 0 then 1500 else vc_MTU cfg in
  if negb ok then None
  else Some {| ns_mtu := mtu; ns_link := u32 mtu; ns_moderate := negb (bool_decide (vc_TransportType cfg = lit "tssh"));
               ns_tcpDial := tcpDial; ns_udpDial := udpDial;
               ns_udpFwd := newUDPForwarder (bool_decide (is_Some udpDial)) true (vc_BlockQUIC cfg) mtu budget |}.

Inductive packetEngine := Netstack (ns : netstack) | TailPath (p : nat).

Inductive event :=
| TunnelReady | TunnelDisconnected (reason : bytes) | StackClosed | EngineClosed (p : nat) | PathClosed (p : nat).

(** The automatic choice of the TUN MTU for a transport that carries [maxDG]-byte datagrams. *)
Definition resolve_mtu (cfg : VPNTunnelConfig) (maxDG : Z) : VPNTunnelConfig :=
  if vc_MTU cfg <=? 0 then
    if 0 <? maxDG then
      if minQUICPayload <=? maxDG then set_MTU cfg (Z.max (maxDG + ipv4Overhead) minTunMTU) (vc_BlockQUIC cfg)
      else set_MTU cfg minTunMTU true
    else set_MTU cfg 1500 (vc_BlockQUIC cfg)
  else cfg.

Section Tunnel.
Context `{U : UnicodeTables} {R : Regexp}.
(** What the capture controller needs. *)
Context (marshal : recEvent -> option bytes) (nowMs : Z).
Context (open_ok : writerState -> bytes -> bool) (write_ok : writerState -> bytes -> bytes -> bool).
Context (parse_config : bytes -> option captureConfig) (base64_decode : bytes -> bytes).
Context (spool_ok : bytes -> bool) (directorySize : bytes -> Z) (ca_valid : bytes -> bytes -> bool).
Context (ios : bool).
(** JSON: the configuration, its "capture" object, its "routing" object with whether the
    "tailscale" object asks for a tssh egress. *)
Context (Unmarshal : bytes -> option VPNTunnelConfig) (capture_of : bytes -> option bytes).
Context (extra_of : bytes -> option (routingConfigJSON * bool)).
(** The tsshd client, the build tag, and what the environment answers in one call: gVisor
    when the stack is made and the Tailscale engine when it starts. *)
Context (debugLogger : bool) (dial : UdpClientOptions -> option Z) (tailscaleBuilt : bool).

(** The package's variables: [gl_cb] and [gl_tailnet] say whether a callback and an engine
    are set. *)
Record globals := mkGlobals {
  gl_stack : option packetEngine;
  gl_stats : option tunnelStats;
  gl_config : option VPNTunnelConfig;
  gl_cb : bool;
  gl_relay : option nat;
  gl_client : option nat;
  gl_tailnet : bool;
  gl_tailnetPath : option nat
}.
Definition no_globals : globals := mkGlobals None None None false None None false None.

(** [t_egress] is the relay the close function of an attached egress also closes, by the
    egress's client; [t_hook] the path whose [refreshCapture] the routing hook runs. *)
Record tunnel := mkTunnel {
  t_heap : heap;
  t_paths : gmap nat tailnetPath;
  t_npath : nat;
  t_egress : gmap nat (option nat);
  t_hook : option nat;
  t_cap : global;
  t_g : globals;
  t_events : list event
}.
Definition with_heap (t : tunnel) (h : heap) : tunnel :=
  mkTunnel h (t_paths t) (t_npath t) (t_egress t) (t_hook t) (t_cap t) (t_g t) (t_events t).
Definition with_paths (t : tunnel) (m : gmap nat tailnetPath) : tunnel :=
  mkTunnel (t_heap t) m (t_npath t) (t_egress t) (t_hook t) (t_cap t) (t_g t) (t_events t).
Definition with_hook (t : tunnel) (k : option nat) : tunnel :=
  mkTunnel (t_heap t) (t_paths t) (t_npath t) (t_egress t) k (t_cap t) (t_g t) (t_events t).
Definition with_cap (t : tunnel) (c : global) : tunnel :=
  mkTunnel (t_heap t) (t_paths t) (t_npath t) (t_egress t) (t_hook t) c (t_g t) (t_events t).
Definition with_g (t : tunnel) (g : globals) : tunnel :=
  mkTunnel (t_heap t) (t_paths t) (t_npath t) (t_egress t) (t_hook t) (t_cap t) g (t_events t).
Definition emit_event (t : tunnel) (e : event) : tunnel :=
  mkTunnel (t_heap t) (t_paths t) (t_npath t) (t_egress t) (t_hook t) (t_cap t) (t_g t) (t_events t ++ [e]).
Definition init_tunnel : tunnel :=
  mkTunnel init_heap ∅ 1 ∅ None capture_init no_globals [].

(** The flows of the environment after some of them were aborted. *)
Definition put_flows (e : option captureEnv) (flows : option flowRegistry) : option captureEnv :=
  match e, flows with
  | Some e, Some fl => Some (mkEnv (en_transport e) fl (en_dns e) (en_blocking e) (en_bypass e)
                               (en_empty e) (en_mitmLive e) (en_overflow e))
  | _, _ => e
  end.
(** [captureRoutingHook], run when the controller notified it: [f] is an operation of the
    controller. *)
Definition run_hook (t : tunnel) (notified : Z) : tunnel :=
  match t_hook t ≫= fun p => path ← t_paths t !! p; Some (p, path) with
  | Some (p, path) =>
      if notified <? g_notified (t_cap t) then
        let c := t_cap t in
        let r := refreshCapture path (captureBlocking c) (captureServesCA c) (en_flows <$> g_env c) in
        with_cap (with_paths t (<[p := r.1.1]> (t_paths t))) (with_env c (put_flows (g_env c) r.1.2))
      else t
  | None => t
  end.
Definition CaptureConfigure (t : tunnel) (raw : bytes) : option capture_error * tunnel :=
  let r := applyCaptureConfig marshal nowMs parse_config base64_decode spool_ok directorySize ca_valid ios (t_cap t) raw in
  (r.1, run_hook (with_cap t r.2) (g_notified (t_cap t))).
Definition capture_close (t : tunnel) (reason : bytes) (final : bool) : tunnel :=
  run_hook (with_cap t (closeCapture marshal nowMs ios (t_cap t) reason final)) (g_notified (t_cap t)).
Definition CaptureStop (t : tunnel) : tunnel := capture_close t (lit "user") true.

(** The "capture" object of the configuration, when there is one; an error is only logged. *)
Definition apply_initial_capture (t : tunnel) (configJSON : bytes) : tunnel :=
  match capture_of configJSON with
  | Some raw => if bool_decide (raw = []) || bool_decide (raw = lit "null") then t else (CaptureConfigure t raw).2
  | None => t
  end.

(** ** Starting *)

(** What the switch on the transport sets: the store, the client, the dialers, the datagram
    budget and the configuration. *)
Record transport := {
  tr_heap : heap; tr_client : option nat; tr_tcp : dialer; tr_udp : option dialer; tr_budget : Z; tr_cfg : VPNTunnelConfig
}.
Definition select_transport (h : heap) (g : globals) (cfg : VPNTunnelConfig) (relay : option nat)
    : result tunnel_error transport :=
  if bool_decide (vc_TransportType cfg = lit "tssh") then
    let! proxy := through_relay h cfg relay in
    if vc_TSSHRelayRequired cfg && bool_decide (proxy = None) then Err ERelayRequired
    else
      let! r := connectTSSH debugLogger dial h cfg proxy in
      let budget := match h_clients r.2 !! r.1 with Some cl => cl_budget cl | None => 0 end in
      Ok {| tr_heap := r.2; tr_client := Some r.1; tr_tcp := TsshDialer r.1; tr_udp := Some (TsshDialer r.1);
            tr_budget := budget; tr_cfg := resolve_mtu cfg budget |}
  else if bool_decide (vc_TransportType cfg = lit "ssh") then
    if bool_decide (vc_SOCKS5Address cfg = []) then Err ENeedSocks
    else Ok {| tr_heap := h; tr_client := gl_client g; tr_tcp := Socks5Dialer (vc_SOCKS5Address cfg); tr_udp := None;
               tr_budget := 0; tr_cfg := cfg |}
  else if bool_decide (vc_TransportType cfg = lit "direct") then
    let d := DirectDialer (vc_DirectBoundInterface cfg) in
    Ok {| tr_heap := h; tr_client := gl_client g; tr_tcp := d; tr_udp := Some d; tr_budget := 0; tr_cfg := cfg |}
  else Err (EUnsupported (vc_TransportType cfg)).

(** [StartTunnelWithRelay].  The configuration is shared by reference: what is decided about
    its MTU shows in [gl_config]. *)
Definition StartTunnelWithRelay (t : tunnel) (configJSON : bytes) (callback : bool) (relay : option nat) (stack_ok : bool)
    : option tunnel_error * tunnel :=
  let g := t_g t in
  if bool_decide (is_Some (gl_stack g)) then (Some ERunning, t)
  else match ParseConfig Unmarshal configJSON with
       | Err e => (Some e, t)
       | Ok cfg =>
           let t := with_cap t (applyBaseMemoryLimits (t_cap t) (vc_TransportType cfg)) in
           let set cfg stack relay client :=
             mkGlobals stack (Some new_stats) (Some cfg) callback relay client (gl_tailnet g) (gl_tailnetPath g) in
           match select_transport (t_heap t) g cfg relay with
           | Err e => (Some e, with_g t (set cfg None (gl_relay g) (gl_client g)))
           | Ok tr =>
               let cfg := if vc_MTU (tr_cfg tr) <=? 0 then set_MTU (tr_cfg tr) 1500 (vc_BlockQUIC (tr_cfg tr)) else tr_cfg tr in
               match newTunnelStack cfg (tr_tcp tr) (tr_udp tr) (tr_budget tr) stack_ok with
               | None =>
                   (Some EStack,
                    with_g (with_heap t (close_client_opt (tr_heap tr) (tr_client tr))) (set cfg None (gl_relay g) None))
               | Some ns =>
                   let t1 := with_g (with_heap t (tr_heap tr)) (set cfg (Some (Netstack ns)) relay (tr_client tr)) in
                   let t2 := with_cap t1 (resetCaptureTunnelState (t_cap t1) (vc_TransportType cfg)) in
                   let t3 := apply_initial_capture t2 configJSON in
                   (None, if callback then emit_event t3 TunnelReady else t3)
               end
           end
       end.
Definition StartTunnel (t : tunnel) (configJSON : bytes) (callback : bool) (stack_ok : bool) : option tunnel_error * tunnel :=
  StartTunnelWithRelay t configJSON callback None stack_ok.

(** [StartTailscaleTunnel]; [store] says whether there is a state store, [engine_ok] whether
    the engine started. *)
Definition StartTailscaleTunnel (t : tunnel) (configJSON : bytes) (store callback engine_ok : bool)
    : option tunnel_error * tunnel :=
  let g := t_g t in
  if negb tailscaleBuilt then (Some ENotBuilt, t)
  else if bool_decide (is_Some (gl_stack g)) then (Some ERunning, t)
  else match ParseConfig Unmarshal configJSON with
       | Err e => (Some e, t)
       | Ok cfg =>
           if negb (bool_decide (vc_TransportType cfg = lit "tailscale")) then (Some (EWrongTransport (vc_TransportType cfg)), t)
           else match extra_of configJSON with
                | None => (Some ETailscaleConfig, t)
                | Some (routing, tsshEgress) =>
                    if negb store then (Some ENoStore, t)
                    else
                      let socks := negb (bool_decide (vc_SOCKS5Address cfg = [])) in
                      let limits := if ios then (if socks || tsshEgress then tailnetSSHHeapLimitBytes else tailnetHeapLimitBytes,
                                                 tailnetGCPercent)
                                    else (sshHeapLimitBytes, sshGCPercent) in
                      let t := with_cap t (setBaseMemoryLimits (t_cap t) limits.1 limits.2) in
                      let cfg := set_MTU cfg tailnetMTU (vc_BlockQUIC cfg) in
                      let path := newTailnetPath (vc_SOCKS5Address cfg) (vc_DNSServers cfg) routing tsshEgress in
                      let p := t_npath t in
                      let t := mkTunnel (t_heap t) (<[p := path]> (t_paths t)) (S p) (t_egress t) (t_hook t) (t_cap t)
                                 (t_g t) (t_events t) in
                      if negb engine_ok then (Some EEngine, with_paths t (<[p := (path_close path).1]> (t_paths t)))
                      else
                        let t1 := with_hook (with_cap t (resetCaptureTunnelState (t_cap t) (vc_TransportType cfg))) (Some p) in
                        let t2 := apply_initial_capture t1 configJSON in
                        let t3 := with_g t2 (mkGlobals (Some (TailPath p)) (Some new_stats) (Some cfg) callback (gl_relay g)
                                               (gl_client g) true (Some p)) in
                        (None, if callback then emit_event t3 TunnelReady else t3)
                end
       end.

(** ** The tssh egress of a Tailscale tunnel *)

(** The first half of [TailscaleAttachTSSH]: the path it read under the lock. *)
Definition attach_begin (t : tunnel) : result tunnel_error nat :=
  match gl_tailnetPath (t_g t) ≫= fun p => path ← t_paths t !! p; Some (p, path) with
  | None => Err ENotRunning
  | Some (p, path) => if tp_egressOn path then Ok p else Err ENoEgress
  end.
(** The close function of an egress: of its client, then of its relay. *)
Definition close_egress (t : tunnel) (id : option Z) : tunnel :=
  match id with
  | Some id =>
      match t_egress t !! Z.to_nat id with
      | Some relay => with_heap t (Close (close_client (t_heap t) (Z.to_nat id)) relay)
      | None => t
      end
  | None => t
  end.
Definition attach_finish (t : tunnel) (p : nat) (configJSON : bytes) (relay : option nat) : option tunnel_error * tunnel :=
  match ParseConfig Unmarshal configJSON with
  | Err e => (Some e, t)
  | Ok cfg =>
      if negb (bool_decide (vc_TransportType cfg = lit "tssh")) then (Some (EWrongTransport (vc_TransportType cfg)), t)
      else match through_relay (t_heap t) cfg relay with
           | Err e => (Some e, t)
           | Ok proxy =>
               if vc_TSSHRelayRequired cfg && bool_decide (proxy = None) then (Some ERelayRequired, t)
               else match connectTSSH debugLogger dial (t_heap t) cfg proxy, t_paths t !! p with
                    | Err e, _ => (Some e, t)
                    | Ok (c, h), None => (Some ENotRunning, t)
                    | Ok (c, h), Some path =>
                        let budget := match h_clients h !! c with Some cl => cl_budget cl | None => 0 end in
                        let r := setEgress path (Some {| eg_id := Z.of_nat c; eg_udp := true |}) (minQUICPayload <=? budget) in
                        let t1 := mkTunnel h (<[p := r.1]> (t_paths t)) (t_npath t) (<[c := relay]> (t_egress t)) (t_hook t)
                                    (t_cap t) (t_g t) (t_events t) in
                        (None, close_egress t1 r.2)
                    end
           end
  end.
Definition TailscaleAttachTSSH (t : tunnel) (configJSON : bytes) (relay : option nat) : option tunnel_error * tunnel :=
  match attach_begin t with Err e => (Some e, t) | Ok p => attach_finish t p configJSON relay end.

(** ** Stopping *)

(** [globalTailnetPath.cancel()], which unblocks writes into the full queue. *)
Definition cancel_path (t : tunnel) : tunnel :=
  match gl_tailnetPath (t_g t) with Some p => with_paths t (alter set_closed p (t_paths t)) | None => t end.
(** [stopTailnetLocked] *)
Definition stopTailnetLocked (t : tunnel) : tunnel :=
  let g := t_g t in
  let t2 := cancel_path (with_hook t None) in
  let t3 := match gl_tailnet g, gl_tailnetPath g with true, Some p => emit_event t2 (EngineClosed p) | _, _ => t2 end in
  with_g t3 (mkGlobals (gl_stack g) (gl_stats g) (gl_config g) (gl_cb g) (gl_relay g) (gl_client g) false None).

(** [packetEngine.close] *)
Definition close_engine (t : tunnel) (e : packetEngine) : tunnel :=
  match e with
  | Netstack _ => emit_event t StackClosed
  | TailPath p =>
      match t_paths t !! p with
      | Some path =>
          let r := path_close path in
          emit_event (close_egress (with_paths t (<[p := r.1]> (t_paths t))) r.2) (PathClosed p)
      | None => t
      end
  end.

Definition StopTunnel (t : tunnel) : tunnel :=
  let g := t_g t in
  match gl_stack g with
  | None => t
  | Some e =>
      let t1 := with_heap t (close_client_opt (t_heap t) (gl_client g)) in
      let t2 := with_heap t1 (Close (t_heap t1) (gl_relay g)) in
      let t3 := with_g t2 (mkGlobals (gl_stack g) (gl_stats g) (gl_config g) (gl_cb g) None None (gl_tailnet g) (gl_tailnetPath g)) in
      let t4 := stopTailnetLocked (capture_close t3 (lit "tunnelStopped") false) in
      let t5 := close_engine t4 e in
      let t6 := if gl_cb g then emit_event t5 (TunnelDisconnected (lit "user requested stop")) else t5 in
      with_g t6 no_globals
  end.

(** ** Status *)

(** [GetStatus]: connected, the transport and the counters. *)
Definition GetStatus (t : tunnel) : bool * option (bytes * tunnelStats) :=
  let g := t_g t in
  match gl_stats g with
  | None => (false, None)
  | Some s => (bool_decide (is_Some (gl_stack g)),
               Some (match gl_config g with Some c => vc_TransportType c | None => [] end, s))
  end.
Definition GetEffectiveMTU (t : tunnel) : Z := match gl_config (t_g t) with Some c => vc_MTU c | None => 0 end.


(** ** The capture controller under the tunnel *)

Lemma capture_inv_mem (g : global) a b : capture_inv g -> capture_inv (with_mem g a b).
Proof. intros [I1 I2 I3 I4 I5]. by split. Qed.

(** An operation of the controller keeps its invariant and whether a tunnel is up, and
    whenever it changes what is blocked it notifies the routing. *)
Record ctl (g g' : global) : Prop := {
  ctl_inv : capture_inv g -> capture_inv g';
  ctl_up : is_Some (g_env g') <-> is_Some (g_env g);
  ctl_note : g_notified g < g_notified g' \/ (g_notified g' = g_notified g /\ captureBlocking g' = captureBlocking g)
}.

Lemma memory_note (g : global) tr b :
  g_notified (applyCaptureMemoryLimits ios g tr b) = g_notified g /\ g_env (applyCaptureMemoryLimits ios g tr b) = g_env g.
Proof.
  unfold applyCaptureMemoryLimits. destruct (negb ios); [done|]. destruct b.
  - by destruct (bool_decide _).
  - by destruct (_ =? _).
Qed.
Lemma close_rec_note (g : global) i kind reason :
  g_notified (close_rec marshal nowMs g i kind reason) = g_notified g /\ g_env (close_rec marshal nowMs g i kind reason) = g_env g.
Proof. unfold close_rec. by destruct i. Qed.
Lemma install_note (g : global) tr next :
  g_notified (install ios g tr true next) = g_notified g + 1 /\ (is_Some (g_env (install ios g tr true next)) <-> is_Some (g_env g)).
Proof.
  unfold install, notifyCaptureRouting. cbn.
  destruct (memory_note (with_env (with_cur g (Some next)) ((fun env => set_blocking env (cc_Enabled (cs_cfg next))) <$> g_env g))
    tr (cc_Enabled (cs_cfg next))) as [-> ->]. cbn. by rewrite fmap_is_Some.
Qed.
Lemma next_sem_note (g : global) tr : g_notified (next_sem ios g tr).2 = g_notified g /\ g_env (next_sem ios g tr).2 = g_env g.
Proof. unfold next_sem. destruct (g_cur g) as [p|]; [|done]. destruct (g_sems g !! _); [|done]. by destruct (_ =? _). Qed.

Lemma configure_ctl (g : global) raw :
  ctl g (applyCaptureConfig marshal nowMs parse_config base64_decode spool_ok directorySize ca_valid ios g raw).2.
Proof.
  assert (Hinv : capture_inv g -> capture_inv (applyCaptureConfig marshal nowMs parse_config base64_decode spool_ok directorySize ca_valid ios g raw).2).
  { apply configure_inv. }
  revert Hinv. unfold applyCaptureConfig, configure_load. destruct (parse_config raw) as [cfg0|]; [|by split; auto].
  destruct (g_env g) as [env|] eqn:He; [|by split; auto]. unfold configure_locked.
  destruct (next_sem_note g (en_transport env)) as [Hs Hse]. destruct (next_sem ios g (en_transport env)) as [sm g1]. cbn in Hs, Hse.
  assert (Hi : forall h next, g_notified h = g_notified g /\ g_env h = g_env g ->
               (capture_inv g -> capture_inv (install ios h (en_transport env) true next)) ->
               ctl g (install ios h (en_transport env) true next)).
  { intros h next [Hh Hx] Hinv. destruct (install_note h (en_transport env) next) as [A B]. split; [done| |left; lia].
    by rewrite B, Hx. }
  assert (Hc : forall i k r, g_notified (close_rec marshal nowMs g1 i k r) = g_notified g /\ g_env (close_rec marshal nowMs g1 i k r) = g_env g).
  { intros. rewrite (proj1 (close_rec_note _ _ _ _)), (proj2 (close_rec_note _ _ _ _)). done. }
  destruct (_ && negb (bool_decide (cc_SpoolDir _ = []))); [|apply Hi, Hc].
  destruct (g_cur g ≫= cs_rec) as [i|]; [destruct (match _ with Some _ => _ | None => false end)|].
  - apply Hi. done.
  - destruct (spool_ok _); apply Hi, Hc.
  - destruct (spool_ok _); apply Hi, Hc.
Qed.

Lemma closeCapture_notifies (g : global) reason final cs :
  g_cur g = Some cs -> g_notified g < g_notified (closeCapture marshal nowMs ios g reason final).
Proof.
  intros Hc. unfold closeCapture. rewrite Hc. set (g3 := match g_env _ with Some _ => _ | None => _ end).
  assert (H : g_notified g3 = g_notified g).
  { subst g3. destruct (g_env _); [rewrite (proj1 (memory_note _ _ _))|]; destruct final; cbn;
      by rewrite (proj1 (close_rec_note _ _ _ _)). }
  clearbody g3. destruct final; cbn; lia.
Qed.
Lemma closeCapture_note (g : global) reason final :
  capture_inv g ->
  g_notified g < g_notified (closeCapture marshal nowMs ios g reason final) \/
  (g_notified (closeCapture marshal nowMs ios g reason final) = g_notified g /\ captureBlocking g = false).
Proof.
  intros [_ _ I3 _ _]. destruct (g_cur g) as [cs|] eqn:Hc; [left; by eapply closeCapture_notifies|right].
  cbn in I3. split; [|done]. unfold closeCapture. rewrite Hc. by destruct final.
Qed.
Lemma closeCapture_down (g : global) reason : g_env (closeCapture marshal nowMs ios g reason false) = None.
Proof. unfold closeCapture. by destruct (g_cur g). Qed.
Lemma closeCapture_env (g : global) reason : is_Some (g_env (closeCapture marshal nowMs ios g reason true)) <-> is_Some (g_env g).
Proof.
  unfold closeCapture. destruct (g_cur g) as [cs|]; [|done]. cbn.
  rewrite (proj2 (close_rec_note _ _ _ _)). destruct (g_env g) as [env|] eqn:E.
  - rewrite (proj2 (memory_note _ _ _)). cbn. split; eauto.
  - cbn. rewrite (proj2 (close_rec_note _ _ _ _)), E. done.
Qed.
Lemma closeCapture_ctl (g : global) reason : capture_inv g -> ctl g (closeCapture marshal nowMs ios g reason true).
Proof.
  intros H. assert (Hi : capture_inv (closeCapture marshal nowMs ios g reason true)) by (by apply closeCapture_inv).
  split; [done|apply closeCapture_env|]. destruct (g_cur g) as [cs|] eqn:Ec; [left; by eapply closeCapture_notifies|right].
  unfold closeCapture. by rewrite Ec.
Qed.

(** What an operation of the controller, hook included, leaves alone. *)
Record frame (t t' : tunnel) : Prop := {
  fr_heap : t_heap t' = t_heap t; fr_npath : t_npath t' = t_npath t; fr_egress : t_egress t' = t_egress t;
  fr_hook : t_hook t' = t_hook t; fr_g : t_g t' = t_g t;
  fr_fresh : forall q, t_paths t !! q = None -> t_paths t' !! q = None;
  fr_paths : forall q path, t_paths t !! q = Some path ->
    exists path', t_paths t' !! q = Some path' /\ tp_egress path' = tp_egress path /\ tp_egressOn path' = tp_egressOn path /\
      (t_hook t = Some q -> tp_capturing path = captureBlocking (t_cap t) -> tp_capturing path' = captureBlocking (t_cap t'))
}.

Lemma refreshCapture_fields path c s (fl : option flowRegistry) :
  tp_capturing (refreshCapture path c s fl).1.1 = c /\ tp_egress (refreshCapture path c s fl).1.1 = tp_egress path /\
  tp_egressOn (refreshCapture path c s fl).1.1 = tp_egressOn path.
Proof.
  unfold refreshCapture. destruct (tp_capturing path && negb c) eqn:E; [|done].
  apply andb_true_iff in E as [_ ->%negb_true_iff].
  destruct (match fl with Some r => _ | None => _ end) as [fl' ids]. cbn [fst]. destruct (negb (tp_egressOn path)); done.
Qed.

Lemma capture_op_spec t g' :
  capture_inv (t_cap t) ->
  (capture_inv g' /\ (g_notified (t_cap t) < g_notified g' \/ captureBlocking g' = captureBlocking (t_cap t))) ->
  let t' := run_hook (with_cap t g') (g_notified (t_cap t)) in
  frame t t' /\ capture_inv (t_cap t') /\ (is_Some (g_env (t_cap t')) <-> is_Some (g_env g')) /\
  captureBlocking (t_cap t') = captureBlocking g'.
Proof.
  intros Hinv [Hinv' Hnote]. unfold run_hook. cbn [t_hook with_cap t_paths t_cap].
  destruct (t_hook t) as [p|] eqn:Hh; cbn [mbind option_bind].
  2: { split; [|done]. split; try done. intros q path Hq. exists path. split_and!; try done; congruence. }
  destruct (t_paths t !! p) as [path|] eqn:Hp.
  2: { split; [|done]. split; try done. intros q path Hq. exists path. split_and!; try done; congruence. }
  cbn [mbind option_bind]. destruct (Z.ltb_spec (g_notified (t_cap t)) (g_notified g')) as [Hlt|Hge].
  2: { split; [|done]. split; try done. intros q path' Hq. exists path'. split_and!; try done. cbn. intros _ ->.
       destruct Hnote; [lia|done]. }
  pose proof (refreshCapture_fields path (captureBlocking g') (captureServesCA g') (en_flows <$> g_env g')) as (F1 & F2 & F3).
  revert F1 F2 F3. generalize (refreshCapture path (captureBlocking g') (captureServesCA g') (en_flows <$> g_env g')).
  intros [[path' fl] ids]. cbn [fst snd]. intros F1 F2 F3. set (env' := put_flows (g_env g') fl).
  assert (Hblk : captureBlocking (with_env g' env') = captureBlocking g' /\ (is_Some env' <-> is_Some (g_env g'))).
  { subst env'. unfold captureBlocking, put_flows. cbn. by destruct (g_env g') as [e|], fl. }
  assert (Hi : capture_inv (with_env g' env')).
  { subst env'. destruct Hinv' as [I1 I2 I3 I4 I5]. split; cbn; try done.
    - rewrite <- I3. unfold captureBlocking, put_flows. cbn. by destruct (g_env g') as [e|], fl.
    - intros He. apply I4. unfold put_flows in He. by destruct (g_env g') as [e|], fl. }
  clearbody env'. destruct Hblk as [Hb1 Hb2].
  split; [|split; [exact Hi|split; [exact Hb2|exact Hb1]]].
  split; try done; cbn.
  - intros q Hq. rewrite lookup_insert_ne; [done|]. intros ->. congruence.
  - intros q path0 Hq. destruct (decide (q = p)) as [->|Hne].
    + rewrite lookup_insert_eq. assert (path0 = path) as -> by congruence. exists path'. split_and!; try done. congruence.
    + rewrite lookup_insert_ne by done. exists path0. split_and!; try done. congruence.
Qed.

(** ** Who holds a client *)

Definition owned (h : heap) (c : nat) : Prop := exists i r, h_relays h !! i = Some r /\ r_client r = Some c.
#[local] Instance owned_dec h c : Decision (owned h c).
Proof. exact (decide (map_Exists (fun (_ : nat) r => r_client r = Some c) (h_relays h))). Defined.
(** Every open client is held by the tunnel or owned by a relay, and none by both. *)
Record hold (h : heap) (held : nat -> Prop) : Prop := {
  ho_wf : wf_heap h;
  ho_held : forall c, held c -> client_open h c /\ ~ owned h c;
  ho_open : forall c, client_open h c -> held c \/ owned h c
}.
Lemma hold_iff h (P Q : nat -> Prop) : (forall c, P c <-> Q c) -> hold h P -> hold h Q.
Proof. intros H [H1 H2 H3]. split; [done| |]; intros c Hc; rewrite <- ?H in *; auto. Qed.

Lemma hold_close_client h (P Q : nat -> Prop) c :
  P c -> (forall d, Q d <-> P d /\ d <> c) -> hold h P -> hold (close_client h c) Q.
Proof.
  intros Hc Hq [H1 H2 H3]. destruct (H2 c Hc) as [_ Hno]. split.
  - apply wf_close_client; [done|]. intros i r Hi Hr. apply Hno. exists i, r. done.
  - intros d [Hd Hne]%Hq. destruct (H2 d Hd) as [Ho Hn]. split; [|exact Hn]. by apply shut_client_open.
  - intros d [Hd Hne]%shut_client_open. destruct (H3 d Hd); [left; by apply Hq|by right].
Qed.

Lemma Close_missing h i : h_relays h !! i = None -> Close h (Some i) = h.
Proof. intros H. cbn. by rewrite H. Qed.

Lemma hold_Close h (P : nat -> Prop) r : hold h P -> hold (Close h r) P.
Proof.
  intros [H1 H2 H3]. destruct r as [i|]; [|done]. destruct (h_relays h !! i) as [rl|] eqn:Hi.
  2: { rewrite Close_missing by done. done. }
  destruct (Close_spec h i H1) as (W & _ & C); [by rewrite Hi|].
  assert (Hown : forall c, owned (Close h (Some i)) c <-> owned h c).
  { intros c. split; intros (j & r & Hj & Hr).
    - destruct (cl_back _ _ _ C _ _ Hj) as (r0 & A & B & _). exists j, r0. split; [done|congruence].
    - destruct (cl_relays _ _ _ C _ _ Hj) as (r0 & A & B & _). exists j, r0. split; [done|congruence]. }
  assert (Hcl : forall c, ~ owned h c -> h_clients (Close h (Some i)) !! c = h_clients h !! c).
  { intros c Hc. apply (cl_clients _ _ _ C). intros j r _ Hj Hr. apply Hc. exists j, r. done. }
  split; [done| |].
  - intros c Hc. destruct (H2 c Hc) as [(cl & A & B) Hn]. split; [|by rewrite Hown]. exists cl. by rewrite Hcl.
  - intros c (cl & A & B). rewrite Hown. destruct (h_clients h !! c) as [cl0|] eqn:E.
    + destruct (decide (cl_open cl0 = true)) as [Ho|Hno]; [apply H3; exists cl0; done|].
      right. apply dec_stable. intros Hn. rewrite Hcl, E in A by done. congruence.
    + right. apply dec_stable. intros Hn. rewrite Hcl, E in A by done. done.
Qed.

Lemma hold_connect h (P : nat -> Prop) cfg relay proxy c h' :
  hold h P -> through_relay h cfg relay = Ok proxy -> connectTSSH debugLogger dial h cfg proxy = Ok (c, h') ->
  hold h' (fun d => P d \/ d = c) /\ c = h_next h /\ h_next h' = S c /\ ~ P c.
Proof.
  intros [H1 H2 H3] Ht Hc. destruct (connectTSSH_spec _ _ _ _ _ _ _ _ H1 Ht Hc) as (W & E1 & E2 & E3 & E4 & E5 & E6 & E7).
  assert (Hown : forall d, owned h' d <-> owned h d) by (intros d; unfold owned; by rewrite E3).
  assert (Hopen : forall d, d <> c -> client_open h' d <-> client_open h d).
  { intros d Hd. unfold client_open. by rewrite (E5 d Hd). }
  assert (HPc : ~ P c) by (intros Hpc; destruct (H2 c Hpc) as [(cl & ? & _) _]; congruence).
  assert (Hoc : ~ owned h c) by (intros (i & r & Hi & Hr); by apply (E7 i r)).
  split; [|done]. split; [done| |].
  - intros d [Hd| ->]; rewrite Hown; [|done]. destruct (H2 d Hd) as [Ho Hn]. split; [|done].
    apply Hopen; [congruence|done].
  - intros d Hd. rewrite Hown. destruct (decide (d = c)) as [->|Hne]; [auto|].
    apply Hopen in Hd; [|done]. destruct (H3 d Hd); auto.
Qed.

Lemma hold_prepare h (P : nat -> Prop) json parent i h' :
  hold h P -> prepareRelay Unmarshal debugLogger dial h json parent = Ok (i, h') -> hold h' P /\ (h_next h <= h_next h')%nat.
Proof.
  intros [H1 H2 H3] Hp. destruct (prepareRelay_spec _ _ _ _ _ _ _ _ H1 Hp) as (c & W & E1 & E2 & E3 & E4 & E5 & E6 & E7 & E8 & E9).
  assert (Hown : forall d, owned h' d <-> owned h d \/ d = c).
  { intros d. unfold owned. rewrite E4. split.
    - intros (j & r & Hj & Hr). destruct (decide (j = i)) as [->|Hne].
      + rewrite lookup_insert_eq in Hj. injection Hj as <-. right. cbn in Hr. congruence.
      + rewrite lookup_insert_ne in Hj by done. eauto.
    - intros [(j & r & Hj & Hr)| ->].
      + exists j, r. rewrite lookup_insert_ne; [done|]. intros ->. congruence.
      + eexists i, _. rewrite lookup_insert_eq. done. }
  assert (Hopen : forall d, d <> c -> client_open h' d <-> client_open h d).
  { intros d Hd. unfold client_open. by rewrite (E7 d Hd). }
  split; [|lia]. split; [done| |].
  - intros d Hd. destruct (H2 d Hd) as [(cl & Hcl & Ho) Hn]. assert (d <> c) by congruence.
    rewrite Hopen, Hown by done. split; [by exists cl|]. intros [|]; done.
  - intros d Hd. rewrite Hown. destruct (decide (d = c)) as [->|Hne]; [auto|].
    apply Hopen in Hd; [|done]. destruct (H3 d Hd); auto.
Qed.

(** ** The invariant *)

(** The client of an attached tssh egress; a SOCKS egress has the identity 0. *)
Definition path_client (path : tailnetPath) : option nat :=
  e ← tp_egress path; if eg_id e =? 0 then None else Some (Z.to_nat (eg_id e)).
Definition held (t : tunnel) (c : nat) : Prop :=
  gl_client (t_g t) = Some c \/
  exists p path, gl_stack (t_g t) = Some (TailPath p) /\ t_paths t !! p = Some path /\ path_client path = Some c.

Definition engine_ok (t : tunnel) (cfg : VPNTunnelConfig) (e : packetEngine) : Prop :=
  let g := t_g t in
  match e with
  | Netstack ns =>
      ns_mtu ns = vc_MTU cfg /\ gl_tailnet g = false /\ gl_tailnetPath g = None /\ t_hook t = None /\
      (forall c, gl_client g = Some c <-> ns_tcpDial ns = TsshDialer c)
  | TailPath p =>
      vc_MTU cfg = tailnetMTU /\ gl_tailnet g = true /\ gl_tailnetPath g = Some p /\ t_hook t = Some p /\
      gl_client g = None /\ gl_relay g = None /\
      exists path, t_paths t !! p = Some path /\ tp_capturing path = captureBlocking (t_cap t) /\
        forall c, path_client path = Some c -> is_Some (t_egress t !! c)
  end.

Record tunnel_inv (t : tunnel) : Prop := {
  ti_hold : hold (t_heap t) (held t);
  ti_next : (1 <= h_next (t_heap t))%nat;
  ti_capture : capture_inv (t_cap t);
  ti_env : is_Some (g_env (t_cap t)) <-> is_Some (gl_stack (t_g t));
  ti_down : gl_stack (t_g t) = None ->
    gl_relay (t_g t) = None /\ gl_client (t_g t) = None /\ gl_tailnet (t_g t) = false /\ gl_tailnetPath (t_g t) = None /\
    t_hook t = None;
  ti_up : forall e, gl_stack (t_g t) = Some e ->
    is_Some (gl_stats (t_g t)) /\ exists cfg, gl_config (t_g t) = Some cfg /\ 0 < vc_MTU cfg /\ engine_ok t cfg e;
  ti_paths : forall q, (t_npath t <= q)%nat -> t_paths t !! q = None;
  ti_egress : t_egress t !! 0%nat = None
}.

Lemma inv_init : tunnel_inv init_tunnel.
Proof.
  split; cbn; try done.
  - split; [apply wf_init_heap| |].
    + intros c [|(p & path & ? & _)]; done.
    + intros c (cl & Hcl & _). done.
  - split; cbn; try done. intros i. unfold is_open. cbn. split; [|done]. intros (e & He & _). done.
Qed.

Lemma tunnel_inv_emit t e : tunnel_inv t -> tunnel_inv (emit_event t e).
Proof. intros [H1 H2 H3 H4 H5 H6 H7 H8]. by split. Qed.

(** Operations of the capture controller keep the invariant. *)
Lemma inv_frame t t' :
  tunnel_inv t -> frame t t' -> capture_inv (t_cap t') -> (is_Some (g_env (t_cap t')) <-> is_Some (g_env (t_cap t))) ->
  tunnel_inv t'.
Proof.
  intros [H1 H2 H3 H4 H5 H6 H7 H8] [F1 F2 F3 F4 F5 F6 F7] Hc He.
  assert (Hpc : forall q path, t_paths t !! q = Some path -> exists path', t_paths t' !! q = Some path' /\ path_client path' = path_client path).
  { intros q path Hq. destruct (F7 _ _ Hq) as (path' & A & B & _). exists path'. unfold path_client. by rewrite B. }
  assert (Hheld : forall c, held t c <-> held t' c).
  { intros c. unfold held. rewrite F5. split; intros [|(p & path & A & B & C)]; auto; right.
    - destruct (Hpc _ _ B) as (path' & D & E). exists p, path'. by rewrite E.
    - destruct (t_paths t !! p) as [path0|] eqn:E; [|rewrite (F6 _ E) in B; done].
      destruct (Hpc _ _ E) as (path' & D & G). exists p, path0. split_and!; try done. congruence. }
  split; rewrite ?F1, ?F2, ?F3, ?F4, ?F5; try done.
  - by eapply hold_iff.
  - by rewrite He.
  - intros e Hs. destruct (H6 e Hs) as (A & cfg & B & C & D). split; [done|]. exists cfg. split_and!; try done.
    unfold engine_ok in *. rewrite F4, F5. destruct e as [ns|p]; [done|].
    destruct D as (D1 & D2 & D3 & D4 & D5 & D6 & path & D7 & D8 & D9). split_and!; try done.
    destruct (F7 _ _ D7) as (path' & E1 & E2 & E3 & E4). exists path'. split_and!; [done|by apply E4|].
    rewrite F3. intros c Hcl. apply D9. unfold path_client in *. by rewrite <- E2.
  - intros q Hq. apply F6, H7, Hq.
Qed.

Lemma inv_ctl t g' :
  tunnel_inv t -> ctl (t_cap t) g' -> tunnel_inv (run_hook (with_cap t g') (g_notified (t_cap t))).
Proof.
  intros Ht [C1 C2 C3]. pose proof (ti_capture _ Ht) as Hc.
  destruct (capture_op_spec t g' Hc) as (F & I & E & _).
  { split; [auto|]. destruct C3 as [|[]]; auto. }
  eapply inv_frame; [exact Ht|exact F|exact I|]. by rewrite E.
Qed.
Lemma inv_configure t raw : tunnel_inv t -> tunnel_inv (CaptureConfigure t raw).2.
Proof. intros Ht. apply inv_ctl; [done|apply configure_ctl]. Qed.
Lemma inv_capture_stop t : tunnel_inv t -> tunnel_inv (CaptureStop t).
Proof. intros Ht. apply inv_ctl; [done|]. apply closeCapture_ctl, (ti_capture _ Ht). Qed.
Lemma inv_initial_capture t json : tunnel_inv t -> tunnel_inv (apply_initial_capture t json).
Proof.
  intros Ht. unfold apply_initial_capture. destruct (capture_of json) as [raw|]; [|done].
  destruct (_ || _); [done|]. by apply inv_configure.
Qed.
(** The globals play no part in configuring capture. *)
Lemma initial_capture_g t g json :
  apply_initial_capture (with_g t g) json = with_g (apply_initial_capture t json) g.
Proof.
  unfold apply_initial_capture. destruct (capture_of json) as [raw|]; [|done]. destruct (_ || _); [done|].
  unfold CaptureConfigure, run_hook. cbn [snd t_hook t_paths t_cap with_cap with_g].
  destruct (t_hook t) as [p|]; [|done]. cbn [mbind option_bind]. destruct (t_paths t !! p) as [path|]; [|done].
  cbn [mbind option_bind]. by destruct (_ <? _).
Qed.

(** Relays: made, and closed by their holder. *)
Lemma inv_heap t h :
  tunnel_inv t -> hold h (held t) -> (h_next (t_heap t) <= h_next h)%nat -> tunnel_inv (with_heap t h).
Proof. intros [H1 H2 H3 H4 H5 H6 H7 H8] Hh Hn. split; try done. cbn. lia. Qed.
Lemma close_chain_next fuel : forall h r, h_next (close_chain fuel h r) = h_next h.
Proof.
  induction fuel as [|n IH]; intros h r; [done|]. cbn. destruct r as [i|]; [|done].
  destruct (h_relays h !! i) as [rl|]; [|done]. destruct (r_closed rl); [done|]. rewrite IH. by destruct (r_client rl).
Qed.
Lemma Close_next h r : h_next (Close h r) = h_next h.
Proof. destruct r; [apply close_chain_next|done]. Qed.

(** A state in which nothing runs, from one in which nothing runs. *)
Lemma inv_failed t g :
  tunnel_inv t -> gl_stack (t_g t) = None ->
  gl_stack g = None -> gl_relay g = None -> gl_client g = None -> gl_tailnet g = false -> gl_tailnetPath g = None ->
  tunnel_inv (with_g t g).
Proof.
  intros [H1 H2 H3 H4 H5 H6 H7 H8] Hs G1 G2 G3 G4 G5. destruct (H5 Hs) as (_ & B & _ & _ & E).
  split; cbn; rewrite ?G1; try done; [|by rewrite H4, Hs].
  eapply hold_iff; [|exact H1]. intros c. unfold held. cbn. rewrite G1, G3, Hs, B. naive_solver.
Qed.
Lemma inv_mem t a b : tunnel_inv t -> tunnel_inv (with_cap t (with_mem (t_cap t) a b)).
Proof. intros [H1 H2 H3 H4 H5 H6 H7 H8]. split; try done. by apply capture_inv_mem. Qed.

Lemma resolve_mtu_pos cfg budget : 0 < vc_MTU (resolve_mtu cfg budget).
Proof.
  unfold resolve_mtu, minTunMTU, ipv4Overhead. destruct (Z.leb_spec (vc_MTU cfg) 0); [|done].
  destruct (0 <? budget); [|done]. destruct (minQUICPayload <=? budget); cbn; lia.
Qed.

(** What the transport hands to the rest of [StartTunnelWithRelay]. *)
Lemma select_transport_spec t cfg relay tr :
  tunnel_inv t -> gl_stack (t_g t) = None -> select_transport (t_heap t) (t_g t) cfg relay = Ok tr ->
  hold (tr_heap tr) (fun c => tr_client tr = Some c) /\ (h_next (t_heap t) <= h_next (tr_heap tr))%nat /\
  (forall c, tr_client tr = Some c <-> tr_tcp tr = TsshDialer c).
Proof.
  intros Ht Hs. destruct (ti_down _ Ht Hs) as (_ & Hc & _ & _ & _).
  assert (Hno : hold (t_heap t) (fun c => gl_client (t_g t) = Some c)).
  { eapply hold_iff; [|exact (ti_hold _ Ht)]. intros c. unfold held. rewrite Hs. naive_solver. }
  unfold select_transport. destruct (bool_decide (vc_TransportType cfg = lit "tssh")).
  - destruct (through_relay _ cfg relay) as [proxy|] eqn:Hr; [|done]. cbn [rbind]. destruct (_ && _); [done|].
    destruct (connectTSSH _ _ _ cfg proxy) as [[c h']|] eqn:Hcn; [|done]. cbn [rbind fst snd]. intros [= <-].
    destruct (hold_connect _ _ _ _ _ _ _ Hno Hr Hcn) as (A & B & C & _). cbn [tr_heap tr_client tr_tcp].
    split; [|split; [lia|naive_solver]].
    eapply hold_iff; [|exact A]. intros d. rewrite Hc. naive_solver.
  - destruct (bool_decide (vc_TransportType cfg = lit "ssh")).
    + destruct (bool_decide _); [done|]. intros [= <-]. cbn [tr_heap tr_client tr_tcp]. split; [done|]. split; [lia|].
      rewrite Hc. done.
    + destruct (bool_decide _); [|done]. intros [= <-]. cbn [tr_heap tr_client tr_tcp]. split; [done|]. split; [lia|].
      rewrite Hc. done.
Qed.

Lemma inv_start t json cb relay ok : tunnel_inv t -> tunnel_inv (StartTunnelWithRelay t json cb relay ok).2.
Proof.
  intros Ht0. unfold StartTunnelWithRelay. case_bool_decide as Hs; [done|]. apply eq_None_not_Some in Hs.
  destruct (ParseConfig Unmarshal json) as [cfg|]; [|done].
  assert (Ht : tunnel_inv (with_cap t (applyBaseMemoryLimits (t_cap t) (vc_TransportType cfg)))).
  { unfold applyBaseMemoryLimits, setBaseMemoryLimits. destruct (_ || _); by apply inv_mem. }
  revert Ht. generalize (applyBaseMemoryLimits (t_cap t) (vc_TransportType cfg)). intros cap Ht.
  destruct (ti_down _ Ht0 Hs) as (D1 & D2 & D3 & D4 & D5).
  change (t_heap (with_cap t cap)) with (t_heap t).
  destruct (select_transport (t_heap t) (t_g t) cfg relay) as [tr|] eqn:Htr.
  2: { cbn [snd]. apply inv_failed; try done. }
  destruct (select_transport_spec _ _ _ _ Ht0 Hs Htr) as (A1 & A2 & A3).
  set (cfg' := if vc_MTU (tr_cfg tr) <=? 0 then _ else _).
  assert (Hpos : 0 < vc_MTU cfg').
  { subst cfg'. destruct (Z.leb_spec (vc_MTU (tr_cfg tr)) 0); cbn; lia. }
  clearbody cfg'. unfold newTunnelStack. destruct (negb ok).
  - cbn [snd]. split; cbn; try done; try apply Ht.
    + destruct (tr_client tr) as [c|] eqn:Hc; cbn [close_client_opt].
      * eapply hold_close_client; [| |exact A1]; [done|]. intros d. unfold held. cbn. naive_solver.
      * eapply hold_iff; [|exact A1]. intros d. unfold held. cbn. naive_solver.
    + pose proof (ti_next _ Ht0). destruct (tr_client tr); cbn; lia.
    + rewrite (ti_env _ Ht). cbn. by rewrite Hs.
  - cbn [snd].
    assert (Hfin : forall t', tunnel_inv t' -> tunnel_inv (if cb then emit_event t' TunnelReady else t'))
      by (intros t' Ht'; destruct cb; [by apply tunnel_inv_emit|done]).
    apply Hfin, inv_initial_capture. split; cbn; try done; try apply Ht.
    + eapply hold_iff; [|exact A1]. intros d. unfold held. cbn. naive_solver.
    + pose proof (ti_next _ Ht0). lia.
    + apply start_inv; [exact (ti_capture _ Ht)|]. apply eq_None_not_Some.
      intros Hx. apply (ti_env _ Ht) in Hx. cbn in Hx. rewrite Hs in Hx. by destruct Hx.
    + intros e [= <-]. split; [done|]. exists cfg'. split; [done|]. split; [done|].
      cbn. split; [destruct (Z.leb_spec (vc_MTU cfg') 0); lia|done].
Qed.

Lemma reset_inv t tr : tunnel_inv t -> gl_stack (t_g t) = None -> capture_inv (resetCaptureTunnelState (t_cap t) tr).
Proof.
  intros Ht Hs. apply start_inv; [exact (ti_capture _ Ht)|]. apply eq_None_not_Some.
  intros Hx. apply (ti_env _ Ht) in Hx. rewrite Hs in Hx. by destruct Hx.
Qed.
(** A path nothing refers to is added or replaced. *)
Lemma inv_new_path t path :
  tunnel_inv t -> gl_stack (t_g t) = None ->
  tunnel_inv (mkTunnel (t_heap t) (<[t_npath t := path]> (t_paths t)) (S (t_npath t)) (t_egress t) (t_hook t) (t_cap t) (t_g t) (t_events t)).
Proof.
  intros [H1 H2 H3 H4 H5 H6 H7 H8] Hs. split; cbn; try done.
  - eapply hold_iff; [|exact H1]. intros c. unfold held. cbn. rewrite Hs. naive_solver.
  - intros e He. congruence.
  - intros q Hq. rewrite lookup_insert_ne by lia. apply H7. lia.
Qed.
Lemma new_path_fields socks dns routing b :
  tp_capturing (newTailnetPath socks dns routing b) = false /\ path_client (newTailnetPath socks dns routing b) = None.
Proof. unfold newTailnetPath, path_client. cbn. by destruct (bool_decide (socks = [])). Qed.

(** A Tailscale tunnel on a path that holds no client. *)
Lemma inv_run_path t p path cfg cb :
  tunnel_inv t -> gl_stack (t_g t) = None -> t_paths t !! p = Some path -> tp_capturing path = false ->
  path_client path = None -> vc_MTU cfg = tailnetMTU ->
  tunnel_inv (with_g (with_hook (with_cap t (resetCaptureTunnelState (t_cap t) (vc_TransportType cfg))) (Some p))
    (mkGlobals (Some (TailPath p)) (Some new_stats) (Some cfg) cb (gl_relay (t_g t)) (gl_client (t_g t)) true (Some p))).
Proof.
  intros Ht Hs Hp Hcap Hcl Hm. destruct (ti_down _ Ht Hs) as (D1 & D2 & D3 & D4 & D5).
  split; cbn; try done; try apply Ht.
  - eapply hold_iff; [|exact (ti_hold _ Ht)]. intros c. unfold held. cbn. rewrite Hs, D2. split; [naive_solver|].
    intros [|(q & path' & [= <-] & Hq & Hc)]; [done|]. rewrite Hp in Hq. injection Hq as <-. congruence.
  - by apply reset_inv.
  - intros e [= <-]. split; [done|]. exists cfg. rewrite Hm. split; [done|]. split; [done|].
    cbn. split_and!; try done. exists path. split_and!; try done.
    intros c Hc. congruence.
Qed.

Lemma inv_tailscale t json store cb ok : tunnel_inv t -> tunnel_inv (StartTailscaleTunnel t json store cb ok).2.
Proof.
  intros Ht0. unfold StartTailscaleTunnel. destruct (negb tailscaleBuilt); [done|].
  case_bool_decide as Hs; [done|]. apply eq_None_not_Some in Hs.
  destruct (ParseConfig Unmarshal json) as [cfg|]; [|done]. destruct (negb (bool_decide _)); [done|].
  destruct (extra_of json) as [[routing tssh]|]; [|done]. destruct (negb store); [done|].
  set (limits := if ios then _ else _).
  assert (Ht : tunnel_inv (with_cap t (setBaseMemoryLimits (t_cap t) limits.1 limits.2))) by (by apply inv_mem).
  clearbody limits. revert Ht. generalize (setBaseMemoryLimits (t_cap t) limits.1 limits.2). intros cap Ht.
  cbn [t_heap t_paths t_npath t_egress t_hook t_cap t_g t_events with_cap with_paths].
  set (cfg' := set_MTU cfg tailnetMTU (vc_BlockQUIC cfg)).
  destruct (negb ok).
  - cbn [snd]. rewrite insert_insert_eq. exact (inv_new_path (with_cap t cap) _ Ht Hs).
  - cbn [snd].
    assert (Hfin : forall t', tunnel_inv t' -> tunnel_inv (if cb then emit_event t' TunnelReady else t'))
      by (intros t' Ht'; destruct cb; [by apply tunnel_inv_emit|done]).
    apply Hfin. rewrite <- initial_capture_g. apply inv_initial_capture.
    destruct (new_path_fields (vc_SOCKS5Address cfg') (vc_DNSServers cfg') routing tssh) as [N1 N2].
    eapply (inv_run_path (mkTunnel (t_heap t) _ _ _ _ cap (t_g t) _) (t_npath t) _ cfg' cb);
      [exact (inv_new_path (with_cap t cap) _ Ht Hs)|done|apply lookup_insert_eq|done|done|done].
Qed.

(** ** The egress *)

Lemma close_egress_eq t path :
  t_egress t !! 0%nat = None ->
  close_egress t (eg_id <$> tp_egress path) =
    match path_client path with
    | Some c => match t_egress t !! c with
                | Some relay => with_heap t (Close (close_client (t_heap t) c) relay)
                | None => t
                end
    | None => t
    end.
Proof.
  intros H0. unfold path_client, close_egress. destruct (tp_egress path) as [e|]; [|done]. cbn [fmap option_fmap option_map mbind option_bind].
  destruct (Z.eqb_spec (eg_id e) 0) as [->|]; [|done]. change (Z.to_nat 0) with 0%nat. by rewrite H0.
Qed.

Lemma inv_attach t json relay : tunnel_inv t -> tunnel_inv (TailscaleAttachTSSH t json relay).2.
Proof.
  intros Ht. unfold TailscaleAttachTSSH, attach_begin.
  destruct (gl_tailnetPath (t_g t)) as [p|] eqn:Hgp; [|done]. cbn [mbind option_bind].
  destruct (t_paths t !! p) as [path|] eqn:Hp; [|done]. cbn [mbind option_bind]. destruct (tp_egressOn path); [|done].
  unfold attach_finish. destruct (ParseConfig Unmarshal json) as [cfg|]; [|done]. destruct (negb _); [done|].
  destruct (through_relay (t_heap t) cfg relay) as [proxy|] eqn:Hr; [|done]. destruct (_ && _); [done|].
  destruct (connectTSSH _ _ _ cfg proxy) as [[c h]|] eqn:Hc; [|done]. rewrite Hp.
  destruct (gl_stack (t_g t)) as [e|] eqn:Hs; [|by destruct (ti_down _ Ht Hs) as (_ & _ & _ & ? & _); congruence].
  destruct (ti_up _ Ht _ Hs) as (S1 & cfg0 & S2 & S3 & S4). destruct e as [ns|p']; [by destruct S4 as (_ & _ & ? & _); congruence|].
  destruct S4 as (A1 & A2 & A3 & A4 & A5 & A6 & path' & A7 & A8 & A9).
  assert (p' = p) as -> by congruence. assert (path' = path) as -> by congruence. clear A7.
  destruct (hold_connect _ _ _ _ _ _ _ (ti_hold _ Ht) Hr Hc) as (H1 & Hcn & Hn & Hnew).
  pose proof (ti_next _ Ht) as Hge. set (quic := minQUICPayload <=? _). clearbody quic.
  set (r := setEgress path (Some {| eg_id := Z.of_nat c; eg_udp := true |}) quic).
  assert (Er : r.2 = eg_id <$> tp_egress path) by done.
  assert (Hpc : path_client r.1 = Some c).
  { unfold path_client. cbn. rewrite (proj2 (Z.eqb_neq (Z.of_nat c) 0)) by lia. by rewrite Nat2Z.id. }
  assert (Hrc : tp_capturing r.1 = tp_capturing path) by done. clearbody r.
  cbn [snd]. rewrite Er, close_egress_eq; cbn [t_egress t_heap].
  2: { rewrite lookup_insert_ne by lia. apply Ht. }
  (* the state once the old egress, if any, is closed *)
  assert (Hfin : forall h', hold h' (fun d => d = c) -> (1 <= h_next h')%nat ->
    tunnel_inv (mkTunnel h' (<[p := r.1]> (t_paths t)) (t_npath t) (<[c := relay]> (t_egress t)) (t_hook t) (t_cap t) (t_g t) (t_events t))).
  { intros h' Hh' Hn'. split; cbn; try done; try apply Ht.
    - eapply hold_iff; [|exact Hh']. intros d. unfold held. cbn. rewrite A5, Hs. split.
      + intros ->. right. exists p, r.1. rewrite lookup_insert_eq. done.
      + intros [|(q & pt & [= <-] & Hq & Hd)]; [done|]. rewrite lookup_insert_eq in Hq. injection Hq as <-. congruence.
    - intros e He. rewrite Hs in He. injection He as <-. split; [done|]. exists cfg0. split; [done|]. split; [done|].
      cbn. split_and!; try done. exists r.1. rewrite lookup_insert_eq. split_and!; [done|congruence|]. intros d Hd.
      rewrite Hpc in Hd. injection Hd as <-. rewrite lookup_insert_eq. done.
    - intros q Hq. rewrite lookup_insert_ne; [by apply Ht|]. intros ->. rewrite (ti_paths _ Ht q Hq) in Hp. done.
    - rewrite lookup_insert_ne by lia. apply Ht. }
  assert (Hheld : forall d, held t d <-> path_client path = Some d).
  { intros d. unfold held. rewrite A5, Hs. split; [|intros Hd; right; by exists p, path].
    intros [|(q & pt & [= <-] & Hq & Hd)]; [done|]. rewrite Hp in Hq. injection Hq as <-. done. }
  destruct (path_client path) as [old|] eqn:Hold.
  - destruct (A9 old eq_refl) as [rel Hrel]. assert (old <> c) as Hne.
    { intros ->. apply Hnew. by apply Hheld. }
    rewrite lookup_insert_ne, Hrel by done.
    assert (Hcl : hold (close_client h old) (fun d => d = c)).
    { eapply hold_close_client; [| |exact H1]; cbn; [left; by apply Hheld|]. intros d. rewrite Hheld. naive_solver. }
    apply Hfin; [by apply hold_Close|]. rewrite Close_next. cbn. lia.
  - apply Hfin; [|lia]. eapply hold_iff; [|exact H1]. intros d. cbn beta. rewrite Hheld. naive_solver.
Qed.

(** ** Stopping *)

Lemma capture_close_spec t reason :
  capture_inv (t_cap t) ->
  frame t (capture_close t reason false) /\ capture_inv (t_cap (capture_close t reason false)) /\
  g_env (t_cap (capture_close t reason false)) = None.
Proof.
  intros Hc. pose proof (closeCapture_down (t_cap t) reason) as Hd.
  destruct (capture_op_spec t (closeCapture marshal nowMs ios (t_cap t) reason false) Hc) as (F & I & E & _).
  { split; [by apply closeCapture_inv|]. destruct (closeCapture_note (t_cap t) reason false Hc) as [|[_ Hb]]; [by left|right].
    rewrite Hb. unfold captureBlocking. by rewrite Hd. }
  split; [exact F|]. split; [exact I|]. apply eq_None_not_Some. intros Hx. apply E in Hx. rewrite Hd in Hx. by destruct Hx.
Qed.

(** Closing the engine releases what its path held. *)
Lemma close_engine_hold t e (P : nat -> Prop) :
  hold (t_heap t) P -> t_egress t !! 0%nat = None ->
  (forall c, P c <-> match e with TailPath p => t_paths t !! p ≫= path_client = Some c | Netstack _ => False end) ->
  (forall c, P c -> is_Some (t_egress t !! c)) ->
  hold (t_heap (close_engine t e)) (fun _ => False).
Proof.
  intros Hh H0 HP He. unfold close_engine. destruct e as [ns|p].
  - cbn. eapply hold_iff; [|exact Hh]. intros c. by rewrite HP.
  - destruct (t_paths t !! p) as [path|] eqn:Hp.
    2: { eapply hold_iff; [|exact Hh]. intros c. by rewrite HP. }
    cbn [mbind option_bind] in HP. unfold path_close, path_egress. cbn [fst snd].
    change (tp_egress (path_drop (set_closed path))) with (tp_egress path).
    rewrite close_egress_eq by done. cbn [t_heap t_egress with_paths emit_event].
    destruct (path_client path) as [c|].
    + destruct (He c) as [rel Hrel]; [by apply HP|]. cbn [t_egress with_paths]. rewrite Hrel. cbn. apply hold_Close.
      eapply hold_close_client; [| |exact Hh]; [by apply HP|]. intros d. rewrite HP. naive_solver.
    + cbn. eapply hold_iff; [|exact Hh]. intros d. by rewrite HP.
Qed.

(** What closing the engine leaves alone. *)
Lemma close_engine_frame t e :
  t_egress (close_engine t e) = t_egress t /\ t_npath (close_engine t e) = t_npath t /\ t_hook (close_engine t e) = t_hook t /\
  t_cap (close_engine t e) = t_cap t /\ (forall q, t_paths t !! q = None -> t_paths (close_engine t e) !! q = None).
Proof.
  unfold close_engine. destruct e as [ns|p]; [done|]. destruct (t_paths t !! p) as [path|] eqn:Hp; [|done].
  assert (Hq : forall q, t_paths t !! q = None -> <[p := (path_close path).1]> (t_paths t) !! q = None).
  { intros q Hq. rewrite lookup_insert_ne; [done|]. intros ->. congruence. }
  unfold close_egress. destruct (path_close path).2 as [id|]; [|done]. cbn [t_egress with_paths].
  by destruct (t_egress t !! Z.to_nat id).
Qed.
Lemma close_engine_next t e : h_next (t_heap (close_engine t e)) = h_next (t_heap t).
Proof.
  unfold close_engine. destruct e as [ns|p]; [done|]. destruct (t_paths t !! p) as [path|]; [|done].
  unfold close_egress. destruct (path_close path).2 as [id|]; [|done]. cbn [t_egress with_paths].
  destruct (t_egress t !! Z.to_nat id); [|done]. cbn. by rewrite Close_next.
Qed.

(** [closeCapture] and [stopTailnetLocked]: the store and the egress of every path stay. *)
Record quiesced (t t' : tunnel) : Prop := {
  qu_heap : t_heap t' = t_heap t; qu_egress : t_egress t' = t_egress t; qu_npath : t_npath t' = t_npath t;
  qu_hook : t_hook t' = None; qu_inv : capture_inv (t_cap t'); qu_env : g_env (t_cap t') = None;
  qu_none : forall q, t_paths t !! q = None -> t_paths t' !! q = None;
  qu_client : forall q, t_paths t' !! q ≫= path_client = t_paths t !! q ≫= path_client
}.
Lemma stopTailnet_quiesced t t' :
  frame t t' -> capture_inv (t_cap t') -> g_env (t_cap t') = None -> quiesced t (stopTailnetLocked t').
Proof.
  intros [F1 F2 F3 F4 F5 F6 F7] I E.
  assert (Hc : forall q, t_paths t' !! q ≫= path_client = t_paths t !! q ≫= path_client).
  { intros q. destruct (t_paths t !! q) as [path|] eqn:Hq; [|by rewrite (F6 q Hq)].
    destruct (F7 q path Hq) as (path' & -> & B & _). cbn. unfold path_client. by rewrite B. }
  unfold stopTailnetLocked. set (m := cancel_path (with_hook t' None)).
  assert (Hm : t_heap m = t_heap t' /\ t_egress m = t_egress t' /\ t_npath m = t_npath t' /\ t_hook m = None /\ t_cap m = t_cap t' /\
    (forall q, t_paths t' !! q = None -> t_paths m !! q = None) /\
    (forall q, t_paths m !! q ≫= path_client = t_paths t' !! q ≫= path_client)).
  { subst m. unfold cancel_path. cbn. destruct (gl_tailnetPath (t_g t')) as [p|]; cbn; [|done]. split_and!; try done.
    - intros q Hq. rewrite lookup_alter_None. done.
    - intros q. destruct (decide (q = p)) as [->|Hne]; [|by rewrite lookup_alter_ne].
      rewrite lookup_alter_eq. by destruct (t_paths t' !! p). }
  clearbody m. destruct Hm as (M1 & M2 & M3 & M4 & M5 & M6 & M7).
  split; destruct (gl_tailnet (t_g t')), (gl_tailnetPath (t_g t')); cbn; rewrite ?M1, ?M2, ?M3, ?M5; try done;
    first [by intros q Hq; apply M6, F6|by intros q; rewrite M7, Hc].
Qed.

(** The clients the path of the engine holds. *)
Definition path_held (t : tunnel) (e : packetEngine) (c : nat) : Prop :=
  match e with TailPath p => t_paths t !! p ≫= path_client = Some c | Netstack _ => False end.

(** Closing the tunnel's own client and relay leaves the egress of the path. *)
Lemma stop_clients t e :
  tunnel_inv t -> gl_stack (t_g t) = Some e ->
  hold (Close (close_client_opt (t_heap t) (gl_client (t_g t))) (gl_relay (t_g t))) (path_held t e) /\
  (forall c, path_held t e c -> is_Some (t_egress t !! c)).
Proof.
  intros Ht Hs. destruct (ti_up _ Ht _ Hs) as (_ & cfg & _ & _ & Hok).
  destruct e as [ns|p].
  - split; [|done]. apply hold_Close. destruct (gl_client (t_g t)) as [c|] eqn:Hc; cbn [close_client_opt].
    + eapply hold_close_client; [| |exact (ti_hold _ Ht)]; [by left|]. intros d. unfold held. rewrite Hc, Hs. cbn. naive_solver.
    + eapply hold_iff; [|exact (ti_hold _ Ht)]. intros d. unfold held. rewrite Hc, Hs. cbn. naive_solver.
  - destruct Hok as (_ & _ & _ & _ & Hc & _ & path & Hp & _ & Hx). unfold path_held. rewrite Hc, Hp. cbn. split; [|exact Hx].
    apply hold_Close. eapply hold_iff; [|exact (ti_hold _ Ht)]. intros d. unfold held. rewrite Hc, Hs. split.
    + intros [|(q & pt & [= <-] & Hq & Hd)]; [done|]. rewrite Hp in Hq. injection Hq as <-. done.
    + intros Hd. right. eauto.
Qed.

Lemma stop_spec t e :
  tunnel_inv t -> gl_stack (t_g t) = Some e ->
  tunnel_inv (StopTunnel t) /\ t_g (StopTunnel t) = no_globals /\ hold (t_heap (StopTunnel t)) (fun _ => False).
Proof.
  intros Ht Hs. unfold StopTunnel. rewrite Hs. cbn zeta.
  destruct (stop_clients t e Ht Hs) as [Hh2 HPe].
  set (h2 := Close _ (gl_relay (t_g t))) in *.
  set (t3 := with_g _ (mkGlobals (Some e) _ _ _ None None _ _)).
  destruct (capture_close_spec t3 (lit "tunnelStopped")) as (F & I & E); [exact (ti_capture _ Ht)|].
  pose proof (stopTailnet_quiesced _ _ F I E) as [Q1 Q2 Q3 Q4 Q5 Q6 Q7 Q8].
  set (t4 := stopTailnetLocked _) in *. clearbody t4. clear F I E.
  change (t_heap t3) with h2 in Q1. change (t_egress t3) with (t_egress t) in Q2. change (t_npath t3) with (t_npath t) in Q3.
  change (t_paths t3) with (t_paths t) in Q7, Q8.
  assert (Hfin : hold (t_heap (close_engine t4 e)) (fun _ => False)).
  { eapply close_engine_hold; [rewrite Q1; exact Hh2|rewrite Q2; apply Ht| |by rewrite Q2].
    intros c. unfold path_held. destruct e; [done|]. by rewrite Q8. }
  destruct (close_engine_frame t4 e) as (K1 & K2 & K3 & K4 & K5).
  pose proof (close_engine_next t4 e) as K6. rewrite Q1 in K6.
  assert (Hn : (1 <= h_next h2)%nat).
  { pose proof (ti_next _ Ht). subst h2. rewrite Close_next. by destruct (gl_client (t_g t)). }
  set (t5 := close_engine t4 e) in *. clearbody t5 h2.
  set (t6 := if gl_cb (t_g t) then _ else _).
  assert (H6 : t_heap t6 = t_heap t5 /\ t_egress t6 = t_egress t5 /\ t_npath t6 = t_npath t5 /\ t_hook t6 = t_hook t5 /\
    t_cap t6 = t_cap t5 /\ t_paths t6 = t_paths t5) by (subst t6; destruct (gl_cb (t_g t)); cbn; auto 10).
  clearbody t6. destruct H6 as (L1 & L2 & L3 & L4 & L5 & L6).
  split_and!; [|done|by cbn; rewrite L1].
  split; cbn; rewrite ?L1, ?L2, ?L3, ?L4, ?L5, ?L6, ?K1, ?K2, ?K3, ?K4; try done.
  - eapply hold_iff; [|exact Hfin]. intros c. unfold held. cbn. naive_solver.
  - by rewrite K6.
  - by rewrite Q6.
  - intros q Hq. apply K5, Q7, (ti_paths _ Ht). by rewrite <- Q3.
  - rewrite Q2. apply Ht.
Qed.

(** ** Runs *)

(** Calls into the package one after the other: relays are made and closed by their holder,
    tunnels start and stop, capture is configured; recorders, packets and counters move on
    their own.  [TailscaleAttachTSSH] is one step here; see [attach_race]. *)
Inductive tunnel_step : tunnel -> tunnel -> Prop :=
| st_prepare t json parent i h :
    prepareRelay Unmarshal debugLogger dial (t_heap t) json parent = Ok (i, h) -> tunnel_step t (with_heap t h)
| st_release t r : tunnel_step t (with_heap t (Close (t_heap t) r))
| st_start t json cb relay ok : tunnel_step t (StartTunnelWithRelay t json cb relay ok).2
| st_tailscale t json store cb ok : tunnel_step t (StartTailscaleTunnel t json store cb ok).2
| st_attach t json relay : tunnel_step t (TailscaleAttachTSSH t json relay).2
| st_stop t : tunnel_step t (StopTunnel t)
| st_configure t raw : tunnel_step t (CaptureConfigure t raw).2
| st_capture_stop t : tunnel_step t (CaptureStop t)
| st_record t i e c :
    g_recs (t_cap t) !! i = Some e -> (forall kind reason, c <> CClose kind reason) ->
    tunnel_step t (with_cap t (with_recs (t_cap t) (<[i := {| re_session := re_session e;
      re_rec := exec marshal nowMs open_ok write_ok (re_rec e) c |}]> (g_recs (t_cap t)))))
| st_packets t p path path' :
    t_paths t !! p = Some path -> tp_egress path' = tp_egress path -> tp_egressOn path' = tp_egressOn path ->
    tp_capturing path' = tp_capturing path -> tunnel_step t (with_paths t (<[p := path']> (t_paths t)))
| st_stats t s s' :
    gl_stats (t_g t) = Some s ->
    tunnel_step t (with_g t (mkGlobals (gl_stack (t_g t)) (Some s') (gl_config (t_g t)) (gl_cb (t_g t)) (gl_relay (t_g t))
                               (gl_client (t_g t)) (gl_tailnet (t_g t)) (gl_tailnetPath (t_g t)))).

Lemma inv_stop t : tunnel_inv t -> tunnel_inv (StopTunnel t).
Proof.
  intros Ht. destruct (gl_stack (t_g t)) as [e|] eqn:Hs; [by apply (stop_spec t e)|].
  unfold StopTunnel. by rewrite Hs.
Qed.
Lemma inv_packets t p path path' :
  tunnel_inv t -> t_paths t !! p = Some path -> tp_egress path' = tp_egress path -> tp_egressOn path' = tp_egressOn path ->
  tp_capturing path' = tp_capturing path -> tunnel_inv (with_paths t (<[p := path']> (t_paths t))).
Proof.
  intros Ht Hp E1 E2 E3. eapply inv_frame; [exact Ht| |apply Ht|done]. split; try done; cbn.
  - intros q Hq. rewrite lookup_insert_ne; [done|]. intros ->. congruence.
  - intros q path0 Hq. destruct (decide (q = p)) as [->|Hne].
    + rewrite lookup_insert_eq. exists path'. assert (path0 = path) as -> by congruence. split_and!; try done. congruence.
    + rewrite lookup_insert_ne by done. exists path0. done.
Qed.
Lemma inv_stats t s s' :
  tunnel_inv t -> gl_stats (t_g t) = Some s ->
  tunnel_inv (with_g t (mkGlobals (gl_stack (t_g t)) (Some s') (gl_config (t_g t)) (gl_cb (t_g t)) (gl_relay (t_g t))
                          (gl_client (t_g t)) (gl_tailnet (t_g t)) (gl_tailnetPath (t_g t)))).
Proof.
  intros [H1 H2 H3 H4 H5 H6 H7 H8] Hs. split; try done.
  intros e He. destruct (H6 e He) as (_ & cfg & A & B & C). split; [done|]. exists cfg. split_and!; try done.
Qed.

Lemma tunnel_step_inv t t' : tunnel_inv t -> tunnel_step t t' -> tunnel_inv t'.
Proof.
  intros Ht Hst. destruct Hst as [t json parent i h Hp|t r|t json cb relay ok|t json store cb ok|t json relay|t|t raw|t
                                 |t i e c Hi Hc|t p path path' Hp E1 E2 E3|t s s' Hs].
  - destruct (hold_prepare _ _ _ _ _ _ (ti_hold _ Ht) Hp). by apply inv_heap.
  - apply inv_heap; [done|apply hold_Close, Ht|]. by rewrite Close_next.
  - by apply inv_start.
  - by apply inv_tailscale.
  - by apply inv_attach.
  - by apply inv_stop.
  - by apply inv_configure.
  - by apply inv_capture_stop.
  - destruct Ht as [H1 H2 H3 H4 H5 H6 H7 H8]. split; try done.
    apply capture_inv_iff in H3 as [G1 G2]. apply capture_inv_iff. split; [|done]. cbn [t_cap]. by apply record_core.
  - by eapply inv_packets.
  - by eapply inv_stats.
Qed.
Lemma tunnel_run_inv t : rtc tunnel_step init_tunnel t -> tunnel_inv t.
Proof. intros H. pose proof inv_init as H0. induction H as [|x y z Hxy _ IH]; [done|]. apply IH. by eapply tunnel_step_inv. Qed.

(** C6: at most one tunnel runs and nothing leaks: in every sequence of starts, stops,
    relays made and closed, egresses attached and capture configured, capture has an
    environment exactly while a tunnel runs; with no tunnel no client, relay, Tailscale
    engine or routing hook is retained; a running tunnel has an MTU, its packet engine and
    its dialer agree with the client it holds, a Tailscale path follows the capture state;
    and every open UDP client is either the one the tunnel holds or belongs to an open relay. *)
Theorem tunnel_ownership t :
  rtc tunnel_step init_tunnel t ->
  (is_Some (g_env (t_cap t)) <-> is_Some (gl_stack (t_g t))) /\
  (gl_stack (t_g t) = None ->
     gl_relay (t_g t) = None /\ gl_client (t_g t) = None /\ gl_tailnet (t_g t) = false /\ gl_tailnetPath (t_g t) = None /\
     t_hook t = None) /\
  (forall e, gl_stack (t_g t) = Some e ->
     0 < GetEffectiveMTU t /\ exists cfg, gl_config (t_g t) = Some cfg /\ engine_ok t cfg e) /\
  (forall c, client_open (t_heap t) c ->
     held t c \/ exists i r, h_relays (t_heap t) !! i = Some r /\ r_client r = Some c /\ r_closed r = false) /\
  (forall c, held t c -> client_open (t_heap t) c).
Proof.
  intros Ht%tunnel_run_inv. destruct Ht as [[W H1 H1'] H2 H3 H4 H5 H6 H7 H8]. split_and!; try done.
  - intros e He. destruct (H6 e He) as (_ & cfg & A & B & C). unfold GetEffectiveMTU. rewrite A. eauto.
  - intros c Hc. destruct (H1' c Hc) as [|(i & r & A & B)]; [by left|right]. exists i, r. split_and!; try done.
    by apply (wh_state _ _ W _ _ _ A B).
  - intros c Hc. by apply H1.
Qed.

(** C24: a transport behind a relay never sends packets its carrier cannot take: in every run
    the packet size a client was given is at most the datagram payload of the client it
    travels through and at least what its mode needs, along every chain of relays. *)
Theorem nested_packets_fit t :
  rtc tunnel_step init_tunnel t ->
  forall c cl q, h_clients (t_heap t) !! c = Some cl -> cl_proxy cl = Some q ->
  exists cq, h_clients (t_heap t) !! q = Some cq /\ min_packet (cl_mode cl) <= cl_mtu cl <= cl_budget cq.
Proof. intros Ht%tunnel_run_inv. apply (wh_mtu _ _ (ho_wf _ _ (ti_hold _ Ht))). Qed.

(** With our own netstack, stopping closes the client, then the relay. *)
Lemma stop_heap t ns :
  tunnel_inv t -> gl_stack (t_g t) = Some (Netstack ns) ->
  t_heap (StopTunnel t) = Close (close_client_opt (t_heap t) (gl_client (t_g t))) (gl_relay (t_g t)).
Proof.
  intros Ht Hs. unfold StopTunnel. rewrite Hs. cbn zeta. set (t3 := with_g _ (mkGlobals (Some (Netstack ns)) _ _ _ None None _ _)).
  destruct (capture_close_spec t3 (lit "tunnelStopped")) as (F & I & E); [exact (ti_capture _ Ht)|].
  pose proof (qu_heap _ _ (stopTailnet_quiesced _ _ F I E)) as Q. set (t4 := stopTailnetLocked _) in *.
  clearbody t4. cbn [close_engine]. by destruct (gl_cb (t_g t)).
Qed.

Lemma relay_path t r : tunnel_inv t -> gl_relay (t_g t) = Some r -> exists ns, gl_stack (t_g t) = Some (Netstack ns).
Proof.
  intros Ht Hr. destruct (gl_stack (t_g t)) as [e|] eqn:Hs; [|by destruct (ti_down _ Ht Hs) as (? & _); congruence].
  destruct (ti_up _ Ht _ Hs) as (_ & cfg & _ & _ & Hok). destruct e as [ns|p]; [eauto|].
  destruct Hok as (_ & _ & _ & _ & _ & ? & _). congruence.
Qed.
Lemma client_path t c : tunnel_inv t -> gl_client (t_g t) = Some c -> exists ns, gl_stack (t_g t) = Some (Netstack ns).
Proof.
  intros Ht Hr. destruct (gl_stack (t_g t)) as [e|] eqn:Hs; [|by destruct (ti_down _ Ht Hs) as (_ & ? & _); congruence].
  destruct (ti_up _ Ht _ Hs) as (_ & cfg & _ & _ & Hok). destruct e as [ns|p]; [eauto|].
  destruct Hok as (_ & _ & _ & _ & ? & _). congruence.
Qed.

Lemma close_client_via h c a b : via h a b -> via (close_client_opt h c) a b.
Proof.
  assert (E : h_relays (close_client_opt h c) = h_relays h) by (by destruct c).
  induction 1 as [|i r p j Hi Hp _ IH]; [constructor|]. eapply via_parent; [by rewrite E|exact Hp|exact IH].
Qed.

Lemma stop_relays t r j :
  tunnel_inv t -> gl_relay (t_g t) = Some r -> is_Some (h_relays (t_heap t) !! r) -> via (t_heap t) r j ->
  relay_closed (t_heap (StopTunnel t)) j.
Proof.
  intros Ht Hr Hex Hv. destruct (relay_path _ _ Ht Hr) as [ns Hs]. rewrite (stop_heap _ _ Ht Hs), Hr.
  assert (W : wf_heap (close_client_opt (t_heap t) (gl_client (t_g t)))).
  { destruct (gl_client (t_g t)) as [c|] eqn:Hc; cbn; [|apply Ht]. destruct (ti_hold _ Ht) as [W H2 _].
    apply wf_close_client; [done|]. intros i rl Hi Hrc. destruct (H2 c) as [_ Hno]; [by left|]. apply Hno. by exists i, rl. }
  destruct (Close_spec _ r W) as (W' & Hc & C); [by destruct (gl_client (t_g t))|].
  eapply closed_via; [exact W'| |exact Hc]. eapply closes_via; [exact C|]. by apply close_client_via.
Qed.

Lemma close_chain_log fuel : forall h r, h_closed h `prefix_of` h_closed (close_chain fuel h r).
Proof.
  induction fuel as [|n IH]; intros h r; [done|]. cbn. destruct r as [i|]; [|done].
  destruct (h_relays h !! i) as [rl|]; [|done]. destruct (r_closed rl); [done|]. etransitivity; [|apply IH].
  destruct (r_client rl); cbn; [by apply prefix_app_r|done].
Qed.
Lemma stop_client_first t c :
  tunnel_inv t -> gl_client (t_g t) = Some c -> exists l, h_closed (t_heap (StopTunnel t)) = h_closed (t_heap t) ++ c :: l.
Proof.
  intros Ht Hc. destruct (client_path _ _ Ht Hc) as [ns Hs]. rewrite (stop_heap _ _ Ht Hs), Hc. cbn [close_client_opt].
  assert (Hp : h_closed (close_client (t_heap t) c) `prefix_of` h_closed (Close (close_client (t_heap t) c) (gl_relay (t_g t)))).
  { unfold Close. destruct (gl_relay (t_g t)); [apply close_chain_log|done]. }
  destruct Hp as [l ->]. cbn. rewrite <- app_assoc. eauto.
Qed.

(** C4: stopping releases everything: from any reachable running state StopTunnel leaves no
    tunnel, no capture environment and no open recorder; it closes the tunnel's own client
    first, then the retained relay and every relay it was reached through; and the only
    clients still open afterwards belong to open relays, which their holders own. *)
Theorem stop_releases t e :
  rtc tunnel_step init_tunnel t -> gl_stack (t_g t) = Some e ->
  t_g (StopTunnel t) = no_globals /\ g_env (t_cap (StopTunnel t)) = None /\
  (forall i, ~ is_open (t_cap (StopTunnel t)) i) /\
  (forall c, gl_client (t_g t) = Some c -> exists l, h_closed (t_heap (StopTunnel t)) = h_closed (t_heap t) ++ c :: l) /\
  (forall r j, gl_relay (t_g t) = Some r -> is_Some (h_relays (t_heap t) !! r) -> via (t_heap t) r j ->
     relay_closed (t_heap (StopTunnel t)) j) /\
  (forall c, client_open (t_heap (StopTunnel t)) c ->
     exists i r, h_relays (t_heap (StopTunnel t)) !! i = Some r /\ r_client r = Some c /\ r_closed r = false).
Proof.
  intros Ht%tunnel_run_inv Hs. destruct (stop_spec t e Ht Hs) as (Ht' & Hg & [W _ Ho]).
  assert (He : g_env (t_cap (StopTunnel t)) = None).
  { apply eq_None_not_Some. intros Hx. apply (ti_env _ Ht') in Hx. rewrite Hg in Hx. by destruct Hx. }
  split_and!; [done|done| | | |].
  - intros i Hi. destruct (ti_capture _ Ht') as [I1 _ _ I4 _]. apply I1 in Hi. by rewrite (I4 He) in Hi.
  - intros c Hc. by apply stop_client_first.
  - intros r j Hr Hx Hv. by eapply stop_relays.
  - intros c Hc. destruct (Ho c Hc) as [[]|(i & r & A & B)]. exists i, r. split_and!; try done.
    by apply (wh_state _ _ W _ _ _ A B).
Qed.

(** Closing the client the transport made undoes what the transport did. *)
Lemma select_transport_undo t cfg relay tr :
  tunnel_inv t -> gl_stack (t_g t) = None -> select_transport (t_heap t) (t_g t) cfg relay = Ok tr ->
  h_relays (tr_heap tr) = h_relays (t_heap t) /\
  (forall d, client_open (close_client_opt (tr_heap tr) (tr_client tr)) d <-> client_open (t_heap t) d).
Proof.
  intros Ht Hs. destruct (ti_down _ Ht Hs) as (_ & D2 & _). unfold select_transport. rewrite D2.
  destruct (bool_decide (vc_TransportType cfg = lit "tssh")).
  - destruct (through_relay _ cfg relay) as [proxy|] eqn:Hr; [|done]. cbn [rbind]. destruct (_ && _); [done|].
    destruct (connectTSSH _ _ _ cfg proxy) as [[c h']|] eqn:Hcn; [|done]. intros [= <-]. cbn [tr_client tr_heap close_client_opt fst snd].
    destruct (connectTSSH_spec _ _ _ _ _ _ _ _ (ho_wf _ _ (ti_hold _ Ht)) Hr Hcn) as (_ & _ & _ & Er & Hc & Hd & _).
    split; [exact Er|]. intros d. rewrite shut_client_open. unfold client_open.
    destruct (decide (d = c)) as [->|Hne]; [|rewrite (Hd d Hne); naive_solver]. rewrite Hc. naive_solver.
  - destruct (bool_decide _); [destruct (bool_decide _); [done|]|destruct (bool_decide _); [|done]]; by intros [= <-].
Qed.

(** C23: a start that fails changes nothing its caller owns: whatever the error, the same
    clients are open as before, no relay is closed, and the tunnel that was running, if any,
    runs on with its client and relay. *)
Theorem failed_start_leaks_nothing t json cb relay ok err t' :
  rtc tunnel_step init_tunnel t -> StartTunnelWithRelay t json cb relay ok = (Some err, t') ->
  h_relays (t_heap t') = h_relays (t_heap t) /\ (forall c, client_open (t_heap t') c <-> client_open (t_heap t) c) /\
  gl_stack (t_g t') = gl_stack (t_g t) /\ gl_client (t_g t') = gl_client (t_g t) /\ gl_relay (t_g t') = gl_relay (t_g t).
Proof.
  intros Ht%tunnel_run_inv. unfold StartTunnelWithRelay. case_bool_decide as Hs; [by intros [= _ <-]|].
  apply eq_None_not_Some in Hs. destruct (ti_down _ Ht Hs) as (D1 & D2 & _).
  destruct (ParseConfig Unmarshal json) as [cfg|]; [|by intros [= _ <-]]. cbn [t_heap with_cap].
  destruct (select_transport (t_heap t) (t_g t) cfg relay) as [tr|] eqn:Htr; [|by intros [= _ <-]; rewrite Hs].
  set (cfg' := if vc_MTU (tr_cfg tr) <=? 0 then _ else _). clearbody cfg'. unfold newTunnelStack.
  destruct (negb ok); [|done]. intros [= _ <-]. cbn. rewrite Hs, D2. split_and!; try done.
  - destruct (tr_client tr); apply (select_transport_undo _ _ _ _ Ht Hs Htr).
  - apply (select_transport_undo _ _ _ _ Ht Hs Htr).
Qed.

(** ** The automatic MTU *)

Lemma resolve_mtu_auto cfg budget :
  vc_MTU cfg <= 0 -> let c := resolve_mtu cfg budget in
  minTunMTU <= vc_MTU c /\ (vc_BlockQUIC c = false -> budget <= 0 \/ minQUICPayload <= budget) /\
  (minTunMTU <= budget + ipv4Overhead -> minQUICPayload <= budget -> vc_MTU c = budget + ipv4Overhead).
Proof.
  intros H. unfold resolve_mtu. rewrite (proj2 (Z.leb_le _ _) H). unfold minTunMTU, minQUICPayload, ipv4Overhead.
  destruct (Z.ltb_spec 0 budget); [destruct (Z.leb_spec 1200 budget)|]; cbn; split_and!; try done; try lia.
Qed.

Lemma apply_initial_capture_g t json : t_g (apply_initial_capture t json) = t_g t /\ t_heap (apply_initial_capture t json) = t_heap t.
Proof.
  unfold apply_initial_capture. destruct (capture_of json) as [raw|]; [|done]. destruct (_ || _); [done|].
  unfold CaptureConfigure, run_hook. cbn [snd t_hook t_paths t_cap with_cap].
  destruct (t_hook t) as [p|]; [|done]. cbn [mbind option_bind]. destruct (t_paths t !! p) as [path|]; [|done].
  cbn [mbind option_bind]. by destruct (_ <? _).
Qed.

(** C22: the automatic MTU: a tssh tunnel started without one runs with a TUN MTU of at least
    1280; it admits QUIC flows only when its datagrams carry the 1200 bytes QUIC needs (or
    there is no datagram path), and otherwise refuses UDP port 443; a datagram from the
    remote is handed to the device only whole, and only if it fits a packet of the interface
    and, with a datagram path, one of its datagrams; and from a payload of 1252 bytes on,
    the largest payload of a packet is exactly one datagram.  Nothing cuts or refuses the
    device's own datagrams: below 1252 bytes the largest do not fit ([auto_mtu_gap]). *)
Theorem auto_mtu t json cb relay ok cfg t' :
  StartTunnelWithRelay t json cb relay ok = (None, t') -> ParseConfig Unmarshal json = Ok cfg ->
  vc_TransportType cfg = lit "tssh" -> vc_MTU cfg <= 0 ->
  exists ns c cl,
    gl_stack (t_g t') = Some (Netstack ns) /\ gl_client (t_g t') = Some c /\ ns_tcpDial ns = TsshDialer c /\
    h_clients (t_heap t') !! c = Some cl /\ GetEffectiveMTU t' = ns_mtu ns /\ minTunMTU <= ns_mtu ns /\
    (forall blocking, allowFlow (ns_udpFwd ns) blocking 443 = true -> cl_budget cl <= 0 \/ minQUICPayload <= cl_budget cl) /\
    (forall dns data x, WriteNetstack x ∈ fromRemote (ns_udpFwd ns) dns data ->
       x = data /\ len x + ipv4Overhead <= ns_mtu ns /\ (0 < cl_budget cl -> len x <= cl_budget cl)) /\
    (1252 <= cl_budget cl -> ns_mtu ns - ipv4Overhead = cl_budget cl).
Proof.
  unfold StartTunnelWithRelay. intros Hst Hp Htr Hm. case_bool_decide; [done|]. rewrite Hp in Hst.
  cbn [t_heap with_cap] in Hst. unfold select_transport in Hst. rewrite Htr, bool_decide_eq_true_2 in Hst by done.
  destruct (through_relay _ cfg relay) as [proxy|]; [|done]. cbn [rbind] in Hst. destruct (_ && _); [done|].
  unfold connectTSSH in Hst. destruct (dial _) as [budget|]; [|done]. cbn [rbind fst snd h_clients add_client tr_cfg tr_client tr_tcp tr_udp tr_budget tr_heap] in Hst.
  rewrite lookup_insert_eq in Hst. cbn [cl_budget] in Hst.
  destruct (resolve_mtu_auto cfg budget Hm) as (R1 & R2 & R3). set (cfg' := resolve_mtu cfg budget) in *. clearbody cfg'.
  rewrite (proj2 (Z.leb_gt (vc_MTU cfg') 0)) in Hst by (unfold minTunMTU in R1; lia).
  unfold newTunnelStack in Hst. rewrite (proj2 (Z.leb_gt (vc_MTU cfg') 0)) in Hst by (unfold minTunMTU in R1; lia).
  destruct (negb ok); [done|]. injection Hst as <-.
  assert (Hg : forall t0, t_g (if cb then emit_event t0 TunnelReady else t0) = t_g t0 /\ t_heap (if cb then emit_event t0 TunnelReady else t0) = t_heap t0)
    by (intros; by destruct cb).
  eexists _, _, _. unfold GetEffectiveMTU. rewrite (proj1 (Hg _)), (proj2 (Hg _)).
  rewrite !(proj1 (apply_initial_capture_g _ _)), !(proj2 (apply_initial_capture_g _ _)). cbn [t_g t_heap with_cap with_g with_heap gl_stack gl_client gl_config].
  split; [reflexivity|]. split; [reflexivity|]. split; [reflexivity|]. split; [apply lookup_insert_eq|].
  cbn [ns_mtu ns_udpFwd cl_budget]. split; [reflexivity|]. split; [exact R1|]. split_and!.
  - intros blocking. unfold allowFlow, newUDPForwarder. cbn. intros Hq. apply R2.
    destruct (vc_BlockQUIC cfg'); [|done]. done.
  - intros dns data x. apply inbound_fits.
  - unfold minTunMTU, minQUICPayload, ipv4Overhead in *. intros Hb. rewrite R3 by lia. lia.
Qed.
End Tunnel.

(** ** Witnesses *)

#[local] Existing Instance caseless_tables.
#[local] Instance no_regexp_tunnel : Regexp :=
  {| re := unit; re_Compile := fun _ => None; re_MatchString := fun _ _ => false; re_ReplaceAll := fun _ b _ => Some b |}.

Definition sample_vpn (transport mode : bytes) (tsshMTU mtu : Z) (relay : bool) : VPNTunnelConfig :=
  mkVPN transport relay (lit "[fd00::1]") 61001 mode (lit "v1.0") [] [] [] [] [] [] 7 9 [] 0 tsshMTU 0 [] [] mtu false.
(** The first byte picks a configuration: a jump host, a target behind it, SSH without a
    proxy, Tailscale with a tssh egress. *)
Definition sample_unmarshal (json : bytes) : option VPNTunnelConfig :=
  match json with
  | 106 :: _ => Some (sample_vpn (lit "tssh") (lit "KCP") 0 0 false)
  | 116 :: _ => Some (sample_vpn (lit "tssh") (lit "QUIC") 1300 0 true)
  | 115 :: _ => Some (sample_vpn (lit "ssh") [] 0 1400 false)
  | 122 :: _ => Some (sample_vpn (lit "tailscale") [] 0 0 false)
  | _ => None
  end.
Definition sample_dial (o : UdpClientOptions) : option Z := Some (if oo_proxy o then 1100 else 1350).
Definition sample_extra (_ : bytes) : option (routingConfigJSON * bool) :=
  Some ({| rc_sendAllViaSSH := false; rc_rules := [] |}, true).

Abbreviation sample_run :=
  (rtc (tunnel_step sample_json 0 (fun _ _ => true) (fun _ _ _ => true) sample_parse (fun b => b)
          (fun _ => true) (fun _ => 0) (fun _ _ => true) true sample_unmarshal (fun _ => Some (lit "on")) sample_extra false sample_dial true)
     init_tunnel).
Definition sample_start (t : tunnel) (json : bytes) (relay : option nat) (ok : bool) : option tunnel_error * tunnel :=
  StartTunnelWithRelay sample_json 0 sample_parse (fun b => b) (fun _ => true) (fun _ => 0) (fun _ _ => true) true
    sample_unmarshal (fun _ => Some (lit "on")) false sample_dial t json true relay ok.
Definition sample_stop (t : tunnel) : tunnel := StopTunnel sample_json 0 true t.

(** A relay is prepared and a tunnel runs through it, recording. *)
Definition sample_relay : tunnel :=
  match PrepareRelay sample_unmarshal false sample_dial (t_heap init_tunnel) (lit "jump") with
  | Ok (_, h) => with_heap init_tunnel h
  | Err _ => init_tunnel
  end.
Definition sample_running : tunnel := (sample_start sample_relay (lit "target") (Some 2%nat) true).2.

Lemma sample_relay_run : sample_run sample_relay.
Proof.
  eapply rtc_l; [|apply rtc_refl].
  eapply (st_prepare _ _ _ _ _ _ _ _ _ _ _ _ _ _ _ _ init_tunnel (lit "jump") None 2%nat). vm_compute. reflexivity.
Defined.
Lemma sample_running_run : sample_run sample_running.
Proof.
  eapply rtc_r; [exact sample_relay_run|].
  exact (st_start _ _ _ _ _ _ _ _ _ _ _ _ _ _ _ _ sample_relay (lit "target") true (Some 2%nat) true).
Defined.

Lemma tunnel_ownership_witness :
  held sample_running 3%nat /\ client_open (t_heap sample_running) 3%nat /\ 0 < GetEffectiveMTU sample_running.
Proof.
  destruct (tunnel_ownership _ _ _ _ _ _ _ _ _ _ _ _ _ _ _ _ sample_running sample_running_run) as (_ & _ & H3 & _ & H5).
  assert (held sample_running 3%nat) as Hh by (left; vm_compute; reflexivity).
  split; [exact Hh|]. split; [exact (H5 _ Hh)|].
  destruct (gl_stack (t_g sample_running)) as [e|] eqn:E; [exact (proj1 (H3 e eq_refl))|vm_compute in E; discriminate].
Defined.

Lemma nested_packets_fit_witness :
  exists cq, h_clients (t_heap sample_running) !! 1%nat = Some cq /\ 1200 <= 1300 <= cl_budget cq.
Proof.
  destruct (h_clients (t_heap sample_running) !! 3%nat) as [cl|] eqn:E; [|vm_compute in E; discriminate].
  assert (cl_proxy cl = Some 1%nat /\ cl_mtu cl = 1300 /\ cl_mode cl = lit "QUIC") as (E1 & E2 & E3).
  { vm_compute in E. injection E as <-. split; [reflexivity|split; reflexivity]. }
  destruct (nested_packets_fit _ _ _ _ _ _ _ _ _ _ _ _ _ _ _ _ sample_running sample_running_run 3%nat cl 1%nat E E1) as (cq & H1 & H2).
  exists cq. split; [exact H1|]. rewrite E2, E3 in H2. exact H2.
Defined.

Lemma stop_releases_witness :
  t_g (sample_stop sample_running) = no_globals /\ relay_closed (t_heap (sample_stop sample_running)) 2%nat.
Proof.
  destruct (gl_stack (t_g sample_running)) as [e|] eqn:E; [|vm_compute in E; discriminate].
  destruct (stop_releases _ _ _ _ _ _ _ _ _ _ _ _ _ _ _ _ sample_running e sample_running_run E) as (H1 & _ & _ & _ & H5 & _).
  split; [exact H1|]. apply (H5 2%nat 2%nat); [vm_compute; reflexivity| |constructor].
  vm_compute. eexists. reflexivity.
Defined.

(** The stack cannot be made: the client that was connected is closed again. *)
Lemma failed_start_leaks_nothing_witness :
  client_open (t_heap (sample_start sample_relay (lit "target") (Some 2%nat) false).2) 1%nat /\
  ~ client_open (t_heap (sample_start sample_relay (lit "target") (Some 2%nat) false).2) 3%nat.
Proof.
  destruct (sample_start sample_relay (lit "target") (Some 2%nat) false) as [r t'] eqn:E.
  assert (Hr : r = Some EStack) by (change r with (fst (r, t')); rewrite <- E; vm_compute; reflexivity). subst r.
  destruct (failed_start_leaks_nothing _ _ _ _ _ _ _ _ _ _ _ _ _ _ _ _ _ _ _ _ _ _ _ sample_relay_run E) as (_ & H & _).
  cbn [snd]. rewrite !H. split.
  - eexists. split; [vm_compute; reflexivity|reflexivity].
  - intros (cl & Hc & _). vm_compute in Hc. discriminate.
Defined.

(** 1100-byte datagrams cannot carry QUIC: the MTU is 1280 and UDP 443 is refused. *)
Lemma auto_mtu_witness :
  exists ns, gl_stack (t_g sample_running) = Some (Netstack ns) /\ 1280 <= ns_mtu ns /\ allowFlow (ns_udpFwd ns) false 443 = false.
Proof.
  destruct (sample_start sample_relay (lit "target") (Some 2%nat) true) as [r t'] eqn:E.
  assert (Hr : r = None) by (change r with (fst (r, t')); rewrite <- E; vm_compute; reflexivity). subst r.
  assert (Ht : sample_running = t') by (unfold sample_running; rewrite E; reflexivity).
  destruct (auto_mtu _ _ _ _ _ _ _ _ _ _ _ _ _ _ _ _ _ (sample_vpn (lit "tssh") (lit "QUIC") 1300 0 true) _ E)
    as (ns & c & cl & H1 & H2 & _ & H4 & _ & H6 & H7 & _); [vm_compute; reflexivity|reflexivity|cbn; lia|].
  rewrite Ht. exists ns. split; [exact H1|]. split; [exact H6|].
  destruct (allowFlow (ns_udpFwd ns) false 443) eqn:Ea; [|reflexivity]. exfalso.
  rewrite <- Ht in H2, H4. assert (c = 3%nat) as -> by (vm_compute in H2; congruence).
  vm_compute in H4. injection H4 as <-. destruct (H7 false Ea) as [Hb|Hb]; unfold minQUICPayload in Hb; cbn in Hb; lia.
Defined.

(** ** Findings *)

(** With a budget of 1200 to 1251 bytes the MTU is raised to 1280, and the largest UDP
    payload of a packet no longer fits a datagram. *)
Lemma auto_mtu_gap cfg budget :
  vc_MTU cfg <= 0 -> minQUICPayload <= budget < minTunMTU - ipv4Overhead ->
  vc_MTU (resolve_mtu cfg budget) = minTunMTU /\ budget < vc_MTU (resolve_mtu cfg budget) - ipv4Overhead.
Proof.
  unfold resolve_mtu, minQUICPayload, minTunMTU, ipv4Overhead. intros H Hb.
  rewrite (proj2 (Z.leb_le _ _) H), (proj2 (Z.ltb_lt 0 budget)), (proj2 (Z.leb_le 1200 budget)) by lia.
  cbn [vc_MTU set_MTU]. lia.
Qed.

(** A start that failed leaves its configuration behind: no tunnel runs, yet an MTU is
    reported, and stopping does not clear it. *)
Lemma failed_start_reports_mtu :
  let t := (sample_start init_tunnel (lit "ssh") None true).2 in
  gl_stack (t_g t) = None /\ GetEffectiveMTU t = 1400 /\ GetEffectiveMTU (sample_stop t) = 1400.
Proof. vm_compute. done. Qed.

(** [TailscaleAttachTSSH] connects after it released the lock.  When the tunnel stops in
    between, the attach still reports success and its client stays open: nothing holds it,
    and no later stop closes it. *)
Definition sample_tailscale : tunnel :=
  (StartTailscaleTunnel sample_json 0 sample_parse (fun b => b) (fun _ => true) (fun _ => 0) (fun _ _ => true) true
     sample_unmarshal (fun _ => None) sample_extra true init_tunnel (lit "z") true true true).2.
Lemma attach_race :
  attach_begin sample_tailscale = Ok 1%nat /\
  let r := attach_finish sample_unmarshal false sample_dial (sample_stop sample_tailscale) 1%nat (lit "jump") None in
  r.1 = None /\ gl_stack (t_g r.2) = None /\ client_open (t_heap r.2) 1%nat /\ client_open (t_heap (sample_stop r.2)) 1%nat /\
  forall i rl, h_relays (t_heap r.2) !! i = Some rl -> r_client rl <> Some 1%nat.
Proof.
  split; [vm_compute; reflexivity|]. split_and!; try (vm_compute; reflexivity).
  - eexists. split; vm_compute; reflexivity.
  - eexists. split; vm_compute; reflexivity.
  - intros i rl Hi. vm_compute in Hi. done.
Qed.
