(* ===== verification/Auth.v ===== *)
(** * Authentication methods

    src/tssh/auth_method.go: which keys are offered and who signs with them, the password
    and keyboard-interactive callbacks with the state they keep between attempts, and the
    order of the methods.  Key parsing, the agent, the file system and the terminal are
    parameters; the settings are looked up as in SshConfig and tokens expanded as in
    Tokens. *)

From S2P Require Import Prelude GoStrings Tokens Forwarding KnownHosts SshConfig.

Local Open Scope go_scope.

(** ** Keys and signers *)

(** A public key: its type and what [Marshal] returns. *)
Record publicKey := { pk_type : bytes; pk_blob : bytes }.
(** A certificate, a public key itself, and the key it certifies. *)
Record certificate := { ct_pub : publicKey; ct_key : publicKey }.
(** What [ssh.ParseAuthorizedKey] finds. *)
Inductive authorizedKey := PlainKey (k : publicKey) | Certificate (c : certificate).
Definition authorized_pub (k : authorizedKey) : publicKey :=
  match k with PlainKey k => k | Certificate c => ct_pub c end.

Record agentSigner := { ag_id : nat; ag_pub : publicKey }.
(** What signs: a private key still locked by a passphrase, one that is loaded, the agent,
    or one of these presenting a certificate. *)
Inductive impl := Locked (priKey : bytes) | PrivateKey (pub : publicKey) | ViaAgent (a : agentSigner)
| CertSigner (c : certificate) (inner : impl).
(** [sshBaseSigner] *)
Record sshSigner := newSshSigner { ss_path : bytes; ss_pub : publicKey; ss_impl : impl }.

(** [sshAlogSigner.Algorithms], for RSA keys. *)
Definition Algorithms (s : sshSigner) : option (list bytes) :=
  if bool_decide (pk_type (ss_pub s) = lit "ssh-rsa") || bool_decide (pk_type (ss_pub s) = lit "ssh-rsa-cert-v01@openssh.com")
  then Some [lit "rsa-sha2-512"; lit "rsa-sha2-256"; lit "ssh-rsa"] else None.

(** The outcomes of the private key parsers; [KeySecurityKey] is [unsupportedSecurityKeyError]. *)
Inductive key_result :=
| KeyOk (pub : publicKey) | KeyPassphraseMissing (pub : option publicKey) | KeyIncorrectPassword | KeySecurityKey | KeyError.

Inductive init_error := ReadFailed | ParseFailed | PassphraseIncorrect.

Section Auth.
Context `{U : UnicodeTables}.
(** The settings, the [-o] options and what is being connected to. *)
Context (Default : bytes -> bytes) (cfg : settings) (o : gmap bytes (list bytes)) (param : sshParam).
Context (decodeSecret : bytes -> option bytes) (execSecretCommand : bytes -> bytes).
Context (hostname : bytes) (sha1hex : bytes -> bytes) (userHomeDir : bytes) (useOpenSSHConfig : bool).
(** The file system, the parsers of x/crypto and of keys.go, and security keys by path. *)
Context (isFileExist : bytes -> bool) (readFile : bytes -> option bytes).
Context (parseAuthorizedKey : bytes -> option authorizedKey).
Context (parsePrivateKey : bytes -> key_result) (parsePrivateKeyWithPassphrase : bytes -> bytes -> key_result).
Context (parseSecurityKey : bytes -> option publicKey).
(** [getTotpCode] and [getOtpCommandOutput]. *)
Context (getTotpCode : bytes -> bytes) (getOtpCommandOutput : bytes -> bytes -> bytes).

Abbreviation dest := (pr_Destination param).
Definition opt (key : bytes) : bytes := getOptionConfig Default cfg o dest key.
Definition opt_all (key : bytes) : list bytes := getAllOptionConfig Default cfg o dest key.
Definition secret (alias key : bytes) : bytes := getSecretConfig Default decodeSecret execSecretCommand cfg alias key.
Definition home (path : bytes) : bytes := resolveHomeDir userHomeDir path.

Definition parsePublicKey (path : bytes) : option publicKey :=
  data ← readFile path; k ← parseAuthorizedKey data; Some (authorized_pub k).

Definition newPassphraseSigner (path priKey : bytes) (pub : option publicKey) : option sshSigner :=
  match pub with
  | Some pub => Some (newSshSigner path pub (Locked priKey))
  | None => pub ← parsePublicKey (path ++ lit ".pub"); Some (newSshSigner path pub (Locked priKey))
  end.

(** The last part of [getSigner], once no passphrase is missing. *)
Definition loaded (path : bytes) (r : key_result) : option publicKey :=
  match r with
  | KeyOk pub => Some pub
  | KeySecurityKey => parseSecurityKey path
  | _ => None
  end.
Definition getSigner (alias path0 : bytes) : option sshSigner :=
  let path := home path0 in
  privateKey ← readFile path;
  match parsePrivateKey privateKey with
  | KeyPassphraseMissing pub =>
      let passphrase := secret alias (lit "Passphrase") in
      if bool_decide (passphrase = []) then newPassphraseSigner path privateKey pub
      else pub ← loaded path (parsePrivateKeyWithPassphrase privateKey passphrase); Some (newSshSigner path pub (PrivateKey pub))
  | r => pub ← loaded path r; Some (newSshSigner path pub (PrivateKey pub))
  end.

(** [initSigner]: the passphrases typed, [None] for one that could not be read, and how
    many were asked for. *)
Fixpoint init_loop (tries : nat) (s : sshSigner) (priKey : bytes) (secrets : list (option bytes)) : result init_error sshSigner * nat :=
  match tries with
  | O => (Err PassphraseIncorrect, O)
  | S tries' =>
      match secrets with
      | Some sec :: rest =>
          let again := let '(r, n) := init_loop tries' s priKey rest in (r, S n) in
          if bool_decide (sec = []) then again
          else match parsePrivateKeyWithPassphrase priKey sec with
               | KeyIncorrectPassword => again
               | r => match loaded (ss_path s) r with
                      | Some pub => (Ok (newSshSigner (ss_path s) (ss_pub s) (PrivateKey pub)), 1%nat)
                      | None => (Err ParseFailed, 1%nat)
                      end
               end
      | _ => (Err ReadFailed, 1%nat)
      end
  end.
Definition initSigner (s : sshSigner) (secrets : list (option bytes)) : result init_error sshSigner * nat :=
  match ss_impl s with Locked priKey => init_loop 3 s priKey secrets | _ => (Ok s, O) end.

(** ** Certificates *)

(** [tryAddCert]: [ssh.NewCertSigner] takes a certificate of the signer's own key. *)
Definition tryAddCert (path : bytes) (signer : sshSigner) (certPath : bytes) : list sshSigner :=
  if bool_decide (certPath = []) then []
  else
    let certPath := home certPath in
    if negb (isFileExist certPath) then []
    else match readFile certPath ≫= parseAuthorizedKey with
         | Some (Certificate c) =>
             if bool_decide (pk_blob (ct_key c) = pk_blob (ss_pub signer))
             then [newSshSigner path (ct_pub c) (CertSigner c (ss_impl signer))] else []
         | _ => []
         end.
Definition appendSignerCerts (path : bytes) (signer : sshSigner) (certFiles : list bytes) : list sshSigner :=
  [signer] ++ concat (map (tryAddCert path signer) certFiles) ++
  (if bool_decide (path = []) then [] else tryAddCert path signer (path ++ lit "-cert.pub")).

(** ** Public keys *)

Abbreviation offer := (list bytes * list sshSigner)%type.
(** [addPubKeySigners] *)
Definition add_signer (st : offer) (s : sshSigner) : offer :=
  if existsb (fun e => bool_decide (e = pk_blob (ss_pub s))) st.1 then st
  else (st.1 ++ [pk_blob (ss_pub s)], st.2 ++ [s]).
Definition addPubKeySigners (st : offer) (signers : list sshSigner) : offer := fold_left add_signer signers st.

Definition expand (v : bytes) : option bytes :=
  match expandTokens hostname sha1hex v param (lit "%CdhijkLlnpru") with Ok e => Some e | Err _ => None end.
Definition cert_files : list bytes := omap expand (opt_all (lit "CertificateFile")).
Definition identity_file (v : bytes) : option bytes :=
  e ← expand v;
  if useOpenSSHConfig then if isFileExist (home e) then Some (home e) else None else Some e.
Definition identity_files (args : list bytes) : list bytes := args ++ omap identity_file (opt_all (lit "IdentityFile")).

Definition find_agent (agent : list agentSigner) (k : publicKey) : option agentSigner :=
  find (fun a => bool_decide (pk_blob k = pk_blob (ag_pub a))) agent.

(** The public key file that goes with an identity. *)
Definition pub_path (path : bytes) : bytes := if HasSuffix path (lit ".pub") then path else path ++ lit ".pub".
(** One round of the loop over the identities: the path the certificate is looked for at,
    and the signer. *)
Definition identity_signer (agent : list agentSigner) (path : bytes) : option (bytes * sshSigner) :=
  let pubPath := pub_path path in
  let by_pub := if isFileExist pubPath then
                  k ← parsePublicKey (home pubPath); a ← find_agent agent k;
                  Some ([], newSshSigner (home pubPath ++ lit " (agent)") k (ViaAgent a))
                else None in
  match by_pub with
  | Some r => Some r
  | None =>
      s ← getSigner dest path;
      match find_agent agent (ss_pub s) with
      | Some a => Some (ss_path s, newSshSigner (ss_path s ++ lit " (agent)") (ss_pub s) (ViaAgent a))
      | None => Some (ss_path s, s)
      end
  end.

Definition default_names : list bytes :=
  [lit "id_rsa"; lit "id_ecdsa"; lit "id_ecdsa_sk"; lit "id_ed25519"; lit "id_ed25519_sk"; lit "identity"].
Definition getDefaultSigners : list sshSigner :=
  omap (fun name => let path := Join2 (Join2 userHomeDir (lit ".ssh")) name in
                    if isFileExist path then getSigner name path else None) default_names.

(** [getPublicKeysAuthMethod], with the [-i] identities and the signers of the agent. *)
Definition getPublicKeysAuthMethod (args : list bytes) (agent : list agentSigner) : option (list sshSigner) :=
  let v := ToLower (opt (lit "PubkeyAuthentication")) in
  if bool_decide (v = lit "no") || bool_decide (v = lit "false") then None
  else
    let add st path s := addPubKeySigners st (appendSignerCerts path s cert_files) in
    let identities := identity_files args in
    let st1 := fold_left (fun st path => match identity_signer agent path with Some (p, s) => add st p s | None => st end)
                 identities ([], []) in
    let st2 := if bool_decide (ToLower (opt (lit "IdentitiesOnly")) = lit "yes") then st1
               else fold_left (fun st a => add st [] (newSshSigner (lit "ssh-agent") (ag_pub a) (ViaAgent a))) agent st1 in
    let st3 := if bool_decide (identities = []) then fold_left (fun st s => add st (ss_path s) s) getDefaultSigners st2 else st2 in
    if bool_decide (st3.2 = []) then None else Some st3.2.

(** ** Passwords *)

Inductive prompt_event := UsedConfig (q : bytes) | WarnedConfig (q : bytes) | Prompted (q : bytes).

(** The variables the callback closes over: how often it ran, and whether a configured
    password was tried. *)
Record pw_state := { pw_idx : Z; pw_remember : bool }.
Definition pw_init : pw_state := {| pw_idx := 0; pw_remember := false |}.
Definition configured_password : bytes :=
  let password := option_get o (lit "Password") in
  if bool_decide (password = []) then secret dest (lit "Password") else password.
(** One run of the callback; [typed] is what the user would answer. *)
Definition pw_callback (st : pw_state) (typed : option bytes) : option bytes * pw_state * list prompt_event :=
  let idx := pw_idx st + 1 in
  let ask st evs := (typed, st, evs ++ [Prompted (lit "password")]) in
  if idx =? 1 then
    if bool_decide (configured_password = []) then ask {| pw_idx := idx; pw_remember := pw_remember st |} []
    else (Some configured_password, {| pw_idx := idx; pw_remember := true |}, [UsedConfig (lit "password")])
  else ask {| pw_idx := idx; pw_remember := pw_remember st |}
         (if (idx =? 2) && pw_remember st then [WarnedConfig (lit "password")] else []).
Definition getPasswordAuthMethod : option pw_state :=
  if bool_decide (ToLower (opt (lit "PasswordAuthentication")) = lit "no") then None else Some pw_init.

(** ** Keyboard-interactive *)

(** [hex.EncodeToString] *)
Definition hex_digit (d : Z) : Z := if d <? 10 then 48 + d else 87 + d.
Definition hexEncode (s : bytes) : bytes := concat (map (fun b => [hex_digit (b / 16); hex_digit (b mod 16)]) s).

(** The first non-empty of the six sources, tried in this order. *)
Definition or_else (a b : bytes) : bytes := if bool_decide (a = []) then b else a.
Definition totp_of (key : bytes) : bytes := let s := secret dest key in if bool_decide (s = []) then [] else getTotpCode s.
Definition otp_of (key question : bytes) : bytes :=
  let command := secret dest key in if bool_decide (command = []) then [] else getOtpCommandOutput command question.
Definition readQuestionAnswerConfig (idx : Z) (question : bytes) : bytes :=
  let qhex := hexEncode question in
  or_else (secret dest qhex)
    (or_else (totp_of (lit "totp" ++ qhex))
      (or_else (otp_of (lit "otp" ++ qhex) question)
        (or_else (secret dest (lit "QuestionAnswer" ++ Itoa idx))
          (or_else (totp_of (lit "TotpSecret" ++ Itoa idx))
            (otp_of (lit "OtpCommand" ++ Itoa idx) question))))).

(** The variables the callback closes over. *)
Record kbd := mkKbd { kb_idx : Z; kb_seen : gset bytes; kb_tried : gset bytes; kb_warned : gset bytes }.
Definition kbd_init : kbd := mkKbd 0 ∅ ∅ ∅.

(** One question: an answer from the configuration, or the events that precede the prompt. *)
Definition kbd_question (st : kbd) (q : bytes) : option bytes * kbd * list prompt_event :=
  let idx := kb_idx st + 1 in
  if negb (bool_decide (q ∈ kb_seen st)) then
    let answer := readQuestionAnswerConfig idx q in
    if bool_decide (answer = []) then (None, mkKbd idx ({[q]} ∪ kb_seen st) (kb_tried st) (kb_warned st), [])
    else (Some answer, mkKbd idx ({[q]} ∪ kb_seen st) ({[q]} ∪ kb_tried st) (kb_warned st), [UsedConfig q])
  else if bool_decide (q ∈ kb_tried st) && negb (bool_decide (q ∈ kb_warned st))
  then (None, mkKbd idx (kb_seen st) (kb_tried st) ({[q]} ∪ kb_warned st), [WarnedConfig q])
  else (None, mkKbd idx (kb_seen st) (kb_tried st) (kb_warned st), []).
(** A challenge: [typed] are the user's answers to the prompts, [None] for a failed read,
    which ends the challenge.  The answers, the state and what happened. *)
Fixpoint kbd_challenge (st : kbd) (questions : list bytes) (typed : list (option bytes)) (answers : list bytes)
    : option (list bytes) * kbd * list prompt_event :=
  match questions with
  | [] => (Some answers, st, [])
  | q :: qs =>
      let '(a, st1, evs) := kbd_question st q in
      match a with
      | Some a => let '(r, st2, evs2) := kbd_challenge st1 qs typed (answers ++ [a]) in (r, st2, evs ++ evs2)
      | None =>
          match typed with
          | Some a :: typed' =>
              let '(r, st2, evs2) := kbd_challenge st1 qs typed' (answers ++ [a]) in (r, st2, evs ++ Prompted q :: evs2)
          | _ => (None, st1, evs ++ [Prompted q])
          end
      end
  end.
Definition getKeyboardInteractiveAuthMethod : option kbd :=
  if bool_decide (ToLower (opt (lit "KbdInteractiveAuthentication")) = lit "no") then None else Some kbd_init.

(** ** All methods *)

Inductive auth_method := PublicKeys (signers : list sshSigner) | GSSAPI | KeyboardInteractive (st : kbd) | Password (st : pw_state).
(** [gssapi] says whether [getGSSAPIWithMICAuthMethod] returns a method. *)
Definition getAuthMethods (args : list bytes) (agent : list agentSigner) (gssapi : bool) : list auth_method :=
  match getPublicKeysAuthMethod args agent with Some l => [PublicKeys l] | None => [] end ++
  (if gssapi then [GSSAPI] else []) ++
  match getKeyboardInteractiveAuthMethod with Some st => [KeyboardInteractive st] | None => [] end ++
  match getPasswordAuthMethod with Some st => [Password st] | None => [] end.

(** ** The keys that are offered *)

Abbreviation blob s := (pk_blob (ss_pub s)).

(** The candidates in the order they are added, each with its certificates. *)
Definition with_certs (c : bytes * sshSigner) : list sshSigner := appendSignerCerts c.1 c.2 cert_files.
Definition candidates (args : list bytes) (agent : list agentSigner) : list sshSigner :=
  let identities := identity_files args in
  concat (map with_certs
    (omap (identity_signer agent) identities ++
     (if bool_decide (ToLower (opt (lit "IdentitiesOnly")) = lit "yes") then []
      else map (fun a => ([], newSshSigner (lit "ssh-agent") (ag_pub a) (ViaAgent a))) agent) ++
     (if bool_decide (identities = []) then map (fun s => (ss_path s, s)) getDefaultSigners else []))).

Lemma addPubKeySigners_app st l1 l2 : addPubKeySigners st (l1 ++ l2) = addPubKeySigners (addPubKeySigners st l1) l2.
Proof. unfold addPubKeySigners. by rewrite fold_left_app. Qed.
Lemma add_concat {A} (f : A -> list sshSigner) l : forall st,
  fold_left (fun st x => addPubKeySigners st (f x)) l st = addPubKeySigners st (concat (map f l)).
Proof. induction l as [|x l IH]; intros st; [done|]. cbn [fold_left map concat]. by rewrite IH, addPubKeySigners_app. Qed.
Lemma add_omap {A} (f : A -> option (bytes * sshSigner)) l : forall st,
  fold_left (fun st x => match f x with Some (p, s) => addPubKeySigners st (appendSignerCerts p s cert_files) | None => st end) l st =
  addPubKeySigners st (concat (map with_certs (omap f l))).
Proof.
  induction l as [|x l IH]; intros st; [done|]. cbn [fold_left]. rewrite IH. change (omap f (x :: l)) with (match f x with Some y => y :: omap f l | None => omap f l end).
  destruct (f x) as [[p s]|]; [|done]. cbn [map concat]. by rewrite addPubKeySigners_app.
Qed.

(** The loops of [getPublicKeysAuthMethod] add the candidates one after the other. *)
Lemma offered_candidates args agent l :
  getPublicKeysAuthMethod args agent = Some l -> l = (addPubKeySigners ([], []) (candidates args agent)).2 /\ l <> [].
Proof.
  unfold getPublicKeysAuthMethod, candidates. destruct (_ || _); [done|].
  rewrite add_omap. rewrite !map_app, !concat_app, !addPubKeySigners_app.
  set (st1 := addPubKeySigners ([], []) _). clearbody st1.
  set (b := bool_decide (ToLower _ = lit "yes")). clearbody b.
  set (st2 := if b then st1 else _).
  assert (E : st2 = addPubKeySigners st1 (concat (map with_certs (if b then [] else map (fun a => ([], newSshSigner (lit "ssh-agent") (ag_pub a) (ViaAgent a))) agent)))).
  { subst st2. destruct b; [done|]. rewrite map_map.
    exact (add_concat (fun a => with_certs ([], newSshSigner (lit "ssh-agent") (ag_pub a) (ViaAgent a))) agent st1). }
  rewrite <- E. clearbody st2. clear E.
  set (st3 := if bool_decide (identity_files args = []) then _ else _).
  assert (E : st3 = addPubKeySigners st2 (concat (map with_certs (if bool_decide (identity_files args = []) then map (fun s => (ss_path s, s)) getDefaultSigners else [])))).
  { subst st3. destruct (bool_decide _); [|done]. rewrite map_map.
    exact (add_concat (fun s => with_certs (ss_path s, s)) getDefaultSigners st2). }
  rewrite <- E. clearbody st3. clear E. destruct (bool_decide_reflect (st3.2 = [])) as [|Hne]; [done|].
  intros [= <-]. done.
Qed.

(** Adding keeps one signer per key: the keys recorded are those of the signers, none
    twice, and the first signer of a key stays. *)
Lemma add_signers_spec cs : forall st,
  st.1 = map (fun s => blob s) st.2 -> NoDup st.1 ->
  let st' := addPubKeySigners st cs in
  st'.1 = map (fun s => blob s) st'.2 /\ NoDup st'.1 /\
  exists l, st'.2 = st.2 ++ l /\
    (forall s, s ∈ l -> blob s ∉ st.1 /\ exists before after, cs = before ++ s :: after /\ Forall (fun s' => blob s' <> blob s) before) /\
    (forall s, s ∈ cs -> blob s ∈ st'.1).
Proof.
  induction cs as [|c cs IH]; intros st Hm Hn; cbn zeta.
  - split; [done|]. split; [done|]. exists []. rewrite app_nil_r. split; [done|]. split; intros s Hs; by apply not_elem_of_nil in Hs.
  - change (addPubKeySigners st (c :: cs)) with (addPubKeySigners (add_signer st c) cs).
    unfold add_signer. destruct (existsb _ st.1) eqn:Ex.
    + assert (Hc : blob c ∈ st.1).
      { apply existsb_exists in Ex as (e & He & <-%bool_decide_eq_true). by apply list_elem_of_In. }
      destruct (IH st Hm Hn) as (A & B & l & C & D & E). split; [done|]. split; [done|]. exists l. split; [done|]. split.
      * intros s Hs. destruct (D s Hs) as (D1 & bf & af & -> & D2). split; [done|]. exists (c :: bf), af. split; [done|].
        apply Forall_cons_2; [|done]. intros Heq. apply D1. by rewrite <- Heq.
      * intros s [->|Hs]%elem_of_cons; [|by apply E]. rewrite A, C, map_app. apply elem_of_app. left. by rewrite <- Hm.
    + assert (Hc : blob c ∉ st.1).
      { intros Hin%list_elem_of_In. enough (existsb (fun e => bool_decide (e = blob c)) st.1 = true) by congruence.
        apply existsb_exists. exists (blob c). split; [done|]. by apply bool_decide_eq_true. }
      destruct (IH (st.1 ++ [blob c], st.2 ++ [c])) as (A & B & l & C & D & E); cbn.
      { by rewrite map_app, Hm. }
      { apply NoDup_app. split; [done|]. split; [|apply NoDup_singleton]. intros x Hx ->%list_elem_of_singleton. done. }
      cbn [fst snd] in C, D. rewrite <- app_assoc in C. split; [done|]. split; [done|]. exists (c :: l). split; [done|]. split.
      * intros s [->|Hs]%elem_of_cons; [split; [done|]; by exists [], cs|].
        destruct (D s Hs) as (D1 & bf & af & -> & D2). apply not_elem_of_app in D1 as [D1 D3]. split; [done|].
        exists (c :: bf), af. split; [done|]. apply Forall_cons_2; [|done]. intros Heq. apply D3. rewrite Heq. by apply list_elem_of_singleton.
      * intros s [->|Hs]%elem_of_cons; [|by apply E]. rewrite A, C, map_app. apply elem_of_app. right. apply elem_of_cons. by left.
Qed.

(** C21: every candidate key is offered exactly once, by the first signer that has it.  The
    candidates are, in this order and each with its certificates, the identities that can be
    used, the agent's keys unless IdentitiesOnly is "yes", and the default keys only if no
    identity is configured; when public key authentication gives a method at all, the keys
    offered to the server are all that occur among them and none twice, and the signer offered
    for a key is the first one in that order. *)
Theorem offered_once args agent l :
  getPublicKeysAuthMethod args agent = Some l ->
  l <> [] /\ NoDup (map (fun s => blob s) l) /\
  (forall s, s ∈ candidates args agent -> blob s ∈ map (fun s => blob s) l) /\
  (forall s, s ∈ l -> exists before after, candidates args agent = before ++ s :: after /\
                        Forall (fun s' => blob s' <> blob s) before).
Proof.
  intros H. apply offered_candidates in H as [-> Hne]. split; [done|].
  destruct (add_signers_spec (candidates args agent) ([], [])) as (A & B & l & C & D & E); [done|by apply NoDup_nil|].
  cbn [app fst snd] in C. rewrite A in B, E. split; [done|]. split; [exact E|].
  intros s Hs. rewrite C in Hs. by apply D.
Qed.










(** ** Passphrases *)

Lemma init_loop_spec s priKey tries : forall secrets r n,
  init_loop tries s priKey secrets = (r, n) ->
  (n <= tries)%nat /\
  (forall s', r = Ok s' -> ss_path s' = ss_path s /\ ss_pub s' = ss_pub s /\ exists pub, ss_impl s' = PrivateKey pub).
Proof.
  induction tries as [|k IH]; intros secrets r n; cbn [init_loop]; [intros [= <- <-]; by split|].
  destruct secrets as [|[sec|] rest]; try (intros [= <- <-]; split; [lia|done]).
  destruct (init_loop k s priKey rest) as [r' n'] eqn:E. destruct (IH _ _ _ E) as [H1 H2].
  destruct (bool_decide _); [intros [= <- <-]; split; [lia|done]|].
  assert (L : forall x, match loaded (ss_path s) x with
                        | Some pub => (Ok (newSshSigner (ss_path s) (ss_pub s) (PrivateKey pub)), 1%nat)
                        | None => (Err ParseFailed, 1%nat) end = (r, n) ->
              (n <= S k)%nat /\ (forall s', r = Ok s' -> ss_path s' = ss_path s /\ ss_pub s' = ss_pub s /\ exists pub, ss_impl s' = PrivateKey pub)).
  { intros x. destruct (loaded (ss_path s) x) as [pub|]; intros [= <- <-]; (split; [lia|]); [|done].
    intros s' [= <-]. cbn. eauto. }
  destruct (parsePrivateKeyWithPassphrase priKey sec); try (apply L); intros [= <- <-]; split; [lia|done].
Qed.

(** A locked key asks for its passphrase at most three times, whatever is typed, and
    always ends: with an error, or with a signer for the same path and key that is
    unlocked, so that it never asks again. *)
Theorem initSigner_three_tries s secrets r n :
  initSigner s secrets = (r, n) ->
  (n <= 3)%nat /\
  (forall s', r = Ok s' -> ss_path s' = ss_path s /\ ss_pub s' = ss_pub s /\ forall secrets', initSigner s' secrets' = (Ok s', 0%nat)).
Proof.
  unfold initSigner. destruct (ss_impl s) as [priKey|pub|a|c i] eqn:Hi.
  - intros [H1 H2]%init_loop_spec. split; [done|]. intros s' Hr. destruct (H2 s' Hr) as (A & B & pub & C).
    split; [done|]. split; [done|]. intros. unfold initSigner. by rewrite C.
  - intros [= <- <-]. split; [lia|]. intros s' [= <-]. split; [done|]. split; [done|]. intros. by rewrite Hi.
  - intros [= <- <-]. split; [lia|]. intros s' [= <-]. split; [done|]. split; [done|]. intros. by rewrite Hi.
  - intros [= <- <-]. split; [lia|]. intros s' [= <-]. split; [done|]. split; [done|]. intros. by rewrite Hi.
Qed.

(** ** What is taken from the configuration *)

(** A session of challenges, with what was typed in each. *)
Fixpoint kbd_session (st : kbd) (rounds : list (list bytes * list (option bytes))) : list (option (list bytes)) * kbd * list prompt_event :=
  match rounds with
  | [] => ([], st, [])
  | (questions, typed) :: rest =>
      let '(r, st1, evs1) := kbd_challenge st questions typed [] in
      let '(rs, st2, evs2) := kbd_session st1 rest in (r :: rs, st2, evs1 ++ evs2)
  end.

Definition used (e : prompt_event) : option bytes := match e with UsedConfig q => Some q | _ => None end.
Definition warned (e : prompt_event) : option bytes := match e with WarnedConfig q => Some q | _ => None end.

(** Every warning comes after the answer it is about. *)
Definition warned_after (log : list prompt_event) : Prop :=
  forall before q after, log = before ++ WarnedConfig q :: after -> UsedConfig q ∈ before.
Lemma warned_after_snoc log e :
  warned_after log -> (forall q, e = WarnedConfig q -> UsedConfig q ∈ log) -> warned_after (log ++ [e]).
Proof.
  intros H He before q after E. destruct after as [|x after _] using rev_ind.
  - apply app_inj_tail in E as [-> ->]. by apply He.
  - change (log ++ [e] = before ++ (WarnedConfig q :: after) ++ [x]) in E. rewrite app_assoc in E.
    apply app_inj_tail in E as [-> _]. by apply (H before q after).
Qed.
Lemma omap_used (log : list prompt_event) q : q ∈ omap used log -> UsedConfig q ∈ log.
Proof. rewrite list_elem_of_omap. intros ([] & H & Hq); try done. by injection Hq as ->. Qed.

(** The state says what has happened: the configured answers used are those of
    [questionTried], the warnings those of [questionWarned], none twice. *)
Record kbd_inv (st : kbd) (log : list prompt_event) : Prop := {
  ki_tried : forall q, q ∈ omap used log <-> q ∈ kb_tried st;
  ki_warned : forall q, q ∈ omap warned log <-> q ∈ kb_warned st;
  ki_once : NoDup (omap used log);
  ki_warn_once : NoDup (omap warned log);
  ki_seen : kb_tried st ⊆ kb_seen st;
  ki_warn_tried : kb_warned st ⊆ kb_tried st;
  ki_after : warned_after log
}.

Lemma omap_snoc {A} (f : prompt_event -> option A) log e :
  omap f (log ++ [e]) = omap f log ++ match f e with Some x => [x] | None => [] end.
Proof. rewrite omap_app. cbn. by destruct (f e). Qed.
Lemma NoDup_snoc (l : list bytes) x : NoDup l -> x ∉ l -> NoDup (l ++ [x]).
Proof. intros Hl Hx. apply NoDup_app. split; [done|]. split; [|apply NoDup_singleton]. intros y Hy ->%list_elem_of_singleton. done. Qed.
Lemma kbd_inv_prompt st log q : kbd_inv st log -> kbd_inv st (log ++ [Prompted q]).
Proof.
  intros [H1 H2 H3 H4 H5 H6 H7]. split; rewrite ?omap_snoc; cbn; rewrite ?app_nil_r; try done. by apply warned_after_snoc.
Qed.

Lemma kbd_question_inv st log q a st' evs :
  kbd_inv st log -> kbd_question st q = (a, st', evs) -> kbd_inv st' (log ++ evs) /\ (is_Some a -> q ∉ kb_seen st).
Proof using Type.
  clear sha1hex isFileExist readFile parseAuthorizedKey parsePrivateKey parsePrivateKeyWithPassphrase parseSecurityKey.
  intros [H1 H2 H3 H4 H5 H6 H7]. unfold kbd_question. case_bool_decide as Hs; cbn [negb].
  - case_bool_decide as Ht; cbn [andb]; [case_bool_decide as Hw; cbn [negb andb]|]; intros [= <- <- <-]; (split; [|by intros [? ?]]).
    + rewrite app_nil_r. split; done.
    + split; rewrite ?omap_snoc; cbn; rewrite ?app_nil_r; try done.
      * intros q'. rewrite elem_of_app, list_elem_of_singleton, H2. set_solver.
      * apply NoDup_snoc; [done|]. by rewrite H2.
      * set_solver.
      * apply warned_after_snoc; [done|]. intros q' [= ->]. apply omap_used. by rewrite H1.
    + rewrite app_nil_r. split; done.
  - assert (Hnt : q ∉ kb_tried st) by set_solver.
    destruct (bool_decide _); intros [= <- <- <-]; (split; [|done]).
    + rewrite app_nil_r. split; cbn; try done. set_solver.
    + split; rewrite ?omap_snoc; cbn; rewrite ?app_nil_r; try done.
      * intros q'. rewrite elem_of_app, list_elem_of_singleton, H1. set_solver.
      * apply NoDup_snoc; [done|]. by rewrite H1.
      * by apply union_mono_l.
      * by apply union_subseteq_r'.
      * by apply warned_after_snoc.
Qed.

Lemma kbd_challenge_inv questions : forall st log typed answers r st' evs,
  kbd_inv st log -> kbd_challenge st questions typed answers = (r, st', evs) ->
  kbd_inv st' (log ++ evs) /\ (forall l, r = Some l -> length l = (length answers + length questions)%nat).
Proof using Type.
  induction questions as [|q qs IH]; intros st log typed answers r st' evs Hi; cbn [kbd_challenge].
  - intros [= <- <- <-]. rewrite app_nil_r. split; [done|]. intros l [= <-]. cbn. lia.
  - destruct (kbd_question st q) as [[a st1] ev1] eqn:Hq. destruct (kbd_question_inv _ _ _ _ _ _ Hi Hq) as [H1 _].
    destruct a as [a|].
    + destruct (kbd_challenge st1 qs typed (answers ++ [a])) as [[r2 st2] ev2] eqn:Hc. intros [= <- <- <-].
      destruct (IH _ _ _ _ _ _ _ H1 Hc) as [A B]. rewrite app_assoc. split; [done|].
      intros l Hl. rewrite (B l Hl), length_app. cbn. lia.
    + destruct typed as [|[ans|] typed'].
      * intros [= <- <- <-]. rewrite app_assoc. split; [by apply kbd_inv_prompt|done].
      * destruct (kbd_challenge st1 qs typed' (answers ++ [ans])) as [[r2 st2] ev2] eqn:Hc. intros [= <- <- <-].
        apply (kbd_inv_prompt _ _ q) in H1. destruct (IH _ _ _ _ _ _ _ H1 Hc) as [A B]. rewrite <- !app_assoc in A.
        split; [done|]. intros l Hl. rewrite (B l Hl), length_app. cbn. lia.
      * intros [= <- <- <-]. rewrite app_assoc. split; [by apply kbd_inv_prompt|done].
Qed.

Lemma kbd_session_inv rounds : forall st log rs st' evs,
  kbd_inv st log -> kbd_session st rounds = (rs, st', evs) ->
  kbd_inv st' (log ++ evs) /\
  Forall2 (fun r round => forall l, r = Some l -> length l = length round.1) rs rounds.
Proof using Type.
  induction rounds as [|[questions typed] rest IH]; intros st log rs st' evs Hi; cbn [kbd_session].
  - intros [= <- <- <-]. rewrite app_nil_r. by split.
  - destruct (kbd_challenge st questions typed []) as [[r st1] ev1] eqn:Hc.
    destruct (kbd_session st1 rest) as [[rs2 st2] ev2] eqn:Hs. intros [= <- <- <-].
    destruct (kbd_challenge_inv _ _ _ _ _ _ _ _ Hi Hc) as [H1 H2]. destruct (IH _ _ _ _ _ H1 Hs) as [H3 H4].
    rewrite app_assoc. split; [done|]. constructor; done.
Qed.

(** C11: over a whole keyboard-interactive session, whatever the server asks and the user
    types, a configured answer is sent at most once per question text, so a rejected one
    is never repeated; the warning that it is wrong comes at most once per question, and
    always later in the session than the answer it is about; and a challenge that is answered
    gets one answer per question. *)
Theorem configured_answer_once rounds rs st' evs :
  kbd_session kbd_init rounds = (rs, st', evs) ->
  NoDup (omap used evs) /\ NoDup (omap warned evs) /\
  (forall before q after, evs = before ++ WarnedConfig q :: after -> UsedConfig q ∈ before) /\
  Forall2 (fun r round => forall l, r = Some l -> length l = length round.1) rs rounds.
Proof using Type.
  clear sha1hex isFileExist readFile parseAuthorizedKey parsePrivateKey parsePrivateKeyWithPassphrase parseSecurityKey.
  intros H. destruct (kbd_session_inv rounds kbd_init [] rs st' evs) as [[H1 H2 H3 H4 H5 H6 H7] HF]; [|done|].
  { split; cbn; try set_solver; try apply NoDup_nil_2. intros before q after E. by destruct before. }
  cbn [app] in *. split_and!; done.
Qed.

(** The password callback run for several attempts. *)
Fixpoint pw_session (st : pw_state) (typed : list (option bytes)) : list (option bytes) * list (list prompt_event) :=
  match typed with
  | [] => ([], [])
  | t :: rest =>
      let '(r, st1, evs) := pw_callback st t in
      let '(rs, evss) := pw_session st1 rest in (r :: rs, evs :: evss)
  end.
Lemma pw_later st typed :
  2 <= pw_idx st -> pw_session st typed = (typed, map (fun _ => [Prompted (lit "password")]) typed).
Proof.
  revert st. induction typed as [|t rest IH]; intros st H; [done|]. cbn [pw_session]. unfold pw_callback.
  rewrite (proj2 (Z.eqb_neq _ 1)), (proj2 (Z.eqb_neq _ 2)) by lia. cbn [andb app].
  rewrite IH by (cbn; lia). done.
Qed.
(** A configured password is the answer to the first attempt only; the second attempt says
    that it was wrong and asks, as does every later one. *)
Lemma pw_session_spec t1 t2 rest :
  pw_session pw_init (t1 :: t2 :: rest) =
  if bool_decide (configured_password = [])
  then (t1 :: t2 :: rest, map (fun _ => [Prompted (lit "password")]) (t1 :: t2 :: rest))
  else (Some configured_password :: t2 :: rest,
        [UsedConfig (lit "password")] :: [WarnedConfig (lit "password"); Prompted (lit "password")] ::
        map (fun _ => [Prompted (lit "password")]) rest).
Proof.
  assert (H1 : pw_callback pw_init t1 =
    if bool_decide (configured_password = []) then (t1, {| pw_idx := 1; pw_remember := false |}, [Prompted (lit "password")])
    else (Some configured_password, {| pw_idx := 1; pw_remember := true |}, [UsedConfig (lit "password")])) by reflexivity.
  assert (H2 : forall b, pw_callback {| pw_idx := 1; pw_remember := b |} t2 =
    (t2, {| pw_idx := 2; pw_remember := b |}, (if b then [WarnedConfig (lit "password")] else []) ++ [Prompted (lit "password")]))
    by (by intros []).
  cbn [pw_session]. rewrite H1. destruct (bool_decide (configured_password = [])); rewrite H2, pw_later by (cbn; lia); reflexivity.
Qed.
End Auth.

(** ** Witnesses *)

#[local] Existing Instance caseless_tables.

Definition key_a : publicKey := {| pk_type := lit "ssh-ed25519"; pk_blob := [1] |}.
Definition key_b : publicKey := {| pk_type := lit "ssh-rsa"; pk_blob := [2] |}.
Definition key_c : publicKey := {| pk_type := lit "ssh-ed25519"; pk_blob := [3] |}.
Definition sample_settings : settings := {| effective := fun _ => None; config := None; sysConfig := None; exConfig := None |}.
Definition sample_param : sshParam :=
  {| pr_host := lit "h"; pr_port := lit "22"; pr_user := lit "u"; pr_proxies := []; pr_Destination := lit "h"; pr_HostKeyAlias := [] |}.
Definition key_b_cert : publicKey := {| pk_type := lit "ssh-rsa-cert-v01@openssh.com"; pk_blob := [4] |}.
Definition cert_b : certificate := {| ct_pub := key_b_cert; ct_key := key_b |}.
(** Two keys on disk, the second locked and with a certificate; the agent holds the first
    and one more. *)
Definition sample_read (path : bytes) : option bytes :=
  if bool_decide (path = lit "/k/a") then Some [1] else if bool_decide (path = lit "/k/b") then Some [2]
  else if bool_decide (path = lit "/home/u/.ssh/hw.pub") then Some [3]
  else if bool_decide (path = lit "/k/b-cert.pub") then Some [4] else None.
Definition sample_exists (path : bytes) : bool := bool_decide (is_Some (sample_read path)).
Definition sample_authorized (data : bytes) : option authorizedKey :=
  if bool_decide (data = [3]) then Some (PlainKey key_c) else if bool_decide (data = [4]) then Some (Certificate cert_b) else None.
Definition sample_parse_key (data : bytes) : key_result :=
  if bool_decide (data = [1]) then KeyOk key_a else if bool_decide (data = [2]) then KeyPassphraseMissing (Some key_b) else KeyError.
Definition sample_unlock (data pass : bytes) : key_result :=
  if bool_decide (pass = lit "pw") then KeyOk key_b else KeyIncorrectPassword.
Definition sample_agent : list agentSigner := [{| ag_id := 0; ag_pub := key_a |}; {| ag_id := 1; ag_pub := key_c |}].

Definition sample_offer (o : gmap bytes (list bytes)) (args : list bytes) : option (list sshSigner) :=
  getPublicKeysAuthMethod (fun _ => []) sample_settings o sample_param (fun _ => None) (fun _ => []) [] (fun b => b) (lit "/home/u") false
    sample_exists sample_read sample_authorized sample_parse_key sample_unlock (fun _ => None) args sample_agent.
Definition sample_signers : list sshSigner :=
  [newSshSigner (lit "/k/a (agent)") key_a (ViaAgent {| ag_id := 0; ag_pub := key_a |});
   newSshSigner (lit "/k/b") key_b (Locked [2]);
   newSshSigner (lit "/k/b") key_b_cert (CertSigner cert_b (Locked [2]));
   newSshSigner (lit "ssh-agent") key_c (ViaAgent {| ag_id := 1; ag_pub := key_c |})].

Lemma offered_once_witness :
  sample_offer ∅ [lit "/k/a"; lit "/k/b"; lit "/k/a"] = Some sample_signers /\ NoDup (map (fun s => pk_blob (ss_pub s)) sample_signers).
Proof.
  assert (sample_offer ∅ [lit "/k/a"; lit "/k/b"; lit "/k/a"] = Some sample_signers) as H by (vm_compute; reflexivity).
  split; [exact H|]. exact (proj1 (proj2 (offered_once _ _ _ _ _ _ _ _ _ _ _ _ _ _ _ _ _ _ _ H))).
Defined.


(** Wrong, empty, right: unlocked at the third prompt. *)
Lemma initSigner_three_tries_witness :
  initSigner sample_unlock (fun _ => None) (newSshSigner (lit "/k/b") key_b (Locked [2])) [Some (lit "no"); Some []; Some (lit "pw")] =
    (Ok (newSshSigner (lit "/k/b") key_b (PrivateKey key_b)), 3%nat) /\
  initSigner sample_unlock (fun _ => None) (newSshSigner (lit "/k/b") key_b (PrivateKey key_b)) [] =
    (Ok (newSshSigner (lit "/k/b") key_b (PrivateKey key_b)), 0%nat).
Proof.
  assert (initSigner sample_unlock (fun _ => None) (newSshSigner (lit "/k/b") key_b (Locked [2])) [Some (lit "no"); Some []; Some (lit "pw")] =
    (Ok (newSshSigner (lit "/k/b") key_b (PrivateKey key_b)), 3%nat)) as H by (vm_compute; reflexivity).
  split; [exact H|].
  exact (proj2 (proj2 (proj2 (initSigner_three_tries _ _ _ _ _ _ H) _ eq_refl)) []).
Defined.

(** The answer to "Code: " is configured; the server rejects it and asks again, twice. *)
Definition sample_answers : settings :=
  {| effective := fun _ => None; config := None; sysConfig := None;
     exConfig := Some {| file_Get := fun _ key => if bool_decide (key = lit "436f64653a20") then Some (lit "1234") else None;
                         file_GetAll := fun _ _ => None; file_GetSplits := fun _ _ => None; file_GetAllSplits := fun _ _ => None |} |}.
Definition sample_session : list (option (list bytes)) * kbd * list prompt_event :=
  kbd_session (fun _ => []) sample_answers sample_param (fun _ => None) (fun _ => []) (fun _ => []) (fun _ _ => []) kbd_init
    [([lit "Code: "], []); ([lit "Code: "], [Some (lit "5")]); ([lit "Code: "; lit "PIN"], [Some (lit "6"); Some (lit "7")])].
Lemma configured_answer_once_witness :
  sample_session.1.1 = [Some [lit "1234"]; Some [lit "5"]; Some [lit "6"; lit "7"]] /\
  omap used sample_session.2 = [lit "Code: "] /\ NoDup (omap used sample_session.2) /\ NoDup (omap warned sample_session.2) /\
  exists before after, sample_session.2 = before ++ WarnedConfig (lit "Code: ") :: after /\ UsedConfig (lit "Code: ") ∈ before.
Proof.
  destruct sample_session as [[rs st] evs] eqn:E.
  pose proof (configured_answer_once _ _ _ _ _ _ _ _ rs st evs E) as (H1 & H2 & H3 & _). cbn [fst snd].
  assert (E' : (rs, evs) = (sample_session.1.1, sample_session.2)) by (rewrite E; reflexivity).
  injection E' as -> ->. split; [vm_compute; reflexivity|]. split; [vm_compute; reflexivity|]. split; [exact H1|]. split; [exact H2|].
  exists (take 1 sample_session.2), (drop 2 sample_session.2).
  assert (sample_session.2 = take 1 sample_session.2 ++ WarnedConfig (lit "Code: ") :: drop 2 sample_session.2) as E2
    by (vm_compute; reflexivity).
  split; [exact E2|]. exact (H3 _ _ _ E2).
Defined.

(** An identity written with a tilde: its public key file is looked for before the tilde is
    resolved and not found, so a key that only the agent holds is not offered for it. *)
Lemma tilde_identity_not_matched :
  let signer := identity_signer (fun _ => []) sample_settings sample_param (fun _ => None) (fun _ => []) (lit "/home/u") sample_exists
                  sample_read sample_authorized sample_parse_key sample_unlock (fun _ => None) sample_agent in
  resolveHomeDir (lit "/home/u") (lit "~/.ssh/hw.pub") = lit "/home/u/.ssh/hw.pub" /\
  is_Some (signer (lit "/home/u/.ssh/hw.pub")) /\ signer (lit "~/.ssh/hw.pub") = None.
Proof. split; [vm_compute; reflexivity|]. split; [vm_compute; eexists; reflexivity|]. vm_compute. reflexivity. Qed.
