(* ===== verification/Prompt.v ===== *)
(** * Choosing a host

    src/tssh/prompt.go: what the keys typed at the host list mean, the state they change,
    the hosts that are selected and when the list is shown at all.  The list itself
    (promptui) is a parameter: at each key it says which hosts it shows and which one it is
    on; what is written to it is a list of outputs. *)

From S2P Require Import Prelude GoStrings.

Record sshHost := mkHost {
  sh_Alias : bytes; sh_Host : bytes; sh_Port : bytes; sh_User : bytes; sh_IdentityFile : bytes; sh_ProxyCommand : bytes;
  sh_ProxyJump : bytes; sh_RemoteCommand : bytes; sh_GroupLabels : bytes; sh_Selected : bool }.
Definition select (b : bool) (h : sshHost) : sshHost :=
  mkHost (sh_Alias h) (sh_Host h) (sh_Port h) (sh_User h) (sh_IdentityFile h) (sh_ProxyCommand h) (sh_ProxyJump h)
    (sh_RemoteCommand h) (sh_GroupLabels h) b.

Definition openTermDefault : Z := 0.
Definition openTermPane : Z := 1.
Definition openTermTab : Z := 2.
Definition openTermWindow : Z := 3.

Definition keyESC : Z := 27.
Definition keyEnter : Z := 13.

(** ** Keys *)

(** A single byte; a control sequence of one final byte, or of one digit and a tilde. *)
Definition key1 (buf : bytes) : option Z := match buf with [b] => Some b | _ => None end.
Definition csi (buf : bytes) : option Z :=
  match buf with [a; b; c] => if (a =? 27) && (b =? 91) then Some c else None | _ => None end.
Definition csi_tilde (buf : bytes) : option Z :=
  match buf with [a; b; c; d] => if (a =? 27) && (b =? 91) && (d =? 126) then Some c else None | _ => None end.
Definition one_of (k : option Z) (keys : list Z) : bool :=
  match k with Some k => existsb (Z.eqb k) keys | None => false end.

Section Keys.
(** Whether the search box is open, and whether a terminal manager was found. *)
Context (search termMgr : bool).

Definition userQuit (buf : bytes) : bool := one_of (key1 buf) [3; 17] || (one_of (key1 buf) [113; 81] && negb search).
Definition movePrev (buf : bytes) : bool :=
  one_of (csi buf) [65; 90] || one_of (key1 buf) [11] || (one_of (key1 buf) [107; 75] && negb search).
Definition moveNext (buf : bytes) : bool :=
  one_of (csi buf) [66] || one_of (key1 buf) [9; 10] || (one_of (key1 buf) [106; 74] && negb search).
Definition pageUp (buf : bytes) : bool :=
  one_of (csi buf) [68] || one_of (csi_tilde buf) [53] || one_of (key1 buf) [8; 21; 2] ||
  (one_of (key1 buf) [104; 72; 117; 85; 98; 66] && negb search).
Definition pageDown (buf : bytes) : bool :=
  one_of (csi buf) [67] || one_of (csi_tilde buf) [54] || one_of (key1 buf) [12; 4; 6] ||
  (one_of (key1 buf) [108; 76; 100; 68; 102; 70] && negb search).
Definition gotoHome (buf : bytes) : bool :=
  one_of (csi buf) [72] || one_of (csi_tilde buf) [49] || (one_of (key1 buf) [103] && negb search).
Definition gotoEnd (buf : bytes) : bool :=
  one_of (csi buf) [70] || one_of (csi_tilde buf) [52] || (one_of (key1 buf) [71] && negb search).
Definition toggleSelect (buf : bytes) : bool :=
  termMgr && (bool_decide (buf = [194; 160]) || one_of (key1 buf) [0; 24] || (one_of (key1 buf) [32; 120; 88] && negb search)).
Definition selectAllItems (buf : bytes) : bool :=
  termMgr && (one_of (key1 buf) [1] || (one_of (key1 buf) [97; 65] && negb search)).
Definition selectOpposite (buf : bytes) : bool :=
  termMgr && (one_of (key1 buf) [15] || (one_of (key1 buf) [111; 79] && negb search)).
Definition toggleSearch (buf : bytes) : bool := one_of (key1 buf) [47] || (one_of (key1 buf) [keyESC] && search).
Definition toggleShortcuts (buf : bytes) : bool := one_of (key1 buf) [63].
Definition addKeywords (visible : Z) (buf : bytes) : bool := one_of (key1 buf) [keyEnter] && search && (0 <? visible).
Definition eraseKeywords (buf : bytes) : bool := one_of (key1 buf) [5] || (one_of (key1 buf) [101; 69] && negb search).
(** [userConfirm]: whether to go on, and the way to open it sets even when it does not. *)
Definition userConfirm (hasSelected : bool) (openType : Z) (buf : bytes) : bool * Z :=
  if one_of (key1 buf) [keyEnter] then (negb search, openTermDefault)
  else if negb termMgr || negb hasSelected then (false, openType)
  else if one_of (key1 buf) [16] then (true, openTermPane)
  else if one_of (key1 buf) [112; 80] then (negb search, openTermPane)
  else if one_of (key1 buf) [20] then (true, openTermTab)
  else if one_of (key1 buf) [116; 84] then (negb search, openTermTab)
  else if one_of (key1 buf) [23] then (true, openTermWindow)
  else if one_of (key1 buf) [119; 87] then (negb search, openTermWindow)
  else (false, openType).
End Keys.

(** ** The prompt *)

(** What is written to the list: bytes as typed, or one of its own keys. *)
Inductive output :=
| Typed (buf : bytes) | CharPrev | CharNext | CharBackward (n : Z) | CharForward (n : Z)
| KeyRefresh | Slash | KeySoftEnter | KeyCtrlE | CharEnter.

Record sshPrompt := mkPrompt {
  pm_hosts : list sshHost; pm_openType : Z; pm_showShortcuts : bool; pm_search : bool; pm_quit : bool
}.
(** What promptui answers: the hosts shown and the one it is on, -1 for none. *)
Record selector := { sl_visible : list nat; sl_current : Z }.

Definition with_hosts (p : sshPrompt) (hs : list sshHost) : sshPrompt :=
  mkPrompt hs (pm_openType p) (pm_showShortcuts p) (pm_search p) (pm_quit p).
Definition with_search (p : sshPrompt) (b : bool) : sshPrompt :=
  mkPrompt (pm_hosts p) (pm_openType p) (pm_showShortcuts p) b (pm_quit p).
Definition with_open (p : sshPrompt) (t : Z) : sshPrompt :=
  mkPrompt (pm_hosts p) t (pm_showShortcuts p) (pm_search p) (pm_quit p).

Section Prompt.
Context `{U : UnicodeTables}.
(** The terminal manager, and [promptPageSize] of the configuration. *)
Context (termMgr : bool) (promptPageSize : Z).

Definition getPromptPageSize : Z := if promptPageSize =? 0 then 10 else promptPageSize.
Definition getPageCount (p : sshPrompt) : Z := Z.quot (len (pm_hosts p) - 1) getPromptPageSize + 1.
Definition hasSelected (p : sshPrompt) : bool := existsb sh_Selected (pm_hosts p).
Definition getSelected (p : sshPrompt) (idx : Z) : list sshHost :=
  let hosts := List.filter sh_Selected (pm_hosts p) in
  if bool_decide (hosts = []) && (0 <=? idx) && (idx <? len (pm_hosts p))
  then match pm_hosts p !! Z.to_nat idx with Some h => [h] | None => [] end
  else hosts.

(** One round of the loop of [wrapStdin]: [None] is a read error.  The state, what is written, and
    whether the loop ends. *)
Definition step (p : sshPrompt) (sel : selector) (read : option bytes) : sshPrompt * list output * bool :=
  match read with
  | None => (mkPrompt (pm_hosts p) (pm_openType p) (pm_showShortcuts p) (pm_search p) true, [], true)
  | Some buf =>
      let search := pm_search p in
      if userQuit search buf then (mkPrompt (pm_hosts p) (pm_openType p) (pm_showShortcuts p) search true, [], true)
      else if movePrev search buf then (p, [CharPrev], false)
      else if moveNext search buf then (p, [CharNext], false)
      else if pageUp search buf then (p, [CharBackward 1], false)
      else if pageDown search buf then (p, [CharForward 1], false)
      else if gotoHome search buf then (p, [CharBackward (getPageCount p)], false)
      else if gotoEnd search buf then (p, [CharForward (getPageCount p)], false)
      else if toggleSelect search termMgr buf then
        (if 0 <=? sl_current sel
         then with_hosts p (alter (fun h => select (negb (sh_Selected h)) h) (Z.to_nat (sl_current sel)) (pm_hosts p)) else p,
         [KeyRefresh], false)
      else if selectAllItems search termMgr buf then
        (with_hosts p (fold_left (fun hs i => alter (select true) i hs) (sl_visible sel) (pm_hosts p)), [KeyRefresh], false)
      else if selectOpposite search termMgr buf then
        (with_hosts p (fold_left (fun hs i => alter (fun h => select (negb (sh_Selected h)) h) i hs) (sl_visible sel) (pm_hosts p)),
         [KeyRefresh], false)
      else if toggleSearch search buf then (with_search p (negb search), [Slash], false)
      else if toggleShortcuts buf then
        (mkPrompt (pm_hosts p) (pm_openType p) (negb (pm_showShortcuts p)) search (pm_quit p), [KeyRefresh], false)
      else if addKeywords search (len (sl_visible sel)) buf then (with_search p false, [KeySoftEnter], false)
      else if eraseKeywords search buf then (with_search p false, [KeyCtrlE], false)
      else
        let '(ok, openType) := userConfirm search termMgr (hasSelected p) (pm_openType p) buf in
        let p := with_open p openType in
        if ok then (p, [CharEnter], true)
        else if bool_decide (buf = [0]) then (p, [KeyRefresh], false)
        else (p, [Typed buf], false)
  end.

(** [wrapStdin] over the reads, until it returns or the input is exhausted. *)
Fixpoint run (p : sshPrompt) (reads : list (selector * option bytes)) : sshPrompt * list output * bool :=
  match reads with
  | [] => (p, [], false)
  | (sel, read) :: rest =>
      let '(p1, out1, fin) := step p sel read in
      if fin then (p1, out1, true)
      else let '(p2, out2, fin2) := run p1 rest in (p2, out1 ++ out2, fin2)
  end.
Definition wrapStdin (p : sshPrompt) (promptDefaultMode : bytes) (reads : list (selector * option bytes))
    : sshPrompt * list output * bool :=
  if bool_decide (ToLower promptDefaultMode = lit "search")
  then let '(p', out, fin) := run (with_search p true) reads in (p', Slash :: out, fin)
  else run p reads.

(** ** Matching *)

Definition matchHost (h : sshHost) (keywords : list bytes) : bool :=
  forallb (fun k => Contains (ToLower (sh_Host h)) k || Contains (ToLower (sh_Alias h)) k ||
                    Contains (ToLower (sh_GroupLabels h)) k) keywords.

(** [chooseAlias], given the final index of the list ([None] for its error): the alias, and
    whether the user quit. *)
Inductive choice := ChooseError (quit : bool) | ChooseQuit | Chosen (alias : bytes) (opened : list sshHost) | ChoosePanic.
Definition chooseAlias (p : sshPrompt) (result : option Z) : choice :=
  match result with
  | None => ChooseError (pm_quit p)
  | Some idx =>
      if pm_quit p then ChooseQuit
      else match getSelected p idx with
           | [] => ChoosePanic
           | h :: rest => Chosen (sh_Alias h) (if bool_decide (rest <> []) && termMgr then h :: rest else [])
           end
  end.

(** [predictDestination]: [true] when the list is shown. *)
Definition predictDestination (isTerminal useOpenSSHConfig : bool) (hosts : list sshHost) (wildcard resolves : bytes -> bool)
    (dest : bytes) : bool :=
  if negb isTerminal || ContainsAny dest (lit ".:[]@") then false
  else if useOpenSSHConfig then false
  else if existsb (fun h => bool_decide (sh_Alias h = dest)) hosts then false
  else if wildcard dest then false
  else if negb (existsb (fun h => matchHost h (Fields (ToLower dest))) hosts) then false
  else negb (resolves dest).

(** ** What a key means *)

(** The meanings of a buffer, in the order of the cases of [wrapStdin]. *)
Definition meanings (search : bool) (visible : Z) (selected : bool) (buf : bytes) : list bool :=
  [userQuit search buf; movePrev search buf; moveNext search buf; pageUp search buf; pageDown search buf;
   gotoHome search buf; gotoEnd search buf; toggleSelect search termMgr buf; selectAllItems search termMgr buf;
   selectOpposite search termMgr buf; toggleSearch search buf; toggleShortcuts buf; addKeywords search visible buf;
   eraseKeywords search buf; (userConfirm search termMgr selected 0 buf).1].
Definition at_most_one (l : list bool) : bool := (length (List.filter id l) <=? 1)%nat.
Definition all_bytes : list Z := map Z.of_nat (seq 0 256).
Lemma all_bytes_In b : is_byte b -> In b all_bytes.
Proof. intros [H1 H2]. apply in_map_iff. exists (Z.to_nat b). split; [lia|]. apply in_seq. lia. Qed.
End Prompt.

(** No key has two meanings, whatever the state: checked for every byte and every final
    byte of a control sequence. *)
Lemma meanings_single b search visible selected termMgr :
  is_byte b -> at_most_one (meanings termMgr search visible selected [b]) = true.
Proof.
  intros Hb%all_bytes_In. revert Hb. unfold meanings, addKeywords. generalize (0 <? visible). intros v Hb.
  assert (H : forallb (fun b => forallb (fun x => at_most_one
     (let '(s, v, d, t) := x in
      [userQuit s [b]; movePrev s [b]; moveNext s [b]; pageUp s [b]; pageDown s [b];
       gotoHome s [b]; gotoEnd s [b]; toggleSelect s t [b]; selectAllItems s t [b];
       selectOpposite s t [b]; toggleSearch s [b]; toggleShortcuts [b]; one_of (key1 [b]) [keyEnter] && s && v;
       eraseKeywords s [b]; (userConfirm s t d 0 [b]).1]))
       (a ← [true; false]; b' ← [true; false]; c ← [true; false]; d ← [true; false]; [(a, b', c, d)])) all_bytes = true)
    by (vm_compute; reflexivity).
  rewrite forallb_forall in H. specialize (H b Hb). rewrite forallb_forall in H.
  apply (H (search, v, selected, termMgr)). by destruct search, v, selected, termMgr; vm_compute; auto 20.
Qed.

Section PromptTheorems.
Context `{U : UnicodeTables} (termMgr : bool) (promptPageSize : Z).
Abbreviation step := (step termMgr promptPageSize).
Abbreviation run := (run termMgr promptPageSize).

(** Typing in the search box is literal: while it is open, every printable character
    except the two that toggle the search and the help reaches the list as typed and
    changes neither the selection nor the mode, so no letter of a keyword is taken for a
    command. *)
Theorem search_typing_literal p sel b :
  pm_search p = true -> 32 <= b <= 126 -> b <> 47 -> b <> 63 ->
  exists openType, step p sel (Some [b]) = (with_open p openType, [Typed [b]], false).
Proof.
  intros Hs Hb H1 H2. unfold Prompt.step. rewrite Hs.
  assert (Hk : forall keys, (forall k, In k keys -> k < 32) -> one_of (key1 [b]) keys = false).
  { intros keys Hk. cbn. apply Bool.not_true_is_false. intros (k & Hin & ->%Z.eqb_eq)%existsb_exists. apply Hk in Hin. lia. }
  assert (Hone : forall k, k <> b -> one_of (key1 [b]) [k] = false).
  { intros k Hne. cbn. rewrite (proj2 (Z.eqb_neq b k)); [done|congruence]. }
  unfold userQuit, movePrev, moveNext, pageUp, pageDown, gotoHome, gotoEnd, toggleSelect, selectAllItems, selectOpposite,
    toggleSearch, toggleShortcuts, addKeywords, eraseKeywords, userConfirm.
  rewrite !(Hone 47), !(Hone 63) by congruence. cbn [csi csi_tilde one_of negb orb andb].
  repeat (match goal with |- context [one_of (key1 [b]) ?l] =>
     rewrite (Hk l) by (intros k; cbn; intuition (subst; unfold keyESC, keyEnter; lia)) end).
  rewrite !andb_false_r. cbn [orb andb]. rewrite ?andb_false_r. cbn [orb andb].
  rewrite bool_decide_eq_false_2 by (intros [= ]). rewrite ?andb_false_r. cbn [orb].
  destruct (negb termMgr || negb (hasSelected p)) eqn:E1.
  - eexists. destruct (bool_decide_reflect ([b] = [0])) as [[= ->]|]; [lia|reflexivity].
  - repeat (match goal with |- context [if one_of (key1 [b]) ?l then _ else _] => destruct (one_of (key1 [b]) l) end);
      eexists; (destruct (bool_decide_reflect ([b] = [0])) as [[= ->]|]; [lia|reflexivity]).
Qed.

(** One round: it ends by quitting with nothing written, or by one Enter; otherwise no Enter
    is written and the prompt has not quit. *)
Lemma step_outcome p sel read p' out fin :
  step p sel read = (p', out, fin) ->
  (fin = true /\ pm_quit p' = true /\ out = []) \/ (fin = true /\ pm_quit p' = pm_quit p /\ out = [CharEnter]) \/
  (fin = false /\ pm_quit p' = pm_quit p /\ CharEnter ∉ out).
Proof.
  unfold Prompt.step. destruct read as [buf|]; [|intros [= <- <- <-]; auto].
  assert (Hno : forall o, o <> CharEnter -> CharEnter ∉ [o]) by (intros o Ho He%list_elem_of_singleton; congruence).
  assert (Hdone : forall q o b, (q, [o], b) = (p', out, fin) -> b = false -> pm_quit q = pm_quit p -> o <> CharEnter ->
    (fin = true /\ pm_quit p' = true /\ out = []) \/ (fin = true /\ pm_quit p' = pm_quit p /\ out = [CharEnter]) \/
    (fin = false /\ pm_quit p' = pm_quit p /\ CharEnter ∉ out)).
  { intros q o b [= <- <- <-] -> Hq Ho. right. right. auto. }
  destruct (userQuit _ buf); [intros [= <- <- <-]; auto|].
  repeat match goal with |- (if ?c then _ else _) = _ -> _ =>
    destruct c; [intros H; eapply Hdone; [exact H|done|try done; by destruct (0 <=? sl_current sel)|done]|] end.
  destruct (userConfirm _ _ _ _ buf) as [ok ot]. destruct ok; [intros [= <- <- <-]; auto|].
  destruct (bool_decide _); intros H; (eapply Hdone; [exact H|done|done|done]).
Qed.

(** The list is confirmed exactly when the prompt ends without quitting: over any
    sequence of keys, a prompt that ends has either quit and never pressed Enter in the
    list, or pressed it once, as the last thing it wrote. *)
Theorem prompt_confirms_once p reads p' out :
  pm_quit p = false -> run p reads = (p', out, true) ->
  (pm_quit p' = true /\ CharEnter ∉ out) \/
  (pm_quit p' = false /\ exists out0, out = out0 ++ [CharEnter] /\ CharEnter ∉ out0).
Proof.
  revert p out. induction reads as [|[sel read] rest IH]; intros p out Hq; [done|]. cbn [Prompt.run].
  destruct (step p sel read) as [[p1 out1] fin] eqn:Es. apply step_outcome in Es as [(-> & E & ->)|[(-> & E & ->)|(-> & E & Hno)]].
  - intros [= <- <-]. left. split; [done|]. apply not_elem_of_nil.
  - intros [= <- <-]. right. split; [congruence|]. exists []. split; [done|]. apply not_elem_of_nil.
  - destruct (run p1 rest) as [[p2 out2] fin2] eqn:Er. intros [= <- <- ->].
    destruct (IH p1 out2) as [[A B]|(A & o & -> & B)]; [congruence|done| |].
    + left. split; [done|]. by apply not_elem_of_app.
    + right. split; [done|]. exists (out1 ++ o). rewrite app_assoc. split; [done|]. by apply not_elem_of_app.
Qed.

(** The hosts a choice stands for: those selected, in the order of the list, or the one the
    list is on; there always is one, so taking the first never fails. *)
Lemma getSelected_nonempty p idx : 0 <= idx < len (pm_hosts p) -> getSelected p idx <> [].
Proof.
  intros [H1 H2]. unfold getSelected. case_bool_decide as E; cbn [andb]; [|done].
  rewrite (proj2 (Z.leb_le _ _) H1), (proj2 (Z.ltb_lt _ _) H2). cbn [andb].
  destruct (pm_hosts p !! Z.to_nat idx) as [h|] eqn:Eh; [done|]. apply lookup_ge_None in Eh. unfold len in H2. lia.
Qed.
Lemma chooseAlias_total p idx : 0 <= idx < len (pm_hosts p) -> chooseAlias termMgr p (Some idx) <> ChoosePanic.
Proof.
  intros H. pose proof (getSelected_nonempty p idx H). unfold chooseAlias. destruct (pm_quit p); [done|].
  by destruct (getSelected p idx).
Qed.
End PromptTheorems.

(** ** Witnesses *)

#[local] Existing Instance caseless_tables.

Definition sample_hosts : list sshHost := 
  [mkHost (lit "web") (lit "10.0.0.1") [] [] [] [] [] [] [] false; mkHost (lit "db") (lit "10.0.0.2") [] [] [] [] [] [] [] false].
Definition sample_prompt (search : bool) : sshPrompt := mkPrompt sample_hosts 0 false search false.
Definition sample_sel : selector := {| sl_visible := [0%nat; 1%nat]; sl_current := 1 |}.

(** "q" in the search box is a letter. *)
Lemma search_typing_literal_witness :
  exists t, step true 0 (sample_prompt true) sample_sel (Some [113]) = (with_open (sample_prompt true) t, [Typed [113]], false).
Proof. apply (search_typing_literal true 0 (sample_prompt true) sample_sel 113); [reflexivity|lia|lia|lia]. Defined.

(** Space selects the host the list is on, "t" opens it in a tab. *)
Lemma prompt_confirms_once_witness :
  let r := run true 0 (sample_prompt false) [(sample_sel, Some [32]); (sample_sel, Some [116])] in
  pm_openType r.1.1 = openTermTab /\ pm_quit r.1.1 = false /\ exists out0, r.1.2 = out0 ++ [CharEnter] /\ CharEnter ∉ out0.
Proof.
  destruct (run true 0 (sample_prompt false) [(sample_sel, Some [32]); (sample_sel, Some [116])]) as [[p' out] fin] eqn:E.
  assert (Ef : fin = true /\ pm_quit p' = false /\ pm_openType p' = openTermTab).
  { split; [exact (f_equal (fun r => r.2) (eq_sym E))|].
    split; [exact (f_equal (fun r => pm_quit r.1.1) (eq_sym E))|exact (f_equal (fun r => pm_openType r.1.1) (eq_sym E))]. }
  destruct Ef as (-> & Eq & Eo). cbv zeta. cbn [fst snd].
  destruct (prompt_confirms_once true 0 (sample_prompt false) _ p' out eq_refl E) as [[H _]|[_ H]]; [congruence|].
  split; [exact Eo|]. split; [exact Eq|exact H].
Defined.
