(* ===== verification/Attach.v ===== *)
(** * Attaching to a running session

    src/tssh/attach.go: the list of running tsshd servers, the picker (its messages, the
    part of the list that is drawn and the preview) and the command that attaches.  Display
    widths (go-runewidth) are a class with the laws that are used; JSON, the remote command
    and the clock are parameters. *)

From S2P Require Import Prelude GoStrings.

(** [runewidth.StringWidth] and [runewidth.Truncate] with an empty tail. *)
Class RuneWidth := {
  StringWidth : bytes -> Z;
  Truncate : bytes -> Z -> bytes;
  Truncate_width s w : 0 <= w -> StringWidth (Truncate s w) <= w;
  Truncate_prefix s w : Truncate s w `prefix_of` s
}.

(** [tsshd.ServerItem] and [tsshd.BaseInfo]. *)
Record session := { se_ID : Z; se_Title : bytes }.
Record BaseInfo := { bi_Name : bytes; bi_Time : Z; bi_Sessions : list session }.
Record ServerItem := { si_Pid : Z; si_Info : bytes }.

Definition dash (s : bytes) : bytes := if bool_decide (s = []) then lit "-" else s.

Section Attach.
Context `{W : RuneWidth}.
(** [json.Unmarshal] of the list and of one server's information; the local time as text. *)
Context (parse_items : bytes -> option (list ServerItem)) (parse_info : bytes -> option BaseInfo) (format_time : Z -> bytes).

(** ** The picker *)

Record attachModel := mkAttach {
  am_items : list ServerItem; am_infos : list (option BaseInfo);
  am_width : Z; am_height : Z; am_cursor : Z; am_offset : Z; am_chosen : Z; am_preview : bytes; am_quitting : bool
}.
Definition with_cursor (m : attachModel) (c : Z) (preview : bytes) : attachModel :=
  mkAttach (am_items m) (am_infos m) (am_width m) (am_height m) c (am_offset m) (am_chosen m) preview (am_quitting m).
Definition with_size (m : attachModel) (w h : Z) : attachModel :=
  mkAttach (am_items m) (am_infos m) w h (am_cursor m) (am_offset m) (am_chosen m) (am_preview m) (am_quitting m).
Definition with_offset (m : attachModel) (o : Z) : attachModel :=
  mkAttach (am_items m) (am_infos m) (am_width m) (am_height m) (am_cursor m) o (am_chosen m) (am_preview m) (am_quitting m).
Definition choose (m : attachModel) (c : Z) : attachModel :=
  mkAttach (am_items m) (am_infos m) (am_width m) (am_height m) (am_cursor m) (am_offset m) c (am_preview m) true.

(** What fetching the preview of an entry does: a text at once, or a remote command.  [None]
    would be an index out of range. *)
Inductive preview := PreviewText (s : bytes) | PreviewCommand (cmd : bytes).
Definition fetchPreview (m : attachModel) (tsshd : bytes) (idx : Z) : option preview :=
  if idx =? 0 then Some (PreviewText (lit "✨ Starting a brand new session..."))
  else if idx <? 0 then None
  else
    item ← am_items m !! Z.to_nat (idx - 1);
    info ← am_infos m !! Z.to_nat (idx - 1);
    Some match info with
         | None => PreviewText (si_Info item)
         | Some info =>
             match bi_Sessions info with
             | [] => PreviewText (lit "<< NO SESSION >>")
             | s :: _ => PreviewCommand (tsshd ++ lit " --view " ++ Itoa (si_Pid item) ++ [46] ++ Itoa (se_ID s))
             end
         end.

Inductive msg := WindowSize (w h : Z) | Tick | PreviewResult (idx : Z) (content : bytes) | KeyPress (key : bytes).
(** What [Update] asks for: nothing, the preview of an entry, or the end of the program. *)
Inductive cmd := NoCmd | Fetch (idx : Z) | Quit.

Definition is_key (key : bytes) (names : list bytes) : bool := bool_decide (key ∈ names).
Definition Update (m : attachModel) (x : msg) : attachModel * cmd :=
  match x with
  | WindowSize w h => (with_size m w h, NoCmd)
  | Tick => (m, Fetch (am_cursor m))
  | PreviewResult idx content => (if idx =? am_cursor m then with_cursor m (am_cursor m) content else m, NoCmd)
  | KeyPress key =>
      if is_key key [lit "ctrl+c"; lit "q"] then (choose m (-1), Quit)
      else if is_key key [lit "up"; lit "k"; lit "shift+tab"] then
        let c := if 0 <? am_cursor m then am_cursor m - 1 else len (am_items m) in (with_cursor m c (lit "Loading..."), Fetch c)
      else if is_key key [lit "down"; lit "j"; lit "tab"] then
        let c := if am_cursor m <? len (am_items m) then am_cursor m + 1 else 0 in (with_cursor m c (lit "Loading..."), Fetch c)
      else if is_key key [lit "enter"] then (choose m (am_cursor m), Quit)
      else (m, NoCmd)
  end.

(** [clipString] and [clipText] *)
Definition ellipsis : bytes := lit "…".
Definition clipString (s : bytes) (maxW : Z) : bytes :=
  if maxW <=? 0 then [] else if StringWidth s <=? maxW then s else if maxW =? 1 then ellipsis else Truncate s (maxW - 1) ++ ellipsis.
(** [strings.ReplaceAll(text, "\r\n", "\n")] *)
Fixpoint unix_newlines (s : bytes) : bytes :=
  match s with
  | 13 :: (10 :: _ as s') => unix_newlines s'
  | c :: s' => c :: unix_newlines s'
  | [] => []
  end.
Definition clipText (text : bytes) (maxW maxH : Z) : bytes :=
  if (maxW <=? 0) || (maxH <=? 0) then []
  else
    let lines := Split (unix_newlines text) 10 in
    let lines := if maxH <? len lines then take (Z.to_nat maxH) lines else lines in
    Join (map (fun line => if maxW <? StringWidth line then Truncate line maxW else line) lines) [10].

(** One row of the list: 0 is the new session.  [None] would be an index out of range. *)
Definition row_text (m : attachModel) (i : Z) : option bytes :=
  if i =? 0 then Some (lit "✨ [Create a new session]")
  else
    item ← am_items m !! Z.to_nat (i - 1);
    info ← am_infos m !! Z.to_nat (i - 1);
    let '(name, title, start) :=
      match info with
      | None => (lit "-", lit "-", lit "-")
      | Some info =>
          (dash (bi_Name info), match bi_Sessions info with s :: _ => dash (se_Title s) | [] => lit "-" end,
           if 0 <? bi_Time info then format_time (bi_Time info) else lit "-")
      end in
    Some (lit "💻 " ++ Itoa (si_Pid item) ++ lit " | Name: " ++ name ++ lit " | Title: " ++ title ++ lit " | StartTime: " ++ start).

(** What [View] draws, without styles. *)
Inductive view := ViewNothing | ViewInitializing | ViewTooSmall | ViewList (rows : list (Z * bool * bytes)) (preview : bytes).
Definition rows_from (first count total : Z) : list Z :=
  map (fun n => first + Z.of_nat n) (seq 0 (Z.to_nat (Z.min count (total - first)))).
Definition scroll (m : attachModel) (h : Z) : attachModel :=
  if am_cursor m <? am_offset m then with_offset m (am_cursor m)
  else if am_offset m + h <=? am_cursor m then with_offset m (am_cursor m - h + 1)
  else m.
(** [View], which also scrolls: [None] would be an index out of range. *)
Definition View (m : attachModel) : attachModel * option view :=
  if am_quitting m then (m, Some ViewNothing)
  else if (am_width m =? 0) || (am_height m =? 0) then (m, Some ViewInitializing)
  else
    let boxHeight := am_height m - 2 - 2 in
    let boxWidth := Z.quot (am_width m) 2 - 2 in
    if (boxHeight <? 5) || (boxWidth <? 10) then (m, Some ViewTooSmall)
    else
      let h := boxHeight - 2 in
      let m := scroll m h in
      let draw i := t ← row_text m i;
                    Some (i, am_cursor m =? i, clipString ((if am_cursor m =? i then lit "▶ " else lit "  ") ++ t) (boxWidth - 2)) in
      (m, rows ← mapM draw (rows_from (am_offset m) h (len (am_items m) + 1));
          Some (ViewList rows (clipText (am_preview m) (boxWidth - 2) (boxHeight - 4)))).

(** ** Attaching *)

Inductive attach_error := ListFailed | ListEmpty | TooOld | BadList | NotTerminal | PickerFailed | Canceled
| IndexOutOfRange. (* a panic *)
(** The command, and the session it also makes [udpAttachSessionID] when there is one. *)
Definition getAttachCommand (tsshdPath : bytes) (pid : Z) (info : option BaseInfo) : bytes * option Z :=
  (tsshdPath ++ lit " --attach " ++ Itoa pid,
   match info with Some info => se_ID <$> head (bi_Sessions info) | None => None end).

Definition find_session (items : list ServerItem) (infos : list (option BaseInfo)) (name : bytes) : option (ServerItem * BaseInfo) :=
  head (omap (fun p => match p.2 with Some info => if bool_decide (bi_Name info = name) then Some (p.1, info) else None | None => None end)
          (zip items infos)).

(** [attachToSession]: [list_output] is what "--list" printed ([None] for an error), [pick] the
    picker ([None] for its error). *)
Definition attachToSession (tsshdPath sessionName : bytes) (isTerminal : bool) (list_output : option bytes)
    (pick : attachModel -> option attachModel) : result attach_error (option (bytes * option Z)) :=
  match list_output with
  | None => Err ListFailed
  | Some out =>
      if bool_decide (out = []) then Err ListEmpty
      else if HasPrefix out [7; 123; 34] then Err TooOld
      else match parse_items out with
           | None => Err BadList
           | Some items =>
               let infos := map (fun i => parse_info (si_Info i)) items in
               if negb (bool_decide (sessionName = [])) then
                 Ok (match find_session items infos sessionName with
                     | Some (item, info) => Some (getAttachCommand tsshdPath (si_Pid item) (Some info))
                     | None => None
                     end)
               else if negb isTerminal then Err NotTerminal
               else match pick (mkAttach items infos 0 0 0 0 0 [] false) with
                    | None => Err PickerFailed
                    | Some m =>
                        if am_chosen m <? 0 then Err Canceled
                        else if am_chosen m =? 0 then Ok None
                        else match items !! Z.to_nat (am_chosen m - 1), infos !! Z.to_nat (am_chosen m - 1) with
                             | Some item, Some info => Ok (Some (getAttachCommand tsshdPath (si_Pid item) info))
                             | _, _ => Err IndexOutOfRange
                             end
                    end
           end
  end.

(** ** Runs of the picker *)

(** Messages in any order, drawing at any time. *)
Inductive attach_step : attachModel -> attachModel -> Prop :=
| as_update m x : attach_step m (Update m x).1
| as_view m : attach_step m (View m).1.

Record attach_inv (n : Z) (m : attachModel) : Prop := {
  ai_items : len (am_items m) = n;
  ai_infos : len (am_infos m) = n;
  ai_cursor : 0 <= am_cursor m <= n;
  ai_offset : 0 <= am_offset m <= n;
  ai_chosen : -1 <= am_chosen m <= n
}.

Lemma scroll_inv n m h : 0 < h -> attach_inv n m -> attach_inv n (scroll m h) /\
  am_cursor (scroll m h) = am_cursor m /\ am_offset (scroll m h) <= am_cursor m < am_offset (scroll m h) + h.
Proof.
  intros Hh [H1 H2 H3 H4 H5]. unfold scroll. destruct (Z.ltb_spec (am_cursor m) (am_offset m)).
  - split; [|split; [done|cbn; lia]]. by split.
  - destruct (Z.leb_spec (am_offset m + h) (am_cursor m)).
    + split; [|split; [done|cbn; lia]]. split; cbn; try done. lia.
    + split; [by split|]. split; [done|lia].
Qed.

Lemma Update_inv n m x : attach_inv n m -> attach_inv n (Update m x).1.
Proof.
  intros [H1 H2 H3 H4 H5]. assert (0 <= n) by lia. unfold Update. destruct x as [w h| |idx c|key]; [by split|by split| |].
  - destruct (idx =? am_cursor m); by split.
  - destruct (is_key key [lit "ctrl+c"; lit "q"]); [split; cbn; try done; lia|].
    destruct (is_key key [lit "up"; _; _]).
    { split; cbn; try done. destruct (Z.ltb_spec 0 (am_cursor m)); lia. }
    destruct (is_key key [lit "down"; _; _]).
    { split; cbn; try done. destruct (Z.ltb_spec (am_cursor m) (len (am_items m))); lia. }
    destruct (is_key key [lit "enter"]); [split; cbn; try done; lia|by split].
Qed.
Lemma View_inv n m : attach_inv n m -> attach_inv n (View m).1.
Proof.
  intros H. unfold View. destruct (am_quitting m); [done|]. destruct (_ || _); [done|].
  destruct (am_height m - 2 - 2 <? 5) eqn:E; [done|]. destruct (_ <? 10); [done|]. cbn [orb fst]. to_prop. by apply scroll_inv; [lia|].
Qed.
Lemma attach_run_inv n m m' : attach_inv n m -> rtc attach_step m m' -> attach_inv n m'.
Proof. intros H. induction 1 as [|x y z Hs _ IH]; [done|]. apply IH. destruct Hs; [by apply Update_inv|by apply View_inv]. Qed.

Lemma len_lookup {A} (l : list A) i : 0 <= i < len l -> is_Some (l !! Z.to_nat i).
Proof. intros H. apply lookup_lt_is_Some. unfold len in H. lia. Qed.
Lemma row_text_some n m i : attach_inv n m -> 0 <= i <= n -> is_Some (row_text m i).
Proof.
  intros [H1 H2 _ _ _] Hi. unfold row_text. destruct (Z.eqb_spec i 0); [done|].
  destruct (len_lookup (am_items m) (i - 1)) as [item ->]; [lia|]. destruct (len_lookup (am_infos m) (i - 1)) as [info ->]; [lia|].
  cbn [mbind option_bind]. destruct (match info with Some _ => _ | None => _ end) as [[a b] c]. done.
Qed.
Lemma fetch_some n m tsshd i : attach_inv n m -> 0 <= i <= n -> is_Some (fetchPreview m tsshd i).
Proof.
  intros [H1 H2 _ _ _] Hi. unfold fetchPreview. destruct (Z.eqb_spec i 0); [done|]. destruct (Z.ltb_spec i 0); [lia|].
  destruct (len_lookup (am_items m) (i - 1)) as [item ->]; [lia|]. destruct (len_lookup (am_infos m) (i - 1)) as [info ->]; [lia|].
  done.
Qed.
Lemma rows_from_spec first count total i :
  i ∈ rows_from first count total <-> first <= i < first + count /\ i < total.
Proof.
  unfold rows_from. rewrite list_elem_of_In, in_map_iff. split.
  - intros (k & <- & Hk%in_seq). lia.
  - intros H. exists (Z.to_nat (i - first)). split; [lia|]. apply in_seq. lia.
Qed.

(** Drawing the list: it never reads past the items and shows the cursor. *)
Lemma View_shows_cursor n m : attach_inv n m ->
  match (View m).2 with
  | None => False
  | Some (ViewList rows _) => exists t, (am_cursor m, true, t) ∈ rows
  | Some _ => True
  end.
Proof.
  intros H. unfold View. destruct (am_quitting m); [done|]. destruct (_ || _); [done|].
  destruct (am_height m - 2 - 2 <? 5) eqn:E; [done|]. destruct (_ <? 10); [done|]. cbn [orb snd]. to_prop.
  destruct (scroll_inv n m (am_height m - 2 - 2 - 2)) as (Hi & Hc & Ho); [lia|done|].
  set (m' := scroll m _) in *. clearbody m'. rewrite Hc.
  set (draw := fun i => t ← row_text m' i; _). pose proof (ai_items _ _ Hi) as Hn. pose proof (ai_offset _ _ Hi) as Hof. rewrite Hn.
  destruct (mapM draw (rows_from (am_offset m') (am_height m - 2 - 2 - 2) (n + 1))) as [rows|] eqn:Em.
  - cbn [mbind option_bind]. apply mapM_Some in Em.
    destruct (list_elem_of_lookup_1 (rows_from (am_offset m') (am_height m - 2 - 2 - 2) (n + 1)) (am_cursor m)) as [k Hk].
    { apply rows_from_spec. pose proof (ai_cursor _ _ H). lia. }
    destruct (Forall2_lookup_l _ _ _ _ _ Em Hk) as (row & Hr & Hd). subst draw. cbn beta in Hd.
    destruct (row_text m' (am_cursor m)) as [t|]; [|done]. cbn [mbind option_bind] in Hd. rewrite Z.eqb_refl in Hd.
    injection Hd as <-. eexists. by eapply list_elem_of_lookup_2.
  - apply mapM_None, Exists_exists in Em as (i & Hin%rows_from_spec & Hd). subst draw. cbn beta in Hd.
    destruct (row_text_some n m' i Hi) as [t Ht]; [lia|]. by rewrite Ht in Hd.
Qed.

(** The picker stays inside its list: whatever messages arrive, in whatever order and
    however the window is resized, the cursor and the choice are entries of the list, the
    entry under the cursor is among the rows that are drawn, and no row or preview that is
    drawn or fetched reads past the servers. *)
Theorem attach_picker_in_range items infos m tsshd :
  length infos = length items -> rtc attach_step (mkAttach items infos 0 0 0 0 0 [] false) m ->
  0 <= am_cursor m <= len items /\ -1 <= am_chosen m <= len items /\
  match (View m).2 with
  | None => False
  | Some (ViewList rows _) => exists t, (am_cursor m, true, t) ∈ rows
  | Some _ => True
  end /\
  (forall x idx, (Update m x).2 = Fetch idx -> is_Some (fetchPreview m tsshd idx)).
Proof.
  intros Hl Hrun. assert (Hi : attach_inv (len items) m).
  { eapply attach_run_inv; [|exact Hrun]. unfold len. split; cbn; unfold len; rewrite ?Hl; lia. }
  split; [apply Hi|]. split; [apply Hi|]. split; [by eapply View_shows_cursor|].
  intros x idx Hx. eapply fetch_some; [exact Hi|]. pose proof (ai_cursor _ _ Hi) as Hc. pose proof (ai_items _ _ Hi) as Hn.
  unfold Update in Hx. destruct x as [w h| |i c|key]; try done; [by injection Hx as <-|].
  destruct (is_key key [lit "ctrl+c"; lit "q"]); [done|].
  destruct (is_key key [lit "up"; _; _]).
  { injection Hx as <-. destruct (Z.ltb_spec 0 (am_cursor m)); lia. }
  destruct (is_key key [lit "down"; _; _]).
  { injection Hx as <-. destruct (Z.ltb_spec (am_cursor m) (len (am_items m))); lia. }
  by destruct (is_key key [lit "enter"]).
Qed.

(** Attaching never indexes out of range when the picker only handles messages. *)
Lemma attach_never_panics tsshd name term out pick :
  (forall m0 m, pick m0 = Some m -> rtc attach_step m0 m) -> attachToSession tsshd name term out pick <> Err IndexOutOfRange.
Proof.
  intros Hp. unfold attachToSession. destruct out as [o|]; [|done]. destruct (bool_decide (o = [])); [done|].
  destruct (HasPrefix _ _); [done|]. destruct (parse_items o) as [items|]; [|done]. destruct (negb (bool_decide _)); [done|].
  destruct (negb term); [done|]. destruct (pick _) as [m|] eqn:Em; [|done]. apply Hp in Em.
  assert (Hi : attach_inv (len items) m).
  { eapply attach_run_inv; [|exact Em]. unfold len. split; cbn; unfold len; rewrite ?length_map; lia. }
  destruct (Z.ltb_spec (am_chosen m) 0); [done|]. destruct (Z.eqb_spec (am_chosen m) 0); [done|].
  pose proof (ai_chosen _ _ Hi). destruct (len_lookup items (am_chosen m - 1)) as [item E]; [lia|]. rewrite E, list_lookup_fmap, E. done.
Qed.

(** ** The preview fits its box *)

Lemma Split_parts s sep : Split s sep <> [] /\ Forall (fun f => sep ∉ f) (Split s sep).
Proof.
  induction s as [|c s [IH1 IH2]]; cbn; [split; [done|]; apply Forall_singleton, not_elem_of_nil|].
  destruct (Z.eqb_spec c sep) as [->|Hc].
  - split; [done|]. apply Forall_cons_2; [apply not_elem_of_nil|done].
  - destruct (Split s sep) as [|f fs]; [done|]. split; [done|]. apply Forall_cons in IH2 as [H1 H2].
    apply Forall_cons_2; [|done]. apply not_elem_of_cons. split; [congruence|done].
Qed.
Lemma clipText_fits text maxW maxH :
  0 < maxW -> 0 < maxH ->
  len (Split (clipText text maxW maxH) 10) <= maxH /\ Forall (fun line => StringWidth line <= maxW) (Split (clipText text maxW maxH) 10).
Proof.
  intros Hw Hh. unfold clipText. rewrite (proj2 (Z.leb_gt maxW 0)), (proj2 (Z.leb_gt maxH 0)) by lia. cbn [orb].
  destruct (Split_parts (unix_newlines text) 10) as [Hne Hno]. set (lines := Split (unix_newlines text) 10) in *. clearbody lines.
  set (lines' := if maxH <? len lines then take (Z.to_nat maxH) lines else lines).
  assert (H' : lines' <> [] /\ Forall (fun f => 10 ∉ f) lines' /\ len lines' <= maxH).
  { subst lines'. destruct (Z.ltb_spec maxH (len lines)).
    - split_and!; [|by apply Forall_take|unfold len; rewrite length_take; lia].
      destruct lines; [done|]. destruct (Z.to_nat maxH) eqn:E; [lia|]. done.
    - split_and!; [done|done|lia]. }
  clearbody lines'. destruct H' as (H1 & H2 & H3).
  rewrite Split_Join.
  - split; [unfold len in *; by rewrite length_map|]. apply Forall_map. apply Forall_forall. intros line _.
    destruct (Z.ltb_spec maxW (StringWidth line)); [apply Truncate_width; lia|done].
  - by destruct lines'.
  - apply Forall_map. eapply Forall_impl; [exact H2|]. cbn. intros line Hl. destruct (maxW <? StringWidth line); [|done].
    destruct (Truncate_prefix line maxW) as [k Hk]. intros Hin. apply Hl. rewrite Hk. apply elem_of_app. by left.
Qed.
End Attach.

(** ** Witnesses *)

(** One column per byte. *)
#[local] Program Instance byte_width : RuneWidth :=
  {| StringWidth := len; Truncate := fun s w => take (Z.to_nat w) s |}.
Next Obligation. intros s w Hw. unfold len. rewrite length_take. lia. Qed.
Next Obligation. intros s w. apply prefix_take. Qed.

Definition sample_items : list ServerItem := [{| si_Pid := 11; si_Info := lit "a" |}; {| si_Pid := 12; si_Info := lit "b" |}].
Definition sample_infos : list (option BaseInfo) :=
  [Some {| bi_Name := lit "work"; bi_Time := 0; bi_Sessions := [{| se_ID := 5; se_Title := lit "vim" |}] |}; None].
(** Up from the first entry wraps to the last one. *)
Definition sample_picker : attachModel :=
  (Update (Update (mkAttach sample_items sample_infos 0 0 0 0 0 [] false) (WindowSize 80 24)).1 (KeyPress (lit "up"))).1.
Lemma attach_picker_in_range_witness :
  am_cursor sample_picker = 2 /\ 0 <= am_cursor sample_picker <= 2 /\
  match (View (fun _ => []) sample_picker).2 with Some (ViewList rows _) => exists t, (2, true, t) ∈ rows | _ => False end.
Proof.
  destruct (attach_picker_in_range (fun _ => []) sample_items sample_infos sample_picker (lit "tsshd")) as (H1 & _ & H3 & _); [reflexivity| |].
  { eapply rtc_l; [apply (as_update _ _ (WindowSize 80 24))|]. eapply rtc_l; [apply (as_update _ _ (KeyPress (lit "up")))|]. apply rtc_refl. }
  split; [vm_compute; reflexivity|]. split; [exact H1|].
  assert (Hc : am_cursor sample_picker = 2) by (vm_compute; reflexivity). rewrite Hc in H3.
  destruct (View (fun _ => []) sample_picker).2 as [[| | |rows pv]|] eqn:E; [..|exact H3|destruct H3]; exfalso; vm_compute in E; discriminate.
Defined.
