(* ===== verification/HostList.v ===== *)
(** * The list of hosts and the stored secrets

    The rest of src/tssh/config.go: [getAllHosts], which reads the aliases to choose from out
    of the loaded ssh_config files and the files they include, and the coding of secrets in
    the extended configuration.  A parsed file is a tree of [Host] blocks; the order of the
    files of an [Include] and the text of a pattern are the library's.  The cipher is a class
    with the law of authenticated encryption that is used. *)

From S2P Require Import Prelude GoStrings Tokens Forwarding KnownHosts X11 SshConfig Auth Prompt.

Local Open Scope go_scope.

(** ** Parsed files *)

(** A pattern of a [Host] line: its text and whether it is negated. *)
Record pattern := mkPattern { pt_str : bytes; pt_not : bool }.
(** A [Host] block; a node is an [Include] with its files ([None] a nil one), or another
    line. *)
Inductive cfgHost := CfgHost (nodes : list (option (list (option (list cfgHost))))) (patterns : list pattern).

(** What the search changes: the aliases seen, the wildcard patterns and the hosts. *)
Record hostState := mkHosts { hs_seen : gset bytes; hs_wild : list pattern; hs_hosts : list sshHost }.

Section HostList.
Context `{U : UnicodeTables}.
Context (Default : bytes -> bytes) (cfg : settings).

Definition host_entry (alias : bytes) : sshHost :=
  let get key := getConfig Default cfg alias key in
  mkHost alias (get (lit "HostName")) (get (lit "Port")) (get (lit "User")) (get (lit "IdentityFile"))
    (get (lit "ProxyCommand")) (get (lit "ProxyJump")) (get (lit "RemoteCommand")) (getGroupLabels Default cfg alias) false.

Definition is_wild (alias : bytes) : bool := bool_decide (42 ∈ alias) || bool_decide (63 ∈ alias).
Definition hidden (alias : bytes) : bool := bool_decide (ToLower (getConfig Default cfg alias (lit "HideHost")) = lit "yes").

Definition add_pattern (st : hostState) (p : pattern) : hostState :=
  let alias := pt_str p in
  if bool_decide (alias ∈ hs_seen st) then st
  else
    let seen := {[alias]} ∪ hs_seen st in
    if is_wild alias then
      mkHosts seen (if negb (bool_decide (alias = lit "*")) && negb (pt_not p) then hs_wild st ++ [p] else hs_wild st) (hs_hosts st)
    else if hidden alias then mkHosts seen (hs_wild st) (hs_hosts st)
    else mkHosts seen (hs_wild st) (hs_hosts st ++ [host_entry alias]).
(** [appendPromptHosts] for one block. *)
Definition appendPromptHosts (st : hostState) (patterns : list pattern) : hostState := fold_left add_pattern patterns st.

(** [recursiveGetHosts]: the files included in a block come before its own patterns. *)
Fixpoint get_host (h : cfgHost) (st : hostState) : hostState :=
  let 'CfgHost nodes patterns := h in
  let st1 :=
    (fix over_nodes ns st :=
       match ns with
       | [] => st
       | None :: ns' => over_nodes ns' st
       | Some files :: ns' =>
           over_nodes ns'
             ((fix over_files fs st :=
                 match fs with
                 | [] => st
                 | None :: fs' => over_files fs' st
                 | Some hosts :: fs' =>
                     over_files fs' ((fix over_hosts hs st := match hs with [] => st | h :: hs' => over_hosts hs' (get_host h st) end) hosts st)
                 end) files st)
       end) nodes st in
  appendPromptHosts st1 patterns.
Definition recursiveGetHosts (cfgHosts : list cfgHost) (st : hostState) : hostState := fold_left (fun st h => get_host h st) cfgHosts st.

(** [getAllHosts], the first time: the user's file, then the system's. *)
Definition no_hosts : hostState := mkHosts ∅ [] [].
Definition getAllHosts (user sys : option (list cfgHost)) : hostState :=
  let st1 := match user with Some hs => recursiveGetHosts hs no_hosts | None => no_hosts end in
  match sys with Some hs => recursiveGetHosts hs st1 | None => st1 end.

(** ** The patterns in the order they are met *)

Fixpoint flat (h : cfgHost) : list pattern :=
  let 'CfgHost nodes patterns := h in
  (fix over_nodes ns :=
     match ns with
     | [] => []
     | None :: ns' => over_nodes ns'
     | Some files :: ns' =>
         (fix over_files fs :=
            match fs with
            | [] => []
            | None :: fs' => over_files fs'
            | Some hosts :: fs' =>
                (fix over_hosts hs := match hs with [] => [] | h :: hs' => flat h ++ over_hosts hs' end) hosts ++ over_files fs'
            end) files ++ over_nodes ns'
     end) nodes ++ patterns.
Definition all_patterns (user sys : option (list cfgHost)) : list pattern :=
  concat (map flat (default [] user)) ++ concat (map flat (default [] sys)).

Lemma get_host_flat : forall h st, get_host h st = fold_left add_pattern (flat h) st.
Proof using Type.
  fix IH 1. intros [nodes patterns] st. cbn [get_host flat]. rewrite fold_left_app. unfold appendPromptHosts. f_equal.
  revert st. induction nodes as [|[files|] nodes IHn]; intros st; [done| |apply IHn].
  rewrite fold_left_app, <- IHn. f_equal. clear IHn nodes patterns.
  revert st. induction files as [|[hosts|] files IHf]; intros st; [done| |apply IHf].
  rewrite fold_left_app, <- IHf. f_equal. clear IHf files.
  revert st. induction hosts as [|h hosts IHh]; intros st; [done|].
  rewrite fold_left_app, <- IHh. f_equal. apply IH.
Qed.

Lemma recursiveGetHosts_flat hs st : recursiveGetHosts hs st = fold_left add_pattern (concat (map flat hs)) st.
Proof using Type.
  revert st. induction hs as [|h hs IH]; intros st; [done|]. cbn [map concat]. rewrite fold_left_app, <- get_host_flat.
  apply IH.
Qed.

Lemma getAllHosts_flat user sys : getAllHosts user sys = fold_left add_pattern (all_patterns user sys) no_hosts.
Proof using Type.
  unfold getAllHosts, all_patterns. rewrite fold_left_app.
  destruct user as [u|]; destruct sys as [s|]; cbn [default]; rewrite ?recursiveGetHosts_flat; done.
Qed.

(** ** What the list holds *)

(** The first pattern of every text, in order. *)
Fixpoint firsts (seen : gset bytes) (ps : list pattern) : list pattern :=
  match ps with
  | [] => []
  | p :: ps' => if bool_decide (pt_str p ∈ seen) then firsts seen ps' else p :: firsts ({[pt_str p]} ∪ seen) ps'
  end.
Definition shown (p : pattern) : bool := negb (is_wild (pt_str p)) && negb (hidden (pt_str p)).
Definition offered_wild (p : pattern) : bool := is_wild (pt_str p) && negb (bool_decide (pt_str p = lit "*")) && negb (pt_not p).

Lemma add_patterns_spec ps : forall st,
  hs_hosts (fold_left add_pattern ps st) =
    hs_hosts st ++ map (fun p => host_entry (pt_str p)) (List.filter shown (firsts (hs_seen st) ps)) /\
  hs_wild (fold_left add_pattern ps st) = hs_wild st ++ List.filter offered_wild (firsts (hs_seen st) ps).
Proof using Type.
  induction ps as [|p ps IH]; intros st; cbn [fold_left firsts].
  { by rewrite !app_nil_r. }
  unfold add_pattern at 2 4. destruct (bool_decide (pt_str p ∈ hs_seen st)) eqn:Hs; [apply IH|].
  cbn [List.filter].
  assert (E1 : shown p = negb (is_wild (pt_str p)) && negb (hidden (pt_str p))) by done.
  assert (E2 : offered_wild p = is_wild (pt_str p) && (negb (bool_decide (pt_str p = lit "*")) && negb (pt_not p)))
    by (unfold offered_wild; by rewrite andb_assoc).
  rewrite E1, E2. clear E1 E2.
  destruct (is_wild (pt_str p)); cbn [negb andb];
    [destruct (negb (bool_decide (pt_str p = lit "*")) && negb (pt_not p))|destruct (hidden (pt_str p)); cbn [negb]];
    match goal with |- context [fold_left _ _ ?st'] => destruct (IH st') as [-> ->] end;
    cbn [hs_hosts hs_wild hs_seen map]; by rewrite <- ?app_assoc.
Qed.

Lemma firsts_elem ps : forall seen a,
  (exists p, p ∈ firsts seen ps /\ pt_str p = a) <-> a ∉ seen /\ exists p, p ∈ ps /\ pt_str p = a.
Proof using Type.
  clear. induction ps as [|q ps IH]; intros seen a; cbn [firsts].
  { split; [intros (p & Hp & _)|intros (_ & p & Hp & _)]; by apply elem_of_nil in Hp. }
  case_bool_decide as Hs.
  - rewrite IH. split; intros [H (p & Hp & <-)]; (split; [done|]); exists p; rewrite ?elem_of_cons in *; naive_solver.
  - split.
    + intros (p & [->|Hp]%elem_of_cons & <-); [split; [done|]; exists q; rewrite elem_of_cons; auto|].
      destruct (proj1 (IH _ (pt_str p)) (ex_intro _ p (conj Hp eq_refl))) as [Hn (p' & Hp' & He)].
      split; [set_solver|]. exists p'. rewrite elem_of_cons. auto.
    + intros [Hn (p & [->|Hp]%elem_of_cons & <-)]; [exists q; rewrite elem_of_cons; auto|].
      destruct (decide (pt_str p = pt_str q)) as [->|Hd]; [exists q; rewrite elem_of_cons; auto|].
      destruct (proj2 (IH ({[pt_str q]} ∪ seen) (pt_str p))) as (p' & Hp' & He); [split; [set_solver|eauto]|].
      exists p'. rewrite elem_of_cons. auto.
Qed.

Lemma firsts_NoDup ps : forall seen, NoDup (map pt_str (firsts seen ps)).
Proof using Type.
  clear. induction ps as [|q ps IH]; intros seen; cbn [firsts]; [constructor|].
  case_bool_decide as Hs; [apply IH|]. cbn [map]. constructor; [|apply IH].
  intros (p & He & Hp)%list_elem_of_fmap.
  destruct (proj1 (firsts_elem ps ({[pt_str q]} ∪ seen) (pt_str q))) as [Hn _]; [eauto|]. set_solver.
Qed.

(** The list to choose from has every alias once: exactly the texts of the patterns of both
    files and of what they include that have no wildcard and are not hidden, with the settings
    of that alias; nothing is selected. *)
Theorem hosts_listed user sys :
  let hosts := hs_hosts (getAllHosts user sys) in
  NoDup (map sh_Alias hosts) /\
  (forall h, h ∈ hosts -> h = host_entry (sh_Alias h)) /\
  (forall alias, alias ∈ map sh_Alias hosts <->
     (exists p, p ∈ all_patterns user sys /\ pt_str p = alias) /\ is_wild alias = false /\ hidden alias = false).
Proof using Type.
  cbv zeta. rewrite getAllHosts_flat, (proj1 (add_patterns_spec _ _)). cbn [no_hosts hs_hosts hs_seen app].
  set (l := firsts ∅ _). rewrite map_map. cbn [host_entry sh_Alias]. split_and!.
  - pose proof (firsts_NoDup (all_patterns user sys) ∅) as Hn. fold l in Hn. clearbody l.
    induction l as [|p l IH]; [constructor|]. inversion_clear Hn as [|?? Hp Hl]. cbn [List.filter].
    destruct (shown p); [|by apply IH]. cbn [map]. constructor; [|by apply IH].
    intros (q & He & Hq)%list_elem_of_fmap. apply Hp. apply list_elem_of_fmap. exists q. split; [done|].
    by apply list_elem_of_In, filter_In in Hq as [?%list_elem_of_In _].
  - intros h (p & -> & _)%list_elem_of_fmap. done.
  - intros a. rewrite list_elem_of_fmap. split.
    + intros (p & -> & Hp). apply list_elem_of_In, filter_In in Hp as [Hp Hs]. apply list_elem_of_In in Hp.
      destruct (proj1 (firsts_elem (all_patterns user sys) ∅ (pt_str p))) as [_ Hx]; [eauto|].
      unfold shown in Hs. to_prop. auto.
    + intros (Hx & Hw & Hh). destruct (proj2 (firsts_elem (all_patterns user sys) ∅ a)) as (p & Hp & <-); [split; [set_solver|done]|].
      exists p. split; [done|]. apply list_elem_of_In, filter_In. split; [by apply list_elem_of_In|].
      unfold shown. by rewrite Hw, Hh.
Qed.

End HostList.

(** ** Secrets *)

(** AES-GCM under the key of the program: [Seal] gives the cipher text with its tag, which
    [Open] undoes under the same nonce. *)
Class AEAD := {
  nonceSize : nat;
  nonceSize_pos : (0 < nonceSize)%nat;
  Seal : bytes -> bytes -> bytes;
  Open : bytes -> bytes -> option bytes;
  Open_Seal nonce m : length nonce = nonceSize -> Open nonce (Seal nonce m) = Some m;
  wf_Seal nonce m : wf_bytes m -> wf_bytes (Seal nonce m)
}.

Inductive secret_error := SecretHex | SecretShort | SecretOpen | SecretRandom.

Section Secrets.
Context `{A : AEAD}.

(** [encodeSecret]; [nonce] is what the random source gave. *)
Definition encodeSecret (nonce : option bytes) (secret : bytes) : result secret_error bytes :=
  match nonce with None => Err SecretRandom | Some nonce => Ok (hexEncode (nonce ++ Seal nonce secret)) end.
Definition decodeSecret (secret : bytes) : result secret_error bytes :=
  match hexDecode secret with
  | None => Err SecretHex
  | Some c =>
      if (length c <? nonceSize)%nat then Err SecretShort
      else match Open (take nonceSize c) (drop nonceSize c) with None => Err SecretOpen | Some m => Ok m end
  end.

Lemma hex_digit_val d : 0 <= d < 16 -> hex_val (hex_digit d) = Some d.
Proof using Type.
  intros H. unfold hex_val, hex_digit. destruct (Z.ltb_spec d 10).
  - rewrite (proj2 (Z.leb_le 48 (48 + d))), (proj2 (Z.leb_le (48 + d) 57)) by lia. cbn [andb]. f_equal. lia.
  - rewrite (proj2 (Z.leb_gt (87 + d) 57)), andb_false_r by lia.
    rewrite (proj2 (Z.leb_le 97 (87 + d))), (proj2 (Z.leb_le (87 + d) 102)) by lia. cbn [andb]. f_equal. lia.
Qed.
Lemma hex_roundtrip s : wf_bytes s -> hexDecode (hexEncode s) = Some s.
Proof using Type.
  induction s as [|b s IH]; [done|]. intros [Hb Hs]%Forall_cons. unfold is_byte in Hb. unfold hexEncode. cbn [map concat app hexDecode].
  rewrite !hex_digit_val by zlia. fold (hexEncode s). rewrite (IH Hs). cbn. do 2 f_equal. zlia.
Qed.

Lemma secret_decodes nonce m e :
  wf_bytes nonce -> wf_bytes m -> length nonce = nonceSize -> encodeSecret (Some nonce) m = Ok e -> decodeSecret e = Ok m.
Proof using Type.
  intros Hn Hm Hl [= <-]. unfold decodeSecret. rewrite hex_roundtrip by (apply wf_bytes_app; auto using wf_Seal).
  rewrite length_app, (proj2 (Nat.ltb_ge _ _)) by lia. rewrite <- Hl, take_app_length, drop_app_length, Open_Seal by done. done.
Qed.

(** The secret commands: tokens, words, the program's output without surrounding blanks.
    [splitCommandLine] and running the program are parameters. *)
Context `{U : UnicodeTables}.
Context (hostname : bytes) (sha1hex : bytes -> bytes) (splitCommandLine : bytes -> option (list bytes)).
Context (run : list bytes -> option bytes).

Definition execSecretCommand (param : sshParam) (command : bytes) : bytes :=
  match expandTokens hostname sha1hex command param (lit "%hnpr") with
  | Err _ => []
  | Ok expanded =>
      match splitCommandLine expanded with
      | None | Some [] => []
      | Some argv => match run argv with None => [] | Some out => TrimSpace out end
      end
  end.

Definition secret_config (Default : bytes -> bytes) (cfg : settings) (param : sshParam) (key : bytes) : bytes :=
  getSecretConfig Default (fun v => match decodeSecret v with Ok m => Some m | Err _ => None end)
    (execSecretCommand param) cfg (pr_Destination param) key.

(** A secret stored with [encodeSecret] is the one that is used, ahead of a command or a plain
    text for the same key. *)
Theorem stored_secret_used Default cfg param key nonce m e :
  wf_bytes nonce -> wf_bytes m -> length nonce = nonceSize -> m <> [] -> encodeSecret (Some nonce) m = Ok e ->
  getExConfig Default cfg (pr_Destination param) (lit "enc" ++ key) = e ->
  secret_config Default cfg param key = m.
Proof using Type.
  intros Hn Hm Hl Hne He Hc. unfold secret_config, getSecretConfig. cbv zeta. rewrite Hc.
  pose proof (secret_decodes nonce m e Hn Hm Hl He) as Hd. rewrite Hd. cbn [default].
  rewrite (bool_decide_eq_false_2 (e = [])); [by rewrite (bool_decide_eq_false_2 (m = []))|].
  intros ->. injection He as He. pose proof nonceSize_pos. destruct nonce; [cbn in Hl; lia|done].
Qed.
End Secrets.

#[local] Existing Instance caseless_tables.

(** A cipher that satisfies the laws: the text with a fixed tag. *)
Definition toy_seal (m : bytes) : bytes := m ++ replicate 4 0.
Definition toy_open (c : bytes) : option bytes :=
  if bool_decide (drop (length c - 4) c = replicate 4 0) then Some (take (length c - 4) c) else None.
Lemma toy_open_seal m : toy_open (toy_seal m) = Some m.
Proof.
  unfold toy_open, toy_seal. rewrite length_app, length_replicate, Nat.add_sub, drop_app_length, take_app_length.
  by rewrite bool_decide_eq_true_2.
Qed.
Lemma toy_seal_wf m : wf_bytes m -> wf_bytes (toy_seal m).
Proof. intros H. apply wf_bytes_app. split; [done|]. by repeat constructor. Qed.
#[local] Instance toy_aead : AEAD := {|
  nonceSize := 12; nonceSize_pos := Nat.lt_0_succ 11; Seal _ := toy_seal; Open _ := toy_open;
  Open_Seal _ m _ := toy_open_seal m; wf_Seal _ := toy_seal_wf |}.

Definition sample_nonce : bytes := [1; 2; 3; 4; 5; 6; 7; 8; 9; 10; 11; 12].
Definition sample_encoded : bytes := match encodeSecret (Some sample_nonce) (lit "hunter2") with Ok e => e | Err _ => [] end.
Definition sample_ex : sshFile :=
  {| file_Get a k := if bool_decide (k = lit "encPassword") then Some sample_encoded else if bool_decide (k = lit "Password") then Some (lit "plain") else None;
     file_GetAll _ _ := None; file_GetSplits _ _ := None; file_GetAllSplits _ _ := None |}.
Definition sample_secrets : settings := {| effective := fun _ => None; config := None; sysConfig := None; exConfig := Some sample_ex |}.
Lemma stored_secret_used_witness :
  secret_config [] (fun b => b) (fun _ => None) (fun _ => None) (fun _ => []) sample_secrets sample_param (lit "Password") = lit "hunter2".
Proof.
  apply (stored_secret_used _ _ _ _ _ _ _ _ sample_nonce _ sample_encoded).
  - apply (bool_decide_unpack _). vm_compute. exact I.
  - apply (bool_decide_unpack _). vm_compute. exact I.
  - reflexivity.
  - discriminate.
  - reflexivity.
  - vm_compute. reflexivity.
Defined.

(** Two files, an include and a hidden host. *)
Definition sample_tree : list cfgHost :=
  [CfgHost [None; Some [None; Some [CfgHost [] [mkPattern (lit "db") false; mkPattern (lit "web*") false]]]]
     [mkPattern (lit "web") false; mkPattern (lit "db") false; mkPattern (lit "*") false]].
Example sample_listed :
  map sh_Alias (hs_hosts (getAllHosts (fun _ => []) sample_secrets (Some sample_tree) None)) = [lit "db"; lit "web"] /\
  map pt_str (hs_wild (getAllHosts (fun _ => []) sample_secrets (Some sample_tree) None)) = [lit "web*"].
Proof. vm_compute. done. Qed.
