(* ===== verification/KeepAlive.v ===== *)
(** * Keeping a connection alive

    [keepAlive] of src/tssh/login.go with what it watches: the time of the last data from the
    server, kept by [connWithTimeout.Read].  The goroutine, the readers of the connections,
    the keep-alive requests and the clock are interleaved; every access to the shared time is
    a step of its own.  Times are milliseconds. *)

From S2P Require Import Prelude GoStrings Forwarding SshConfig Transport.

(** ** Connections *)

(** How a host is reached, and the connection that gives: [connWithTimeout], or the pipe to a
    proxy command, which is handed to the ssh library as it is. *)
Inductive via := Directly | ViaProxyJump | ViaProxyCommand.
Inductive conn := ConnWithTimeout (firstRead : bool) | CmdPipe.
Definition new_conn (v : via) : conn :=
  match v with Directly | ViaProxyJump => ConnWithTimeout true | ViaProxyCommand => CmdPipe end.

(** A successful [Read]: the connection afterwards, and whether it notes the time. *)
Definition conn_Read (c : conn) : conn * bool :=
  match c with
  | ConnWithTimeout true => (ConnWithTimeout false, false)
  | ConnWithTimeout false => (c, true)
  | CmdPipe => (c, false)
  end.

(** ** Settings *)

Definition alive_setting (dflt : Z) (v : bytes) : Z :=
  if bool_decide (v = []) then dflt else match ParseUint v 10 32 with Ok n => n | Err _ => dflt end.

Record alive := { al_interval : Z; al_countMax : Z }.
(** [None] when there is no keep-alive. *)
Definition alive_of `{U : UnicodeTables} (Default : bytes -> bytes) (cfg : settings) (o : sshOption) (dest : bytes) : option alive :=
  let interval := alive_setting 0 (getOptionConfig Default cfg o dest (lit "ServerAliveInterval")) in
  if interval =? 0 then None
  else Some {| al_interval := interval; al_countMax := alive_setting 3 (getOptionConfig Default cfg o dest (lit "ServerAliveCountMax")) |}.

Section KeepAlive.
Context (a : alive).
Definition aliveTimeout : Z := i64 (al_interval a * al_countMax a * 1000).
Definition intervalTime : Z := al_interval a * 1000 - 300.

(** ** Steps *)

(** Where the goroutine is: before its first check, waiting for a tick after [n] requests,
    between the two checks of a tick, or done because it forced the exit. *)
Inductive ka_pc := Outer | Inner (n : Z) | Late (n : Z) | Exited.
(** [ka_heard] are the times of the reads that returned data, with the connection; it only
    serves the statements. *)
Record ka := mkKa {
  ka_now : Z; ka_last : Z; ka_pcs : ka_pc; ka_slots : nat; ka_sent : list Z; ka_conns : list conn; ka_heard : list (Z * nat) }.

Inductive ka_label :=
| Elapse (d : Z) | ReadData (c : nat) | Wake | Tick | Check | RequestDone.

Definition overdue (s : ka) : bool := negb (0 <? ka_last s + intervalTime - ka_now s).
Definition with_pc (s : ka) (pc : ka_pc) : ka := mkKa (ka_now s) (ka_last s) pc (ka_slots s) (ka_sent s) (ka_conns s) (ka_heard s).

Definition ka_step (s : ka) (l : ka_label) : option ka :=
  match l with
  | Elapse d => if 0 <=? d then Some (mkKa (ka_now s + d) (ka_last s) (ka_pcs s) (ka_slots s) (ka_sent s) (ka_conns s) (ka_heard s)) else None
  | ReadData i =>
      match ka_conns s !! i with
      | None => None
      | Some c =>
          let '(c', noted) := conn_Read c in
          Some (mkKa (ka_now s) (if noted then ka_now s else ka_last s) (ka_pcs s) (ka_slots s) (ka_sent s)
                  (<[i := c']> (ka_conns s)) ((ka_now s, i) :: ka_heard s))
      end
  | Wake =>
      match ka_pcs s with
      | Outer => if overdue s then Some (mkKa (ka_now s) (ka_last s) (Inner 1) (ka_slots s) (ka_sent s ++ [1]) (ka_conns s) (ka_heard s))
                 else Some s
      | _ => None
      end
  | Tick =>
      match ka_pcs s with
      | Inner n => Some (with_pc s (if overdue s then Late n else Outer))
      | _ => None
      end
  | Check =>
      match ka_pcs s with
      | Late n =>
          if (0 <? aliveTimeout) && (aliveTimeout <? ka_now s - ka_last s) then Some (with_pc s Exited)
          else
            let n := n + 1 in
            if (ka_slots s <? 2)%nat
            then Some (mkKa (ka_now s) (ka_last s) (Inner n) (S (ka_slots s)) (ka_sent s ++ [n]) (ka_conns s) (ka_heard s))
            else Some (with_pc s (Inner n))
      | _ => None
      end
  | RequestDone => match ka_slots s with O => None | S k => Some (mkKa (ka_now s) (ka_last s) (ka_pcs s) k (ka_sent s) (ka_conns s) (ka_heard s)) end
  end.
Fixpoint ka_run (s : ka) (ls : list ka_label) : option ka :=
  match ls with [] => Some s | l :: ls' => match ka_step s l with Some s' => ka_run s' ls' | None => None end end.

(** The goroutine starts after the login, so every [connWithTimeout] has had its first read. *)
Definition ka_start (t0 : Z) (conns : list conn) : ka := mkKa t0 t0 Outer 0 [] conns [].
Definition ka_reachable (s : ka) : Prop :=
  exists t0 conns ls, Forall (fun c => c <> ConnWithTimeout true) conns /\ ka_run (ka_start t0 conns) ls = Some s.

(** ** Invariant *)

Record ka_inv (s : ka) : Prop := {
  ki_conns : Forall (fun c => c <> ConnWithTimeout true) (ka_conns s);
  ki_order : ka_last s <= ka_now s;
  ki_heard : forall t i, (t, i) ∈ ka_heard s -> ka_conns s !! i = Some (ConnWithTimeout false) -> t <= ka_last s;
  ki_past : forall t i, (t, i) ∈ ka_heard s -> t <= ka_now s;
  ki_slots : (ka_slots s <= 2)%nat
}.

Lemma conn_Read_kept c c' noted : c <> ConnWithTimeout true -> conn_Read c = (c', noted) -> c' = c /\ (c = ConnWithTimeout false <-> noted = true).
Proof using Type. destruct c as [[]|]; cbn; intros H [= <- <-]; split; try done; split; congruence. Qed.

Lemma ka_step_inv s l s' : ka_inv s -> ka_step s l = Some s' -> ka_inv s'.
Proof using Type.
  intros Hinv. pose proof Hinv as [H1 H2 H3 H4 H5]. destruct l as [d|i| | | |]; cbn [ka_step].
  - destruct (Z.leb_spec 0 d) as [Hd|]; [|done]. intros [= <-]. split; cbn; try done; [lia|]. intros t i Hi. specialize (H4 t i Hi). lia.
  - destruct (ka_conns s !! i) as [c|] eqn:Hc; [|done]. destruct (conn_Read c) as [c' noted] eqn:Hr. intros [= <-].
    destruct (conn_Read_kept c c' noted) as [-> Hn]; [by apply (Forall_lookup_1 _ _ _ _ H1 Hc)|done|].
    rewrite list_insert_id by done. split; cbn; try done.
    + destruct noted; lia.
    + intros t j [[= -> ->]|Hj]%elem_of_cons Hcj.
      * rewrite Hc in Hcj. injection Hcj as ->. rewrite (proj1 Hn eq_refl). lia.
      * specialize (H3 t j Hj Hcj). specialize (H4 t j Hj). destruct noted; lia.
    + intros t j [[= -> ->]|Hj]%elem_of_cons; [lia|eauto].
  - destruct (ka_pcs s); try done. destruct (overdue s); intros [= <-]; by split.
  - destruct (ka_pcs s); try done. intros [= <-]. by split.
  - destruct (ka_pcs s); try done. destruct ((0 <? aliveTimeout) && _); [intros [= <-]; by split|].
    destruct (Nat.ltb_spec (ka_slots s) 2); intros [= <-]; split; cbn; try done; lia.
  - destruct (ka_slots s) eqn:Hs; [done|]. intros [= <-]. split; cbn; try done. lia.
Qed.

Lemma ka_run_inv ls : forall s s', ka_inv s -> ka_run s ls = Some s' -> ka_inv s'.
Proof using Type.
  induction ls as [|l ls IH]; intros s s' Hs; cbn [ka_run]; [by intros [= <-]|].
  destruct (ka_step s l) as [s1|] eqn:E; [|done]. apply IH. by apply (ka_step_inv s l).
Qed.
Lemma ka_reachable_inv s : ka_reachable s -> ka_inv s.
Proof using Type.
  intros (t0 & conns & ls & Hc & Hr). refine (ka_run_inv ls _ _ _ Hr). split; cbn; try done; try lia; intros t i Hi; by apply elem_of_nil in Hi.
Qed.

(** ** When the client gives up *)

(** The goroutine's own steps, and how many of them are left to a silent server. *)
Definition own (l : ka_label) : bool := match l with Wake | Tick | Check => true | _ => false end.
Definition reads (l : ka_label) : bool := match l with ReadData _ => true | _ => false end.
Definition own_steps (ls : list ka_label) : nat := length (List.filter own ls).
Definition rank (s : ka) : nat := match ka_pcs s with Outer => 3 | Inner _ => 2 | Late _ => 1 | Exited => 0 end.
Definition limit : Z := al_interval a * al_countMax a * 1000.

(** The settings as the code can read them, short of the overflow of the product. *)
Definition sane : Prop := 0 < al_interval a /\ 0 <= al_countMax a /\ limit < 2 ^ 63.

Lemma aliveTimeout_exact : sane -> aliveTimeout = limit.
Proof using Type.
  intros (H1 & H2 & H3). unfold aliveTimeout, i64, wrap. fold limit. rewrite Z.mod_small; [lia|].
  assert (0 <= limit) by (unfold limit; nia). lia.
Qed.
Lemma ticker_positive : sane -> 0 < intervalTime.
Proof using Type. unfold sane, intervalTime. lia. Qed.

Lemma silent_step s l s' :
  sane -> 0 < al_countMax a -> limit < ka_now s - ka_last s -> reads l = false -> ka_step s l = Some s' ->
  limit < ka_now s' - ka_last s' /\ rank s = (rank s' + (if own l then 1 else 0))%nat.
Proof using Type.
  intros Hs Hc Hl Hr. pose proof (aliveTimeout_exact Hs) as Ht. destruct Hs as (H1 & H2 & H3).
  assert (Hi : al_interval a * 1000 <= limit) by (unfold limit; nia).
  assert (Ho : overdue s = true) by (unfold overdue, intervalTime; apply negb_true_iff, Z.ltb_ge; lia).
  destruct l as [d|i| | | |]; cbn [ka_step own]; [| done | | | |].
  - destruct (Z.leb_spec 0 d); [|done]. intros [= <-]. unfold rank. cbn. split; lia.
  - unfold rank. destruct (ka_pcs s); try done. rewrite Ho. intros [= <-]. cbn. split; lia.
  - unfold rank. destruct (ka_pcs s); try done. rewrite Ho. intros [= <-]. cbn. split; lia.
  - unfold rank. destruct (ka_pcs s); try done. rewrite Ht, (proj2 (Z.ltb_lt 0 limit)), (proj2 (Z.ltb_lt _ _) Hl) by lia.
    cbn [andb]. intros [= <-]. cbn. split; lia.
  - destruct (ka_slots s); [done|]. intros [= <-]. unfold rank. cbn. split; lia.
Qed.

Lemma silent_run ls : forall s s',
  sane -> 0 < al_countMax a -> limit < ka_now s - ka_last s -> forallb (fun l => negb (reads l)) ls = true ->
  ka_run s ls = Some s' -> rank s = (rank s' + own_steps ls)%nat.
Proof using Type.
  induction ls as [|l ls IH]; intros s s' Hs Hc Hl Hr; cbn [ka_run].
  { intros [= <-]. cbn. lia. }
  cbn [forallb] in Hr. to_prop. destruct (ka_step s l) as [s1|] eqn:E; [|done].
  destruct (silent_step s l s1) as [Hl1 Hr1]; [done..|]. intros Hrun. rewrite Hr1, (IH s1 s') by done.
  unfold own_steps. cbn [List.filter]. destruct (own l); cbn [length]; lia.
Qed.

Lemma own_enabled s : rank s <> 0%nat -> exists l, own l = true /\ is_Some (ka_step s l).
Proof using Type.
  unfold rank. intros H. destruct (ka_pcs s) eqn:E; [exists Wake|exists Tick|exists Check|done]; (split; [done|]); cbn [ka_step]; rewrite E.
  - destruct (overdue s); eauto.
  - eauto.
  - destruct (_ && _); [eauto|]. destruct (_ <? _)%nat; eauto.
Qed.

(** C25: when the client gives up on the server, with a positive ServerAliveInterval and a limit
    (that times ServerAliveCountMax) that does not overflow.  When the goroutine forces the exit,
    ServerAliveCountMax is positive and every read that brought data on an open connection with a
    timeout was longer ago than the limit; reads of a proxy command's pipe are not noted and
    do not count ([proxy_command_given_up]).  Conversely, with a positive ServerAliveCountMax,
    once the last noted read is longer ago than the limit, and while nothing is read, each step of
    the goroutine brings it closer: after at most three of its own steps, however long they
    take and whatever else runs, it has forced the exit, and until then one of them is
    possible.  The ticker's period is positive and at most two requests wait at a time besides the first. *)
Theorem keepalive_exact s :
  sane -> ka_reachable s ->
  (forall s', ka_step s Check = Some s' -> ka_pcs s' = Exited ->
     0 < al_countMax a /\
     forall t i, (t, i) ∈ ka_heard s -> ka_conns s !! i = Some (ConnWithTimeout false) -> t + limit < ka_now s) /\
  (0 < al_countMax a -> limit < ka_now s - ka_last s ->
     forall ls s', forallb (fun l => negb (reads l)) ls = true -> ka_run s ls = Some s' ->
       (own_steps ls <= 3)%nat /\ (ka_pcs s' = Exited <-> own_steps ls = rank s) /\
       (ka_pcs s' <> Exited -> exists l, own l = true /\ is_Some (ka_step s' l))) /\
  0 < intervalTime /\ (ka_slots s <= 2)%nat.
Proof using Type.
  intros Hs Hr. pose proof (ka_reachable_inv s Hr) as [H1 H2 H3 H4 H5]. pose proof (aliveTimeout_exact Hs) as Ht.
  split_and!; [|intros Hc Hl ls s' Hls Hrun|by apply ticker_positive|done].
  - intros s' Hst Hex. cbn [ka_step] in Hst. destruct (ka_pcs s) eqn:Hp; try done. rewrite Ht in Hst.
    destruct ((0 <? limit) && (limit <? ka_now s - ka_last s)) eqn:E.
    + to_prop. split; [unfold limit in *; destruct Hs; nia|]. intros t i Hi Hc. specialize (H3 t i Hi Hc). lia.
    + exfalso. cbv zeta in Hst. destruct (_ <? _)%nat; injection Hst as <-; done.
  - pose proof (silent_run ls s s' Hs Hc Hl Hls Hrun) as Hk.
    assert (Hk3 : (rank s <= 3)%nat) by (unfold rank; destruct (ka_pcs s); lia).
    assert (H0 : ka_pcs s' = Exited <-> rank s' = 0%nat) by (unfold rank; destruct (ka_pcs s'); split; congruence).
    split_and!; [lia|rewrite H0; lia|]. intros Hn. apply own_enabled. intros Hz. by apply Hn, H0.
Qed.

End KeepAlive.

(** ** Examples *)

Definition sample_alive : alive := {| al_interval := 1; al_countMax := 3 |}.
(** Data at 100 ms, then silence: a request at 800 ms and every 700 ms, and the end at 3600 ms. *)
Definition sample_labels : list ka_label :=
  [Elapse 100; ReadData 0; Elapse 700; Wake; Elapse 700; Tick; Check; Elapse 700; Tick; Check; Elapse 700; Tick; Check; Elapse 700; Tick].
Definition sample_silent : ka := default (ka_start 0 []) (ka_run sample_alive (ka_start 0 [ConnWithTimeout false]) sample_labels).

Lemma keepalive_exact_witness :
  (exists s', ka_step sample_alive sample_silent Check = Some s' /\ ka_pcs s' = Exited) /\ 100 + limit sample_alive < ka_now sample_silent /\
  (ka_slots sample_silent <= 2)%nat.
Proof.
  destruct (keepalive_exact sample_alive sample_silent) as (H1 & _ & _ & H4).
  - unfold sane. vm_compute. done.
  - exists 0, [ConnWithTimeout false], sample_labels. split; [by repeat constructor|vm_compute; reflexivity].
  - assert (E : ka_step sample_alive sample_silent Check = Some (with_pc sample_silent Exited)) by (vm_compute; reflexivity).
    destruct (H1 _ E eq_refl) as [_ H]. split; [exists (with_pc sample_silent Exited); split; [exact E|reflexivity]|].
    split; [|exact H4]. apply (H 100 0%nat); [vm_compute; constructor|reflexivity].
Defined.

(** ** A finding *)

(** The pipe to a proxy command does not note the time of its reads, and neither does the
    answer to a keep-alive request: although the server answers all the time, the connection is
    given up after three seconds. *)
Definition busy_labels : list ka_label :=
  let busy := [Elapse 350; ReadData 0; Elapse 350; ReadData 0; Tick; Check; RequestDone] in
  [Elapse 350; ReadData 0; Elapse 350; ReadData 0; Wake] ++ busy ++ busy ++ busy ++
  [Elapse 350; ReadData 0; Elapse 350; ReadData 0; Tick; Check].
Lemma proxy_command_given_up :
  match ka_run sample_alive (ka_start 0 [new_conn ViaProxyCommand]) busy_labels with
  | Some s => ka_pcs s = Exited /\ ka_now s = 3500 /\ take 1 (ka_heard s) = [(3500, 0%nat)]
  | None => False
  end.
Proof. vm_compute. done. Qed.
