(* ===== verification/Startup.v ===== *)
(** * Starting and ending the client

    src/tssh/main.go, and the end of a connection in ssh.go: [TsshMain] with the processes it
    starts in the background or again, [sshStart] with the order of its steps and its deferred
    calls, and [forceExit] against [waitUntilExit].  The argument parser, the operating system
    and the outcome of each step are parameters; what is done is a list of actions. *)

From S2P Require Import Prelude GoStrings.

(** ** Exit codes *)

Definition kExitCodeArgsInvalid : Z := 11.
Definition kExitCodeUserConfig : Z := 12.
Definition kExitCodeSetupWinVT : Z := 13.
Definition kExitCodeNoDestHost : Z := 14.
Definition kExitCodeBackground : Z := 15.
Definition kExitCodeLoginFailed : Z := 16.
Definition kExitCodeIoFwFailed : Z := 17.
Definition kExitCodeSubFwFailed : Z := 18.
Definition kExitCodeStartFailed : Z := 19.
Definition kExitCodeShellFailed : Z := 20.
Definition kExitCodeStdinFailed : Z := 21.
Definition kExitCodeTrzszFailed : Z := 22.
Definition kExitCodeOpenSession : Z := 23.
Definition kExitCodeReconnect : Z := 24.
Definition kExitCodeAttachFail : Z := 25.

(** ** The arguments of another process *)

(** The last index of [oldDest] and how often it occurs. *)
Fixpoint find_dest (oldDest : bytes) (args : list bytes) (i : nat) (idx : option nat) (count : nat) : option nat * nat :=
  match args with
  | [] => (idx, count)
  | arg :: args' =>
      if bool_decide (arg = oldDest) then find_dest oldDest args' (S i) (Some i) (S count)
      else find_dest oldDest args' (S i) idx count
  end.
Definition replaceOrAppendDest (args : list bytes) (oldDest newDest : bytes) : option (list bytes) :=
  if bool_decide (oldDest = []) then Some (args ++ [newDest])
  else if bool_decide (oldDest <> newDest) then
    match find_dest oldDest args 0 None 0 with
    | (Some idx, 1%nat) => Some (<[idx := newDest]> args)
    | _ => None
    end
  else Some args.

Lemma find_dest_spec oldDest args : forall i idx count idx' count',
  find_dest oldDest args i idx count = (idx', count') ->
  (oldDest ∉ args /\ idx' = idx /\ count' = count) \/
  (exists l r, args = l ++ oldDest :: r /\ oldDest ∉ r /\ idx' = Some (i + length l)%nat /\ (S count <= count')%nat /\
               (count' = S count <-> oldDest ∉ l)).
Proof.
  induction args as [|arg args IH]; intros i idx count idx' count'; cbn [find_dest].
  { intros [= <- <-]. left. split; [apply not_elem_of_nil|done]. }
  case_bool_decide as Ha; intros H; destruct (IH _ _ _ _ _ H) as [(Hn & -> & ->)|(l & r & -> & Hr & -> & Hc & He)].
  - right. subst arg. exists [], args. split_and!; [done|done|f_equal; cbn; lia|lia|]. split; [intros _; apply not_elem_of_nil|done].
  - right. exists (arg :: l), r. split_and!; [done|done|f_equal; cbn; lia|lia|]. subst arg. rewrite elem_of_cons. split; [lia|intros Hx; destruct Hx; auto].
  - left. rewrite elem_of_cons. split; [|done]. intros [?|?]; [by subst|done].
  - right. exists (arg :: l), r. split_and!; [done|done|f_equal; cbn; lia|lia|]. rewrite He, elem_of_cons. split; [intros Hx [?|?]; [by subst|done]|tauto].
Qed.

(** The arguments of the new process are those of this one with the destination appended,
    kept, or replaced where it stands; when it stands in several places, or in none, there is
    an error. *)
Lemma replaceOrAppendDest_spec args oldDest newDest :
  match replaceOrAppendDest args oldDest newDest with
  | Some args' =>
      (oldDest = [] /\ args' = args ++ [newDest]) \/ (oldDest = newDest /\ args' = args) \/
      (exists l r, args = l ++ oldDest :: r /\ args' = l ++ newDest :: r /\ oldDest ∉ l /\ oldDest ∉ r)
  | None => oldDest <> [] /\ oldDest <> newDest /\
            (oldDest ∉ args \/ exists l r, args = l ++ oldDest :: r /\ oldDest ∈ l)
  end.
Proof.
  unfold replaceOrAppendDest. case_bool_decide as H0; [auto|]. case_bool_decide as H1.
  2: { right. left. split; [|done]. by destruct (decide (oldDest = newDest)). }
  destruct (find_dest oldDest args 0 None 0) as [idx count] eqn:Hf.
  destruct (find_dest_spec _ _ _ _ _ _ _ Hf) as [(Hn & -> & ->)|(l & r & -> & Hr & -> & Hc & He)]; [auto|].
  destruct count as [|[|count]]; [lia| |].
  - right. right. exists l, r. split_and!; [done| |by apply He|done].
    rewrite Nat.add_0_l. by rewrite insert_app_r_alt, Nat.sub_diag by lia.
  - split_and!; [done..|]. right. exists l, r. split; [done|]. destruct (decide (oldDest ∈ l)) as [|Hl]; [done|]. apply He in Hl. lia.
Qed.

(** ** Running in the background *)

Abbreviation env := (gmap bytes bytes).
Definition kBackground : bytes := lit "TRZSZ-SSH-BACKGROUND".
Definition kMonitor : bytes := lit "TRZSZ-SSH-BG-MONITOR".
Definition is_true (e : env) (key : bytes) : bool := bool_decide (e !! key = Some (lit "TRUE")).

Definition Second : Z := 1000000000.
(** The loop of the monitor: what each process it starts does ([None] cannot be started, [Some]
    runs so long), and how long it sleeps after each; [None] when it ends with an error. *)
Fixpoint monitor_loop (sleepTime : Z) (runs : list (option Z)) : list Z * bool :=
  match runs with
  | [] => ([], false)
  | None :: _ => ([], true)
  | Some d :: runs' =>
      if d <? 10 * Second then
        let sleepTime := if sleepTime <? 10 * Second then sleepTime + Second else sleepTime in
        let '(sleeps, failed) := monitor_loop sleepTime runs' in (sleepTime :: sleeps, failed)
      else monitor_loop 0 runs'
  end.

Record child := mkChild { ch_args : list bytes; ch_env : env }.
Inductive bg := BgContinue | BgError | BgParent (c : child) | BgMonitor (c : child) (sleeps : list Z) (failed : bool).
(** [background]; [reconnect] and [oldDest] are of the parsed arguments. *)
Definition background (e : env) (osArgs : list bytes) (reconnect : bool) (oldDest dest : bytes) (runs : list (option Z)) : bg :=
  if is_true e kBackground then BgContinue
  else
    let monitor := is_true e kMonitor in
    let e' := if reconnect && negb monitor then <[kMonitor := lit "TRUE"]> e else <[kBackground := lit "TRUE"]> e in
    match replaceOrAppendDest osArgs oldDest dest with
    | None => BgError
    | Some newArgs =>
        let c := mkChild newArgs e' in
        if negb monitor then match runs with None :: _ => BgError | _ => BgParent c end
        else let '(sleeps, failed) := monitor_loop 0 runs in BgMonitor c sleeps failed
    end.

(** How many generations a process can still start in the background. *)
Definition generations (e : env) : nat := if is_true e kBackground then 0 else if is_true e kMonitor then 1 else 2.
Definition bg_child (b : bg) : option child :=
  match b with BgParent c | BgMonitor c _ _ => Some c | _ => None end.

(** Whatever its arguments, a process started in the background is nearer to the one that does
    the work: there are at most a monitor and a worker, and the worker starts nobody. *)
Theorem background_generations e osArgs reconnect oldDest dest runs c :
  bg_child (background e osArgs reconnect oldDest dest runs) = Some c -> (generations (ch_env c) < generations e)%nat.
Proof.
  unfold background, generations. destruct (is_true e kBackground) eqn:Hb; [done|].
  destruct (replaceOrAppendDest osArgs oldDest dest) as [newArgs|]; [|done].
  assert (HB : is_true (<[kBackground := lit "TRUE"]> e) kBackground = true)
    by (unfold is_true; rewrite lookup_insert_eq; by rewrite bool_decide_eq_true_2).
  assert (HM : is_true (<[kMonitor := lit "TRUE"]> e) kMonitor = true)
    by (unfold is_true; rewrite lookup_insert_eq; by rewrite bool_decide_eq_true_2).
  assert (HK : is_true (<[kMonitor := lit "TRUE"]> e) kBackground = false)
    by (unfold is_true in *; rewrite lookup_insert_ne by done; done).
  destruct (is_true e kMonitor); cbn [negb].
  - destruct (monitor_loop 0 runs) as [sl f]. cbn [bg_child]. intros [= <-]. rewrite andb_false_r. cbn [ch_env]. rewrite HB. lia.
  - destruct runs as [|[d|] runs]; cbn [bg_child]; [|..|done]; intros [= <-]; destruct reconnect; cbn [andb ch_env]; rewrite ?HB, ?HK, ?HM; lia.
Qed.

(** The monitor waits between one and ten seconds after a process that ended quickly. *)
Lemma monitor_sleeps runs : forall sleep, 0 <= sleep <= 10 * Second -> sleep mod Second = 0 ->
  Forall (fun z => Second <= z <= 10 * Second) (monitor_loop sleep runs).1.
Proof.
  induction runs as [|[d|] runs IH]; intros sleep Hs Hm; cbn [monitor_loop]; try constructor.
  destruct (d <? 10 * Second).
  - destruct (Z.ltb_spec sleep (10 * Second)) as [Hl|Hl].
    + assert (Hz : sleep + Second <= 10 * Second) by (unfold Second in *; zlia).
      specialize (IH (sleep + Second)). destruct (monitor_loop (sleep + Second) runs) as [sl f]. cbn [fst] in *.
      constructor; [unfold Second in *; lia|]. apply IH; [unfold Second in *; lia|unfold Second in *; zlia].
    + specialize (IH sleep). destruct (monitor_loop sleep runs) as [sl f]. cbn [fst] in *.
      constructor; [unfold Second in *; lia|]. by apply IH.
  - apply IH; unfold Second; [lia|done].
Qed.

(** ** Starting again *)

(** [waitForEnter]: [raw] whether the terminal could be made raw, [input] the bytes read until
    the end of input. *)
Fixpoint enter_loop (input : bytes) : bool :=
  match input with
  | [] => false
  | b :: input' => if (b =? 13) || (b =? 10) then true else if b =? 3 then false else enter_loop input'
  end.
Definition waitForEnter (raw : bool) (input : bytes) : bool := if raw then enter_loop input else true.

(** What a child of [runWithReconnect] does: it cannot be started, or it ends and the user
    answers. *)
Inductive run := NoStart | Ended (code : Z) (raw : bool) (input : bytes).
Inductive reconnect_result := ReconnectError | ReconnectDone | ReconnectRunning.
(** How many children were started, and how the loop ended. *)
Fixpoint reconnect_loop (runs : list run) (started : nat) : nat * reconnect_result :=
  match runs with
  | [] => (started, ReconnectRunning)
  | NoStart :: _ => (started, ReconnectError)
  | Ended _ raw input :: runs' =>
      if waitForEnter raw input then reconnect_loop runs' (S started) else (S started, ReconnectDone)
  end.
Definition reconnect_args (osArgs : list bytes) : list bytes := List.filter (fun a => negb (bool_decide (a = lit "--reconnect"))) osArgs.
Definition runWithReconnect (osArgs : list bytes) (oldDest dest : bytes) (runs : list run) : option (list bytes) * nat * reconnect_result :=
  match replaceOrAppendDest (reconnect_args osArgs) oldDest dest with
  | None => (None, O, ReconnectError)
  | Some newArgs => let '(n, r) := reconnect_loop runs 0 in (Some newArgs, n, r)
  end.

(** A child does not get the flag that would make it start children of its own. *)
Lemma reconnect_child_plain osArgs oldDest dest runs newArgs n r :
  dest <> lit "--reconnect" -> runWithReconnect osArgs oldDest dest runs = (Some newArgs, n, r) ->
  lit "--reconnect" ∉ newArgs.
Proof.
  intros Hd. unfold runWithReconnect. pose proof (replaceOrAppendDest_spec (reconnect_args osArgs) oldDest dest) as Hs.
  assert (Hn : lit "--reconnect" ∉ reconnect_args osArgs).
  { unfold reconnect_args. rewrite list_elem_of_In, filter_In. intros [_ H]. by rewrite bool_decide_eq_true_2 in H. }
  destruct (replaceOrAppendDest _ _ _) as [args'|]; [|done]. destruct (reconnect_loop runs 0). intros [= <- <- <-].
  destruct Hs as [(_ & ->)|[(_ & ->)|(l & rr & E & -> & _)]].
  - rewrite elem_of_app, list_elem_of_singleton. intros [?|?]; congruence.
  - done.
  - rewrite E in Hn. rewrite !elem_of_app, !elem_of_cons in *. intros [?|[?|?]]; [tauto|congruence|tauto].
Qed.

(** ** The main function *)

Record mainArgs := {
  ma_Destination : bytes; ma_VerDetailed : bool; ma_Background : bool; ma_Reconnect : bool; ma_Dns : bytes }.
Inductive parsed := ParseNoParser | ParseHelp | ParseVersion | ParseError | Parsed (a : mainArgs).
(** What [chooseAlias] and [predictDestination] return: a destination, whether the user quit,
    and whether there is an error. *)
Record chosen := { co_dest : bytes; co_quit : bool; co_err : bool }.

Inductive main_event :=
| WroteHelp | WroteUsage | WroteVersion | WroteNoDest | WroteError | RanCleanupOnExit
| StartedBackground (b : bg) | RanReconnect (args : option (list bytes)) (started : nat) | SetDNS (server : bytes) | Started (dest : bytes).

(** Everything outside: the parser, the configuration, the terminal, the local tools, the
    choice of a host and the processes. *)
Record world := {
  w_parse : list bytes -> parsed; w_config_ok : bool; w_isTerminal : bool; w_vt_ok : bool; w_tools : mainArgs -> option Z;
  w_choose : chosen; w_predict : bytes -> chosen; w_env : env; w_osArgs : list bytes; w_bg_runs : list (option Z);
  w_reconnects : list run; w_sshStart : bytes -> Z * bool }.

(** The deferred calls: the error is printed, then the exit functions run. *)
Definition main_deferred (err : bool) : list main_event := (if err then [WroteError] else []) ++ [RanCleanupOnExit].

(** From the choice of the host on: connecting here, or in a child that can be restarted. *)
Definition main_connect (w : world) (a : mainArgs) (dest : bytes) : option Z * list main_event :=
  if ma_Reconnect a && w_isTerminal w then
    let '(args, n, r) := runWithReconnect (w_osArgs w) (ma_Destination a) dest (w_reconnects w) in
    match r with
    | ReconnectRunning => (None, [RanReconnect args n])
    | ReconnectError => (Some kExitCodeReconnect, [RanReconnect args n] ++ main_deferred true)
    | ReconnectDone => (Some 0, [RanReconnect args n] ++ main_deferred false)
    end
  else
    let evs := (if bool_decide (ma_Dns a = []) then [] else [SetDNS (ma_Dns a)]) ++ [Started dest] in
    let '(code, err) := w_sshStart w dest in (Some code, evs ++ main_deferred err).
Definition main_start (w : world) (a : mainArgs) (dest : bytes) : option Z * list main_event :=
  if ma_Background a then
    let b := background (w_env w) (w_osArgs w) (ma_Reconnect a) (ma_Destination a) dest (w_bg_runs w) in
    match b with
    | BgContinue => main_connect w a dest
    | BgError | BgMonitor _ _ true => (Some kExitCodeBackground, [StartedBackground b] ++ main_deferred true)
    | BgParent _ => (Some 0, [StartedBackground b] ++ main_deferred false)
    | BgMonitor _ _ false => (None, [StartedBackground b])
    end
  else main_connect w a dest.

Definition TsshMain (w : world) (argv : list bytes) : option Z * list main_event :=
  match w_parse w argv with
  | ParseNoParser => (Some kExitCodeArgsInvalid, [WroteError])
  | ParseHelp => (Some 0, [WroteHelp])
  | ParseVersion => (Some 0, [WroteVersion])
  | ParseError => (Some kExitCodeArgsInvalid, [WroteUsage; WroteError])
  | Parsed a =>
      if ma_VerDetailed a then (Some 0, [WroteVersion])
      else if negb (w_config_ok w) then (Some kExitCodeUserConfig, main_deferred true)
      else if w_isTerminal w && negb (w_vt_ok w) then (Some kExitCodeSetupWinVT, main_deferred true)
      else match w_tools w a with
           | Some code => (Some code, main_deferred false)
           | None =>
               let asks := bool_decide (ma_Destination a = []) || bool_decide (ma_Destination a = lit "FAKE_DEST_IN_WARP") in
               if asks && negb (w_isTerminal w) then (Some kExitCodeNoDestHost, [WroteNoDest] ++ main_deferred false)
               else
                 let c := if asks then w_choose w else w_predict w (ma_Destination a) in
                 if co_quit c then (Some 0, main_deferred false)
                 else if co_err c || bool_decide (co_dest c = []) then (Some kExitCodeNoDestHost, main_deferred true)
                 else main_start w a (co_dest c)
           end
  end.

(** What a process did in the end. *)
Definition is_error (e : main_event) : bool := match e with WroteError | WroteNoDest => true | _ => false end.
Definition starts (e : main_event) : bool := match e with Started _ | RanReconnect _ _ | StartedBackground _ => true | _ => false end.
Definition number {A} (f : A -> bool) (l : list A) : nat := length (List.filter f l).
Definition own_codes : list Z :=
  [kExitCodeArgsInvalid; kExitCodeUserConfig; kExitCodeSetupWinVT; kExitCodeNoDestHost; kExitCodeBackground; kExitCodeReconnect].

(** A run that ended well formed: [pre], then the deferred calls. *)
Record ended (w : world) (code : Z) (evs : list main_event) : Prop := {
  en_starts : (number starts evs <= 1)%nat;
  en_errors : (number is_error evs <= 1)%nat;
  en_cleanup : exists pre, evs = pre ++ [RanCleanupOnExit] /\ RanCleanupOnExit ∉ pre;
  en_code : code ∈ own_codes -> number is_error evs = 1%nat \/ (exists a, w_tools w a = Some code) \/
              exists d, Started d ∈ evs /\ (w_sshStart w d).1 = code
}.
Ltac list_mem := rewrite ?elem_of_cons, ?elem_of_nil; naive_solver.

Lemma main_connect_ended w a dest code evs : main_connect w a dest = (Some code, evs) -> ended w code evs.
Proof.
  unfold main_connect. destruct (ma_Reconnect a && w_isTerminal w).
  - destruct (runWithReconnect _ _ _ _) as [[args n] []]; intros [= <- <-].
    + split; [cbn; lia..|exists [RanReconnect args n; WroteError]; split; [done|list_mem]|by left].
    + split; [cbn; lia..|exists [RanReconnect args n]; split; [done|list_mem]|].
      intros H. exfalso. revert H. apply (bool_decide_unpack _). vm_compute. exact I.
  - cbv zeta. destruct (w_sshStart w dest) as [c err] eqn:Hw. intros [= <- <-].
    assert (Hd : exists d, Started d ∈ ((if bool_decide (ma_Dns a = []) then [] else [SetDNS (ma_Dns a)]) ++ [Started dest]) ++ main_deferred err /\
                   (w_sshStart w d).1 = c).
    { exists dest. rewrite Hw. split; [|done]. rewrite !elem_of_app. left. right. list_mem. }
    destruct (bool_decide (ma_Dns a = [])); destruct err; (split; [cbn; lia..| |intros _; by right; right]); cbn [app main_deferred].
    + exists [Started dest; WroteError]. split; [done|list_mem].
    + exists [Started dest]. split; [done|list_mem].
    + exists [SetDNS (ma_Dns a); Started dest; WroteError]. split; [done|list_mem].
    + exists [SetDNS (ma_Dns a); Started dest]. split; [done|list_mem].
Qed.

Lemma zero_not_own : 0 ∉ own_codes.
Proof. apply (bool_decide_unpack _). vm_compute. exact I. Qed.

Lemma main_start_ended w a dest code evs : main_start w a dest = (Some code, evs) -> ended w code evs.
Proof.
  unfold main_start. destruct (ma_Background a); [|apply main_connect_ended]. cbv zeta.
  destruct (background _ _ _ _ _ _) as [| |c|c sl []]; [apply main_connect_ended|..]; intros [= <- <-].
  - split; [cbn; lia..|exists [StartedBackground BgError; WroteError]; split; [done|list_mem]|by left].
  - split; [cbn; lia..|exists [StartedBackground (BgParent c)]; split; [done|list_mem]|intros H; by destruct zero_not_own].
  - split; [cbn; lia..|exists [StartedBackground (BgMonitor c sl true); WroteError]; split; [done|list_mem]|by left].
Qed.

Lemma failed_ended w code : ended w code (main_deferred true).
Proof. split; [cbn; lia..|exists [WroteError]; split; [done|list_mem]|by left]. Qed.

(** Every way out of the main function: a process does at most one of connecting, starting
    others in the background and supervising a child; once its arguments are read, the exit
    functions run last and once, after the one error message if there is one; and a code of its
    own for a failure comes with a message, unless a local tool or the session ended with it. *)
Theorem main_outcome w argv a code evs :
  w_parse w argv = Parsed a -> ma_VerDetailed a = false -> TsshMain w argv = (Some code, evs) -> ended w code evs.
Proof.
  intros Hp Hv. unfold TsshMain. rewrite Hp, Hv. cbv zeta.
  destruct (negb (w_config_ok w)); [intros [= <- <-]; apply failed_ended|].
  destruct (w_isTerminal w && negb (w_vt_ok w)); [intros [= <- <-]; apply failed_ended|].
  destruct (w_tools w a) as [c|] eqn:Ht.
  { intros [= <- <-]. split; [cbn; lia..|exists []; split; [done|list_mem]|eauto]. }
  set (asks := bool_decide (ma_Destination a = []) || _). clearbody asks.
  destruct (asks && negb (w_isTerminal w)).
  { intros [= <- <-]. split; [cbn; lia..|exists [WroteNoDest]; split; [done|list_mem]|by left]. }
  set (c := if asks then w_choose w else _). clearbody c. destruct (co_quit c).
  { intros [= <- <-]. split; [cbn; lia..|exists []; split; [done|list_mem]|intros H; by destruct zero_not_own]. }
  destruct (co_err c || _); [intros [= <- <-]; apply failed_ended|apply main_start_ended].
Qed.

(** ** A session from login to exit *)

Inductive act :=
| LocalCommand | HandleSignals | StdioForward | SubsystemForward | PortForward | WaitClient
| NewSession | Pipes | SendEnv | RequestPty | AgentForward | X11Forward | SetTitle | RemoteTools | Waypipe
| AttachSession | StartCommand | StartShell | ExpectInteractions | MakeRaw | TrzszFilter | UdpNotification | ForwardStdio
| WaitExit | ResetStdin | CleanupOnClose | CloseConn.
#[export] Instance act_eq_dec : EqDecision act.
Proof. solve_decision. Defined.

Definition is_act (x z : act) : bool := if decide (z = x) then true else false.
Definition mem (x : act) (acts : list act) : bool := existsb (is_act x) acts.

Inductive attach_outcome := AttachOk | AttachNotPty | AttachFailed.
(** What the arguments and settings ask for, and how each step that can fail turns out. *)
Record session_world := {
  sw_connect : bool; sw_control : bool; sw_stdio : bool; sw_stdio_ok : bool; sw_subsystem : bool; sw_subsystem_ok : bool;
  sw_noCommand : bool; sw_newSession : bool; sw_pipes : bool; sw_env : bool; sw_size : bool; sw_pty : bool;
  sw_title : bytes (* setTerminalTitle in lower case *); sw_tools : option Z; sw_attach : option attach_outcome; sw_cmd : bytes; sw_cmd_ok : bool; sw_shell_ok : bool;
  sw_isTerminal : bool; sw_tty : bool; sw_raw_ok : bool; sw_trzsz_ok : bool; sw_background : bool; sw_exit : Z }.

Definition openSession (w : session_world) : bool * list act :=
  if negb (sw_newSession w) then (false, [])
  else if negb (sw_pipes w) then (false, [NewSession])
  else if negb (sw_env w) then (false, [NewSession; Pipes])
  else if negb (sw_isTerminal w) || negb (sw_tty w) then (true, [NewSession; Pipes; SendEnv])
  else if negb (sw_size w) || negb (sw_pty w) then (false, [NewSession; Pipes; SendEnv])
  else (true, [NewSession; Pipes; SendEnv; RequestPty]).

(** The code, whether there is an error, what was done before the deferred calls, and the
    value of [wantExit]. *)
Record outcome := mkOutcome { oc_code : Z; oc_err : bool; oc_acts : list act; oc_wantExit : option bool }.

Definition title_wanted (w : session_world) : bool :=
  bool_decide (sw_title w = lit "yes") || bool_decide (sw_title w = lit "true").
(** Attaching, running the command or starting a shell: [None] when it succeeds. *)
Definition start_remote (w : session_world) : option (Z * option bool) * list act :=
  match sw_attach w with
  | Some AttachOk => (None, [AttachSession])
  | Some r => (Some (kExitCodeAttachFail, Some (negb (sw_tty w && match r with AttachNotPty => true | _ => false end))), [])
  | None =>
      if negb (bool_decide (sw_cmd w = [])) then
        if sw_cmd_ok w then (None, [StartCommand]) else (Some (kExitCodeStartFailed, None), [])
      else if sw_shell_ok w then (None, [StartShell]) else (Some (kExitCodeShellFailed, None), [])
  end.

(** The body of [sshStart] once it is connected. *)
Definition session_body (w : session_world) : outcome :=
  let acts := [LocalCommand; HandleSignals] in
  if sw_stdio w then
    if sw_stdio_ok w then mkOutcome 0 false (acts ++ [StdioForward]) None else mkOutcome kExitCodeIoFwFailed true (acts ++ [StdioForward]) None
  else if sw_subsystem w then
    if sw_subsystem_ok w then mkOutcome 0 false (acts ++ [SubsystemForward]) None
    else mkOutcome kExitCodeSubFwFailed true (acts ++ [SubsystemForward]) None
  else
    let acts := acts ++ (if sw_control w then [] else [PortForward]) in
    if sw_noCommand w then mkOutcome 0 false (acts ++ [WaitClient]) None
    else
      let '(opened, oacts) := openSession w in
      let acts := acts ++ oacts in
      if negb opened then mkOutcome kExitCodeOpenSession true acts None
      else
        let acts := acts ++ (if sw_control w then [] else [AgentForward]) ++ [X11Forward] ++ (if title_wanted w then [SetTitle] else []) ++ [RemoteTools] in
        match sw_tools w with
        | Some code => mkOutcome code false acts None
        | None =>
            let acts := acts ++ [Waypipe] in
            match start_remote w with
            | (Some (code, want), racts) => mkOutcome code true (acts ++ racts) want
            | (None, racts) =>
                let acts := acts ++ racts ++ [ExpectInteractions] in
                let raw := sw_isTerminal w && sw_tty w in
                if raw && negb (sw_raw_ok w) then mkOutcome kExitCodeStdinFailed true acts None
                else
                  let acts := acts ++ (if raw then [MakeRaw] else []) in
                  if negb (sw_trzsz_ok w) then mkOutcome kExitCodeTrzszFailed true acts None
                  else
                    mkOutcome (sw_exit w) false
                      (acts ++ [TrzszFilter; UdpNotification; ForwardStdio; WaitExit] ++ (if sw_background w then [WaitClient] else [])) None
            end
        end.
(** [sshStart]: the deferred calls run in the reverse order of their registration. *)
Definition sshStart (w : session_world) : outcome :=
  if negb (sw_connect w) then mkOutcome kExitCodeLoginFailed true [] None
  else
    let r := session_body w in
    mkOutcome (oc_code r) (oc_err r)
      (oc_acts r ++ (if mem MakeRaw (oc_acts r) then [ResetStdin] else []) ++ [CleanupOnClose; CloseConn]) (oc_wantExit r).

(** Positions: every [x] that happens is after some [y]. *)
Fixpoint after (y x : act) (acts : list act) : bool :=
  match acts with
  | [] => true
  | z :: acts' => if is_act y z then true else if is_act x z then false else after y x acts'
  end.
Definition once (x : act) (acts : list act) : bool := (length (List.filter (is_act x) acts) =? 1)%nat.
Definition started (acts : list act) : nat :=
  length (List.filter (fun z => is_act AttachSession z || is_act StartCommand z || is_act StartShell z) acts).

(** What must hold of the actions of a connected session. *)
Definition well_ordered (w : session_world) (o : outcome) : bool :=
  let acts := oc_acts o in
  once CloseConn acts && bool_decide (last acts = Some CloseConn) && once CleanupOnClose acts && after CleanupOnClose CloseConn acts &&
  Bool.eqb (mem MakeRaw acts) (mem ResetStdin acts) && after MakeRaw ResetStdin acts && after ResetStdin CleanupOnClose (ResetStdin :: acts) &&
  (started acts <=? 1)%nat && (negb (mem ExpectInteractions acts) || (started acts =? 1)%nat) &&
  after ExpectInteractions ForwardStdio acts && after TrzszFilter ForwardStdio acts &&
  after NewSession SendEnv acts && after SendEnv RequestPty acts && after NewSession AgentForward acts && after NewSession X11Forward acts &&
  (negb (mem ExpectInteractions acts && sw_isTerminal w && sw_tty w) || mem RequestPty acts) &&
  negb ((mem PortForward acts || mem AgentForward acts) && sw_control w) &&
  (negb (mem RequestPty acts) || (sw_isTerminal w && sw_tty w)) &&
  (oc_err o || negb (mem ExpectInteractions acts) || mem WaitExit acts) &&
  negb (oc_err o && (oc_code o =? 0)).

Ltac session_leaf :=
  split; [vm_compute; reflexivity|]; intros H; first [reflexivity | vm_compute in H; discriminate H].

Lemma start_remote_cases w :
  start_remote w = (None, [AttachSession]) \/ start_remote w = (None, [StartCommand]) \/ start_remote w = (None, [StartShell]) \/
  exists want, start_remote w = (Some (kExitCodeAttachFail, want), []) \/ start_remote w = (Some (kExitCodeStartFailed, want), []) \/
               start_remote w = (Some (kExitCodeShellFailed, want), []).
Proof.
  unfold start_remote. destruct (sw_attach w) as [[]|]; [eauto|eauto 8|eauto 8|].
  destruct (negb _); [destruct (sw_cmd_ok w); eauto 10|destruct (sw_shell_ok w); eauto 10].
Qed.

(** However its steps turn out, a connected session is closed last and once, after the close
    functions; a terminal made raw is reset before; at most one of attaching, a command and a
    shell happens, only then are questions answered, and only afterwards is standard input
    forwarded; a terminal is requested exactly for a session that uses one; a connection
    shared with another process forwards neither ports nor the agent; the code is the
    session's unless a step failed, and then it is not zero. *)
Theorem session_well_ordered w :
  sw_connect w = true ->
  well_ordered w (sshStart w) = true /\ (mem WaitExit (oc_acts (sshStart w)) = true -> oc_code (sshStart w) = sw_exit w).
Proof.
  intros Hc. unfold sshStart. rewrite Hc. cbn [negb].
  pose proof (start_remote_cases w) as Hs. unfold session_body, openSession. cbv zeta.
  set (sr := start_remote w) in *. clearbody sr. destruct (title_wanted w).
  all: destruct w as [? control stdio stdio_ok sub sub_ok nocmd news pipes env size pty title tools att cmd cmd_ok shell_ok tm tty raw trz bgd ex];
    cbn -[after once mem started well_ordered] in *.
  all: destruct stdio; [destruct stdio_ok; session_leaf|].
  all: destruct sub; [destruct sub_ok; session_leaf|].
  all: destruct control; (destruct nocmd; [session_leaf|]).
  all: destruct news; [|session_leaf]; destruct pipes; [|session_leaf]; destruct env; [|session_leaf].
  all: destruct tm; [destruct tty; [destruct size; [|session_leaf]; destruct pty; [|session_leaf]|]|].
  all: destruct tools as [code|]; [session_leaf|].
  all: destruct Hs as [Hs|[Hs|[Hs|(want & [Hs|[Hs|Hs] ] )] ] ]; subst sr; [ | | |session_leaf..].
  all: destruct raw, trz, bgd; session_leaf.
Qed.

(** ** The end of a connection *)

(** [sshConnection.Close], [forceExit] and [waitUntilExit], which signals, the keep-alive, the
    console and the end of the session call at any time. *)
Inductive part := ServerIn | Session | Client.
Definition some_part (b : bool) (p : part) : list part := if b then [p] else [].
(** Which parts the connection has, and what happened: a forced exit is waiting to be
    delivered ([x_pending]), was delivered, the session ended, the caller returned. *)
Record exit_state := mkExit {
  x_parts : list part; x_closed : bool; x_closes : list part; x_exited : bool; x_pending : option Z; x_exitChan : option Z;
  x_done : option Z; x_returned : option Z; x_wantExit : bool; x_detached : bool; x_forced : list Z }.
Definition new_conn_state (hasIn hasSession hasClient : bool) : exit_state :=
  mkExit (some_part hasIn ServerIn ++ some_part hasSession Session ++ some_part hasClient Client) false [] false None None None None false false [].

Definition conn_Close (s : exit_state) : exit_state :=
  if x_closed s then s
  else mkExit (x_parts s) true (x_closes s ++ x_parts s) (x_exited s) (x_pending s) (x_exitChan s) (x_done s) (x_returned s)
         (x_wantExit s) (x_detached s) (x_forced s).
(** [attachMode]: the client is attached to a server that outlives it, and is detached first
    unless the session was to end. *)
Definition forceExit (attachMode : bool) (s : exit_state) (code : Z) : exit_state :=
  if x_exited s then s
  else conn_Close (mkExit (x_parts s) (x_closed s) (x_closes s) true (Some code) (x_exitChan s) (x_done s) (x_returned s)
                     (x_wantExit s) (x_detached s || (attachMode && negb (x_wantExit s))) (x_forced s ++ [code])).

Inductive exit_label :=
| ForceExit (attachMode : bool) (code : Z) | CloseCall
| Deliver                    (* the delayed goroutine of [forceExit] sends the code *)
| SessionEnded (code : Z)    (* [session.Wait] returned *)
| ReturnForced | ReturnDone. (* the select of [waitUntilExit] *)

Definition exit_step (s : exit_state) (l : exit_label) : option exit_state :=
  match l with
  | ForceExit attachMode code => Some (forceExit attachMode s code)
  | CloseCall => Some (conn_Close s)
  | Deliver =>
      match x_pending s, x_exitChan s with
      | Some code, None =>
          Some (mkExit (x_parts s) (x_closed s) (x_closes s) (x_exited s) None (Some code) (x_done s) (x_returned s) (x_wantExit s) (x_detached s) (x_forced s))
      | _, _ => None
      end
  | SessionEnded code =>
      match x_done s with
      | None => Some (mkExit (x_parts s) (x_closed s) (x_closes s) (x_exited s) (x_pending s) (x_exitChan s) (Some code) (x_returned s)
                        (x_wantExit s) (x_detached s) (x_forced s))
      | Some _ => None
      end
  | ReturnForced =>
      match x_returned s, x_exitChan s with
      | None, Some code =>
          Some (mkExit (x_parts s) (x_closed s) (x_closes s) (x_exited s) (x_pending s) None (x_done s) (Some code) (x_wantExit s) (x_detached s) (x_forced s))
      | _, _ => None
      end
  | ReturnDone =>
      match x_returned s, x_done s with
      | None, Some code =>
          Some (mkExit (x_parts s) (x_closed s) (x_closes s) (x_exited s) (x_pending s) (x_exitChan s) (x_done s) (Some code) true (x_detached s) (x_forced s))
      | _, _ => None
      end
  end.
Fixpoint exit_run (s : exit_state) (ls : list exit_label) : option exit_state :=
  match ls with [] => Some s | l :: ls' => match exit_step s l with Some s' => exit_run s' ls' | None => None end end.

Record exit_inv (parts : list part) (s : exit_state) : Prop := {
  xi_parts : x_parts s = parts;
  xi_closes : x_closes s = if x_closed s then x_parts s else [];
  xi_exited : (x_exited s = true /\ exists code, x_forced s = [code]) \/
              (x_exited s = false /\ x_forced s = [] /\ x_pending s = None /\ x_exitChan s = None);
  xi_close : x_exited s = true -> x_closed s = true;
  xi_pending : forall code, x_pending s = Some code -> x_forced s = [code] /\ x_exitChan s = None;
  xi_chan : forall code, x_exitChan s = Some code -> x_forced s = [code];
  xi_returned : forall code, x_returned s = Some code -> x_forced s = [code] \/ x_done s = Some code
}.

Lemma conn_Close_inv parts s :
  exit_inv parts s -> exit_inv parts (conn_Close s) /\ x_closed (conn_Close s) = true.
Proof.
  intros [H0 H1 H2 H3 H4 H5 H6]. unfold conn_Close. destruct (x_closed s) eqn:Hc; [split; [split; rewrite ?Hc|]; done|].
  split; [|done]. split; cbn; try done. by rewrite H1.
Qed.

Lemma exit_step_inv parts s l s' : exit_inv parts s -> exit_step s l = Some s' -> exit_inv parts s'.
Proof.
  intros Hi. pose proof Hi as [H0 H1 H2 H3 H4 H5 H6]. destruct l as [attachMode code| | |code| |]; cbn [exit_step].
  - intros [= <-]. unfold forceExit. destruct (x_exited s) eqn:He; [done|].
    destruct H2 as [[? _]|(_ & Hf & Hp & Hc)]; [done|].
    unfold conn_Close. cbn [x_closed]. destruct (x_closed s) eqn:Hcl; (split; cbn; rewrite ?Hf, ?Hc, ?Hcl in *).
    all: try done; try (by rewrite H1); try (by left; eauto); try (by intros code' [= <-]).
    all: intros code' Hr; destruct (H6 code' Hr); auto; done.
  - intros [= <-]. by apply conn_Close_inv.
  - destruct (x_pending s) as [c|] eqn:Hp; [|done]. destruct (x_exitChan s) eqn:Hc; [done|]. intros [= <-].
    destruct (H4 c eq_refl) as [Hf _]. split; cbn; try done.
    + destruct H2 as [H2|(_ & _ & ? & _)]; [auto|done].
    + by intros code [= <-].
  - destruct (x_done s) eqn:Hd; [done|]. intros [= <-]. split; cbn; try done.
    intros code' Hr. destruct (H6 code' Hr); [auto|done].
  - destruct (x_returned s) eqn:Hr; [done|]. destruct (x_exitChan s) as [c|] eqn:Hc; [|done]. intros [= <-].
    pose proof (H5 c eq_refl) as Hf. split; cbn; try done.
    + destruct H2 as [H2|(_ & _ & _ & ?)]; [auto|done].
    + intros code Hp. destruct (H4 code Hp). done.
    + intros code [= <-]. auto.
  - destruct (x_returned s) eqn:Hr; [done|]. destruct (x_done s) as [c|] eqn:Hd; [|done]. intros [= <-]. split; cbn; try done.
    intros code [= <-]. auto.
Qed.

Lemma exit_run_inv parts ls : forall s s', exit_inv parts s -> exit_run s ls = Some s' -> exit_inv parts s'.
Proof.
  induction ls as [|l ls IH]; intros s s' Hs; cbn [exit_run]; [by intros [= <-]|].
  destruct (exit_step s l) as [s1|] eqn:E; [|done]. apply IH. by apply (exit_step_inv parts s l).
Qed.

(** However the calls interleave: input, session and client are closed once and in that order,
    and a forced exit has closed them when it returns; only the first forced exit counts, its
    message never waits for room in the channel; and the client exits with its code or with
    the session's own. *)
Theorem one_exit hasIn hasSession hasClient ls s :
  exit_run (new_conn_state hasIn hasSession hasClient) ls = Some s ->
  let parts := some_part hasIn ServerIn ++ some_part hasSession Session ++ some_part hasClient Client in
  (x_closes s = [] \/ x_closes s = parts) /\ (x_exited s = true -> x_closes s = parts) /\ (length (x_forced s) <= 1)%nat /\
  (x_pending s <> None -> is_Some (exit_step s Deliver)) /\
  (forall code, x_returned s = Some code -> x_forced s = [code] \/ x_done s = Some code).
Proof.
  intros Hr parts. assert (Hi : exit_inv parts s).
  { apply (exit_run_inv parts ls _ _) with (2 := Hr). split; cbn; try done. auto. }
  clearbody parts. destruct Hi as [H0 H1 H2 H3 H4 H5 H6]. rewrite H0 in H1. split_and!.
  - rewrite H1. destruct (x_closed s); auto.
  - intros He. by rewrite H1, (H3 He).
  - destruct H2 as [[_ [code ->]]|(_ & -> & _)]; cbn; lia.
  - intros Hp. cbn [exit_step]. destruct (x_pending s) as [c|]; [|done]. destruct (H4 c eq_refl) as [_ ->]. eauto.
  - done.
Qed.

(** A signal during the keep-alive's forced exit changes nothing. *)
Example two_forced_exits :
  match exit_run (new_conn_state true true true) [ForceExit false 205; ForceExit false 206; SessionEnded 0; Deliver; ReturnForced; CloseCall] with
  | Some s => x_returned s = Some 205 /\ x_closes s = [ServerIn; Session; Client]
  | None => False
  end.
Proof. vm_compute. done. Qed.
